(** * MiroFish report pipeline: a shallow embedding and its verification

    The development embeds three services of the backend,
    [report_agent.py], [zep_tools.py] and [zep_graph_memory_updater.py],
    as executable Rocq functions, and settles the claims of the
    specification against them.

    Python values are modelled as the code has them:
    - a [str] is a list of Unicode code points ([pystr]); literals are written
      as UTF-8 source text and decoded by [py];
    - a decoded JSON document (and any dict the code passes around) is a
      [json] value, a dict being an association list in insertion order;
    - an exception is a value of [Exception]; code that may raise lives in
      the state-and-error monad [M];
    - the report folder on disk is a finite map from file names to contents;
      a text file holds what was written and is read with universal
      newlines;
    - a [float] is an IEEE 754 binary64 number, with the correctly rounded
      arithmetic of [SpecFloat].

    What belongs to the Python runtime and not to the repository (the Unicode
    character database behind [str.lower] and the regular expression class
    [\w], [json.loads], [str()] of a non-string value) is gathered in the
    record [Py.Runtime] and is a parameter of the definitions that use it.
    The collaborators of a service (the language model, the graph, the disk,
    the caller's callback) are the fields of its [Env]: each may answer
    anything and may raise.

    Left out of the model: logging, the timestamps of the records, and the
    wording of the prompts, which are parameters. *)

From Stdlib Require Import ZArith NArith String Ascii List Lia Bool Arith.
From Stdlib Require Import SpecFloat.
From Stdlib Require DecimalNat DecimalFacts.
From stdpp Require Import base option list gmap sorting.
Import ListNotations.

Set Default Proof Using "Type".
Set Warnings "-register-all".


(* ================================================================== *)
(** * Part I: Python values and built-ins *)
(* ================================================================== *)

Module Py.

Local Open Scope N_scope.

(** A Python [str]: the sequence of its code points. *)
Definition pystr := list N.

(** UTF-8 decoding of a byte sequence (well-formed input). *)
Fixpoint utf8_decode (bs : list N) : pystr :=
  match bs with
  | [] => []
  | b0 :: r0 =>
    if b0 <? 128 then b0 :: utf8_decode r0
    else if b0 <? 224 then
      match r0 with
      | b1 :: r1 => ((b0 - 192) * 64 + (b1 - 128)) :: utf8_decode r1
      | _ => []
      end
    else if b0 <? 240 then
      match r0 with
      | b1 :: b2 :: r2 =>
        ((b0 - 224) * 4096 + (b1 - 128) * 64 + (b2 - 128)) :: utf8_decode r2
      | _ => []
      end
    else
      match r0 with
      | b1 :: b2 :: b3 :: r3 =>
        ((b0 - 240) * 262144 + (b1 - 128) * 4096 + (b2 - 128) * 64 + (b3 - 128))
          :: utf8_decode r3
      | _ => []
      end
  end.

(** A string literal of the source, as a Python [str]. *)
Definition py (s : string) : pystr :=
  utf8_decode (map N_of_ascii (list_ascii_of_string s)).

(** The double quote character (code point 34). *)
Definition dquote : pystr := [34].
(** The line feed character. *)
Definition nl : pystr := [10].

(** ** Character classes *)

(** [str.isspace] of a one-character string; also the class [\s] of [re]
    on [str] patterns. *)
Definition is_space (c : N) : bool :=
  ((9 <=? c) && (c <=? 13)) || ((28 <=? c) && (c <=? 32))
  || (c =? 133) || (c =? 160) || (c =? 5760)
  || ((8192 <=? c) && (c <=? 8202))
  || (c =? 8232) || (c =? 8233) || (c =? 8239) || (c =? 8287) || (c =? 12288).

Definition ascii_alnum (c : N) : bool :=
  ((48 <=? c) && (c <=? 57)) || ((65 <=? c) && (c <=? 90))
  || ((97 <=? c) && (c <=? 122)).

Inductive json : Type :=
| JNull
| JBool (b : bool)
| JInt (z : Z)
| JFloat (m e : Z)
| JStr (s : pystr)
| JArr (l : list json)
| JObj (kv : list (pystr * json)).

(** The part of the Python runtime the code relies on. *)
Record Runtime : Type := {
  (** [str.isalnum] of a code point above 127 *)
  rt_isalnum : N -> bool;
  (** [str.lower] of a code point above 127 *)
  rt_lower : N -> pystr;
  (** [json.loads]; [None] stands for [json.JSONDecodeError] *)
  rt_json_loads : pystr -> option json;
  (** [str(v)] of a value that is not a [str] *)
  rt_str : json -> pystr;
  (** [int(s)]; [None] stands for [ValueError] *)
  rt_int : pystr -> option Z
}.

(** The class [\w] of [re] on a [str] pattern. *)
Definition is_word (rt : Runtime) (c : N) : bool :=
  if c <? 128 then ascii_alnum c || (c =? 95) else rt_isalnum rt c.

Definition lower_char (rt : Runtime) (c : N) : pystr :=
  if (65 <=? c) && (c <=? 90) then [c + 32]
  else if c <? 128 then [c] else rt_lower rt c.

(** [s.lower()] *)
Definition lower (rt : Runtime) (s : pystr) : pystr :=
  flat_map (lower_char rt) s.

(** ** String operations *)

Fixpoint str_eqb (a b : pystr) : bool :=
  match a, b with
  | [], [] => true
  | x :: a', y :: b' => (x =? y) && str_eqb a' b'
  | _, _ => false
  end.

(** [s.startswith(p)] *)
Fixpoint startswith (p s : pystr) : bool :=
  match p, s with
  | [], _ => true
  | x :: p', y :: s' => (x =? y) && startswith p' s'
  | _ :: _, [] => false
  end.

(** [s.endswith(p)] *)
Definition endswith (p s : pystr) : bool := startswith (rev p) (rev s).

(** [sub in s] *)
Fixpoint contains (sub s : pystr) : bool :=
  startswith sub s
  || match s with
     | [] => false
     | _ :: s' => contains sub s'
     end.

Fixpoint lstrip (s : pystr) : pystr :=
  match s with
  | c :: s' => if is_space c then lstrip s' else s
  | [] => []
  end.

Definition rstrip (s : pystr) : pystr := rev (lstrip (rev s)).

(** [s.strip()] *)
Definition strip (s : pystr) : pystr := rstrip (lstrip s).

(** [s.split()] with no argument: the maximal runs of non-space characters.
    [cur] is the run being read, reversed. *)
Fixpoint split_ws_aux (cur : pystr) (s : pystr) : list pystr :=
  match s with
  | [] => match cur with [] => [] | _ => [rev cur] end
  | c :: s' =>
    if is_space c then
      match cur with
      | [] => split_ws_aux [] s'
      | _ => rev cur :: split_ws_aux [] s'
      end
    else split_ws_aux (c :: cur) s'
  end.

Definition split_ws (s : pystr) : list pystr := split_ws_aux [] s.

(** [s.replace(old, new)] for one-character [old] and [new]. *)
Definition replace_char (old new : N) (s : pystr) : pystr :=
  map (fun c => if c =? old then new else c) s.

(** [s.split(sep)] for a non-empty [sep]: occurrences are found left to
    right and do not overlap. [skip] counts the characters of the separator
    still to be passed over. *)
Fixpoint split_on_aux (sep : pystr) (skip : nat) (cur : pystr) (s : pystr)
  : list pystr :=
  match s with
  | [] => [rev cur]
  | c :: s' =>
    match skip with
    | S n => split_on_aux sep n cur s'
    | O =>
      if startswith sep s
      then rev cur :: split_on_aux sep (length sep - 1) [] s'
      else split_on_aux sep 0 (c :: cur) s'
    end
  end.

Definition split_on (sep s : pystr) : list pystr := split_on_aux sep 0 [] s.

(** [sep.join(parts)] *)
Fixpoint join (sep : pystr) (parts : list pystr) : pystr :=
  match parts with
  | [] => []
  | [p] => p
  | p :: rest => p ++ sep ++ join sep rest
  end.

(** [s.replace(old, new)] for a non-empty [old] *)
Definition replace (old new s : pystr) : pystr := join new (split_on old s).

(** [s[:n]] for [n >= 0] *)
Definition slice_to (n : nat) (s : pystr) : pystr := take n s.

(** What [open(path, 'r').read()] gives of the text of a file. A file opened
    in text mode is read with universal newlines: every CR LF, and every
    other CR, is read as LF. Writing in text mode leaves the text as it is
    where the line separator of the system is LF. *)
Fixpoint universal_newlines (s : pystr) : pystr :=
  match s with
  | [] => []
  | c :: s' =>
    if c =? 13 then
      10 :: match s' with
            | d :: s'' =>
              if d =? 10 then universal_newlines s''
              else universal_newlines s'
            | [] => []
            end
    else c :: universal_newlines s'
  end.

(** Lexicographic comparison of strings by code point, as [<=] on [str]. *)
Fixpoint str_leb (a b : pystr) : bool :=
  match a, b with
  | [], _ => true
  | _ :: _, [] => false
  | x :: a', y :: b' => (x <? y) || ((x =? y) && str_leb a' b')
  end.

(** ** Numbers as text *)

Fixpoint uint_chars (d : Decimal.uint) : pystr :=
  match d with
  | Decimal.Nil => []
  | Decimal.D0 d' => 48 :: uint_chars d'
  | Decimal.D1 d' => 49 :: uint_chars d'
  | Decimal.D2 d' => 50 :: uint_chars d'
  | Decimal.D3 d' => 51 :: uint_chars d'
  | Decimal.D4 d' => 52 :: uint_chars d'
  | Decimal.D5 d' => 53 :: uint_chars d'
  | Decimal.D6 d' => 54 :: uint_chars d'
  | Decimal.D7 d' => 55 :: uint_chars d'
  | Decimal.D8 d' => 56 :: uint_chars d'
  | Decimal.D9 d' => 57 :: uint_chars d'
  end.

(** [str(n)] of a non-negative [int] *)
Definition str_of_nat (n : nat) : pystr := uint_chars (Nat.to_uint n).

(** [f"{n:02d}"] of a non-negative [int] *)
Definition format_02d (n : nat) : pystr :=
  let d := str_of_nat n in
  if (length d <? 2)%nat then 48 :: d else d.

(** [int(s)] of a non-empty string of the digits 0 to 9. *)
Fixpoint int_of_digits (acc : Z) (s : pystr) : option Z :=
  match s with
  | [] => Some acc
  | c :: s' =>
    if (48 <=? c) && (c <=? 57)
    then int_of_digits (10 * acc + Z.of_N (c - 48))%Z s'
    else None
  end.

Definition int_of_decimal (s : pystr) : option Z :=
  match s with
  | [] => None
  | _ => int_of_digits 0%Z s
  end.

(** The runtime restricted to ASCII text: no code point above 127 is
    alphanumeric or has a lower-case form of its own, no JSON document
    parses, [int] reads plain decimal digits only. It agrees with Python on
    every text of ASCII characters that is not handed to [json.loads] or
    [str()], and on every call of [int] on a string of digits. *)
Definition ascii_runtime : Runtime :=
  {| rt_isalnum := fun _ => false;
     rt_lower := fun c => [c];
     rt_json_loads := fun _ => None;
     rt_str := fun _ => [];
     rt_int := int_of_decimal |}.

(** ** Exceptions and dynamic typing *)

Record Exception : Type := mkExc {
  exc_class : pystr;
  (** [str(e)] *)
  exc_text : pystr
}.

Definition type_name (v : json) : pystr :=
  match v with
  | JNull => py "NoneType"
  | JBool _ => py "bool"
  | JInt _ => py "int"
  | JFloat _ _ => py "float"
  | JStr _ => py "str"
  | JArr _ => py "list"
  | JObj _ => py "dict"
  end.

Definition AttributeError (v : json) (attr : pystr) : Exception :=
  mkExc (py "AttributeError")
        (py "'" ++ type_name v ++ py "' object has no attribute '" ++ attr ++ py "'").

Definition TypeError_not_iterable (v : json) : Exception :=
  mkExc (py "TypeError") (py "'" ++ type_name v ++ py "' object is not iterable").

Definition KeyError (k : pystr) : Exception :=
  mkExc (py "KeyError") (py "'" ++ k ++ py "'").

(** [d.get(k)] on a dict *)
Fixpoint dict_get (kv : list (pystr * json)) (k : pystr) : option json :=
  match kv with
  | [] => None
  | (k', v) :: rest => if str_eqb k' k then Some v else dict_get rest k
  end.

(** [d[k] = v] on a dict: an existing key keeps its position. *)
Fixpoint dict_set (kv : list (pystr * json)) (k : pystr) (v : json)
  : list (pystr * json) :=
  match kv with
  | [] => [(k, v)]
  | (k', v') :: rest =>
    if str_eqb k' k then (k', v) :: rest else (k', v') :: dict_set rest k v
  end.

(** [k in d] *)
Definition dict_has (kv : list (pystr * json)) (k : pystr) : bool :=
  match dict_get kv k with Some _ => true | None => false end.

(** [o.get(k, dflt)]: only a dict has the method. *)
Definition py_get (o : json) (k : pystr) (dflt : json) : Exception + json :=
  match o with
  | JObj kv => inr (default dflt (dict_get kv k))
  | _ => inl (AttributeError o (py "get"))
  end.

(** [o[k]] on a value produced by the tool-call parser (always a dict). *)
Definition py_getitem (o : json) (k : pystr) : Exception + json :=
  match o with
  | JObj kv =>
    match dict_get kv k with
    | Some v => inr v
    | None => inl (KeyError k)
    end
  | _ => inl (mkExc (py "TypeError") (py "bad subscript"))
  end.

(** [o.keys()]: only a dict has the method. *)
Definition py_keys (o : json) : Exception + list pystr :=
  match o with
  | JObj kv => inr (map fst kv)
  | _ => inl (AttributeError o (py "keys"))
  end.

(** [o[:n]]: a list and a string have slices; a dict takes the slice for a
    key, which is a [TypeError] up to Python 3.11 (a [KeyError] from 3.12
    on); nothing else has subscripts. *)
Definition py_slice_to (n : nat) (o : json) : Exception + json :=
  match o with
  | JArr l => inr (JArr (take n l))
  | JStr s => inr (JStr (take n s))
  | JObj _ => inl (mkExc (py "TypeError") (py "unhashable type: 'slice'"))
  | _ =>
    inl (mkExc (py "TypeError")
               (py "'" ++ type_name o ++ py "' object is not subscriptable"))
  end.

(** [for x in o]: the elements a [for] loop visits. *)
Definition py_iter (o : json) : Exception + list json :=
  match o with
  | JArr l => inr l
  | JStr s => inr (map (fun c => JStr [c]) s)
  | JObj kv => inr (map (fun p => JStr (fst p)) kv)
  | _ => inl (TypeError_not_iterable o)
  end.

(** [str(v)] and [f"{v}"] *)
Definition py_str (rt : Runtime) (v : json) : pystr :=
  match v with
  | JStr s => s
  | _ => rt_str rt v
  end.

(** [o is not None] *)
Definition is_some {A} (o : option A) : bool :=
  match o with Some _ => true | None => false end.

(** Truth value of a value, as [if v:] and [v or w] take it. *)
Definition truthy (v : json) : bool :=
  match v with
  | JNull => false
  | JBool b => b
  | JInt z => negb (z =? 0)%Z
  | JFloat m _ => negb (m =? 0)%Z
  | JStr s => match s with [] => false | _ => true end
  | JArr l => match l with [] => false | _ => true end
  | JObj kv => match kv with [] => false | _ => true end
  end.

(** Truth value of a string. *)
Definition nonempty (s : pystr) : bool :=
  match s with [] => false | _ => true end.

(** ** Floats

    The percentages of the pipeline are computed in floating point and
    truncated. A [float] is a binary64 number: 53 bits of precision,
    exponents below 1024, every operation rounded to the nearest, ties to
    even. The integers converted here are counts and percentages, far below
    [2^53], so that [float(n)] is exact and [a / b] on two [int]s is the
    rounded quotient of their conversions. *)
Definition pyfloat : Type := spec_float.

(** [float(n)] *)
Definition float_of_int (n : Z) : pyfloat := binary_normalize 53 1024 n 0 false.

(** [x / y] and [x * y] on floats; an [int] operand is converted first.
    Division by zero raises in Python: the divisors of the code are the
    length of the list whose loop is running, and a constant. *)
Definition float_div (x y : pyfloat) : pyfloat := SFdiv 53 1024 x y.
Definition float_mul (x y : pyfloat) : pyfloat := SFmul 53 1024 x y.

(** [a / b] on two [int]s *)
Definition int_truediv (a b : Z) : pyfloat :=
  float_div (float_of_int a) (float_of_int b).

(** The literal [0.7]: the float nearest to 7/10. *)
Definition float_0_7 : pyfloat := int_truediv 7 10.

(** [int(x)]: truncation towards zero. *)
Definition int_of_float (x : pyfloat) : Z :=
  match x with
  | S754_finite s m e =>
    let v := match e with
             | Zneg k => Z.shiftr (Zpos m) (Zpos k)
             | _ => Z.shiftl (Zpos m) e
             end in
    if s then (- v)%Z else v
  | _ => 0%Z
  end.

End Py.

(* ================================================================== *)
(** * Part II: effects *)
(* ================================================================== *)

(** Code that raises and mutates: a computation takes the state, returns a
    value or the exception it raised, and the state it left behind (the state
    survives an exception, as side effects do in Python). *)
Module Eff.

Import Py.

Definition M (S A : Type) : Type := S -> (Exception + A) * S.

Definition ret {S A} (a : A) : M S A := fun s => (inr a, s).

Definition bind {S A B} (m : M S A) (f : A -> M S B) : M S B :=
  fun s =>
    match m s with
    | (inl e, s') => (inl e, s')
    | (inr a, s') => f a s'
    end.

Definition raise {S A} (e : Exception) : M S A := fun s => (inl e, s).

(** [try: m  except Exception as e: h e] *)
Definition try_catch {S A} (m : M S A) (h : Exception -> M S A) : M S A :=
  fun s =>
    match m s with
    | (inl e, s') => h e s'
    | (inr a, s') => (inr a, s')
    end.

Definition get {S} : M S S := fun s => (inr s, s).
Definition put {S} (s : S) : M S unit := fun _ => (inr tt, s).
Definition modify {S} (f : S -> S) : M S unit := fun s => (inr tt, f s).

(** A pure step that may raise. *)
Definition lift {S A} (r : Exception + A) : M S A := fun s => (r, s).

(** ** Pure steps that may raise *)

Definition and_then {A B} (r : Exception + A) (f : A -> Exception + B)
  : Exception + B :=
  match r with
  | inl e => inl e
  | inr a => f a
  end.

Fixpoint map_r {A B} (f : A -> Exception + B) (l : list A)
  : Exception + list B :=
  match l with
  | [] => inr []
  | x :: l' =>
    and_then (f x) (fun y =>
    and_then (map_r f l') (fun ys => inr (y :: ys)))
  end.

Declare Scope eff_scope.
Delimit Scope eff_scope with eff.

Notation "'let!' x ':=' c 'in' k" := (bind c (fun x => k))
  (at level 10, x name, c at level 100, k at level 200) : eff_scope.
Notation "'let!' ' p ':=' c 'in' k" :=
  (bind c (fun x => match x with p => k end))
  (at level 10, p strict pattern, c at level 100, k at level 200)
  : eff_scope.
Notation "'run!' c 'in' k" := (bind c (fun _ => k))
  (at level 10, c at level 100, k at level 200) : eff_scope.

Local Open Scope eff_scope.

(** [for x in l: body x] *)
Fixpoint for_each {S A} (l : list A) (body : A -> M S unit) : M S unit :=
  match l with
  | [] => ret tt
  | x :: l' => run! body x in for_each l' body
  end.

(** [if c: m] *)
Definition when {S} (c : bool) (m : M S unit) : M S unit :=
  if c then m else ret tt.

End Eff.

(* ================================================================== *)
(** * Part III: the regular expressions of the source *)
(* ================================================================== *)

(** The fragment of Python's [re] that the source uses, with the semantics of
    its backtracking matcher: alternatives are tried in priority order, a
    greedy star tries the longest run first, a lazy one the shortest. *)
Module Re.

Import Py.
Local Open Scope N_scope.

Inductive regex : Type :=
| Lit (s : pystr)               (** literal text *)
| Cls (p : N -> bool)           (** one character of a class *)
| Star (p : N -> bool)          (** [c*], greedy *)
| StarLazy (p : N -> bool)      (** [c*?] *)
| Seq (r1 r2 : regex)
| Group (r : regex).            (** a capturing group *)

(** [c+] *)
Definition Plus (p : N -> bool) : regex := Seq (Cls p) (Star p).

Notation "a +> b" := (Seq a b) (at level 60, right associativity).

Fixpoint star_greedy {R} (p : N -> bool) (s : pystr) (k : pystr -> option R)
  : option R :=
  match s with
  | c :: s' =>
    if p c then
      match star_greedy p s' k with
      | Some r => Some r
      | None => k s
      end
    else k s
  | [] => k s
  end.

Fixpoint star_lazy {R} (p : N -> bool) (s : pystr) (k : pystr -> option R)
  : option R :=
  match k s with
  | Some r => Some r
  | None =>
    match s with
    | c :: s' => if p c then star_lazy p s' k else None
    | [] => None
    end
  end.

(** [rmatch r s caps k]: match [r] at the head of [s], then continue with
    [k] on the rest; [caps] are the groups closed so far, in order. *)
Fixpoint rmatch {R} (r : regex) (s : pystr) (caps : list pystr)
    (k : pystr -> list pystr -> option R) : option R :=
  match r with
  | Lit l => if startswith l s then k (drop (length l) s) caps else None
  | Cls p =>
    match s with
    | c :: s' => if p c then k s' caps else None
    | [] => None
    end
  | Star p => star_greedy p s (fun s' => k s' caps)
  | StarLazy p => star_lazy p s (fun s' => k s' caps)
  | Seq r1 r2 => rmatch r1 s caps (fun s' caps' => rmatch r2 s' caps' k)
  | Group r1 =>
    rmatch r1 s caps
      (fun s' caps' => k s' (caps' ++ [take (length s - length s') s]))
  end.

(** A match object: [m.start()], [m.end()] and the groups [m.group(1)],
    [m.group(2)], ... *)
Record Match : Type := mkMatch {
  m_start : nat;
  m_end : nat;
  m_groups : list pystr
}.

(** [m.group(n)] for [n >= 1] *)
Definition group (n : nat) (m : Match) : pystr := nth (n - 1) (m_groups m) [].

(** [pattern.match] at the head of [s]: the groups and the unread rest. *)
Definition match_here (r : regex) (s : pystr) : option (list pystr * pystr) :=
  rmatch r s [] (fun s' caps => Some (caps, s')).

(** [re.finditer(r, s)]: scan left to right, leftmost match first, matches do
    not overlap. [pos] is the offset of [s] in the whole text, [skip] the
    number of characters of the last match still to be passed over. *)
Fixpoint finditer_aux (r : regex) (pos skip : nat) (s : pystr) : list Match :=
  match skip with
  | S n =>
    match s with
    | [] => []
    | _ :: s' => finditer_aux r (S pos) n s'
    end
  | O =>
    match match_here r s with
    | Some (caps, rest) =>
      let len := (length s - length rest)%nat in
      mkMatch pos (pos + len) caps ::
        match s with
        | [] => []
        | _ :: s' => finditer_aux r (S pos) (len - 1) s'
        end
    | None =>
      match s with
      | [] => []
      | _ :: s' => finditer_aux r (S pos) 0 s'
      end
    end
  end.

Definition finditer (r : regex) (s : pystr) : list Match := finditer_aux r 0 0 s.

(** [re.sub(r, '', s)]: the text outside the matches. *)
Fixpoint sub_empty_aux (r : regex) (skip : nat) (s : pystr) : pystr :=
  match skip with
  | S n =>
    match s with
    | [] => []
    | _ :: s' => sub_empty_aux r n s'
    end
  | O =>
    match match_here r s with
    | Some (_, rest) =>
      let len := (length s - length rest)%nat in
      match s with
      | [] => []
      | c :: s' =>
        match len with
        | O => c :: sub_empty_aux r 0 s'
        | S n => sub_empty_aux r n s'
        end
      end
    | None =>
      match s with
      | [] => []
      | c :: s' => c :: sub_empty_aux r 0 s'
      end
    end
  end.

Definition sub_empty (r : regex) (s : pystr) : pystr := sub_empty_aux r 0 s.

(** [.] under [re.DOTALL] and without it *)
Definition any_char (c : N) : bool := true.
Definition not_newline (c : N) : bool := negb (c =? 10).

(** a double or a single quote *)
Definition is_quote (c : N) : bool := (c =? 34) || (c =? 39).

End Re.

(* ================================================================== *)
(** * Part IV: report_agent.py *)
(* ================================================================== *)

Module ReportAgent.

Import Py Eff Re.
Local Open Scope eff_scope.

(** ** Data model *)

Inductive ReportStatus : Type :=
| PENDING | PLANNING | GENERATING | COMPLETED | FAILED.

(** [ReportStatus.value] *)
Definition status_value (s : ReportStatus) : pystr :=
  match s with
  | PENDING => py "pending"
  | PLANNING => py "planning"
  | GENERATING => py "generating"
  | COMPLETED => py "completed"
  | FAILED => py "failed"
  end.

(** [ReportSection]: the dataclass does not check its field types, so a
    title is whatever value the planner's JSON holds. *)
Inductive ReportSection : Type :=
  mkSection {
    sec_title : json;
    sec_content : pystr;
    sec_subsections : list ReportSection
  }.

Record ReportOutline : Type := mkOutline {
  o_title : json;
  o_summary : json;
  o_sections : list ReportSection
}.

(** [Report]; the two timestamps are left out. *)
Record Report : Type := mkReport {
  report_id : pystr;
  simulation_id : pystr;
  graph_id : pystr;
  simulation_requirement : pystr;
  status : ReportStatus;
  outline : option ReportOutline;
  markdown_content : pystr;
  error : option pystr
}.

(** A chat message [{"role": ..., "content": ...}]. *)
Record Message : Type := mkMessage {
  role : pystr;
  msg_content : pystr
}.

Definition system_msg (c : pystr) : Message := mkMessage (py "system") c.
Definition user_msg (c : pystr) : Message := mkMessage (py "user") c.
Definition assistant_msg (c : pystr) : Message := mkMessage (py "assistant") c.

(** The record written to [progress.json] (without [updated_at]). *)
Record ProgressData : Type := mkProgress {
  p_status : pystr;
  p_progress : Z;
  p_message : pystr;
  p_current_section : option json;
  p_completed_sections : list json
}.

(** ** The checkpoint store and the world *)

(** One report folder [reports/<report_id>/]: the three JSON records, kept
    as the values that were dumped, and every other file as text. *)
Record Folder : Type := mkFolder {
  f_meta : option Report;
  f_outline : option ReportOutline;
  f_progress : option ProgressData;
  f_text : gmap pystr pystr
}.

Definition empty_folder : Folder := mkFolder None None None ∅.

(** A call of the progress callback: [(stage, percent, message)]. *)
Definition CallbackEvent : Type := pystr * Z * pystr.

(** The world the agent runs in. The three logs record what happened and
    are never read by the code. *)
Record World : Type := mkWorld {
  store : gmap pystr Folder;
  llm_calls : nat;
  fs_ops : nat;
  callback_calls : nat;
  progress_log : list ProgressData;
  callback_log : list CallbackEvent;
  tool_log : list (json * json)
}.

Definition initial_world : World := mkWorld ∅ 0 0 0 [] [] [].

(** The collaborators: everything the agent calls and does not implement.
    A collaborator is asked with the number of calls made so far, so that it
    may answer each call differently, and may raise. *)
Record Env : Type := mkEnv {
  rt : Runtime;
  (** [self.llm.chat(messages, ...)] *)
  llm_chat : nat -> list Message -> Exception + pystr;
  (** [self.llm.chat_json(messages, ...)] *)
  llm_chat_json : nat -> list Message -> Exception + json;
  (** [self.zep_tools.get_simulation_context(...)] *)
  zep_context : Exception + json;
  (** the retrieval tools of [self.zep_tools], by tool name and arguments,
      with the result rendered as text *)
  zep_tool : nat -> pystr -> list (pystr * json) -> Exception + pystr;
  (** whether the k-th file-system operation raises *)
  fs_fault : nat -> option Exception;
  (** the caller's [progress_callback], if any: whether its k-th call raises *)
  user_callback : option (nat -> CallbackEvent -> option Exception);
  (** the prompts, whose wording is not modelled; that of [plan_outline]
      is given the values read from the context *)
  plan_prompt : json -> list Message;
  section_prompt : ReportOutline -> ReportSection -> list pystr -> list Message;
  chat_system_prompt : pystr;
  (** the agent's own fields *)
  self_graph_id : pystr;
  self_simulation_id : pystr;
  self_simulation_requirement : pystr
}.

Definition MAX_TOOL_CALLS_PER_SECTION : nat := 5.
Definition MAX_REFLECTION_ROUNDS : nat := 2.

(** ** Primitive effects *)

Definition set_store (w : World) (s : gmap pystr Folder) : World :=
  mkWorld s (llm_calls w) (fs_ops w) (callback_calls w)
          (progress_log w) (callback_log w) (tool_log w).

(** Every file-system operation may fail. *)
Definition fs_op (env : Env) : M World unit :=
  fun w =>
    let w' := mkWorld (store w) (llm_calls w) (S (fs_ops w)) (callback_calls w)
                      (progress_log w) (callback_log w) (tool_log w) in
    match fs_fault env (fs_ops w) with
    | Some e => (inl e, w')
    | None => (inr tt, w')
    end.

Definition FileNotFoundError : Exception :=
  mkExc (py "FileNotFoundError") (py "No such file or directory").

(** [with open(path, 'w') as f: ...] on a file of the report folder. *)
Definition write_folder (env : Env) (rid : pystr) (upd : Folder -> Folder)
  : M World unit :=
  run! fs_op env in
  fun w =>
    match store w !! rid with
    | Some f => (inr tt, set_store w (<[rid := upd f]> (store w)))
    | None => (inl FileNotFoundError, w)
    end.

Definition write_text (env : Env) (rid name content : pystr) : M World unit :=
  write_folder env rid
    (fun f => mkFolder (f_meta f) (f_outline f) (f_progress f)
                       (<[name := content]> (f_text f))).

(** [self.llm.chat(...)] *)
Definition chat_llm (env : Env) (messages : list Message) : M World pystr :=
  fun w =>
    (llm_chat env (llm_calls w) messages,
     mkWorld (store w) (S (llm_calls w)) (fs_ops w) (callback_calls w)
             (progress_log w) (callback_log w) (tool_log w)).

(** [self.llm.chat_json(...)] *)
Definition chat_json_llm (env : Env) (messages : list Message) : M World json :=
  fun w =>
    (llm_chat_json env (llm_calls w) messages,
     mkWorld (store w) (S (llm_calls w)) (fs_ops w) (callback_calls w)
             (progress_log w) (callback_log w) (tool_log w)).

(** A call of the caller's progress callback. *)
Definition call_user_callback (env : Env) (stage : pystr) (prog : Z)
    (msg : pystr) : M World unit :=
  match user_callback env with
  | None => ret tt
  | Some cb =>
    fun w =>
      let w' := mkWorld (store w) (llm_calls w) (fs_ops w)
                        (S (callback_calls w)) (progress_log w)
                        (callback_log w ++ [(stage, prog, msg)]) (tool_log w) in
      match cb (callback_calls w) (stage, prog, msg) with
      | Some e => (inl e, w')
      | None => (inr tt, w')
      end
  end.

(** A [progress_callback] argument as a callee sees it. *)
Definition Callback : Type := pystr -> Z -> pystr -> M World unit.

(** [if progress_callback: progress_callback(stage, prog, msg)] *)
Definition notify (cb : option Callback) (stage : pystr) (prog : Z)
    (msg : pystr) : M World unit :=
  match cb with
  | Some f => f stage prog msg
  | None => ret tt
  end.

(** [v == "text"] for a string literal *)
Definition is_str (v : json) (s : pystr) : bool :=
  match v with
  | JStr t => str_eqb t s
  | _ => false
  end.

(** ** The tool dispatcher: [ReportAgent._execute_tool] *)

Definition dispatch_tool (env : Env) (k : nat) (tool_name parameters : json)
  : Exception + pystr :=
  if is_str tool_name (py "search_graph") then
    and_then (py_get parameters (py "query") (JStr [])) (fun query =>
    and_then (py_get parameters (py "limit") (JInt 10)) (fun limit =>
    zep_tool env k (py "search_graph")
             [(py "query", query); (py "limit", limit)]))
  else if is_str tool_name (py "get_graph_statistics") then
    zep_tool env k (py "get_graph_statistics") []
  else if is_str tool_name (py "get_entity_summary") then
    and_then (py_get parameters (py "entity_name") (JStr [])) (fun entity_name =>
    zep_tool env k (py "get_entity_summary")
             [(py "entity_name", entity_name)])
  else if is_str tool_name (py "get_simulation_context") then
    and_then (py_get parameters (py "query")
                     (JStr (self_simulation_requirement env))) (fun query =>
    zep_tool env k (py "get_simulation_context")
             [(py "simulation_requirement", query)])
  else if is_str tool_name (py "get_entities_by_type") then
    and_then (py_get parameters (py "entity_type") (JStr [])) (fun entity_type =>
    zep_tool env k (py "get_entities_by_type")
             [(py "entity_type", entity_type)])
  else inr (py "未知工具: " ++ py_str (rt env) tool_name).

(** The whole body is inside [try ... except Exception]: the call is
    recorded, and an exception becomes the text of the result. *)
Definition _execute_tool (env : Env) (tool_name parameters : json)
  : M World pystr :=
  fun w =>
    let w' := mkWorld (store w) (llm_calls w) (fs_ops w) (callback_calls w)
                      (progress_log w) (callback_log w)
                      (tool_log w ++ [(tool_name, parameters)]) in
    match dispatch_tool env (length (tool_log w)) tool_name parameters with
    | inr text => (inr text, w')
    | inl e => (inr (py "工具执行失败: " ++ exc_text e), w')
    end.

(** ** The tool-call parser: [ReportAgent._parse_tool_calls] *)

(** [<tool_call>\s*(\{.*?\})\s*</tool_call>] with [re.DOTALL] *)
Definition xml_pattern : regex :=
  Lit (py "<tool_call>") +> Star is_space
  +> Group (Lit (py "{") +> StarLazy any_char +> Lit (py "}"))
  +> Star is_space +> Lit (py "</tool_call>").

(** [\[TOOL_CALL\]\s*(\w+)\s*\((.*?)\)] with [re.DOTALL] *)
Definition func_pattern (rt : Runtime) : regex :=
  Lit (py "[TOOL_CALL]") +> Star is_space
  +> Group (Plus (is_word rt)) +> Star is_space
  +> Lit (py "(") +> Group (StarLazy any_char) +> Lit (py ")").

(** The parameter pattern: a group of word characters, [=] with optional
    space around it, a quote (double or single), a group of characters that
    are not quotes, a quote. *)
Definition param_pattern (rt : Runtime) : regex :=
  Group (Plus (is_word rt)) +> Star is_space +> Lit (py "=") +> Star is_space
  +> Cls is_quote +> Group (Star (fun c => negb (is_quote c)))
  +> Cls is_quote.

(** One round of the first loop: [json.loads] of the block, appended unless
    it raises [JSONDecodeError]. *)
Definition xml_step (rt : Runtime) (tool_calls : list json) (m : Match)
  : list json :=
  match rt_json_loads rt (group 1 m) with
  | Some call_data => tool_calls ++ [call_data]
  | None => tool_calls
  end.

(** The parameters of a call in the second format. *)
Definition parse_params (rt : Runtime) (params_str : pystr)
  : list (pystr * json) :=
  fold_left
    (fun params pm => dict_set params (group 1 pm) (JStr (group 2 pm)))
    (finditer (param_pattern rt) params_str) [].

Definition func_call (rt : Runtime) (m : Match) : json :=
  let tool_name := group 1 m in
  let params_str := group 2 m in
  JObj [(py "name", JStr tool_name);
        (py "parameters", JObj (parse_params rt params_str))].

Definition func_step (rt : Runtime) (tool_calls : list json) (m : Match)
  : list json :=
  tool_calls ++ [func_call rt m].

Definition _parse_tool_calls (rt : Runtime) (response : pystr) : list json :=
  let tool_calls := [] in
  let tool_calls :=
    fold_left (xml_step rt) (finditer xml_pattern response) tool_calls in
  let tool_calls :=
    fold_left (func_step rt) (finditer (func_pattern rt) response) tool_calls in
  tool_calls.

(** ** The outline planner: [ReportAgent.plan_outline] *)

Definition parse_subsection (sub_data : json) : Exception + ReportSection :=
  and_then (py_get sub_data (py "title") (JStr [])) (fun t =>
  inr (mkSection t [] [])).

Definition parse_section (section_data : json) : Exception + ReportSection :=
  and_then (py_get section_data (py "subsections") (JArr [])) (fun subs =>
  and_then (py_iter subs) (fun sub_list =>
  and_then (map_r parse_subsection sub_list) (fun subsections =>
  and_then (py_get section_data (py "title") (JStr [])) (fun t =>
  inr (mkSection t [] subsections))))).

Definition parse_sections (response : json) : Exception + list ReportSection :=
  and_then (py_get response (py "sections") (JArr [])) (fun secs =>
  and_then (py_iter secs) (fun sec_list =>
  map_r parse_section sec_list)).

Definition parse_outline (response : json) : Exception + ReportOutline :=
  and_then (parse_sections response) (fun sections =>
  and_then (py_get response (py "title") (JStr (py "模拟分析报告"))) (fun t =>
  and_then (py_get response (py "summary") (JStr [])) (fun summary =>
  inr (mkOutline t summary sections)))).

(** The outline of the [except] branch. *)
Definition default_outline : ReportOutline :=
  mkOutline (JStr (py "模拟分析报告")) (JStr (py "基于模拟结果的分析报告"))
    [ mkSection (JStr (py "执行摘要")) [] [];
      mkSection (JStr (py "模拟背景与场景设定")) [] [];
      mkSection (JStr (py "关键发现与趋势分析")) [] [];
      mkSection (JStr (py "舆情走向与情绪演化")) [] [];
      mkSection (JStr (py "总结与建议")) [] [] ].

(** The part of [plan_outline] inside [try]. *)
Definition plan_outline_try (env : Env) (progress_callback : option Callback)
    (messages : list Message) : M World ReportOutline :=
  let! response := chat_json_llm env messages in
  run! notify progress_callback (py "planning") 80 (py "正在解析大纲结构...") in
  let! outline := lift (parse_outline response) in
  run! notify progress_callback (py "planning") 100 (py "大纲规划完成") in
  ret outline.

(** What the user prompt of [plan_outline] reads from the context, in the
    order of the f-string: each read may raise, and does so before the
    [try]. *)
Definition plan_prompt_values (context : json) : Exception + json :=
  and_then (py_get context (py "graph_statistics") (JObj [])) (fun stats =>
  and_then (py_get stats (py "total_nodes") (JInt 0)) (fun total_nodes =>
  and_then (py_get context (py "graph_statistics") (JObj [])) (fun stats =>
  and_then (py_get stats (py "total_edges") (JInt 0)) (fun total_edges =>
  and_then (py_get context (py "graph_statistics") (JObj [])) (fun stats =>
  and_then (py_get stats (py "entity_types") (JObj [])) (fun types =>
  and_then (py_keys types) (fun entity_types =>
  and_then (py_get context (py "total_entities") (JInt 0)) (fun total_entities =>
  and_then (py_get context (py "related_facts") (JArr [])) (fun facts =>
  and_then (py_slice_to 10 facts) (fun related_facts =>
  inr (JObj [(py "total_nodes", total_nodes);
             (py "total_edges", total_edges);
             (py "entity_types", JArr (map JStr entity_types));
             (py "total_entities", total_entities);
             (py "related_facts", related_facts)]))))))))))).

(** The messages of the call: the wording is [plan_prompt], of the values
    read. *)
Definition plan_messages (env : Env) (context : json)
  : Exception + list Message :=
  and_then (plan_prompt_values context) (fun values =>
  inr (plan_prompt env values)).

Definition plan_outline (env : Env) (progress_callback : option Callback)
  : M World ReportOutline :=
  run! notify progress_callback (py "planning") 0 (py "正在分析模拟需求...") in
  let! context := lift (zep_context env) in
  run! notify progress_callback (py "planning") 30 (py "正在生成报告大纲...") in
  let! messages := lift (plan_messages env context) in
  try_catch (plan_outline_try env progress_callback messages)
            (fun e => ret default_outline).

(** ** The section generator: [ReportAgent._generate_section_react] *)

(** [str(n)] of an [int] *)
Definition str_of_Z (z : Z) : pystr :=
  match z with
  | Z0 => py "0"
  | Zpos p => str_of_nat (Pos.to_nat p)
  | Zneg p => py "-" ++ str_of_nat (Pos.to_nat p)
  end.

(** The loop [for call in tool_calls] of one round: [tool_results] and
    [tool_calls_count] are the variables it updates; it stops at the first
    call that finds the budget used up. *)
Fixpoint execute_calls (env : Env) (tool_calls : list json)
    (tool_results : list pystr) (tool_calls_count : nat)
  : M World (list pystr * nat) :=
  match tool_calls with
  | [] => ret (tool_results, tool_calls_count)
  | call :: rest =>
    if (MAX_TOOL_CALLS_PER_SECTION <=? tool_calls_count)%nat
    then ret (tool_results, tool_calls_count)
    else
      let! name := lift (py_getitem call (py "name")) in
      let! parameters := lift (py_get call (py "parameters") (JObj [])) in
      let! result := _execute_tool env name parameters in
      execute_calls env rest
        (tool_results ++
           [py "工具 " ++ py_str (rt env) name ++ py " 返回:" ++ nl ++ result])
        (S tool_calls_count)
  end.

(** The text after the last [Final Answer:], trimmed. *)
Definition final_answer_of (response : pystr) : pystr :=
  strip (List.last (split_on (py "Final Answer:") response) []).

Definition finalize_request : Message :=
  user_msg (py "请基于已有信息，输出 Final Answer: 并生成章节内容。").

Definition observation_msg (tool_results : list pystr) : Message :=
  user_msg (py "Observation:" ++ nl ++ join (nl ++ nl) tool_results
            ++ nl ++ nl ++ py "请继续思考或输出 Final Answer:").

Definition forced_request : Message :=
  user_msg (py "已达到工具调用限制，请直接输出 Final Answer: 并生成章节内容。").

(** How a round, or the loop, ends: with the section's text ([return]), or
    with the conversation and the count to go on with. *)
Inductive Round : Type :=
| Returned (final_answer : pystr)
| Continue (messages : list Message) (tool_calls_count : nat).

(** [int((iteration / max_iterations) * 100)] *)
Definition iteration_percent (iteration max_iterations : nat) : Z :=
  int_of_float
    (float_mul (int_truediv (Z.of_nat iteration) (Z.of_nat max_iterations))
               (float_of_int 100)).

(** The body of [for iteration in range(max_iterations)]. *)
Definition react_round (env : Env) (progress_callback : option Callback)
    (max_iterations iteration : nat) (messages : list Message)
    (tool_calls_count : nat) : M World Round :=
  run! notify progress_callback (py "generating")
         (iteration_percent iteration max_iterations)
         (py "思考与行动中 (" ++ str_of_nat tool_calls_count ++ py "/"
          ++ str_of_nat MAX_TOOL_CALLS_PER_SECTION ++ py ")") in
  let! response := chat_llm env messages in
  if contains (py "Final Answer:") response then
    ret (Returned (final_answer_of response))
  else
    let tool_calls := _parse_tool_calls (rt env) response in
    match tool_calls with
    | [] =>
      ret (Continue (messages ++ [assistant_msg response; finalize_request])
                    tool_calls_count)
    | _ =>
      let! '(tool_results, count') :=
        execute_calls env tool_calls [] tool_calls_count in
      ret (Continue
             (messages ++ [assistant_msg response; observation_msg tool_results])
             count')
    end.

(** The [for] loop over the remaining iterations. *)
Fixpoint react_loop (env : Env) (progress_callback : option Callback)
    (max_iterations : nat) (iterations : list nat) (messages : list Message)
    (tool_calls_count : nat) : M World Round :=
  match iterations with
  | [] => ret (Continue messages tool_calls_count)
  | iteration :: rest =>
    let! r := react_round env progress_callback max_iterations iteration
                          messages tool_calls_count in
    match r with
    | Returned a => ret (Returned a)
    | Continue messages' count' =>
      react_loop env progress_callback max_iterations rest messages' count'
    end
  end.

Definition _generate_section_react (env : Env) (section : ReportSection)
    (outline : ReportOutline) (previous_sections : list pystr)
    (progress_callback : option Callback) : M World pystr :=
  let messages := section_prompt env outline section previous_sections in
  let tool_calls_count := 0 in
  let max_iterations := MAX_TOOL_CALLS_PER_SECTION + 2 in
  let! r := react_loop env progress_callback max_iterations
                       (seq 0 max_iterations) messages tool_calls_count in
  match r with
  | Returned a => ret a
  | Continue messages' _ =>
    let! response := chat_llm env (messages' ++ [forced_request]) in
    if contains (py "Final Answer:") response
    then ret (final_answer_of response)
    else ret response
  end.

(** ** The checkpoint store: [ReportManager] *)

(** [os.makedirs(folder, exist_ok=True)] *)
Definition _ensure_report_folder (env : Env) (rid : pystr) : M World unit :=
  run! fs_op env in
  modify (fun w =>
    match store w !! rid with
    | Some _ => w
    | None => set_store w (<[rid := empty_folder]> (store w))
    end).

Definition save_outline (env : Env) (rid : pystr) (outline : ReportOutline)
  : M World unit :=
  run! _ensure_report_folder env rid in
  write_folder env rid
    (fun f => mkFolder (f_meta f) (Some outline) (f_progress f) (f_text f)).

(** The file name [save_section] writes to. *)
Definition section_file (section_index : nat) (is_subsection : bool)
    (parent_index : option nat) : pystr :=
  match is_subsection, parent_index with
  | true, Some parent =>
    py "section_" ++ format_02d parent ++ py "_" ++ format_02d section_index
    ++ py ".md"
  | _, _ => py "section_" ++ format_02d section_index ++ py ".md"
  end.

Definition section_level (is_subsection : bool) (parent_index : option nat)
  : pystr :=
  match is_subsection, parent_index with
  | true, Some _ => py "###"
  | _, _ => py "##"
  end.

(** The Markdown text of one section record. *)
Definition section_markdown (rt : Runtime) (level : pystr)
    (section : ReportSection) : pystr :=
  level ++ py " " ++ py_str rt (sec_title section) ++ nl ++ nl
  ++ (if nonempty (sec_content section)
      then sec_content section ++ nl ++ nl else []).

Definition save_section (env : Env) (rid : pystr) (section_index : nat)
    (section : ReportSection) (is_subsection : bool)
    (parent_index : option nat) : M World unit :=
  run! _ensure_report_folder env rid in
  write_text env rid (section_file section_index is_subsection parent_index)
    (section_markdown (rt env) (section_level is_subsection parent_index)
                      section).

Definition log_progress (d : ProgressData) (w : World) : World :=
  mkWorld (store w) (llm_calls w) (fs_ops w) (callback_calls w)
          (progress_log w ++ [d]) (callback_log w) (tool_log w).

Definition update_progress (env : Env) (rid status : pystr) (progress : Z)
    (message : pystr) (current_section : option json)
    (completed_sections : list json) : M World unit :=
  run! _ensure_report_folder env rid in
  let progress_data :=
    mkProgress status progress message current_section completed_sections in
  run! write_folder env rid
         (fun f => mkFolder (f_meta f) (f_outline f) (Some progress_data)
                            (f_text f)) in
  modify (log_progress progress_data).

(** [os.listdir(folder)], in the order the file system gives. *)
Definition listdir (f : Folder) : list pystr :=
  (map_to_list (f_text f)).*1
  ++ (if is_some (f_meta f) then [py "meta.json"] else [])
  ++ (if is_some (f_outline f) then [py "outline.json"] else [])
  ++ (if is_some (f_progress f) then [py "progress.json"] else []).

(** The order of [sorted] on strings. *)
Definition str_le (a b : pystr) : Prop := Is_true (str_leb a b).

#[global] Instance str_le_dec : RelDecision str_le :=
  fun a b => Is_true_dec (str_leb a b).

(** One entry of [get_generated_sections]. *)
Record SectionInfo : Type := mkSectionInfo {
  si_filename : pystr;
  si_section_index : Z;
  si_subsection_index : option Z;
  si_content : pystr;
  si_is_subsection : bool
}.

Definition ValueError_int (s : pystr) : Exception :=
  mkExc (py "ValueError")
        (py "invalid literal for int() with base 10: '" ++ s ++ py "'").

Definition py_int_of (rt : Runtime) (s : pystr) : Exception + Z :=
  match rt_int rt s with
  | Some z => inr z
  | None => inl (ValueError_int s)
  end.

(** The indices read back from a file name. *)
Definition parse_section_filename (rt : Runtime) (filename content : pystr)
  : Exception + SectionInfo :=
  let parts := split_on (py "_") (replace (py ".md") [] filename) in
  match parts !! 1%nat with
  | None => inl (mkExc (py "IndexError") (py "list index out of range"))
  | Some p1 =>
    and_then (py_int_of rt p1) (fun section_index =>
    and_then
      (match parts !! 2%nat with
       | Some p2 => and_then (py_int_of rt p2) (fun z => inr (Some z))
       | None => inr None
       end) (fun subsection_index =>
    inr (mkSectionInfo filename section_index subsection_index content
           (is_some subsection_index))))
  end.

Definition is_section_file (filename : pystr) : bool :=
  startswith (py "section_") filename && endswith (py ".md") filename.

(** The body of the loop over the sorted file names. *)
Fixpoint read_sections (env : Env) (f : Folder) (filenames : list pystr)
  : M World (list SectionInfo) :=
  match filenames with
  | [] => ret []
  | filename :: rest =>
    if is_section_file filename then
      run! fs_op env in
      let content :=
        universal_newlines (default [] (f_text f !! filename)) in
      let! info := lift (parse_section_filename (rt env) filename content) in
      let! infos := read_sections env f rest in
      ret (info :: infos)
    else read_sections env f rest
  end.

Definition get_generated_sections (env : Env) (rid : pystr)
  : M World (list SectionInfo) :=
  let! w := get in
  match store w !! rid with
  | None => ret []
  | Some f =>
    run! fs_op env in
    read_sections env f (merge_sort str_le (listdir f))
  end.

Definition report_header (rt : Runtime) (outline : ReportOutline) : pystr :=
  py "# " ++ py_str rt (o_title outline) ++ nl ++ nl
  ++ py "> " ++ py_str rt (o_summary outline) ++ nl ++ nl
  ++ py "---" ++ nl ++ nl.

Definition assemble_full_report (env : Env) (rid : pystr)
    (outline : ReportOutline) : M World pystr :=
  let md_content := report_header (rt env) outline in
  let! sections := get_generated_sections env rid in
  let md_content :=
    fold_left (fun md section_info => md ++ si_content section_info)
              sections md_content in
  run! write_text env rid (py "full_report.md") md_content in
  ret md_content.

Definition save_report (env : Env) (report : Report) : M World unit :=
  let rid := report_id report in
  run! _ensure_report_folder env rid in
  run! write_folder env rid
         (fun f => mkFolder (Some report) (f_outline f) (f_progress f)
                            (f_text f)) in
  run! match outline report with
       | Some o => save_outline env rid o
       | None => ret tt
       end in
  when (nonempty (markdown_content report))
       (write_text env rid (py "full_report.md") (markdown_content report)).

(** ** The pipeline: [ReportAgent.generate_report] *)

(** The objects [generate_report] mutates: the report (whose outline is the
    one object that [outline], [report.outline] and the sections of the loops
    all refer to), the list of completed titles and the texts generated so
    far. They survive an exception, for the handler to read. *)
Record GenState : Type := mkGen {
  g_world : World;
  g_report : Report;
  g_completed : list json;
  g_generated : list pystr
}.

(** A computation on the world, run inside [generate_report]. *)
Definition in_world {A} (m : M World A) : M GenState A :=
  fun g =>
    let '(r, w') := m (g_world g) in
    (r, mkGen w' (g_report g) (g_completed g) (g_generated g)).

Definition set_report (f : Report -> Report) : M GenState unit :=
  modify (fun g => mkGen (g_world g) (f (g_report g)) (g_completed g)
                         (g_generated g)).

Definition with_status (st : ReportStatus) (r : Report) : Report :=
  mkReport (report_id r) (simulation_id r) (graph_id r)
           (simulation_requirement r) st (outline r) (markdown_content r)
           (error r).

Definition with_outline (o : ReportOutline) (r : Report) : Report :=
  mkReport (report_id r) (simulation_id r) (graph_id r)
           (simulation_requirement r) (status r) (Some o) (markdown_content r)
           (error r).

Definition with_markdown (md : pystr) (r : Report) : Report :=
  mkReport (report_id r) (simulation_id r) (graph_id r)
           (simulation_requirement r) (status r) (outline r) md (error r).

Definition with_error (e : pystr) (r : Report) : Report :=
  mkReport (report_id r) (simulation_id r) (graph_id r)
           (simulation_requirement r) (status r) (outline r)
           (markdown_content r) (Some e).

(** [section.content = text] *)
Definition with_content (text : pystr) (s : ReportSection) : ReportSection :=
  mkSection (sec_title s) text (sec_subsections s).

(** [outline.sections[i].content = text] on the shared outline *)
Definition set_section_content (i : nat) (text : pystr) (r : Report) : Report :=
  match outline r with
  | Some o =>
    with_outline
      (mkOutline (o_title o) (o_summary o)
                 (alter (with_content text) i (o_sections o))) r
  | None => r
  end.

(** [outline.sections[i].subsections[j].content = text] *)
Definition set_subsection_content (i j : nat) (text : pystr) (r : Report)
  : Report :=
  match outline r with
  | Some o =>
    with_outline
      (mkOutline (o_title o) (o_summary o)
         (alter (fun s => mkSection (sec_title s) (sec_content s)
                            (alter (with_content text) j (sec_subsections s)))
                i (o_sections o))) r
  | None => r
  end.

Definition add_completed (t : json) : M GenState unit :=
  modify (fun g => mkGen (g_world g) (g_report g) (g_completed g ++ [t])
                         (g_generated g)).

Definition add_generated (t : pystr) : M GenState unit :=
  modify (fun g => mkGen (g_world g) (g_report g) (g_completed g)
                         (g_generated g ++ [t])).

(** The outline as it is now, with the contents written so far. *)
Definition current_outline (dflt : ReportOutline) : M GenState ReportOutline :=
  let! g := get in ret (default dflt (outline (g_report g))).

(** [enumerate(l)] *)
Definition enumerate {A} (l : list A) : list (nat * A) := imap pair l.

(** The body of [for j, subsection in enumerate(section.subsections)]. *)
Definition subsection_step (env : Env) (rid : pystr) (outline0 : ReportOutline)
    (section_num : nat) (base_progress : Z) (n_subsections : nat)
    (j : nat) (subsection : ReportSection) : M GenState unit :=
  let subsection_num := S j in
  let title := py_str (rt env) (sec_title subsection) in
  let pct :=
    (base_progress
     + int_of_float
         (float_mul (int_truediv (Z.of_nat (j + 1)) (Z.of_nat n_subsections))
                    (float_of_int 5)))%Z in
  run! in_world (call_user_callback env (py "generating") pct
                   (py "正在生成子章节: " ++ title)) in
  let! g := get in
  run! in_world (update_progress env rid (py "generating") pct
                   (py "正在生成子章节: " ++ title)
                   (Some (sec_title subsection)) (g_completed g)) in
  let! o := current_outline outline0 in
  let! subsection_content :=
    in_world (_generate_section_react env subsection o (g_generated g) None) in
  run! set_report
         (set_subsection_content (section_num - 1) j subsection_content) in
  run! add_generated (py "### " ++ title ++ nl ++ nl ++ subsection_content) in
  run! in_world (save_section env rid subsection_num
                   (with_content subsection_content subsection)
                   true (Some section_num)) in
  add_completed (JStr (py "  └─ " ++ title)).

(** The body of [for i, section in enumerate(outline.sections)]. *)
Definition section_step (env : Env) (rid : pystr) (outline0 : ReportOutline)
    (total_sections : nat) (i : nat) (section : ReportSection)
  : M GenState unit :=
  let section_num := S i in
  let total := Z.of_nat total_sections in
  let base_progress :=
    (20 + int_of_float
            (float_mul (int_truediv (Z.of_nat i) total) (float_of_int 70)))%Z in
  let title := py_str (rt env) (sec_title section) in
  let message :=
    py "正在生成章节: " ++ title ++ py " (" ++ str_of_nat section_num ++ py "/"
    ++ str_of_nat total_sections ++ py ")" in
  let! g := get in
  run! in_world (update_progress env rid (py "generating") base_progress
                   message (Some (sec_title section)) (g_completed g)) in
  run! in_world (call_user_callback env (py "generating") base_progress
                   message) in
  let! o := current_outline outline0 in
  let! section_content :=
    in_world (_generate_section_react env section o (g_generated g)
      (Some (fun stage prog msg =>
         call_user_callback env stage
           (base_progress
            + int_of_float
                (float_div (float_mul (float_of_int prog) float_0_7)
                           (float_of_int total)))%Z msg))) in
  run! set_report (set_section_content i section_content) in
  run! add_generated (py "## " ++ title ++ nl ++ nl ++ section_content) in
  run! in_world (save_section env rid section_num
                   (with_content section_content section) false None) in
  run! add_completed (sec_title section) in
  let! g := get in
  run! in_world (update_progress env rid (py "generating")
                   (base_progress + int_of_float (int_truediv 70 total))%Z
                   (py "章节 " ++ title ++ py " 已完成")
                   None (g_completed g)) in
  for_each (enumerate (sec_subsections section))
    (fun '(j, subsection) =>
       subsection_step env rid outline0 section_num base_progress
         (length (sec_subsections section)) j subsection).

(** The part of [generate_report] inside [try]. *)
Definition generate_report_try (env : Env) (rid : pystr) : M GenState unit :=
  run! in_world (_ensure_report_folder env rid) in
  run! in_world (update_progress env rid (py "pending") 0 (py "初始化报告...")
                   None []) in
  let! g := get in
  run! in_world (save_report env (g_report g)) in
  run! set_report (with_status PLANNING) in
  run! in_world (update_progress env rid (py "planning") 5
                   (py "开始规划报告大纲...") None []) in
  run! in_world (call_user_callback env (py "planning") 0
                   (py "开始规划报告大纲...")) in
  let! outline0 :=
    in_world (plan_outline env
      (Some (fun stage prog msg =>
         call_user_callback env stage (prog / 5)%Z msg))) in
  run! set_report (with_outline outline0) in
  run! in_world (save_outline env rid outline0) in
  run! in_world (update_progress env rid (py "planning") 15
                   (py "大纲规划完成，共"
                    ++ str_of_nat (length (o_sections outline0))
                    ++ py "个章节") None []) in
  let! g := get in
  run! in_world (save_report env (g_report g)) in
  run! set_report (with_status GENERATING) in
  let total_sections := length (o_sections outline0) in
  run! for_each (enumerate (o_sections outline0))
         (fun '(i, section) =>
            section_step env rid outline0 total_sections i section) in
  run! in_world (call_user_callback env (py "generating") 95
                   (py "正在组装完整报告...")) in
  let! g := get in
  run! in_world (update_progress env rid (py "generating") 95
                   (py "正在组装完整报告...") None (g_completed g)) in
  let! o := current_outline outline0 in
  let! md := in_world (assemble_full_report env rid o) in
  run! set_report (fun r => with_status COMPLETED (with_markdown md r)) in
  let! g := get in
  run! in_world (save_report env (g_report g)) in
  run! in_world (update_progress env rid (py "completed") 100
                   (py "报告生成完成") None (g_completed g)) in
  in_world (call_user_callback env (py "completed") 100 (py "报告生成完成")).

(** The [except Exception as e] branch: the failure is recorded in the
    report, and whatever saving it raises is dropped. *)
Definition generate_report_except (env : Env) (rid : pystr) (e : Exception)
    (g : GenState) : Report * World :=
  let report := with_error (exc_text e) (with_status FAILED (g_report g)) in
  let persist :=
    try_catch
      (run! save_report env report in
       update_progress env rid (py "failed") (-1)
         (py "报告生成失败: " ++ exc_text e) None (g_completed g))
      (fun _ => ret tt) in
  (report, snd (persist (g_world g))).

(** [generate_report]; [rid] is the fresh identifier [report_<uuid>]. *)
Definition generate_report (env : Env) (rid : pystr) (w : World)
  : Report * World :=
  let report :=
    mkReport rid (self_simulation_id env) (self_graph_id env)
             (self_simulation_requirement env) PENDING None [] None in
  match generate_report_try env rid (mkGen w report [] []) with
  | (inr _, g) => (g_report g, g_world g)
  | (inl e, g) => generate_report_except env rid e g
  end.

(** ** The conversational agent: [ReportAgent.chat] *)

Record ChatResult : Type := mkChatResult {
  response : pystr;
  tool_calls : list json;
  sources : list json
}.

(** [<tool_call>.*?</tool_call>] with [re.DOTALL] *)
Definition strip_xml_pattern : regex :=
  Lit (py "<tool_call>") +> StarLazy any_char +> Lit (py "</tool_call>").

(** [\[TOOL_CALL\].*?\)] without [re.DOTALL] *)
Definition strip_func_pattern : regex :=
  Lit (py "[TOOL_CALL]") +> StarLazy not_newline +> Lit (py ")").

Definition clean_response (response : pystr) : pystr :=
  let clean_response := sub_empty strip_xml_pattern response in
  let clean_response := sub_empty strip_func_pattern clean_response in
  strip clean_response.

(** The loop [for call in tool_calls] of one round of [chat]:
    [tool_results] holds the pairs [(tool, result)]. *)
Fixpoint chat_execute_calls (env : Env) (calls : list json)
    (tool_results : list (json * pystr)) (tool_calls_made : list json)
  : M World (list (json * pystr) * list json) :=
  match calls with
  | [] => ret (tool_results, tool_calls_made)
  | call :: rest =>
    let! name := lift (py_getitem call (py "name")) in
    let! parameters := lift (py_get call (py "parameters") (JObj [])) in
    let! result := _execute_tool env name parameters in
    chat_execute_calls env rest
      (tool_results ++ [(name, slice_to 1000 result)])
      (tool_calls_made ++ [call])
  end.

Definition chat_observation (rt : Runtime) (tool_results : list (json * pystr))
  : pystr :=
  py "工具调用结果:" ++ nl
  ++ join (nl ++ nl)
       (map (fun r => py "[" ++ py_str rt (fst r) ++ py "]: " ++ snd r)
            tool_results).

(** The [for] loop of [chat] over the remaining iterations; [inl] is the
    [return] from inside the loop. *)
Fixpoint chat_loop (env : Env) (iterations : nat) (messages : list Message)
    (tool_calls_made : list json)
  : M World (ChatResult + list Message * list json) :=
  match iterations with
  | O => ret (inr (messages, tool_calls_made))
  | S rest =>
    let! response := chat_llm env messages in
    let tool_calls := _parse_tool_calls (rt env) response in
    match tool_calls with
    | [] =>
      ret (inl (mkChatResult (clean_response response) tool_calls_made []))
    | _ =>
      let! '(tool_results, made') :=
        chat_execute_calls env tool_calls [] tool_calls_made in
      let observation := chat_observation (rt env) tool_results in
      chat_loop env rest
        (messages ++ [assistant_msg response;
                      user_msg (observation ++ nl ++ nl
                                ++ py "请基于以上信息回答问题。")])
        made'
    end
  end.

(** [chat_history[-10:]] *)
Definition last_ten {A} (l : list A) : list A := drop (length l - 10) l.

Definition chat (env : Env) (message : pystr) (chat_history : list Message)
  : M World ChatResult :=
  let messages :=
    [system_msg (chat_system_prompt env)] ++ last_ten chat_history
    ++ [user_msg message] in
  let max_iterations := 3 in
  let! r := chat_loop env max_iterations messages [] in
  match r with
  | inl result => ret result
  | inr (messages', tool_calls_made) =>
    let! final_response := chat_llm env messages' in
    ret (mkChatResult final_response tool_calls_made [])
  end.

End ReportAgent.

(* ================================================================== *)
(** * Part V: zep_tools.py, the local fallback search *)
(* ================================================================== *)

Module ZepTools.

Import Py Eff.
Local Open Scope eff_scope.

(** [EdgeInfo] as [get_all_edges] builds it (the two optional node names
    are never set there). *)
Record EdgeInfo : Type := mkEdge {
  e_uuid : pystr;
  e_name : pystr;
  e_fact : pystr;
  e_source_node_uuid : pystr;
  e_target_node_uuid : pystr
}.

Record NodeInfo : Type := mkNode {
  n_uuid : pystr;
  n_name : pystr;
  n_labels : list pystr;
  n_summary : pystr;
  n_attributes : json
}.

(** An entry of [SearchResult.nodes]. *)
Record NodeHit : Type := mkNodeHit {
  h_uuid : pystr;
  h_name : pystr;
  h_labels : list pystr;
  h_summary : pystr
}.

(** [SearchResult]; an entry of [edges] holds the five fields of the edge. *)
Record SearchResult : Type := mkResult {
  facts : list pystr;
  edges : list EdgeInfo;
  nodes : list NodeHit;
  query : pystr;
  total_count : nat
}.

(** The graph behind [get_all_edges] and [get_all_nodes]; either call may
    raise once its retries are used up. *)
Record Graph : Type := mkGraph {
  all_edges : Exception + list EdgeInfo;
  all_nodes : Exception + list NodeInfo
}.

(** The keywords of a query: the words of the lower-cased query, commas
    (ASCII and full-width) read as spaces, longer than one character. *)
Definition keywords_of (query_lower : pystr) : list pystr :=
  map strip
    (filter (fun w => (1 <? length (strip w))%nat = true)
       (split_ws (replace_char 65292 32 (replace_char 44 32 query_lower)))).

(** The local function [match_score]. *)
Definition match_score (rt : Runtime) (query_lower : pystr)
    (keywords : list pystr) (text : pystr) : Z :=
  if negb (nonempty text) then 0%Z
  else
    let text_lower := lower rt text in
    if contains query_lower text_lower then 100%Z
    else
      fold_left
        (fun score keyword =>
           if contains keyword text_lower then (score + 10)%Z else score)
        keywords 0%Z.

(** [l.sort(key=lambda x: x[0], reverse=True)]: the sort is stable, also in
    reverse, so entries of equal score keep the order they had. *)
Fixpoint insert_desc {A} (x : Z * A) (l : list (Z * A)) : list (Z * A) :=
  match l with
  | [] => [x]
  | y :: l' =>
    if (fst x <? fst y)%Z then y :: insert_desc x l' else x :: y :: l'
  end.

Definition sort_desc {A} (l : list (Z * A)) : list (Z * A) :=
  fold_right insert_desc [] l.

(** [l[:limit]] for an [int], which may be negative. *)
Definition slice_limit {A} (limit : Z) (l : list A) : list A :=
  if (0 <=? limit)%Z then take (Z.to_nat limit) l
  else take (length l - Z.to_nat (- limit)) l.

(** The entries with a positive score, each with its score. *)
Definition scored {A} (score : A -> Z) (items : list A) : list (Z * A) :=
  filter (fun p => (0 < fst p)%Z) (map (fun x => (score x, x)) items).

(** The scored entries kept by one of the two scopes:
    [scored.sort(...)] and then [scored[:limit]]. *)
Definition top_scored {A} (score : A -> Z) (limit : Z) (items : list A)
  : list (Z * A) :=
  slice_limit limit (sort_desc (scored score items)).

Definition edge_score (rt : Runtime) (query_lower : pystr)
    (keywords : list pystr) (edge : EdgeInfo) : Z :=
  (match_score rt query_lower keywords (e_fact edge)
   + match_score rt query_lower keywords (e_name edge))%Z.

Definition node_score (rt : Runtime) (query_lower : pystr)
    (keywords : list pystr) (node : NodeInfo) : Z :=
  (match_score rt query_lower keywords (n_name node)
   + match_score rt query_lower keywords (n_summary node))%Z.

(** The three lists the search fills in. *)
Record Found : Type := mkFound {
  fd_facts : list pystr;
  fd_edges : list EdgeInfo;
  fd_nodes : list NodeHit
}.

Definition add_edge (edge : EdgeInfo) (fd : Found) : Found :=
  mkFound (if nonempty (e_fact edge) then fd_facts fd ++ [e_fact edge]
           else fd_facts fd)
          (fd_edges fd ++ [edge]) (fd_nodes fd).

Definition add_node (node : NodeInfo) (fd : Found) : Found :=
  mkFound (if nonempty (n_summary node)
           then fd_facts fd
                ++ [py "[" ++ n_name node ++ py "]: " ++ n_summary node]
           else fd_facts fd)
          (fd_edges fd)
          (fd_nodes fd
           ++ [mkNodeHit (n_uuid node) (n_name node) (n_labels node)
                         (n_summary node)]).

Definition scope_in (scope : pystr) (a b : pystr) : bool :=
  str_eqb scope a || str_eqb scope b.

(** The part of [_local_search] inside [try]. *)
Definition local_search_try (rt : Runtime) (g : Graph) (query_lower : pystr)
    (keywords : list pystr) (limit : Z) (scope : pystr) : M Found unit :=
  run! when (scope_in scope (py "edges") (py "both"))
         (let! es := lift (all_edges g) in
          for_each
            (top_scored (edge_score rt query_lower keywords) limit es)
            (fun p => modify (add_edge (snd p)))) in
  when (scope_in scope (py "nodes") (py "both"))
    (let! ns := lift (all_nodes g) in
     for_each
       (top_scored (node_score rt query_lower keywords) limit ns)
       (fun p => modify (add_node (snd p)))).

Definition _local_search (rt : Runtime) (g : Graph) (query : pystr)
    (limit : Z) (scope : pystr) : SearchResult :=
  let query_lower := lower rt query in
  let keywords := keywords_of query_lower in
  let fd :=
    snd (try_catch (local_search_try rt g query_lower keywords limit scope)
                   (fun _ => ret tt) (mkFound [] [] [])) in
  mkResult (fd_facts fd) (fd_edges fd) (fd_nodes fd) query
           (length (fd_facts fd)).

End ZepTools.

(* ================================================================== *)
(** * Part VI: zep_graph_memory_updater.py *)
(* ================================================================== *)

Module MemoryUpdater.

Import Py Eff.

Record AgentActivity : Type := mkActivity {
  platform : pystr;
  agent_id : json;
  agent_name : json;
  action_type : json;
  action_args : json;
  round_num : json;
  timestamp : json
}.

(** The collaborators of the updater. *)
Record Env : Type := mkEnv {
  rt : Runtime;
  (** whether the k-th call of [client.graph.add] raises *)
  graph_add : nat -> pystr -> option Exception;
  (** [datetime.now().isoformat()] *)
  now : pystr
}.

(** ** [AgentActivity.to_episode_text] *)

(** [self.action_args.get(k, "")] *)
Definition arg (a : AgentActivity) (k : pystr) : Exception + json :=
  py_get (action_args a) k (JStr []).

(** [self.action_args.get(k1, "") or self.action_args.get(k2, "")] *)
Definition arg_or (a : AgentActivity) (k1 k2 : pystr) : Exception + json :=
  and_then (arg a k1) (fun v =>
  if truthy v then inr v else arg a k2).

(** [f"{with_id}{v}" if v else without]: the pattern of most descriptions. *)
Definition describe_id (rt : Runtime) (v : json) (with_id without : pystr)
  : pystr :=
  if truthy v then with_id ++ py_str rt v else without.

Definition _describe_create_post (rt : Runtime) (a : AgentActivity)
  : Exception + pystr :=
  and_then (arg a (py "content")) (fun content =>
  inr (if truthy content
       then py "发布了一条帖子：「" ++ py_str rt content ++ py "」"
       else py "发布了一条帖子")).

Definition _describe_like_post (rt : Runtime) (a : AgentActivity)
  : Exception + pystr :=
  and_then (arg a (py "post_id")) (fun post_id =>
  inr (describe_id rt post_id (py "点赞了帖子#") (py "点赞了一条帖子"))).

Definition _describe_dislike_post (rt : Runtime) (a : AgentActivity)
  : Exception + pystr :=
  and_then (arg a (py "post_id")) (fun post_id =>
  inr (describe_id rt post_id (py "踩了帖子#") (py "踩了一条帖子"))).

Definition _describe_repost (rt : Runtime) (a : AgentActivity)
  : Exception + pystr :=
  and_then (arg a (py "post_id")) (fun post_id =>
  inr (describe_id rt post_id (py "转发了帖子#") (py "转发了一条帖子"))).

Definition _describe_quote_post (rt : Runtime) (a : AgentActivity)
  : Exception + pystr :=
  and_then (arg a (py "quoted_id")) (fun quoted_id =>
  and_then (arg a (py "content")) (fun content =>
  inr (if truthy quoted_id then
         if truthy content
         then py "引用帖子#" ++ py_str rt quoted_id ++ py "并评论：「"
              ++ py_str rt content ++ py "」"
         else py "引用了帖子#" ++ py_str rt quoted_id
       else py "引用了一条帖子"))).

Definition _describe_follow (rt : Runtime) (a : AgentActivity)
  : Exception + pystr :=
  and_then (arg_or a (py "user_id") (py "target_id")) (fun target_id =>
  inr (describe_id rt target_id (py "关注了用户#") (py "关注了一个用户"))).

Definition _describe_create_comment (rt : Runtime) (a : AgentActivity)
  : Exception + pystr :=
  and_then (arg a (py "content")) (fun content =>
  and_then (arg a (py "post_id")) (fun post_id =>
  inr (if truthy content then
         let base := py "评论道：「" ++ py_str rt content ++ py "」" in
         if truthy post_id
         then py "在帖子#" ++ py_str rt post_id ++ py "下" ++ base
         else base
       else if truthy post_id
            then py "在帖子#" ++ py_str rt post_id ++ py "下发表了评论"
            else py "发表了评论"))).

Definition _describe_like_comment (rt : Runtime) (a : AgentActivity)
  : Exception + pystr :=
  and_then (arg a (py "comment_id")) (fun comment_id =>
  inr (describe_id rt comment_id (py "点赞了评论#") (py "点赞了一条评论"))).

Definition _describe_dislike_comment (rt : Runtime) (a : AgentActivity)
  : Exception + pystr :=
  and_then (arg a (py "comment_id")) (fun comment_id =>
  inr (describe_id rt comment_id (py "踩了评论#") (py "踩了一条评论"))).

Definition _describe_search (rt : Runtime) (a : AgentActivity)
  : Exception + pystr :=
  and_then (arg_or a (py "query") (py "keyword")) (fun query =>
  inr (if truthy query
       then py "搜索了「" ++ py_str rt query ++ py "」"
       else py "进行了搜索")).

Definition _describe_search_user (rt : Runtime) (a : AgentActivity)
  : Exception + pystr :=
  and_then (arg_or a (py "query") (py "username")) (fun query =>
  inr (if truthy query
       then py "搜索了用户「" ++ py_str rt query ++ py "」"
       else py "搜索了用户")).

Definition _describe_mute (rt : Runtime) (a : AgentActivity)
  : Exception + pystr :=
  and_then (arg_or a (py "user_id") (py "target_id")) (fun target_id =>
  inr (describe_id rt target_id (py "屏蔽了用户#") (py "屏蔽了一个用户"))).

Definition _describe_generic (rt : Runtime) (a : AgentActivity)
  : Exception + pystr :=
  inr (py "执行了" ++ py_str rt (action_type a) ++ py "操作").

(** The table [action_descriptions], in its order. *)
Definition action_descriptions
  : list (pystr * (Runtime -> AgentActivity -> Exception + pystr)) :=
  [ (py "CREATE_POST", _describe_create_post);
    (py "LIKE_POST", _describe_like_post);
    (py "DISLIKE_POST", _describe_dislike_post);
    (py "REPOST", _describe_repost);
    (py "QUOTE_POST", _describe_quote_post);
    (py "FOLLOW", _describe_follow);
    (py "CREATE_COMMENT", _describe_create_comment);
    (py "LIKE_COMMENT", _describe_like_comment);
    (py "DISLIKE_COMMENT", _describe_dislike_comment);
    (py "SEARCH_POSTS", _describe_search);
    (py "SEARCH_USER", _describe_search_user);
    (py "MUTE", _describe_mute) ].

Fixpoint lookup_description
    (table : list (pystr * (Runtime -> AgentActivity -> Exception + pystr)))
    (k : pystr) : Runtime -> AgentActivity -> Exception + pystr :=
  match table with
  | [] => _describe_generic
  | (k', f) :: rest => if str_eqb k' k then f else lookup_description rest k
  end.

(** [action_descriptions.get(self.action_type, self._describe_generic)]: a
    key that is a list or a dict cannot be hashed, and the lookup raises. *)
Definition describe_func (a : AgentActivity)
  : Exception + (Runtime -> AgentActivity -> Exception + pystr) :=
  match action_type a with
  | JStr t => inr (lookup_description action_descriptions t)
  | JArr _ | JObj _ =>
    inl (mkExc (py "TypeError")
               (py "unhashable type: '" ++ type_name (action_type a) ++ py "'"))
  | _ => inr _describe_generic
  end.

Definition to_episode_text (rt : Runtime) (a : AgentActivity)
  : Exception + pystr :=
  and_then (describe_func a) (fun f =>
  and_then (f rt a) (fun description =>
  inr (py_str rt (agent_name a) ++ py ": " ++ description))).

(** The updater object. [handled] and [graph_log] record what happened and
    are never read by the code: the activities handed to
    [_send_single_activity], and every call of [client.graph.add] with the
    activity it was made for. *)
Record Updater : Type := mkUpdater {
  activity_queue : list AgentActivity;
  running : bool;
  total_activities : nat;
  total_sent : nat;
  failed_count : nat;
  handled : list AgentActivity;
  graph_log : list (AgentActivity * pystr)
}.

Definition initial : Updater := mkUpdater [] false 0 0 0 [] [].

Definition MAX_RETRIES : nat := 3.

Definition is_do_nothing (a : AgentActivity) : bool :=
  match action_type a with
  | JStr t => str_eqb t (py "DO_NOTHING")
  | _ => false
  end.

Definition add_activity (activity : AgentActivity) (u : Updater) : Updater :=
  if is_do_nothing activity then u
  else
    mkUpdater (activity_queue u ++ [activity]) (running u)
              (S (total_activities u)) (total_sent u) (failed_count u)
              (handled u) (graph_log u).

Definition dict_get_default (data : list (pystr * json)) (k : pystr)
    (dflt : json) : json :=
  default dflt (dict_get data k).

Definition activity_of_dict (env : Env) (data : list (pystr * json))
    (platform : pystr) : AgentActivity :=
  mkActivity platform
    (dict_get_default data (py "agent_id") (JInt 0))
    (dict_get_default data (py "agent_name") (JStr []))
    (dict_get_default data (py "action_type") (JStr []))
    (dict_get_default data (py "action_args") (JObj []))
    (dict_get_default data (py "round") (JInt 0))
    (dict_get_default data (py "timestamp") (JStr (now env))).

Definition add_activity_from_dict (env : Env) (data : list (pystr * json))
    (platform : pystr) (u : Updater) : Updater :=
  if dict_has data (py "event_type") then u
  else add_activity (activity_of_dict env data platform) u.

(** The retry loop of [_send_single_activity], with [attempts] tries left. *)
Fixpoint send_attempts (env : Env) (activity : AgentActivity) (text : pystr)
    (attempts : nat) (u : Updater) : Updater :=
  match attempts with
  | O => u
  | S rest =>
    let u' :=
      mkUpdater (activity_queue u) (running u) (total_activities u)
                (total_sent u) (failed_count u) (handled u)
                (graph_log u ++ [(activity, text)]) in
    match graph_add env (length (graph_log u)) text with
    | None =>
      mkUpdater (activity_queue u') (running u') (total_activities u')
                (S (total_sent u')) (failed_count u') (handled u')
                (graph_log u')
    | Some _ =>
      match rest with
      | O =>
        mkUpdater (activity_queue u') (running u') (total_activities u')
                  (total_sent u') (S (failed_count u')) (handled u')
                  (graph_log u')
      | S _ => send_attempts env activity text rest u'
      end
    end
  end.

(** [_send_single_activity]: the text is computed first, outside any
    [try], so an exception of [to_episode_text] leaves the method before
    anything is sent. *)
Definition _send_single_activity (env : Env) (activity : AgentActivity)
    (u : Updater) : option Exception * Updater :=
  let u1 :=
    mkUpdater (activity_queue u) (running u) (total_activities u)
              (total_sent u) (failed_count u) (handled u ++ [activity])
              (graph_log u) in
  match to_episode_text (rt env) activity with
  | inl e => (Some e, u1)
  | inr text => (None, send_attempts env activity text MAX_RETRIES u1)
  end.

(** [self._activity_queue.get()] *)
Definition dequeue (u : Updater) : option (AgentActivity * Updater) :=
  match activity_queue u with
  | [] => None
  | a :: q =>
    Some (a, mkUpdater q (running u) (total_activities u) (total_sent u)
                       (failed_count u) (handled u) (graph_log u))
  end.

(** One round of the [while] loop of [_worker_loop], entered while the
    updater runs or the queue holds something: it takes an activity if there
    is one and sends it; an exception is logged and the loop goes on. *)
Definition worker_iteration (env : Env) (u : Updater) : Updater :=
  if running u || is_some (dequeue u) then
    match dequeue u with
    | None => u
    | Some (activity, u') => snd (_send_single_activity env activity u')
    end
  else u.

(** [_worker_loop] over [rounds] rounds with no other thread stepping in
    between; once the updater is stopped and the queue empty the rounds
    change nothing, as the loop has ended. *)
Fixpoint _worker_loop (env : Env) (rounds : nat) (u : Updater) : Updater :=
  match rounds with
  | O => u
  | S n => _worker_loop env n (worker_iteration env u)
  end.

(** [_flush_remaining]: the loop ends with the queue, or with the first
    exception, which it does not catch. [n] bounds the rounds; the length of
    the queue is enough. *)
Fixpoint flush_loop (env : Env) (n : nat) (u : Updater)
  : option Exception * Updater :=
  match n with
  | O => (None, u)
  | S n' =>
    match dequeue u with
    | None => (None, u)
    | Some (activity, u') =>
      match _send_single_activity env activity u' with
      | (None, u'') => flush_loop env n' u''
      | (Some e, u'') => (Some e, u'')
      end
    end
  end.

Definition _flush_remaining (env : Env) (u : Updater)
  : option Exception * Updater :=
  flush_loop env (length (activity_queue u)) u.

Definition set_running (b : bool) (u : Updater) : Updater :=
  mkUpdater (activity_queue u) b (total_activities u) (total_sent u)
            (failed_count u) (handled u) (graph_log u).

(** [start] *)
Definition start (u : Updater) : Updater :=
  if running u then u else set_running true u.

(** [stop]: the flag is cleared and the queue flushed (the join of the
    worker thread has no effect on the state). *)
Definition stop (env : Env) (u : Updater) : option Exception * Updater :=
  _flush_remaining env (set_running false u).

(** What the threads of a run do to the updater, one atomic step each: the
    callers add activities, start and stop; the worker thread runs rounds of
    its loop in between. *)
Inductive Op : Type :=
| OpStart
| OpStop
| OpAddActivity (activity : AgentActivity)
| OpAddActivityFromDict (data : list (pystr * json)) (platform : pystr)
| OpWorkerIteration.

Definition apply_op (env : Env) (u : Updater) (op : Op) : Updater :=
  match op with
  | OpStart => start u
  | OpStop => snd (stop env u)
  | OpAddActivity a => add_activity a u
  | OpAddActivityFromDict data p => add_activity_from_dict env data p u
  | OpWorkerIteration => worker_iteration env u
  end.

(** The updater after a schedule of steps. *)
Definition run (env : Env) (ops : list Op) (u : Updater) : Updater :=
  fold_left (apply_op env) ops u.

End MemoryUpdater.

(* ================================================================== *)
(** * Part VII: further functions of the three services *)
(* ================================================================== *)

(** ** zep_tools.py: [ZepToolsService] *)

Module ZepToolsService.

Import Py Eff ZepTools.
Local Open Scope eff_scope.

Definition MAX_RETRIES : Z := 3.

(** [raise None], which is what [raise last_exception] does when the loop
    has not run. *)
Definition TypeError_raise_None : Exception :=
  mkExc (py "TypeError") (py "exceptions must derive from BaseException").

(** The loop [for attempt in range(max_retries)] of [_call_with_retry] with
    [attempts] rounds to go. The state counts the calls of [func] made so
    far; [func] is asked with that number, so that it may answer each call
    differently. The waiting between two attempts is left out. *)
Fixpoint retry_attempts {A} (func : nat -> Exception + A) (attempts : nat)
    (last_exception : option Exception) : M nat A :=
  match attempts with
  | O => raise (default TypeError_raise_None last_exception)
  | S rest =>
    fun k =>
      match func k with
      | inr a => (inr a, S k)
      | inl e => retry_attempts func rest (Some e) (S k)
      end
  end.

(** [max_retries or self.MAX_RETRIES] *)
Definition effective_retries (max_retries : option Z) : Z :=
  match max_retries with
  | Some n => if (n =? 0)%Z then MAX_RETRIES else n
  | None => MAX_RETRIES
  end.

(** [_call_with_retry(func, operation_name, max_retries)]; [range] of a
    negative number is empty. *)
Definition _call_with_retry {A} (func : nat -> Exception + A)
    (max_retries : option Z) : M nat A :=
  retry_attempts func (Z.to_nat (effective_retries max_retries)) None.

(** [edge.source_node_uuid == node_uuid or edge.target_node_uuid == node_uuid] *)
Definition touches (node_uuid : pystr) (edge : EdgeInfo) : bool :=
  str_eqb (e_source_node_uuid edge) node_uuid
  || str_eqb (e_target_node_uuid edge) node_uuid.

(** [get_node_edges]: the whole body is inside [try], and the [except]
    branch returns the empty list. *)
Definition get_node_edges (g : Graph) (node_uuid : pystr) : list EdgeInfo :=
  match all_edges g with
  | inr es => filter (fun edge => touches node_uuid edge = true) es
  | inl _ => []
  end.

(** [x in l] on a list of strings *)
Definition str_in (x : pystr) (l : list pystr) : bool := existsb (str_eqb x) l.

(** [get_entities_by_type]: no [try] here. *)
Definition get_entities_by_type (g : Graph) (entity_type : pystr)
  : Exception + list NodeInfo :=
  and_then (all_nodes g) (fun ns =>
  inr (filter (fun node => str_in entity_type (n_labels node) = true) ns)).

(** A [dict] from strings to counts, in insertion order. *)
Definition Counts : Type := list (pystr * Z).

(** [d.get(k, 0)] *)
Fixpoint count_get (d : Counts) (k : pystr) : Z :=
  match d with
  | [] => 0%Z
  | (k', n) :: rest => if str_eqb k' k then n else count_get rest k
  end.

(** [d[k] = n]: an existing key keeps its place. *)
Fixpoint count_set (d : Counts) (k : pystr) (n : Z) : Counts :=
  match d with
  | [] => [(k, n)]
  | (k', n') :: rest =>
    if str_eqb k' k then (k', n) :: rest else (k', n') :: count_set rest k n
  end.

(** [d[k] = d.get(k, 0) + 1] *)
Definition count_one (d : Counts) (k : pystr) : Counts :=
  count_set d k (count_get d k + 1)%Z.

(** [label not in ["Entity", "Node"]] *)
Definition is_custom_label (label : pystr) : bool :=
  negb (str_in label [py "Entity"; py "Node"]).

(** The dict [get_graph_statistics] returns. *)
Record Statistics : Type := mkStatistics {
  st_graph_id : pystr;
  st_total_nodes : nat;
  st_total_edges : nat;
  st_entity_types : Counts;
  st_relation_types : Counts
}.

(** The two counting loops of [get_graph_statistics]. *)
Definition count_entity_types (ns : list NodeInfo) : Counts :=
  fold_left
    (fun entity_types node =>
       fold_left
         (fun entity_types label =>
            if is_custom_label label then count_one entity_types label
            else entity_types)
         (n_labels node) entity_types)
    ns [].

Definition count_relation_types (es : list EdgeInfo) : Counts :=
  fold_left (fun relation_types edge => count_one relation_types (e_name edge))
            es [].

(** [get_graph_statistics]: the nodes are fetched first, then the edges;
    a failure of either leaves the method. *)
Definition get_graph_statistics (g : Graph) (graph_id : pystr)
  : Exception + Statistics :=
  and_then (all_nodes g) (fun ns =>
  and_then (all_edges g) (fun es =>
  inr (mkStatistics graph_id (length ns) (length es)
                    (count_entity_types ns) (count_relation_types es)))).

(** [NodeInfo.to_text]: the type shown is the first label that is neither
    [Entity] nor [Node]. *)
Definition entity_type_of (labels : list pystr) : pystr :=
  match filter (fun l => is_custom_label l = true) labels with
  | l :: _ => l
  | [] => py "未知类型"
  end.

Definition node_to_text (node : NodeInfo) : pystr :=
  py "实体: " ++ n_name node ++ py " (类型: " ++ entity_type_of (n_labels node)
  ++ py ")" ++ nl ++ py "摘要: " ++ n_summary node.

End ZepToolsService.

(** ** zep_graph_memory_updater.py: [get_stats] and the manager *)

Module ZepGraphMemoryManager.

Import Py Eff MemoryUpdater.
Local Open Scope eff_scope.

(** The dict [get_stats] returns. [graph_id] is the updater's field of that
    name, which takes no part in what the updater does. *)
Record Stats : Type := mkStats {
  stats_graph_id : pystr;
  stats_total_activities : nat;
  stats_total_sent : nat;
  stats_failed_count : nat;
  stats_queue_size : nat;
  stats_running : bool
}.

(** [ZepGraphMemoryUpdater.get_stats] *)
Definition get_stats (graph_id : pystr) (u : Updater) : Stats :=
  mkStats graph_id (total_activities u) (total_sent u) (failed_count u)
          (length (activity_queue u)) (running u).

(** The collaborators of the manager: those of the updaters it creates,
    and [Config.ZEP_API_KEY]. *)
Record ManagerEnv : Type := mkManagerEnv {
  updater_env : MemoryUpdater.Env;
  ZEP_API_KEY : option pystr
}.

(** [not (api_key or Config.ZEP_API_KEY)] with [api_key=None] *)
Definition key_missing (env : ManagerEnv) : bool :=
  match ZEP_API_KEY env with
  | Some (_ :: _) => false
  | _ => true
  end.

(** [ZepGraphMemoryUpdater(graph_id)]: a new updater, or [ValueError]
    (making the client of the graph service is taken not to raise). *)
Definition new_updater (env : ManagerEnv) : Exception + Updater :=
  if key_missing env
  then inl (mkExc (py "ValueError") (py "ZEP_API_KEY未配置"))
  else inr initial.

(** The class attribute [_updaters]: a dict from simulation ids to updaters,
    in insertion order. An entry holds the updater as it is now, with its
    [graph_id]; every entry is an object of its own, [create_updater] being
    the only writer and making a new updater each time. *)
Definition Registry : Type := list (pystr * (pystr * Updater)).

(** [d.get(k)] *)
Fixpoint reg_get (d : Registry) (k : pystr) : option (pystr * Updater) :=
  match d with
  | [] => None
  | (k', v) :: rest => if str_eqb k' k then Some v else reg_get rest k
  end.

(** [d[k] = v]: an existing key keeps its place. *)
Fixpoint reg_set (d : Registry) (k : pystr) (v : pystr * Updater) : Registry :=
  match d with
  | [] => [(k, v)]
  | (k', v') :: rest =>
    if str_eqb k' k then (k', v) :: rest else (k', v') :: reg_set rest k v
  end.

(** [del d[k]] *)
Definition reg_del (d : Registry) (k : pystr) : Registry :=
  filter (fun p => str_eqb (fst p) k = false) d.

(** [create_updater]: an updater already registered for the simulation is
    stopped first; the new one is started and takes its place. The state
    left behind is the registry, also when the method raises. *)
Definition create_updater (env : ManagerEnv) (simulation_id graph_id : pystr)
  : M Registry Updater :=
  run! (fun d =>
          match reg_get d simulation_id with
          | Some (g0, u0) =>
            let '(r, u0') := stop (updater_env env) u0 in
            let d' := reg_set d simulation_id (g0, u0') in
            match r with
            | Some e => (inl e, d')
            | None => (inr tt, d')
            end
          | None => (inr tt, d)
          end) in
  let! updater := lift (new_updater env) in
  let updater := start updater in
  run! modify (fun d => reg_set d simulation_id (graph_id, updater)) in
  ret updater.

(** [get_updater] *)
Definition get_updater (d : Registry) (simulation_id : pystr)
  : option (pystr * Updater) :=
  reg_get d simulation_id.

(** [stop_updater]: the entry is deleted after [stop] has returned. *)
Definition stop_updater (env : ManagerEnv) (simulation_id : pystr) : M Registry unit :=
  fun d =>
    match reg_get d simulation_id with
    | Some (g0, u0) =>
      let '(r, u0') := stop (updater_env env) u0 in
      match r with
      | Some e => (inl e, reg_set d simulation_id (g0, u0'))
      | None => (inr tt, reg_del d simulation_id)
      end
    | None => (inr tt, d)
    end.

(** [stop_all]: every updater is stopped, an exception of [stop] being
    dropped, and the registry is cleared. The first component is the
    registry left behind; the second holds the updaters as [stop] left
    them, which the registry no longer refers to. *)
Definition stop_all (env : ManagerEnv) (d : Registry) : Registry * Registry :=
  ([], map (fun '(simulation_id, (g, u)) =>
              (simulation_id, (g, snd (stop (updater_env env) u)))) d).

(** [get_all_stats] *)
Definition get_all_stats (d : Registry) : list (pystr * Stats) :=
  map (fun '(simulation_id, (g, u)) => (simulation_id, get_stats g u)) d.

End ZepGraphMemoryManager.

(** ** report_agent.py: the tool table and the data classes *)

Module ReportTools.

Import Py Eff ReportAgent.

(** One entry of [self.tools]. *)
Record Tool : Type := mkTool {
  tool_name : pystr;
  tool_description : pystr;
  tool_parameters : list (pystr * pystr)
}.

(** [ReportAgent._define_tools], in the order of the source. *)
Definition _define_tools : list (pystr * Tool) :=
  [ (py "search_graph",
     mkTool (py "search_graph")
       (py "在知识图谱中搜索相关信息。输入搜索查询，返回与查询相关的事实和关系。")
       [(py "query", py "搜索查询字符串");
        (py "limit", py "返回结果数量（可选，默认10）")]);
    (py "get_graph_statistics",
     mkTool (py "get_graph_statistics")
       (py "获取知识图谱的统计信息，包括节点数量、边数量、实体类型分布等。")
       []);
    (py "get_entity_summary",
     mkTool (py "get_entity_summary")
       (py "获取指定实体的详细信息和关系摘要。")
       [(py "entity_name", py "实体名称")]);
    (py "get_simulation_context",
     mkTool (py "get_simulation_context")
       (py "获取与模拟需求相关的上下文信息，包括相关事实、实体列表等。")
       [(py "query", py "额外的查询条件（可选）")]);
    (py "get_entities_by_type",
     mkTool (py "get_entities_by_type")
       (py "按类型获取实体列表，如获取所有Student类型或PublicFigure类型的实体。")
       [(py "entity_type", py "实体类型名称")]) ].

(** The lines one tool adds to the description. *)
Definition tool_lines (entry : pystr * Tool) : list pystr :=
  let '(name, tool) := entry in
  let params_desc :=
    join (py ", ")
         (map (fun '(k, v) => k ++ py ": " ++ v) (tool_parameters tool)) in
  [py "- " ++ name ++ py ": " ++ tool_description tool]
  ++ (if nonempty params_desc then [py "  参数: " ++ params_desc] else []).

(** [ReportAgent._get_tools_description] *)
Definition _get_tools_description (tools : list (pystr * Tool)) : pystr :=
  join nl ([py "可用工具："] ++ flat_map tool_lines tools).

(** [ReportSection.to_markdown(level)] *)
Fixpoint to_markdown (rt : Runtime) (level : nat) (s : ReportSection)
  : pystr :=
  match s with
  | mkSection title content subsections =>
    repeat 35%N level ++ py " " ++ py_str rt title ++ nl ++ nl
    ++ (if nonempty content then content ++ nl ++ nl else [])
    ++ flat_map (to_markdown rt (S level)) subsections
  end.

(** [ReportOutline.to_markdown] *)
Definition outline_to_markdown (rt : Runtime) (o : ReportOutline) : pystr :=
  py "# " ++ py_str rt (o_title o) ++ nl ++ nl
  ++ py "> " ++ py_str rt (o_summary o) ++ nl ++ nl
  ++ flat_map (to_markdown rt 2) (o_sections o).

End ReportTools.

(* ================================================================== *)
(** * Part VIII: the vocabulary of the claims *)
(* ================================================================== *)

(** The predicates in which the claims are stated, and the concrete
    collaborators and inputs on which they are tried. *)

Import Py.

Module PlannerSpec.
Import Eff ReportAgent.

(** The bound the specification puts on an outline: one to five sections,
    at most two subsections in each. *)
Definition within_bounds (o : ReportOutline) : Prop :=
  1 <= length (o_sections o) <= 5
  /\ Forall (fun s => length (sec_subsections s) <= 2) (o_sections o).

(** [subsection_of sub_data sub]: [sub] is the subsection made from the
    element [sub_data] of the response: its title, and nothing else. *)
Definition subsection_of (sub_data : json) (sub : ReportSection) : Prop :=
  py_get sub_data (py "title") (JStr []) = inr (sec_title sub)
  /\ sec_content sub = [] /\ sec_subsections sub = [].

(** [section_of section_data s]: [s] is the section made from the element
    [section_data]: its title, and one subsection for each element of its
    [subsections], in order. *)
Definition section_of (section_data : json) (s : ReportSection) : Prop :=
  py_get section_data (py "title") (JStr []) = inr (sec_title s)
  /\ sec_content s = []
  /\ exists subs,
       and_then (py_get section_data (py "subsections") (JArr [])) py_iter
       = inr subs
       /\ Forall2 subsection_of subs (sec_subsections s).

(** The bound read on the response: on the elements of its [sections] and
    of the [subsections] of each. *)
Definition response_within_bounds (secs : list json) : Prop :=
  1 <= length secs <= 5
  /\ Forall (fun section_data =>
               exists subs,
                 and_then (py_get section_data (py "subsections") (JArr []))
                          py_iter = inr subs
                 /\ length subs <= 2) secs.

(** A response of the model with [n] sections of [k] subsections each. *)
Definition response_with (n k : nat) : json :=
  JObj [(py "title", JStr (py "T")); (py "summary", JStr (py "S"));
        (py "sections",
         JArr (repeat
                 (JObj [(py "title", JStr (py "A"));
                        (py "subsections",
                         JArr (repeat (JObj [(py "title", JStr (py "B"))]) k))])
                 n))].

(** Collaborators that answer the planner with a given document, or with an
    exception, and never fail otherwise. *)
Definition planner_env (answer : Exception + json) : Env :=
  {| rt := ascii_runtime;
     llm_chat := fun _ _ => inr (py "Final Answer: text");
     llm_chat_json := fun _ _ => answer;
     zep_context := inr (JObj []);
     zep_tool := fun _ _ _ => inr [];
     fs_fault := fun _ => None;
     user_callback := None;
     plan_prompt := fun _ => [];
     section_prompt := fun _ _ _ => [];
     chat_system_prompt := [];
     self_graph_id := py "graph";
     self_simulation_id := py "sim";
     self_simulation_requirement := py "requirement" |}.

(** The same, with a given context. *)
Definition planner_env_with_context (context : json)
    (answer : Exception + json) : Env :=
  {| rt := ascii_runtime;
     llm_chat := fun _ _ => inr (py "Final Answer: text");
     llm_chat_json := fun _ _ => answer;
     zep_context := inr context;
     zep_tool := fun _ _ _ => inr [];
     fs_fault := fun _ => None;
     user_callback := None;
     plan_prompt := fun _ => [];
     section_prompt := fun _ _ _ => [];
     chat_system_prompt := [];
     self_graph_id := py "graph";
     self_simulation_id := py "sim";
     self_simulation_requirement := py "requirement" |}.

End PlannerSpec.

Module ParserSpec.
Import Re ReportAgent.

(** The calls one block of the first format contributes. *)
Definition xml_calls (rt : Runtime) (m : Match) : list json :=
  match rt_json_loads rt (group 1 m) with
  | Some call_data => [call_data]
  | None => []
  end.




(** A runtime for ASCII text whose [json.loads] reads the empty object and
    nothing else. *)
Definition empty_object_runtime : Runtime :=
  {| rt_isalnum := rt_isalnum ascii_runtime;
     rt_lower := rt_lower ascii_runtime;
     rt_json_loads :=
       fun s => if str_eqb s (py "{}") then Some (JObj []) else None;
     rt_str := rt_str ascii_runtime;
     rt_int := rt_int ascii_runtime |}.


End ParserSpec.

Module ReactSpec.
Import Re Eff ReportAgent.

(** A progress callback that only reports: it executes no tool and asks the
    model nothing. *)
Definition reporting_only (cb : option Callback) : Prop :=
  forall f stage prog msg w,
    cb = Some f ->
    tool_log (snd (f stage prog msg w)) = tool_log w
    /\ llm_calls (snd (f stage prog msg w)) = llm_calls w.

(** A model that asks for two tools on every turn and never concludes. *)
Definition greedy_env : Env :=
  {| rt := ascii_runtime;
     llm_chat :=
       fun _ _ =>
         inr (py "[TOOL_CALL] get_graph_statistics() [TOOL_CALL] search_graph(query='x')");
     llm_chat_json := fun _ _ => inr JNull;
     zep_context := inr (JObj []);
     zep_tool := fun _ _ _ => inr (py "{}");
     fs_fault := fun _ => None;
     user_callback := None;
     plan_prompt := fun _ => [];
     section_prompt := fun _ _ _ => [];
     chat_system_prompt := [];
     self_graph_id := py "graph";
     self_simulation_id := py "sim";
     self_simulation_requirement := py "requirement" |}.

End ReactSpec.

Module ChatSpec.
Import Re Eff ReportAgent.

(** [executed_as call entry]: the entry of the tool log is the execution of
    the parsed call: its name and its parameters (or the empty dict). *)
Definition executed_as (call : json) (entry : json * json) : Prop :=
  py_getitem call (py "name") = inr (fst entry)
  /\ py_get call (py "parameters") (JObj []) = inr (snd entry).

(** A text holds tool-call syntax when one of the two formats of the parser
    matches in it. *)
Definition has_tool_call_syntax (rt : Runtime) (text : pystr) : Prop :=
  finditer xml_pattern text <> [] \/ finditer (func_pattern rt) text <> [].

(** A model that asks for the statistics tool on every turn. *)
Definition always_calls_env : Env :=
  {| rt := ascii_runtime;
     llm_chat := fun _ _ => inr (py "[TOOL_CALL] get_graph_statistics()");
     llm_chat_json := fun _ _ => inr JNull;
     zep_context := inr (JObj []);
     zep_tool := fun _ _ _ => inr (py "{}");
     fs_fault := fun _ => None;
     user_callback := None;
     plan_prompt := fun _ => [];
     section_prompt := fun _ _ _ => [];
     chat_system_prompt := [];
     self_graph_id := py "graph";
     self_simulation_id := py "sim";
     self_simulation_requirement := py "requirement" |}.

(** A model that answers in plain words. *)
Definition plain_answer_env : Env :=
  {| rt := ascii_runtime;
     llm_chat := fun _ _ => inr (py " It rose. ");
     llm_chat_json := fun _ _ => inr JNull;
     zep_context := inr (JObj []);
     zep_tool := fun _ _ _ => inr (py "{}");
     fs_fault := fun _ => None;
     user_callback := None;
     plan_prompt := fun _ => [];
     section_prompt := fun _ _ _ => [];
     chat_system_prompt := [];
     self_graph_id := py "graph";
     self_simulation_id := py "sim";
     self_simulation_requirement := py "requirement" |}.

End ChatSpec.

Module PipelineSpec.
Import Re Eff ReportAgent.

(** The report as [generate_report] creates it. *)
Definition new_report (env : Env) (rid : pystr) : Report :=
  mkReport rid (self_simulation_id env) (self_graph_id env)
           (self_simulation_requirement env) PENDING None [] None.

(** [keeps_error m]: the computation leaves the error field of the report
    alone. *)
Definition keeps_error {A} (m : M GenState A) : Prop :=
  forall g r g', m g = (r, g') -> error (g_report g') = error (g_report g).

(** The planner's answer: one section with two subsections. *)
Definition one_section_two_subsections : json :=
  JObj [(py "title", JStr (py "T")); (py "summary", JStr (py "S"));
        (py "sections",
         JArr [JObj [(py "title", JStr (py "A"));
                     (py "subsections",
                      JArr [JObj [(py "title", JStr (py "A1"))];
                            JObj [(py "title", JStr (py "A2"))]])]])].

(** Collaborators of a run without failures: the planner answers with
    [one_section_two_subsections], the model thinks aloud on its first turn
    on the first section and gives a final answer on every other turn; the
    caller passes a progress callback. *)
Definition smooth_env : Env :=
  {| rt := ascii_runtime;
     llm_chat :=
       fun k _ => if (k =? 1)%nat then inr (py "Let me think.")
                  else inr (py "Final Answer: text");
     llm_chat_json := fun _ _ => inr one_section_two_subsections;
     zep_context := inr (JObj []);
     zep_tool := fun _ _ _ => inr (py "{}");
     fs_fault := fun _ => None;
     user_callback := Some (fun _ _ => None);
     plan_prompt := fun _ => [];
     section_prompt := fun _ _ _ => [];
     chat_system_prompt := [];
     self_graph_id := py "graph";
     self_simulation_id := py "sim";
     self_simulation_requirement := py "requirement" |}.

(** The same collaborators on a disk where every operation fails. *)
Definition broken_disk_env : Env :=
  {| rt := rt smooth_env;
     llm_chat := llm_chat smooth_env;
     llm_chat_json := llm_chat_json smooth_env;
     zep_context := zep_context smooth_env;
     zep_tool := zep_tool smooth_env;
     fs_fault := fun _ => Some (mkExc (py "OSError") (py "disk full"));
     user_callback := user_callback smooth_env;
     plan_prompt := plan_prompt smooth_env;
     section_prompt := section_prompt smooth_env;
     chat_system_prompt := chat_system_prompt smooth_env;
     self_graph_id := self_graph_id smooth_env;
     self_simulation_id := self_simulation_id smooth_env;
     self_simulation_requirement := self_simulation_requirement smooth_env |}.

(** A sequence of percentages that never goes down. *)
Fixpoint nondecreasing (l : list Z) : Prop :=
  match l with
  | [] => True
  | x :: rest =>
    match rest with
    | [] => True
    | y :: _ => (x <= y)%Z /\ nondecreasing rest
    end
  end.

End PipelineSpec.

Module ProgressSpec.
Import Re Eff ReportAgent.

(** [silent m]: the computation writes no progress record. *)
Definition silent {A} (m : M World A) : Prop :=
  forall w r w', m w = (r, w') -> progress_log w' = progress_log w.

(** [appends lo hi m]: whatever way [m] ends, the progress records it has
    written are in non-decreasing order of percentage, all between [lo] and
    [hi]. *)
Definition appends {A} (lo hi : Z) (m : M GenState A) : Prop :=
  forall g r g',
    m g = (r, g') ->
    exists l,
      progress_log (g_world g') = progress_log (g_world g) ++ l
      /\ PipelineSpec.nondecreasing (map p_progress l)
      /\ Forall (fun d => (lo <= p_progress d <= hi)%Z) l.

(** A [progress_callback] argument that writes no progress record. *)
Definition silent_callback (cb : option Callback) : Prop :=
  forall f, cb = Some f -> forall stage prog msg, silent (f stage prog msg).

(** [gsilent m]: the same, for a step of [generate_report]. *)
Definition gsilent {A} (m : M GenState A) : Prop :=
  forall g r g',
    m g = (r, g') -> progress_log (g_world g') = progress_log (g_world g).

(** [20 + int((i / total_sections) * 70)]: the percentage at which section
    [i] starts. *)
Definition section_base (i total_sections : nat) : Z :=
  (20 + int_of_float
          (float_mul (int_truediv (Z.of_nat i) (Z.of_nat total_sections))
                     (float_of_int 70)))%Z.

(** [int(70 / total_sections)]: what a finished section adds. *)
Definition section_share (total_sections : nat) : Z :=
  int_of_float (int_truediv 70 (Z.of_nat total_sections)).

(** The percentages of section [i] fit before those of section [i + 1]. *)
Definition section_fits (total_sections i : nat) : bool :=
  (20 <=? section_base i total_sections)%Z
  && (0 <=? section_share total_sections)%Z
  && (section_base i total_sections + section_share total_sections
      <=? section_base (S i) total_sections)%Z
  && (section_base (S i) total_sections <=? 90)%Z.

(** An outline without subsections and with fewer than 70 sections. *)
Definition plain_outline (o : ReportOutline) : Prop :=
  (length (o_sections o) < 70)%nat
  /\ Forall (fun s => sec_subsections s = []) (o_sections o).

(** A planner that proposes plain outlines only. *)
Definition plain_planner (env : Env) : Prop :=
  forall k messages response o,
    llm_chat_json env k messages = inr response ->
    parse_outline response = inr o ->
    plain_outline o.

End ProgressSpec.

Module StoreSpec.
Import Re Eff ReportAgent.

(** The section files of a folder, in the order [get_generated_sections]
    reads them. *)
Definition section_names (f : Folder) : list pystr :=
  filter (fun n => is_section_file n = true) (merge_sort str_le (listdir f)).

(** The text [assemble_full_report] makes of a folder: the header and the
    section files as they are read. *)
Definition assembled (rt : Runtime) (o : ReportOutline) (f : Folder) : pystr :=
  report_header rt o
  ++ concat (map (fun n => universal_newlines (default [] (f_text f !! n)))
                 (section_names f)).

(** The folder with a text file written. *)
Definition with_text (name content : pystr) (f : Folder) : Folder :=
  mkFolder (f_meta f) (f_outline f) (f_progress f)
           (<[name := content]> (f_text f)).

(** A section record is named by its index, a subsection record by the
    index of its section and its own. *)
Definition SectionKey : Type := nat * option nat.

Definition key_file (k : SectionKey) : pystr :=
  match k with
  | (i, None) => section_file i false None
  | (i, Some j) => section_file j true (Some i)
  end.

(** The order of the claim: by section index, a section before its
    subsections, subsections by their index. *)
Definition key_lt (k1 k2 : SectionKey) : Prop :=
  fst k1 < fst k2
  \/ (fst k1 = fst k2
      /\ match snd k1, snd k2 with
         | None, Some _ => True
         | Some j1, Some j2 => j1 < j2
         | _, _ => False
         end).

(** Indices that fit the two digits of the file names. *)
Definition two_digits (k : SectionKey) : Prop :=
  fst k < 100 /\ match snd k with Some j => j < 100 | None => True end.

(** [a < b] on strings *)
Definition str_lt (a b : pystr) : Prop := str_le a b /\ a <> b.

(** [in_index_order ok names]: among the names of records whose keys
    satisfy [ok], a record of smaller key stands before one of larger key. *)
Definition in_index_order (ok : SectionKey -> Prop) (names : list pystr)
  : Prop :=
  forall k1 k2 p1 p2,
    ok k1 -> ok k2 ->
    names !! p1 = Some (key_file k1) -> names !! p2 = Some (key_file k2) ->
    key_lt k1 k2 -> p1 < p2.

(** Collaborators that never fail, for runs of the store alone. *)
Definition store_env : Env :=
  {| rt := ascii_runtime;
     llm_chat := fun _ _ => inr [];
     llm_chat_json := fun _ _ => inr JNull;
     zep_context := inr (JObj []);
     zep_tool := fun _ _ _ => inr [];
     fs_fault := fun _ => None;
     user_callback := None;
     plan_prompt := fun _ => [];
     section_prompt := fun _ _ _ => [];
     chat_system_prompt := [];
     self_graph_id := py "graph";
     self_simulation_id := py "sim";
     self_simulation_requirement := py "requirement" |}.

(** The store after sections 11 and 100 of a report were saved. *)
Definition long_report_world : World :=
  snd (bind (save_section store_env (py "r") 11
               (mkSection (JStr (py "Eleven")) (py "a") []) false None)
            (fun _ =>
               save_section store_env (py "r") 100
                 (mkSection (JStr (py "Hundred")) (py "b") []) false None)
            initial_world).

(** The store after section 1 and its subsection 1 were saved. *)
Definition short_report_world : World :=
  snd (bind (save_section store_env (py "r") 1
               (mkSection (JStr (py "Sub")) (py "b") []) true (Some 1))
            (fun _ =>
               save_section store_env (py "r") 1
                 (mkSection (JStr (py "Top")) (py "a") []) false None)
            initial_world).

(** The store after a section whose text holds a CR LF and a CR was
    saved. *)
Definition crlf_report_world : World :=
  snd (save_section store_env (py "r") 1
         (mkSection (JStr (py "Top")) (py "a" ++ [13%N; 10%N] ++ py "b" ++ [13%N]
                                       ++ py "c") [])
         false None initial_world).

Definition short_outline : ReportOutline :=
  mkOutline (JStr (py "T")) (JStr (py "S")) [].

(** The text a computation returned, if it returned one. *)
Definition returned_text (r : (Exception + pystr) * World) : pystr :=
  match fst r with
  | inr text => text
  | inl _ => []
  end.

End StoreSpec.

Module SearchSpec.
Import Eff ZepTools.

(** Entries in descending order of score. *)
Definition by_score_desc {A} (a b : Z * A) : Prop := (fst b <= fst a)%Z.

(** The number of keywords found in a text. *)
Definition keyword_hits (keywords : list pystr) (text_lower : pystr) : nat :=
  length (filter (fun k => contains k text_lower = true) keywords).

(** [exact_match rt query text]: the text holds the whole query. *)
Definition exact_match (rt : Runtime) (query text : pystr) : Prop :=
  nonempty text = true /\ contains (lower rt query) (lower rt text) = true.

(** The query of the counterexample: eleven keywords. *)
Definition long_query : pystr := py "aa bb cc dd ee ff gg hh ii jj kk".

(** An edge whose fact is the query itself, and one whose fact holds the
    eleven keywords in another order. *)
Definition exact_edge : EdgeInfo :=
  mkEdge (py "e1") [] long_query (py "n1") (py "n2").
Definition keyword_edge : EdgeInfo :=
  mkEdge (py "e2") [] (py "kk jj ii hh gg ff ee dd cc bb aa") (py "n1") (py "n2").

Definition two_edge_graph : Graph :=
  mkGraph (inr [exact_edge; keyword_edge]) (inr []).

End SearchSpec.

Module UpdaterSpec.
Import MemoryUpdater.

(** The activities a step of a schedule puts on the queue: those that
    [add_activity] and [add_activity_from_dict] do not skip. *)
Definition accepted (env : Env) (op : Op) : list AgentActivity :=
  match op with
  | OpAddActivity a => if is_do_nothing a then [] else [a]
  | OpAddActivityFromDict data p =>
    if dict_has data (py "event_type") then []
    else
      let a := activity_of_dict env data p in
      if is_do_nothing a then [] else [a]
  | _ => []
  end.

(** What every step keeps: the activities handed over and the queue make up,
    in order, the activities accepted so far; the counter counts them; every
    call of [client.graph.add] was made for an activity handed over. *)
Record Inv (u : Updater) (acc : list AgentActivity) : Prop := mkInv {
  inv_fifo : handled u ++ activity_queue u = acc;
  inv_total : total_activities u = length acc;
  inv_sent : Forall (fun p => In (fst p) (handled u)) (graph_log u)
}.
End UpdaterSpec.

(* ================================================================== *)
(** * Part IX: the vocabulary of the further properties *)
(* ================================================================== *)

Module ZepServiceSpec.
Import Eff ZepTools ZepToolsService.

(** A service that fails twice and then answers. *)
Definition third_time_lucky (k : nat) : Exception + nat :=
  if (k <? 2)%nat then inl (mkExc (py "ConnectionError") (py "reset"))
  else inr k.

(** The sum of the counts of a dict. *)
Definition total_count (d : Counts) : Z := fold_right Z.add 0%Z (map snd d).

(** How many of the edges have the name [name]. *)
Definition edges_named (name : pystr) (es : list EdgeInfo) : nat :=
  length (filter (fun e => str_eqb (e_name e) name = true) es).

(** How many times the label [label] stands on the nodes. *)
Definition label_occurrences (label : pystr) (ns : list NodeInfo) : nat :=
  length (filter (fun l => str_eqb l label = true) (flat_map n_labels ns)).

(** A graph of three nodes and three edges. *)
Definition small_graph : Graph :=
  {| all_edges :=
       inr [ mkEdge (py "e1") (py "FOLLOWS") (py "a follows b") (py "a") (py "b");
             mkEdge (py "e2") (py "LIKES") (py "b likes c") (py "b") (py "c");
             mkEdge (py "e3") (py "FOLLOWS") (py "c follows a") (py "c") (py "a") ];
     all_nodes :=
       inr [ mkNode (py "a") (py "Ann") [py "Entity"; py "Student"] (py "s") JNull;
             mkNode (py "b") (py "Bob") [py "Entity"] [] JNull;
             mkNode (py "c") (py "Cy") [py "Student"; py "Node"; py "Poet"] [] JNull ] |}.

End ZepServiceSpec.

Module SearchResultSpec.
Import Eff ZepTools.

(** The facts a list of edges contributes: the non-empty ones, in order. *)
Definition edge_facts (es : list EdgeInfo) : list pystr :=
  filter (fun f => nonempty f = true) (map e_fact es).

(** The facts a list of nodes contributes: a line for each node that has a
    summary. *)
Definition node_facts (ns : list NodeInfo) : list pystr :=
  map (fun n => py "[" ++ n_name n ++ py "]: " ++ n_summary n)
      (filter (fun n => nonempty (n_summary n) = true) ns).

(** The edges and the nodes the two scopes keep. *)
Definition kept_edges (rt : Runtime) (query : pystr) (limit : Z)
    (es : list EdgeInfo) : list EdgeInfo :=
  (top_scored (edge_score rt (lower rt query) (keywords_of (lower rt query)))
              limit es).*2.

Definition kept_nodes (rt : Runtime) (query : pystr) (limit : Z)
    (ns : list NodeInfo) : list NodeInfo :=
  (top_scored (node_score rt (lower rt query) (keywords_of (lower rt query)))
              limit ns).*2.

Definition node_hit (n : NodeInfo) : NodeHit :=
  mkNodeHit (n_uuid n) (n_name n) (n_labels n) (n_summary n).

(** The result that holds nothing. *)
Definition empty_result (query : pystr) : SearchResult :=
  mkResult [] [] [] query 0.

(** [edge.fact or edge.name]: the edge has some text. *)
Definition has_text (e : EdgeInfo) : bool :=
  nonempty (e_fact e) || nonempty (e_name e).

(** A graph whose edges are there and whose nodes cannot be fetched. *)
Definition nodes_down_graph : Graph :=
  mkGraph (inr [SearchSpec.exact_edge])
          (inl (mkExc (py "ConnectionError") (py "reset"))).

End SearchResultSpec.

Module SendSpec.
Import Eff MemoryUpdater.

(** The action types that have a description of their own. *)
Definition known_action (t : pystr) : bool :=
  existsb (fun p => str_eqb (fst p) t) action_descriptions.

(** [to_episode_text] raises on the activity. *)
Definition text_raises (rt : Runtime) (a : AgentActivity) : Prop :=
  exists e, to_episode_text rt a = inl e.

(** A graph client whose first two calls fail. *)
Definition flaky_env : Env :=
  {| rt := ascii_runtime;
     graph_add := fun k _ =>
       if (k <? 2)%nat then Some (mkExc (py "ConnectionError") (py "reset"))
       else None;
     now := py "2024-01-01T00:00:00" |}.

Definition like_activity : AgentActivity :=
  mkActivity (py "twitter") (JInt 1) (JStr (py "Ann")) (JStr (py "LIKE_POST"))
             (JObj [(py "post_id", JStr (py "7"))]) (JInt 1) (JStr (py "t")).

(** An activity read from a log line whose [action_args] is [null]. *)
Definition null_args_activity : AgentActivity :=
  mkActivity (py "twitter") (JInt 2) (JStr (py "Bob")) (JStr (py "FOLLOW"))
             JNull (JInt 1) (JStr (py "t")).

(** What every step of a schedule keeps of the counters. *)
Record Counted (u : Updater) : Prop := mkCounted {
  counted_outcomes : (total_sent u + failed_count u <= length (handled u))%nat;
  counted_calls : (length (graph_log u) <= 3 * length (handled u))%nat;
  counted_sent : (total_sent u <= length (graph_log u))%nat
}.

End SendSpec.

Module ManagerSpec.
Import Eff MemoryUpdater ZepGraphMemoryManager.

(** A manager with a key, on the graph client that fails twice. *)
Definition keyed_env : ManagerEnv :=
  {| updater_env := SendSpec.flaky_env; ZEP_API_KEY := Some (py "key") |}.

(** The same without a key. *)
Definition keyless_env : ManagerEnv :=
  {| updater_env := SendSpec.flaky_env; ZEP_API_KEY := None |}.

(** A registry with one updater that has one activity queued. *)
Definition one_busy_updater : Registry :=
  [(py "sim", (py "g",
               add_activity SendSpec.like_activity (start initial)))].

End ManagerSpec.

Module MarkerSpec.
Import Re Eff ReportAgent.

(** The two markers a tool call starts with. *)
Definition xml_marker : pystr := py "<tool_call>".
Definition func_marker : pystr := py "[TOOL_CALL]".

(** A call that [call["name"]] and [call.get("parameters", {})] can read:
    a dict with a [name] key. *)
Definition has_name (call : json) : Prop :=
  exists kv v, call = JObj kv /\ dict_get kv (py "name") = Some v.

(** The messages of the first turn of [chat]. *)
Definition first_messages (env : Env) (message : pystr)
    (chat_history : list Message) : list Message :=
  [system_msg (chat_system_prompt env)] ++ last_ten chat_history
  ++ [user_msg message].

(** A model that answers in plain text, with blanks around it. *)
Definition plain_env : Env :=
  {| rt := ascii_runtime;
     llm_chat := fun _ _ => inr (py "  The mood turned on day 3. ");
     llm_chat_json := fun _ _ => inr (JObj []);
     zep_context := inr (JObj []);
     zep_tool := fun _ _ _ => inr (py "{}");
     fs_fault := fun _ => None;
     user_callback := None;
     plan_prompt := fun _ => [];
     section_prompt := fun _ _ _ => [];
     chat_system_prompt := [];
     self_graph_id := py "graph";
     self_simulation_id := py "sim";
     self_simulation_requirement := py "requirement" |}.

End MarkerSpec.

Module ReactRunSpec.
Import Re Eff ReportAgent.



(** The message of the first round of the loop. *)
Definition first_round_message : pystr :=
  py "思考与行动中 (" ++ str_of_nat 0 ++ py "/"
  ++ str_of_nat MAX_TOOL_CALLS_PER_SECTION ++ py ")".

(** A model that asks, in a well-formed block, for a call without a name;
    the planner is down, so that the outline is the default one. *)
Definition nameless_env : Env :=
  {| rt := ParserSpec.empty_object_runtime;
     llm_chat := fun _ _ => inr (py "<tool_call>{}</tool_call>");
     llm_chat_json := fun _ _ => inl (mkExc (py "TimeoutError") (py "timeout"));
     zep_context := inr (JObj []);
     zep_tool := fun _ _ _ => inr (py "{}");
     fs_fault := fun _ => None;
     user_callback := None;
     plan_prompt := fun _ => [];
     section_prompt := fun _ _ _ => [];
     chat_system_prompt := [];
     self_graph_id := py "graph";
     self_simulation_id := py "sim";
     self_simulation_requirement := py "requirement" |}.

End ReactRunSpec.

Module NameSpec.
Import Re Eff ReportAgent StoreSpec.

(** A runtime whose [int] reads the zero-padded decimal numbers of the file
    names, as Python's does. *)
Definition reads_decimal (rt : Runtime) : Prop :=
  forall n, rt_int rt (format_02d n) = Some (Z.of_nat n).

(** The entry [get_generated_sections] makes of the record of key [k]. *)
Definition info_of (k : SectionKey) (content : pystr) : SectionInfo :=
  mkSectionInfo (key_file k) (Z.of_nat (fst k)) (Z.of_nat <$> snd k) content
                (is_some (snd k)).

(** The arguments [save_section] takes for the record of key [k]. *)
Definition save_key (env : Env) (rid : pystr) (k : SectionKey)
    (section : ReportSection) : M World unit :=
  match k with
  | (i, None) => save_section env rid i section false None
  | (i, Some j) => save_section env rid j section true (Some i)
  end.

(** The Markdown text of the record of key [k]. *)
Definition key_markdown (rt : Runtime) (k : SectionKey)
    (section : ReportSection) : pystr :=
  section_markdown rt (match snd k with Some _ => py "###" | None => py "##" end)
                   section.

End NameSpec.

Module IsolationSpec.
Import Re Eff ReportAgent.

(** [keeps R m]: whatever way [m] ends, the store it leaves is related by
    [R] to the store it found. *)
Definition keeps (R : relation (gmap pystr Folder)) {A} (m : M World A)
  : Prop :=
  forall w r w', m w = (r, w') -> R (store w) (store w').


(** A [progress_callback] argument that keeps [R]. *)
Definition keeping_callback (R : relation (gmap pystr Folder))
    (cb : option Callback) : Prop :=
  forall f, cb = Some f -> forall stage prog msg, keeps R (f stage prog msg).

(** Every file of [f] is a file of [f'], whatever it holds now. *)
Definition folder_grows (f f' : Folder) : Prop :=
  (is_Some (f_meta f) -> is_Some (f_meta f'))
  /\ (is_Some (f_outline f) -> is_Some (f_outline f'))
  /\ (is_Some (f_progress f) -> is_Some (f_progress f'))
  /\ (forall name, is_Some (f_text f !! name) -> is_Some (f_text f' !! name)).

(** From [s] to [s'], nothing but the folder of [rid] has changed, and
    that folder has lost no file. *)
Definition store_grows (rid : pystr) (s s' : gmap pystr Folder) : Prop :=
  (forall other, other <> rid -> s' !! other = s !! other)
  /\ (forall f, s !! rid = Some f ->
        exists f', s' !! rid = Some f' /\ folder_grows f f').

(** A step of [generate_report] on the report [rid]: it leaves the report
    its identifier, and the store grown. *)
Definition report_step (rid : pystr) {A} (m : M GenState A) : Prop :=
  forall g r g',
    report_id (g_report g) = rid ->
    m g = (r, g') ->
    report_id (g_report g') = rid
    /\ store_grows rid (store (g_world g)) (store (g_world g')).

(** A disk on which the third operation and every later one fail. *)
Definition failing_disk_env : Env :=
  {| rt := ascii_runtime;
     llm_chat := fun _ _ => inr (py "Final Answer: text");
     llm_chat_json := fun _ _ => inr JNull;
     zep_context := inr (JObj []);
     zep_tool := fun _ _ _ => inr [];
     fs_fault := fun k => if (k <? 2)%nat then None
                          else Some (mkExc (py "OSError") (py "disk full"));
     user_callback := None;
     plan_prompt := fun _ => [];
     section_prompt := fun _ _ _ => [];
     chat_system_prompt := [];
     self_graph_id := py "graph";
     self_simulation_id := py "sim";
     self_simulation_requirement := py "requirement" |}.

End IsolationSpec.

Module CostSpec.
Import Re Eff ReportAgent.

(** The texts an outline asks for: one for each section and one for each
    subsection. *)
Definition units (o : ReportOutline) : nat :=
  sum_list_with (fun s => S (length (sec_subsections s))) (o_sections o).

Definition planned_units (r : Report) : nat :=
  match outline r with
  | Some o => units o
  | None => 0
  end.

(** [costs a b m]: whatever way [m] ends, it has asked the model at most
    [a] times and run at most [b] tools. *)
Definition costs (a b : nat) {A} (m : M World A) : Prop :=
  forall w r w',
    m w = (r, w') ->
    llm_calls w' <= llm_calls w + a
    /\ length (tool_log w') <= length (tool_log w) + b.

(** The same for a step of [generate_report], which moreover leaves the
    outline its shape. *)
Definition gcosts (a b : nat) {A} (m : M GenState A) : Prop :=
  forall g r g',
    m g = (r, g') ->
    llm_calls (g_world g') <= llm_calls (g_world g) + a
    /\ length (tool_log (g_world g')) <= length (tool_log (g_world g)) + b
    /\ planned_units (g_report g') = planned_units (g_report g).

(** A run that asks the model at most [k] times beside the eight times,
    and runs at most the five tools, of each text the outline it ends with
    asks for. *)
Definition run_costs (k : nat) {A} (m : M GenState A) : Prop :=
  forall g r g',
    m g = (r, g') ->
    llm_calls (g_world g')
    <= llm_calls (g_world g) + k + 8 * planned_units (g_report g')
    /\ length (tool_log (g_world g'))
       <= length (tool_log (g_world g)) + 5 * planned_units (g_report g').

(** A model that asks for two tools on every turn and never concludes, and
    a planner that proposes two sections, the first with one subsection. *)
Definition greedy_planner_env : Env :=
  {| rt := ascii_runtime;
     llm_chat := llm_chat ReactSpec.greedy_env;
     llm_chat_json :=
       fun _ _ =>
         inr (JObj [(py "title", JStr (py "T"));
                    (py "summary", JStr (py "S"));
                    (py "sections",
                     JArr [JObj [(py "title", JStr (py "A"));
                                 (py "subsections",
                                  JArr [JObj [(py "title", JStr (py "A1"))]])];
                           JObj [(py "title", JStr (py "B"))]])]);
     zep_context := inr (JObj []);
     zep_tool := fun _ _ _ => inr [];
     fs_fault := fun _ => None;
     user_callback := None;
     plan_prompt := fun _ => [];
     section_prompt := fun _ _ _ => [];
     chat_system_prompt := [];
     self_graph_id := py "graph";
     self_simulation_id := py "sim";
     self_simulation_requirement := py "requirement" |}.

End CostSpec.

Module ContentSpec.
Import Re Eff ReportAgent ReportTools StoreSpec.

(** A place in an outline: section [i], or subsection [j] of section [i],
    counted from 0 as the loops of [generate_report] count them. *)
Definition Pos : Type := (nat * option nat)%type.

(** The file [save_section] writes for the text of a place. *)
Definition pos_file (p : Pos) : pystr := key_file (S (fst p), S <$> snd p).

Definition section_at (o : ReportOutline) (p : Pos) : option ReportSection :=
  match o_sections o !! fst p with
  | None => None
  | Some s =>
    match snd p with
    | None => Some s
    | Some j => sec_subsections s !! j
    end
  end.

Definition pos_level (p : Pos) : pystr :=
  match snd p with
  | Some _ => py "###"
  | None => py "##"
  end.

(** The record of a place, as [save_section] writes it. *)
Definition pos_markdown (rt : Runtime) (o : ReportOutline) (p : Pos)
  : option pystr :=
  section_markdown rt (pos_level p) <$> section_at o p.

(** The places of section [i], and of the sections from number [k] on, in
    the order of the loops. *)
Definition section_positions (i : nat) (s : ReportSection) : list Pos :=
  (i, None) :: map (fun j => (i, Some j)) (seq 0 (length (sec_subsections s))).

Definition positions_from (k : nat) (sections : list ReportSection)
  : list Pos :=
  concat (imap (fun i => section_positions (k + i)) sections).

Definition positions (o : ReportOutline) : list Pos :=
  positions_from 0 (o_sections o).

(** What of an outline the writing of the texts leaves alone: everything
    but the contents of the sections and of their subsections. *)
Definition sub_skeleton (sub : ReportSection) : json * list ReportSection :=
  (sec_title sub, sec_subsections sub).

Definition skeleton_of (s : ReportSection)
  : json * list (json * list ReportSection) :=
  (sec_title s, map sub_skeleton (sec_subsections s)).

Definition skeleton (o : ReportOutline)
  : json * json * list (json * list (json * list ReportSection)) :=
  (o_title o, o_summary o, map skeleton_of (o_sections o)).

(** The text files of the folder of a report; none when there is no
    folder. *)
Definition texts (rid : pystr) (s : gmap pystr Folder) : gmap pystr pystr :=
  match s !! rid with
  | Some f => f_text f
  | None => ∅
  end.

(** From [s] to [s'] the section files of the report are what they were. *)
Definition same_sections (rid : pystr) : relation (gmap pystr Folder) :=
  fun s s' =>
    forall n, is_section_file n = true -> texts rid s' !! n = texts rid s !! n.

(** The section files of the report are the records of the places [D], each
    holding the text the outline of the report has at that place; and the
    outline is [outline0] but for the contents. *)
Definition written (rt : Runtime) (rid : pystr) (outline0 : ReportOutline)
    (D : list Pos) (g : GenState) : Prop :=
  exists o,
    outline (g_report g) = Some o
    /\ skeleton o = skeleton outline0
    /\ forall n c,
         is_section_file n = true ->
         (texts rid (store (g_world g)) !! n = Some c
          <-> exists p, p ∈ D /\ n = pos_file p /\ pos_markdown rt o p = Some c).

(** A step of [generate_report] that leaves the outline of the report and
    the section files alone. *)
Definition quiet (rid : pystr) {A} (m : M GenState A) : Prop :=
  forall g r g',
    m g = (r, g') ->
    outline (g_report g') = outline (g_report g)
    /\ same_sections rid (store (g_world g)) (store (g_world g')).

(** A property of the state that such steps keep. *)
Definition stable (rid : pystr) (P : GenState -> Prop) : Prop :=
  forall g g',
    P g ->
    outline (g_report g') = outline (g_report g) ->
    same_sections rid (store (g_world g)) (store (g_world g')) ->
    P g'.

(** [triple P m Q]: when [m] is run in a state where [P] holds and returns
    [a], [Q a] holds of the state it leaves. *)
Definition triple {A} (P : GenState -> Prop) (m : M GenState A)
    (Q : A -> GenState -> Prop) : Prop :=
  forall g a g', P g -> m g = (inr a, g') -> Q a g'.

(** [written], and the outline has the text [md] at the place [p], not yet
    saved. *)
Definition pending (rt : Runtime) (rid : pystr) (outline0 : ReportOutline)
    (D : list Pos) (p : Pos) (md : pystr) (g : GenState) : Prop :=
  written rt rid outline0 D g
  /\ exists o, outline (g_report g) = Some o /\ pos_markdown rt o p = Some md.

(** No section has more than two levels, and the numbers of the sections
    and of the subsections of each fit the two digits of the file names. *)
Definition two_level (o : ReportOutline) : Prop :=
  Forall (fun s => Forall (fun sub => sec_subsections sub = [])
                          (sec_subsections s)) (o_sections o).

Definition fits_two_digits (o : ReportOutline) : Prop :=
  length (o_sections o) < 100
  /\ Forall (fun s => length (sec_subsections s) < 100) (o_sections o).

(** The folder of the report holds no section file yet. *)
Definition no_section_file (rid : pystr) (w : World) : Prop :=
  forall n, is_section_file n = true -> texts rid (store w) !! n = None.

(** The report as the outline renders it and the section files are read:
    the header, a rule, and [to_markdown] of each section, with the line
    ends the reading gives. *)
Definition rendered (rt : Runtime) (o : ReportOutline) : pystr :=
  report_header rt o
  ++ universal_newlines (flat_map (to_markdown rt 2) (o_sections o)).

(** The report holds its outline rendered, if the numbers fit. *)
Definition report_rendered (rt : Runtime) (r : Report) : Prop :=
  exists o,
    outline r = Some o
    /\ two_level o
    /\ (fits_two_digits o -> markdown_content r = rendered rt o).

(** A planner that proposes two sections, the first with a subsection, and
    a model that concludes at once, with the answer [answer k] to its
    question number [k]. *)
Definition answering_env (answer : nat -> pystr) : Env :=
  {| rt := ascii_runtime;
     llm_chat := fun k _ => inr (py "Final Answer: " ++ answer k);
     llm_chat_json :=
       fun _ _ =>
         inr (JObj [(py "title", JStr (py "T"));
                    (py "summary", JStr (py "S"));
                    (py "sections",
                     JArr [JObj [(py "title", JStr (py "A"));
                                 (py "subsections",
                                  JArr [JObj [(py "title", JStr (py "A1"))]])];
                           JObj [(py "title", JStr (py "B"))]])]);
     zep_context := inr (JObj []);
     zep_tool := fun _ _ _ => inr [];
     fs_fault := fun _ => None;
     user_callback := None;
     plan_prompt := fun _ => [];
     section_prompt := fun _ _ _ => [];
     chat_system_prompt := [];
     self_graph_id := py "graph";
     self_simulation_id := py "sim";
     self_simulation_requirement := py "requirement" |}.

Definition writer_env : Env :=
  answering_env (fun k => py "text " ++ str_of_nat k).

End ContentSpec.

Module PersistSpec.
Import Re Eff ReportAgent StoreSpec ContentSpec.

(** The folder of the report [rid] holds the report [r] as [save_report]
    writes it: the meta record, the outline, and the Markdown. *)
Definition saved_in (rid : pystr) (r : Report) (s : gmap pystr Folder)
  : Prop :=
  exists f,
    s !! rid = Some f
    /\ f_meta f = Some r
    /\ (forall o, outline r = Some o -> f_outline f = Some o)
    /\ f_text f !! py "full_report.md" = Some (markdown_content r).

(** The last progress record of the folder says that the report is
    complete. *)
Definition progress_completed (rid : pystr) (s : gmap pystr Folder) : Prop :=
  exists f p,
    s !! rid = Some f
    /\ f_progress f = Some p
    /\ p_status p = py "completed" /\ p_progress p = 100%Z
    /\ p_current_section p = None.

End PersistSpec.

(* ================================================================== *)
(** * Part X: the claims *)
(* ================================================================== *)

(** ** Inversion of the monadic steps *)

Module EffFacts.
Import Eff ReportAgent.

Lemma bind_inr {S A B} (m : M S A) (f : A -> M S B) s b s' :
  bind m f s = (inr b, s') ->
  exists a s1, m s = (inr a, s1) /\ f a s1 = (inr b, s').
Proof.
  unfold bind. destruct (m s) as [[e|a] s1]; [discriminate|].
  intros H. now exists a, s1.
Qed.

Lemma lift_inr {S A} (r : Exception + A) (s : S) a s' :
  lift r s = (inr a, s') -> r = inr a /\ s' = s.
Proof. unfold lift. intros H. injection H as -> ->. now split. Qed.

Lemma ret_inr {S A} (x : A) (s : S) a s' :
  ret x s = (inr a, s') -> a = x /\ s' = s.
Proof. unfold ret. intros H. injection H as -> ->. now split. Qed.

Lemma and_then_inr {A B} (r : Exception + A) (f : A -> Exception + B) b :
  and_then r f = inr b -> exists a, r = inr a /\ f a = inr b.
Proof. destruct r as [e|a]; cbn; [discriminate|]. intros H. now exists a. Qed.

End EffFacts.

Module PlannerFacts.
Import Eff ReportAgent PlannerSpec EffFacts.

Lemma map_r_Forall2 {A B} (f : A -> Exception + B) l l' :
  map_r f l = inr l' -> Forall2 (fun x y => f x = inr y) l l'.
Proof.
  revert l'. induction l as [|x l IH]; intros l'; cbn [map_r].
  - intros H. injection H as <-. constructor.
  - intros H. apply and_then_inr in H as (y & Hy & H).
    apply and_then_inr in H as (ys & Hys & H). injection H as <-.
    constructor; [exact Hy|]. now apply IH.
Qed.

Lemma parse_subsection_spec sub_data sub :
  parse_subsection sub_data = inr sub -> subsection_of sub_data sub.
Proof.
  unfold parse_subsection. intros H.
  apply and_then_inr in H as (t & Ht & H). injection H as <-.
  repeat split. exact Ht.
Qed.

Lemma parse_section_spec section_data s :
  parse_section section_data = inr s -> section_of section_data s.
Proof.
  unfold parse_section. intros H.
  apply and_then_inr in H as (subs & Hsubs & H).
  apply and_then_inr in H as (sub_list & Hiter & H).
  apply and_then_inr in H as (subsections & Hmap & H).
  apply and_then_inr in H as (t & Ht & H). injection H as <-.
  split; [exact Ht|]. split; [reflexivity|].
  exists sub_list. split.
  - rewrite Hsubs. exact Hiter.
  - cbn [sec_subsections]. apply map_r_Forall2 in Hmap.
    eapply Forall2_impl; [exact Hmap|]. intros x y. apply parse_subsection_spec.
Qed.

(** What a parsed outline looks like: nothing of the response is dropped. *)
Lemma parse_outline_spec response o :
  parse_outline response = inr o ->
  exists secs,
    and_then (py_get response (py "sections") (JArr [])) py_iter = inr secs
    /\ Forall2 section_of secs (o_sections o).
Proof.
  unfold parse_outline, parse_sections. intros H.
  apply and_then_inr in H as (sections & Hs & H).
  apply and_then_inr in H as (t & Ht & H).
  apply and_then_inr in H as (summary & Hsum & H). injection H as <-.
  apply and_then_inr in Hs as (secs & Hget & Hs).
  apply and_then_inr in Hs as (sec_list & Hiter & Hmap).
  exists sec_list. split.
  - rewrite Hget. exact Hiter.
  - cbn [o_sections]. apply map_r_Forall2 in Hmap.
    eapply Forall2_impl; [exact Hmap|]. intros x y. apply parse_section_spec.
Qed.

(** The [try] block returns what [parse_outline] makes of the response. *)
Lemma plan_outline_try_inr env cb messages w o w' :
  plan_outline_try env cb messages w = (inr o, w') ->
  exists response,
    llm_chat_json env (llm_calls w) messages = inr response
    /\ parse_outline response = inr o.
Proof.
  unfold plan_outline_try, bind, chat_json_llm, lift, ret.
  destruct (llm_chat_json env (llm_calls w) messages) as [e|response];
    [discriminate|].
  match goal with |- context [notify cb ?a ?b ?c ?w0] =>
    destruct (notify cb a b c w0) as [[e|[]] w1] end; [discriminate|].
  destruct (parse_outline response) as [e|o1] eqn:Hp; [discriminate|].
  match goal with |- context [notify cb ?a ?b ?c ?w0] =>
    destruct (notify cb a b c w0) as [[e|[]] w2] end; [discriminate|].
  intros H. injection H as <- <-. now exists response.
Qed.

Lemma plan_outline_cases env cb w o w' :
  plan_outline env cb w = (inr o, w') ->
  o = default_outline
  \/ exists k messages response,
       llm_chat_json env k messages = inr response
       /\ parse_outline response = inr o.
Proof.
  unfold plan_outline, bind, lift, try_catch, ret.
  match goal with |- context [notify cb ?a ?b ?c ?w0] =>
    destruct (notify cb a b c w0) as [[e|[]] w1] end; [discriminate|].
  destruct (zep_context env) as [e|context]; [discriminate|].
  match goal with |- context [notify cb ?a ?b ?c ?w0] =>
    destruct (notify cb a b c w0) as [[e|[]] w2] end; [discriminate|].
  destruct (plan_messages env context) as [e|messages]; [discriminate|].
  destruct (plan_outline_try env cb messages w2) as [[e|o1] w3] eqn:Htry.
  - intros H. injection H as <- <-. now left.
  - intros H. injection H as <- <-. right.
    apply plan_outline_try_inr in Htry as (response & H1 & H2).
    now exists (llm_calls w2), messages, response.
Qed.

(** An outline read off a response is within the bounds exactly when the
    response is. *)
Lemma bounds_of_response secs o :
  Forall2 section_of secs (o_sections o) ->
  within_bounds o <-> response_within_bounds secs.
Proof.
  intros HF. unfold within_bounds, response_within_bounds.
  rewrite (Forall2_length _ _ _ HF).
  assert (H : Forall (fun s => length (sec_subsections s) <= 2) (o_sections o)
              <-> Forall (fun section_data =>
                    exists subs,
                      and_then (py_get section_data (py "subsections") (JArr []))
                               py_iter = inr subs
                      /\ length subs <= 2) secs).
  { induction HF as [|sd s secs ss Hs HF IH].
    - split; constructor.
    - destruct Hs as (_ & _ & subs & Hsubs & Hsub2).
      pose proof (Forall2_length _ _ _ Hsub2) as Hlen.
      rewrite !Forall_cons, IH. split.
      + intros [H1 H2]. split; [|exact H2]. exists subs. split; [exact Hsubs|lia].
      + intros [(subs' & Hsubs' & H1) H2]. split; [|exact H2].
        rewrite Hsubs in Hsubs'. injection Hsubs' as <-. lia. }
  rewrite H. reflexivity.
Qed.

Lemma default_outline_within_bounds : within_bounds default_outline.
Proof.
  split; [cbn; lia|]. repeat constructor.
Qed.

(** C1, as the code has it. Whatever [plan_outline] returns is either the
    fixed fallback outline, which is within the bounds, or the outline read
    off the model's response with nothing dropped: one section for each
    element of the response's [sections] and one subsection for each element
    of a section's [subsections], in the order of the response. So the
    outline is within the bounds exactly when the response is. *)
Theorem plan_outline_keeps_every_section env cb w o w' :
  plan_outline env cb w = (inr o, w') ->
  (o = default_outline /\ within_bounds o)
  \/ exists k messages response secs,
       llm_chat_json env k messages = inr response
       /\ and_then (py_get response (py "sections") (JArr [])) py_iter
          = inr secs
       /\ Forall2 section_of secs (o_sections o)
       /\ length (o_sections o) = length secs
       /\ (within_bounds o <-> response_within_bounds secs).
Proof.
  intros H. apply plan_outline_cases in H as [->|(k & messages & response & H1 & H2)].
  - left. split; [reflexivity|apply default_outline_within_bounds].
  - right. apply parse_outline_spec in H2 as (secs & Hs & HF).
    exists k, messages, response, secs.
    split; [exact H1|]. split; [exact Hs|]. split; [exact HF|]. split.
    + symmetry. eapply Forall2_length, HF.
    + now apply bounds_of_response.
Qed.

Lemma plan_outline_keeps_every_section_witness :
  exists k messages response secs,
    llm_chat_json (planner_env (inr (response_with 6 3))) k messages
    = inr response
    /\ and_then (py_get response (py "sections") (JArr [])) py_iter = inr secs
    /\ Forall2 section_of secs
         (o_sections
            (mkOutline (JStr (py "T")) (JStr (py "S"))
               (repeat (mkSection (JStr (py "A")) []
                          (repeat (mkSection (JStr (py "B")) [] []) 3)) 6)))
    /\ length (repeat (mkSection (JStr (py "A")) []
                         (repeat (mkSection (JStr (py "B")) [] []) 3)) 6)
       = length secs
    /\ (within_bounds
          (mkOutline (JStr (py "T")) (JStr (py "S"))
             (repeat (mkSection (JStr (py "A")) []
                        (repeat (mkSection (JStr (py "B")) [] []) 3)) 6))
        <-> response_within_bounds secs).
Proof.
  destruct (plan_outline_keeps_every_section
              (planner_env (inr (response_with 6 3))) None initial_world
              (mkOutline (JStr (py "T")) (JStr (py "S"))
                 (repeat (mkSection (JStr (py "A")) []
                            (repeat (mkSection (JStr (py "B")) [] []) 3)) 6))
              (mkWorld ∅ 1 0 0 [] [] []))
    as [[H _]|H].
  - vm_compute. reflexivity.
  - exfalso. vm_compute in H. discriminate H.
  - exact H.
Defined.

(** Counterexample to C1 as stated: the model answers with six sections of
    three subsections each, and the outline returned has all of them. *)
Lemma plan_outline_exceeds_bounds :
  exists o w',
    plan_outline (planner_env (inr (response_with 6 3))) None initial_world
    = (inr o, w')
    /\ length (o_sections o) = 6
    /\ Forall (fun s => length (sec_subsections s) = 3) (o_sections o)
    /\ ~ within_bounds o.
Proof.
  eexists. eexists. split; [vm_compute; reflexivity|].
  split; [reflexivity|]. split; [repeat constructor|].
  intros [[_ H] _]. cbn in H. lia.
Qed.

(** C6. When the call of the language model raises, whatever the
    exception, [plan_outline] returns the fixed outline of five sections,
    titled (in the language of the deployment) executive summary, background
    and setting, key findings and trends, sentiment evolution, conclusions
    and recommendations, each without subsections and with empty content; the
    caller sees no exception. The hypotheses say that the call is made: the
    context was fetched, the two notifications before the call returned, and
    the prompt was built from the context, [messages] being the messages of
    the call. What raises before the call is outside the [try] and leaves
    [plan_outline]. *)
Theorem plan_outline_fallback_on_llm_failure env cb w w1 w2 context messages e :
  notify cb (py "planning") 0 (py "正在分析模拟需求...") w = (inr tt, w1) ->
  zep_context env = inr context ->
  notify cb (py "planning") 30 (py "正在生成报告大纲...") w1 = (inr tt, w2) ->
  plan_messages env context = inr messages ->
  llm_chat_json env (llm_calls w2) messages = inl e ->
  exists w',
    plan_outline env cb w = (inr default_outline, w')
    /\ map sec_title (o_sections default_outline)
       = [JStr (py "执行摘要"); JStr (py "模拟背景与场景设定");
          JStr (py "关键发现与趋势分析"); JStr (py "舆情走向与情绪演化");
          JStr (py "总结与建议")]
    /\ Forall (fun s => sec_content s = [] /\ sec_subsections s = [])
              (o_sections default_outline).
Proof.
  intros H0 Hc H30 Hm Hllm.
  unfold plan_outline, bind, lift, try_catch, ret.
  rewrite H0, Hc, H30, Hm.
  unfold plan_outline_try, bind, chat_json_llm. rewrite Hllm.
  eexists. split; [reflexivity|]. split; [reflexivity|].
  repeat constructor.
Qed.

Lemma plan_outline_fallback_on_llm_failure_witness :
  exists w',
    plan_outline (planner_env (inl (mkExc (py "TimeoutError") (py "timed out"))))
                 None initial_world
    = (inr default_outline, w')
    /\ map sec_title (o_sections default_outline)
       = [JStr (py "执行摘要"); JStr (py "模拟背景与场景设定");
          JStr (py "关键发现与趋势分析"); JStr (py "舆情走向与情绪演化");
          JStr (py "总结与建议")]
    /\ Forall (fun s => sec_content s = [] /\ sec_subsections s = [])
              (o_sections default_outline).
Proof.
  apply (plan_outline_fallback_on_llm_failure
           (planner_env (inl (mkExc (py "TimeoutError") (py "timed out"))))
           None initial_world initial_world initial_world (JObj []) []
           (mkExc (py "TimeoutError") (py "timed out")));
    reflexivity.
Defined.

(** Building the prompt is not inside the [try]: when the context is not
    a dict, or its [graph_statistics] is not one, the [AttributeError] of
    the read leaves [plan_outline], and the model is not asked. *)
Lemma plan_outline_raises_on_context env cb w w1 w2 context e :
  notify cb (py "planning") 0 (py "正在分析模拟需求...") w = (inr tt, w1) ->
  zep_context env = inr context ->
  notify cb (py "planning") 30 (py "正在生成报告大纲...") w1 = (inr tt, w2) ->
  plan_messages env context = inl e ->
  plan_outline env cb w = (inl e, w2).
Proof.
  intros H0 Hc H30 Hm. unfold plan_outline, bind, lift.
  now rewrite H0, Hc, H30, Hm.
Qed.

Example plan_outline_on_a_context_without_statistics :
  let env := planner_env_with_context
               (JObj [(py "graph_statistics", JNull)])
               (inl (mkExc (py "TimeoutError") (py "timed out"))) in
  plan_outline env None initial_world
  = (inl (mkExc (py "AttributeError")
                (py "'NoneType' object has no attribute 'get'")),
     initial_world)
  /\ plan_messages env JNull
     = inl (mkExc (py "AttributeError")
                  (py "'NoneType' object has no attribute 'get'")).
Proof. vm_compute. split; reflexivity. Qed.

End PlannerFacts.

Module ParserFacts.
Import Re ReportAgent ParserSpec.



Lemma fold_xml_step rt ms acc :
  fold_left (xml_step rt) ms acc = acc ++ flat_map (xml_calls rt) ms.
Proof.
  revert acc. induction ms as [|m ms IH]; intros acc; cbn [fold_left flat_map].
  - now rewrite app_nil_r.
  - rewrite IH. unfold xml_step, xml_calls.
    destruct (rt_json_loads rt (group 1 m)); cbn [app].
    + now rewrite <- app_assoc.
    + reflexivity.
Qed.

Lemma fold_func_step rt ms acc :
  fold_left (func_step rt) ms acc = acc ++ map (func_call rt) ms.
Proof.
  revert acc. induction ms as [|m ms IH]; intros acc; cbn [fold_left map].
  - now rewrite app_nil_r.
  - rewrite IH. unfold func_step. now rewrite <- app_assoc.
Qed.




End ParserFacts.

Module ReactFacts.
Import Re Eff ReportAgent ReactSpec.

Local Ltac arith := cbn [length]; rewrite ?Nat.add_0_r; try apply Nat.le_max_l; lia.

Lemma execute_tool_log env name parameters w :
  exists text w',
    _execute_tool env name parameters w = (inr text, w')
    /\ tool_log w' = tool_log w ++ [(name, parameters)]
    /\ llm_calls w' = llm_calls w.
Proof.
  unfold _execute_tool.
  destruct (dispatch_tool env (length (tool_log w)) name parameters);
    eexists; eexists; (split; [reflexivity|]); split; reflexivity.
Qed.

(** The inner loop never takes the count past the budget. *)
Lemma execute_calls_budget env calls : forall results count w r w',
  execute_calls env calls results count w = (r, w') ->
  exists entries,
    tool_log w' = tool_log w ++ entries
    /\ llm_calls w' = llm_calls w
    /\ count + length entries <= Nat.max count MAX_TOOL_CALLS_PER_SECTION
    /\ (MAX_TOOL_CALLS_PER_SECTION <= count ->
        entries = [] /\ r = inr (results, count))
    /\ forall results' count',
         r = inr (results', count') -> count' = count + length entries.
Proof.
  induction calls as [|call calls IH]; intros results count w r w' H.
  - cbn in H. injection H as <- <-. exists []. rewrite app_nil_r. cbn.
    repeat split; try lia.
    intros results' count' E. injection E as _ <-. lia.
  - cbn [execute_calls] in H.
    destruct (MAX_TOOL_CALLS_PER_SECTION <=? count) eqn:Hb.
    + cbn in H. injection H as <- <-. exists []. rewrite app_nil_r. cbn.
      repeat split; try lia.
      intros results' count' E. injection E as _ <-. lia.
    + apply Nat.leb_gt in Hb. unfold bind, lift in H.
      destruct (py_getitem call (py "name")) as [e|name].
      { injection H as <- <-. exists []. rewrite app_nil_r. cbn.
        repeat split; try lia. intros; discriminate. }
      destruct (py_get call (py "parameters") (JObj [])) as [e|params].
      { injection H as <- <-. exists []. rewrite app_nil_r. cbn.
        repeat split; try lia. intros; discriminate. }
      destruct (execute_tool_log env name params w)
        as (text & w1 & Hx & Hl1 & Hc1).
      rewrite Hx in H. apply IH in H as (entries & Hl & Hc & Hle & _ & Hcnt).
      exists ((name, params) :: entries). split.
      { rewrite Hl, Hl1, <- app_assoc. reflexivity. }
      split; [lia|]. cbn [length]. split; [lia|]. split; [lia|].
      intros results' count' E. rewrite (Hcnt _ _ E). lia.
Qed.

(** The callbacks the pipeline passes down report to the caller's callback
    and do nothing else. *)
Lemma pipeline_callback_reporting_only env (f : Z -> Z) :
  reporting_only
    (Some (fun stage prog msg => call_user_callback env stage (f prog) msg)).
Proof.
  intros g stage prog msg w E. injection E as <-.
  unfold call_user_callback. destruct (user_callback env) as [cb|].
  - destruct (cb (callback_calls w) (stage, f prog, msg)); now split.
  - now split.
Qed.

Lemma no_callback_reporting_only : reporting_only None.
Proof. intros f stage prog msg w E. discriminate E. Qed.

Lemma notify_frame cb stage prog msg w :
  reporting_only cb ->
  tool_log (snd (notify cb stage prog msg w)) = tool_log w
  /\ llm_calls (snd (notify cb stage prog msg w)) = llm_calls w.
Proof.
  intros Hcb. destruct cb as [f|]; cbn [notify].
  - now apply Hcb.
  - now split.
Qed.

Lemma chat_llm_counts env messages w :
  tool_log (snd (chat_llm env messages w)) = tool_log w
  /\ llm_calls (snd (chat_llm env messages w)) = S (llm_calls w)
  /\ fst (chat_llm env messages w) = llm_chat env (llm_calls w) messages.
Proof. now repeat split. Qed.

(** One round: at most one question to the model, and the count stays
    within the budget. *)
Lemma react_round_budget env cb max_iterations iteration messages count w r w' :
  reporting_only cb ->
  react_round env cb max_iterations iteration messages count w = (r, w') ->
  exists entries,
    tool_log w' = tool_log w ++ entries
    /\ llm_calls w' <= S (llm_calls w)
    /\ count + length entries <= Nat.max count MAX_TOOL_CALLS_PER_SECTION
    /\ forall messages' count',
         r = inr (Continue messages' count') -> count' = count + length entries.
Proof.
  intros Hcb H. unfold react_round, bind in H.
  match type of H with context [notify cb ?a ?b ?c w] =>
    destruct (notify_frame cb a b c w Hcb) as [Hn1 Hn2];
    destruct (notify cb a b c w) as [[e|[]] w1] end; cbn [snd] in Hn1, Hn2;
    cbv beta iota in H.
  { injection H as <- <-. exists []. rewrite app_nil_r.
    repeat split; try arith; try congruence; intros; discriminate. }
  destruct (chat_llm_counts env messages w1) as (Hc1 & Hc2 & Hc3).
  destruct (chat_llm env messages w1) as [[e|response] w2];
    cbn [fst snd] in Hc1, Hc2, Hc3; cbv beta iota in H.
  { injection H as <- <-. exists []. rewrite app_nil_r.
    repeat split; try arith; try congruence; intros; discriminate. }
  destruct (contains (py "Final Answer:") response).
  { cbn in H. injection H as <- <-. exists []. rewrite app_nil_r.
    repeat split; try arith; try congruence; intros; discriminate. }
  destruct (_parse_tool_calls (rt env) response) as [|c cs].
  { cbn in H. injection H as <- <-. exists []. rewrite app_nil_r.
    repeat split; try arith; try congruence.
    intros m' c' E. injection E as _ <-. cbn. lia. }
  destruct (execute_calls env (c :: cs) [] count w2) as [rx w3] eqn:Hx.
  apply execute_calls_budget in Hx as (entries & Hl & Hc & Hle & _ & Hcnt).
  assert (Hw : w' = w3 /\ forall m' c',
            r = inr (Continue m' c') -> c' = count + length entries).
  { destruct rx as [e|[results count1]]; cbv beta iota in H.
    - injection H as <- <-. split; [reflexivity|]. intros; discriminate.
    - cbn in H. injection H as <- <-. split; [reflexivity|].
      intros m' c' E. injection E as _ <-. now apply (Hcnt results). }
  destruct Hw as [-> Hcnt'].
  exists entries. split; [congruence|]. split; [lia|]. split; [exact Hle|].
  exact Hcnt'.
Qed.

Lemma react_loop_budget env cb max_iterations iterations :
  forall messages count w r w',
  reporting_only cb ->
  count <= MAX_TOOL_CALLS_PER_SECTION ->
  react_loop env cb max_iterations iterations messages count w = (r, w') ->
  exists entries,
    tool_log w' = tool_log w ++ entries
    /\ llm_calls w' <= llm_calls w + length iterations
    /\ count + length entries <= MAX_TOOL_CALLS_PER_SECTION.
Proof.
  induction iterations as [|iteration rest IH];
    intros messages count w r w' Hcb Hcount H.
  - cbn in H. injection H as <- <-. exists []. rewrite app_nil_r. cbn.
    repeat split; lia.
  - cbn [react_loop] in H. unfold bind in H.
    destruct (react_round env cb max_iterations iteration messages count w)
      as [rr w1] eqn:Hr.
    apply react_round_budget in Hr as (entries & Hl & Hc & Hle & Hcnt);
      [|exact Hcb].
    rewrite Nat.max_r in Hle by exact Hcount.
    destruct rr as [e|[a|messages1 count1]].
    + injection H as <- <-. exists entries. cbn [length].
      repeat split; try assumption; lia.
    + cbn in H. injection H as <- <-. exists entries. cbn [length].
      repeat split; try assumption; lia.
    + specialize (Hcnt _ _ eq_refl). subst count1.
      apply IH in H as (entries' & Hl' & Hc' & Hle'); [|exact Hcb|lia].
      exists (entries ++ entries'). split.
      { rewrite Hl', Hl, <- app_assoc. reflexivity. }
      rewrite length_app. cbn [length]. split; lia.
Qed.

(** C5. With a callback that only reports, whatever the model answers and
    however [_generate_section_react] ends (with a text or with an
    exception): it executes at most five tools; it asks the model at most
    seven times in the loop and once more after it; every round that starts
    within the budget ends within it, having executed as many tools as it
    added to the count; and a round that starts with the budget used up, on
    an answer with calls (any number of them) and without a final marker,
    executes no tool and still appends the answer and an observation, empty
    of results, that asks to go on or give the final answer. *)
Theorem react_tool_budget env cb section outline previous_sections w :
  reporting_only cb ->
  (exists entries,
     tool_log (snd (_generate_section_react env section outline
                      previous_sections cb w))
     = tool_log w ++ entries
     /\ length entries <= MAX_TOOL_CALLS_PER_SECTION
     /\ MAX_TOOL_CALLS_PER_SECTION = 5)
  /\ llm_calls (snd (_generate_section_react env section outline
                       previous_sections cb w))
     <= llm_calls w + (MAX_TOOL_CALLS_PER_SECTION + 2) + 1
  /\ (forall iteration messages count w0 messages' count' w1,
        count <= MAX_TOOL_CALLS_PER_SECTION ->
        react_round env cb (MAX_TOOL_CALLS_PER_SECTION + 2) iteration messages
                    count w0
        = (inr (Continue messages' count'), w1) ->
        count' <= MAX_TOOL_CALLS_PER_SECTION
        /\ exists entries,
             tool_log w1 = tool_log w0 ++ entries
             /\ count' = count + length entries)
  /\ (forall iteration messages count w0 w1 response,
        MAX_TOOL_CALLS_PER_SECTION <= count ->
        notify cb (py "generating")
          (iteration_percent iteration (MAX_TOOL_CALLS_PER_SECTION + 2))
          (py "思考与行动中 (" ++ str_of_nat count ++ py "/"
           ++ str_of_nat MAX_TOOL_CALLS_PER_SECTION ++ py ")") w0
        = (inr tt, w1) ->
        llm_chat env (llm_calls w1) messages = inr response ->
        contains (py "Final Answer:") response = false ->
        _parse_tool_calls (rt env) response <> [] ->
        exists w2,
          react_round env cb (MAX_TOOL_CALLS_PER_SECTION + 2) iteration
                      messages count w0
          = (inr (Continue
                    (messages ++ [assistant_msg response; observation_msg []])
                    count), w2)
          /\ tool_log w2 = tool_log w0).
Proof.
  intros Hcb. split; [|split; [|split]].
  - unfold _generate_section_react, bind.
    destruct (react_loop env cb (MAX_TOOL_CALLS_PER_SECTION + 2)
                (seq 0 (MAX_TOOL_CALLS_PER_SECTION + 2))
                (section_prompt env outline section previous_sections) 0 w)
      as [r w1] eqn:Hloop.
    apply react_loop_budget in Hloop as (entries & Hl & Hc & Hle);
      [|exact Hcb|unfold MAX_TOOL_CALLS_PER_SECTION; lia].
    exists entries. split; [|split; [lia|reflexivity]].
    destruct r as [e|[a|messages1 count1]]; cbn [snd]; [exact Hl|exact Hl|].
    destruct (chat_llm_counts env (messages1 ++ [forced_request]) w1)
      as (Hc1 & _ & _).
    destruct (chat_llm env (messages1 ++ [forced_request]) w1)
      as [[e|response] w2]; cbn [snd] in Hc1 |- *.
    + congruence.
    + destruct (contains (py "Final Answer:") response); cbn; congruence.
  - unfold _generate_section_react, bind.
    destruct (react_loop env cb (MAX_TOOL_CALLS_PER_SECTION + 2)
                (seq 0 (MAX_TOOL_CALLS_PER_SECTION + 2))
                (section_prompt env outline section previous_sections) 0 w)
      as [r w1] eqn:Hloop.
    apply react_loop_budget in Hloop as (entries & Hl & Hc & Hle);
      [|exact Hcb|unfold MAX_TOOL_CALLS_PER_SECTION; lia].
    rewrite length_seq in Hc.
    destruct r as [e|[a|messages1 count1]]; cbn [snd];
      [lia|unfold ret; cbn [snd]; lia|].
    destruct (chat_llm_counts env (messages1 ++ [forced_request]) w1)
      as (_ & Hc2 & _).
    destruct (chat_llm env (messages1 ++ [forced_request]) w1)
      as [[e|response] w2]; cbn [snd] in Hc2 |- *.
    + lia.
    + destruct (contains (py "Final Answer:") response); unfold ret;
        cbn [snd]; lia.
  - intros iteration messages count w0 messages' count' w1 Hcount Hr.
    apply react_round_budget in Hr as (entries & Hl & Hc & Hle & Hcnt);
      [|exact Hcb].
    rewrite Nat.max_r in Hle by exact Hcount.
    specialize (Hcnt _ _ eq_refl). split; [lia|].
    exists entries. now split.
  - intros iteration messages count w0 w1 response Hcount Hn Hllm Hfa Hparse.
    destruct (notify_frame cb (py "generating")
                (iteration_percent iteration (MAX_TOOL_CALLS_PER_SECTION + 2))
                (py "思考与行动中 (" ++ str_of_nat count ++ py "/"
                 ++ str_of_nat MAX_TOOL_CALLS_PER_SECTION ++ py ")") w0 Hcb)
      as [Hn1 _].
    rewrite Hn in Hn1. cbn [snd] in Hn1.
    unfold react_round, bind. rewrite Hn. unfold chat_llm at 1. rewrite Hllm, Hfa.
    destruct (_parse_tool_calls (rt env) response) as [|c cs];
      [contradiction|].
    cbn [execute_calls].
    apply Nat.leb_le in Hcount. rewrite Hcount. cbn.
    eexists. split; [reflexivity|]. cbn. exact Hn1.
Qed.

Lemma react_tool_budget_witness :
  reporting_only None
  /\ (exists entries,
        tool_log (snd (_generate_section_react greedy_env
                         (mkSection (JStr (py "A")) [] [])
                         default_outline [] None initial_world))
        = tool_log initial_world ++ entries
        /\ length entries <= MAX_TOOL_CALLS_PER_SECTION
        /\ MAX_TOOL_CALLS_PER_SECTION = 5)
  /\ llm_calls (snd (_generate_section_react greedy_env
                       (mkSection (JStr (py "A")) [] [])
                       default_outline [] None initial_world))
     <= llm_calls initial_world + (MAX_TOOL_CALLS_PER_SECTION + 2) + 1.
Proof.
  pose proof no_callback_reporting_only as H.
  split; [exact H|].
  destruct (react_tool_budget greedy_env None (mkSection (JStr (py "A")) [] [])
              default_outline [] initial_world H) as (H1 & H2 & _).
  split; [exact H1|exact H2].
Defined.

(** The bounds are reached: a model that asks for two tools on every turn
    gets five executions in eight turns. *)
Example react_greedy_run :
  length (tool_log (snd (_generate_section_react greedy_env
                           (mkSection (JStr (py "A")) [] [])
                           default_outline [] None initial_world))) = 5
  /\ llm_calls (snd (_generate_section_react greedy_env
                       (mkSection (JStr (py "A")) [] [])
                       default_outline [] None initial_world)) = 8.
Proof. split; vm_compute; reflexivity. Qed.

End ReactFacts.

Module ChatFacts.
Import Re Eff ReportAgent ChatSpec EffFacts.

Lemma execute_tool_effect env name parameters w :
  exists text,
    _execute_tool env name parameters w
    = (inr text,
       mkWorld (store w) (llm_calls w) (fs_ops w) (callback_calls w)
               (progress_log w) (callback_log w)
               (tool_log w ++ [(name, parameters)])).
Proof.
  unfold _execute_tool.
  destruct (dispatch_tool env (length (tool_log w)) name parameters);
    eexists; reflexivity.
Qed.

Lemma chat_llm_inr env messages w resp w' :
  chat_llm env messages w = (inr resp, w') ->
  llm_chat env (llm_calls w) messages = inr resp
  /\ llm_calls w' = S (llm_calls w) /\ tool_log w' = tool_log w.
Proof.
  unfold chat_llm. intros H. injection H as H1 <-. now repeat split.
Qed.

Lemma chat_execute_calls_spec env calls : forall results made w results' made' w',
  chat_execute_calls env calls results made w = (inr (results', made'), w') ->
  made' = made ++ calls
  /\ llm_calls w' = llm_calls w
  /\ exists entries,
       tool_log w' = tool_log w ++ entries /\ Forall2 executed_as calls entries.
Proof.
  induction calls as [|call calls IH]; intros results made w results' made' w' H.
  - cbn in H. apply ret_inr in H as [H ->]. injection H as _ <-.
    rewrite app_nil_r. repeat split. exists []. rewrite app_nil_r.
    split; [reflexivity|constructor].
  - cbn [chat_execute_calls] in H.
    apply bind_inr in H as (name & w1 & Hn & H). apply lift_inr in Hn as [Hn ->].
    apply bind_inr in H as (params & w2 & Hp & H). apply lift_inr in Hp as [Hp ->].
    apply bind_inr in H as (result & w3 & Hx & H).
    destruct (execute_tool_effect env name params w) as [text Ht].
    rewrite Ht in Hx. injection Hx as _ <-.
    apply IH in H as (-> & Hl & entries & Hlog & HF).
    cbn [llm_calls tool_log] in Hl, Hlog.
    split; [now rewrite <- app_assoc|]. split; [exact Hl|].
    exists ((name, params) :: entries). split.
    + rewrite Hlog, <- app_assoc. reflexivity.
    + constructor; [now split|exact HF].
Qed.

(** The loop of [chat]: either it returns from inside, on the first answer
    without calls, or it runs all its rounds, each answer holding calls. *)
Lemma chat_loop_spec env n : forall messages made w r w',
  chat_loop env n messages made w = (inr r, w') ->
  exists calls entries,
    tool_log w' = tool_log w ++ entries
    /\ Forall2 executed_as calls entries
    /\ match r with
       | inl res =>
         tool_calls res = made ++ calls /\ sources res = []
         /\ exists k msgs resp,
              k < n /\ llm_calls w' = llm_calls w + S k
              /\ llm_chat env (llm_calls w + k) msgs = inr resp
              /\ _parse_tool_calls (rt env) resp = []
              /\ response res = clean_response resp
       | inr (_, made') =>
         made' = made ++ calls /\ llm_calls w' = llm_calls w + n
         /\ forall k, k < n ->
              exists msgs resp,
                llm_chat env (llm_calls w + k) msgs = inr resp
                /\ _parse_tool_calls (rt env) resp <> []
       end.
Proof.
  induction n as [|n IH]; intros messages made w r w' H.
  - cbn in H. apply ret_inr in H as [-> ->]. exists [], [].
    rewrite !app_nil_r. repeat split; try constructor; try lia.
  - cbn [chat_loop] in H.
    apply bind_inr in H as (resp & w1 & Hllm & H).
    apply chat_llm_inr in Hllm as (Hresp & Hc1 & Hl1).
    destruct (_parse_tool_calls (rt env) resp) as [|c cs] eqn:Hparse.
    + apply ret_inr in H as [-> ->]. exists [], [].
      rewrite !app_nil_r. split; [now rewrite Hl1|]. split; [constructor|].
      cbn [tool_calls sources response]. repeat split.
      exists 0, messages, resp. rewrite Nat.add_0_r.
      repeat split; try assumption; lia.
    + apply bind_inr in H as ([results made1] & w2 & Hex & H).
      apply chat_execute_calls_spec in Hex as (-> & Hc2 & entries & Hl2 & HF).
      apply IH in H as (calls' & entries' & Hl3 & HF' & Hr).
      exists ((c :: cs) ++ calls'), (entries ++ entries'). split.
      { rewrite Hl3, Hl2, Hl1. now rewrite app_assoc. }
      split; [now apply Forall2_app|].
      destruct r as [res|[msgs' made']].
      * destruct Hr as (Htc & Hsrc & k & msgs & resp' & Hk & Hc3 & Hresp' & Hp & Hcl).
        split; [now rewrite Htc, app_assoc|]. split; [exact Hsrc|].
        exists (S k), msgs, resp'. repeat split; try assumption; try lia.
        replace (llm_calls w + S k) with (llm_calls w2 + k) by lia.
        exact Hresp'.
      * destruct Hr as (Hm & Hc3 & Hall).
        split; [now rewrite Hm, app_assoc|]. split; [lia|].
        intros k Hk. destruct k as [|k].
        -- exists messages, resp. rewrite Nat.add_0_r, Hparse.
           split; [exact Hresp|discriminate].
        -- destruct (Hall k) as (msgs & resp' & H1 & H2); [lia|].
           exists msgs, resp'.
           replace (llm_calls w + S k) with (llm_calls w2 + k) by lia.
           now split.
Qed.

(** C9 at the bound of the loop. The model asks for a tool on every turn:
    three rounds execute a call each, and the fourth answer is returned as
    it is, with the tool-call syntax that the return from inside the loop
    removes from its answer. So the text handed to the caller is not free
    of tool-call syntax on every path. *)
Lemma chat_final_turn_not_stripped :
  exists res w',
    chat always_calls_env (py "How did it go?") [] initial_world = (inr res, w')
    /\ response res = py "[TOOL_CALL] get_graph_statistics()"
    /\ has_tool_call_syntax (rt always_calls_env) (response res)
    /\ clean_response (response res) <> response res
    /\ length (tool_calls res) = 3.
Proof.
  eexists. eexists. split; [vm_compute; reflexivity|].
  cbn [response tool_calls]. split; [reflexivity|]. split; [|split].
  - right. vm_compute. discriminate.
  - vm_compute. discriminate.
  - reflexivity.
Qed.

End ChatFacts.

Module PipelineFacts.
Import Re Eff ReportAgent PipelineSpec EffFacts.

(** *** What the steps of the pipeline leave alone *)

Lemma keeps_error_bind {A B} (m : M GenState A) (f : A -> M GenState B) :
  keeps_error m -> (forall a, keeps_error (f a)) -> keeps_error (bind m f).
Proof.
  intros Hm Hf g r g'. unfold bind.
  destruct (m g) as [[e|a] g1] eqn:E.
  - intros H. injection H as <- <-. eapply Hm, E.
  - intros H. apply Hf in H. rewrite H. eapply Hm, E.
Qed.

Lemma keeps_error_in_world {A} (m : M World A) : keeps_error (in_world m).
Proof.
  intros g r g'. unfold in_world. destruct (m (g_world g)) as [r0 w'].
  intros H. injection H as <- <-. reflexivity.
Qed.

Lemma keeps_error_ret {A} (a : A) : keeps_error (ret a).
Proof. intros g r g' H. injection H as <- <-. reflexivity. Qed.

Lemma keeps_error_get : keeps_error get.
Proof. intros g r g' H. injection H as <- <-. reflexivity. Qed.

Lemma keeps_error_set_report f :
  (forall r, error (f r) = error r) -> keeps_error (set_report f).
Proof.
  intros Hf g r g' H. unfold set_report, modify in H.
  injection H as <- <-. cbn. apply Hf.
Qed.

Lemma keeps_error_add_completed t : keeps_error (add_completed t).
Proof. intros g r g' H. injection H as <- <-. reflexivity. Qed.

Lemma keeps_error_add_generated t : keeps_error (add_generated t).
Proof. intros g r g' H. injection H as <- <-. reflexivity. Qed.

Lemma keeps_error_for_each {A} (l : list A) (body : A -> M GenState unit) :
  (forall x, keeps_error (body x)) -> keeps_error (for_each l body).
Proof.
  intros Hb. induction l as [|x l IH]; cbn [for_each].
  - apply keeps_error_ret.
  - apply keeps_error_bind; [apply Hb|]. intros _. exact IH.
Qed.

Lemma error_set_section_content i text r :
  error (set_section_content i text r) = error r.
Proof. unfold set_section_content. now destruct (outline r). Qed.

Lemma error_set_subsection_content i j text r :
  error (set_subsection_content i j text r) = error r.
Proof. unfold set_subsection_content. now destruct (outline r). Qed.

Ltac keeps_error_step :=
  first
    [ apply keeps_error_bind; [|intros ?]
    | apply keeps_error_in_world
    | apply keeps_error_ret
    | apply keeps_error_get
    | apply keeps_error_add_completed
    | apply keeps_error_add_generated
    | apply keeps_error_set_report; intros ?;
      first [ apply error_set_section_content
            | apply error_set_subsection_content
            | reflexivity ] ].

Lemma keeps_error_current_outline o : keeps_error (current_outline o).
Proof. unfold current_outline. repeat keeps_error_step. Qed.

Lemma keeps_error_subsection_step env rid o num base n j sub :
  keeps_error (subsection_step env rid o num base n j sub).
Proof.
  unfold subsection_step.
  repeat first [keeps_error_step | apply keeps_error_current_outline].
Qed.

Lemma keeps_error_section_step env rid o total i section :
  keeps_error (section_step env rid o total i section).
Proof.
  unfold section_step.
  repeat first [keeps_error_step | apply keeps_error_current_outline].
  apply keeps_error_for_each. intros [j sub].
  apply keeps_error_subsection_step.
Qed.

Lemma keeps_error_generate_report_try env rid :
  keeps_error (generate_report_try env rid).
Proof.
  unfold generate_report_try.
  repeat first [keeps_error_step | apply keeps_error_current_outline
               | apply keeps_error_for_each; intros [i section];
                 apply keeps_error_section_step ].
Qed.

Lemma in_world_report {A} (m : M World A) g r g' :
  in_world m g = (r, g') -> g_report g' = g_report g.
Proof.
  unfold in_world. destruct (m (g_world g)) as [r0 w'].
  intros H. injection H as <- <-. reflexivity.
Qed.

(** A run of the [try] block that reaches its end leaves the report
    completed. *)
Lemma generate_report_try_completed env rid g0 g :
  generate_report_try env rid g0 = (inr tt, g) ->
  status (g_report g) = COMPLETED.
Proof.
  unfold generate_report_try. intros H.
  repeat (apply bind_inr in H as (? & ? & ? & H); cbv beta zeta in H).
  repeat match goal with
  | E : in_world _ _ = (_, ?g1) |- context [g_report ?g1] =>
    rewrite (in_world_report _ _ _ _ E)
  | E : get _ = (_, ?g1) |- context [g_report ?g1] =>
    let E1 := fresh in let E2 := fresh in
    injection E as E1 E2; rewrite <- E2
  end.
  match goal with
  | E : set_report _ _ = (_, ?g1) |- context [g_report ?g1] =>
    unfold set_report, modify in E;
    let E1 := fresh in let E2 := fresh in
    injection E as E1 E2; rewrite <- E2
  end.
  reflexivity.
Qed.

(** C2. [generate_report] is a total function into reports: it raises
    nothing. When the [try] block raises, at whatever stage (creating the
    folder, saving, planning, a callback, generating a section, assembling),
    the report returned has status [FAILED] and the text of the exception
    as its error, whether or not saving that state raises in turn; when the
    block reaches its end the report has status [COMPLETED] and no error.
    So the status returned is always one of the two final ones. *)
Theorem generate_report_always_returns env rid w :
  match generate_report_try env rid (mkGen w (new_report env rid) [] []) with
  | (inl e, g) =>
    fst (generate_report env rid w)
    = with_error (exc_text e) (with_status FAILED (g_report g))
    /\ status (fst (generate_report env rid w)) = FAILED
    /\ error (fst (generate_report env rid w)) = Some (exc_text e)
  | (inr _, g) =>
    generate_report env rid w = (g_report g, g_world g)
    /\ status (fst (generate_report env rid w)) = COMPLETED
    /\ error (fst (generate_report env rid w)) = None
  end
  /\ (status (fst (generate_report env rid w)) = COMPLETED
      \/ status (fst (generate_report env rid w)) = FAILED).
Proof.
  unfold generate_report. fold (new_report env rid).
  destruct (generate_report_try env rid (mkGen w (new_report env rid) [] []))
    as [[e|[]] g] eqn:Htry.
  - unfold generate_report_except. cbn [fst]. repeat split. now right.
  - cbn [fst].
    assert (Hs : status (g_report g) = COMPLETED)
      by (eapply generate_report_try_completed, Htry).
    split; [|now left]. split; [reflexivity|]. split; [exact Hs|].
    apply keeps_error_generate_report_try in Htry. rewrite Htry. reflexivity.
Qed.

(** On a disk where every operation fails the first step of the pipeline
    raises, and so does the saving of the failure: the report comes back all
    the same, failed, with the text of the first exception. *)
Example generate_report_on_broken_disk :
  fst (generate_report broken_disk_env (py "report_1") initial_world)
  = with_error (py "disk full")
      (with_status FAILED (new_report broken_disk_env (py "report_1")))
  /\ store (snd (generate_report broken_disk_env (py "report_1")
                   initial_world)) = ∅.
Proof. split; vm_compute; reflexivity. Qed.

(** C4, at the failing input. A run without any failure on an outline of
    one section with two subsections: the percentages written to
    [progress.json] are 0, 5, 15, 20, 90, 22, 25, 95, 100 (the section is
    reported done at 90 and its first subsection started at 22), and the
    percentages handed to the callback go from 29, in the second round of
    the section, back to 22. Neither sequence is non-decreasing. *)
Theorem progress_drops_at_subsections :
  status (fst (generate_report smooth_env (py "report_1") initial_world))
  = COMPLETED
  /\ map p_progress
       (progress_log (snd (generate_report smooth_env (py "report_1")
                             initial_world)))
     = [0; 5; 15; 20; 90; 22; 25; 95; 100]%Z
  /\ map (fun ev => snd (fst ev))
       (callback_log (snd (generate_report smooth_env (py "report_1")
                             initial_world)))
     = [0; 0; 6; 16; 20; 20; 20; 29; 22; 25; 95; 100]%Z
  /\ ~ nondecreasing
       (map p_progress
          (progress_log (snd (generate_report smooth_env (py "report_1")
                                initial_world))))
  /\ ~ nondecreasing
       (map (fun ev => snd (fst ev))
          (callback_log (snd (generate_report smooth_env (py "report_1")
                                initial_world)))).
Proof.
  assert (E1 : map p_progress
       (progress_log (snd (generate_report smooth_env (py "report_1")
                             initial_world)))
     = [0; 5; 15; 20; 90; 22; 25; 95; 100]%Z) by (vm_compute; reflexivity).
  assert (E2 : map (fun ev => snd (fst ev))
       (callback_log (snd (generate_report smooth_env (py "report_1")
                             initial_world)))
     = [0; 0; 6; 16; 20; 20; 20; 29; 22; 25; 95; 100]%Z)
    by (vm_compute; reflexivity).
  split; [vm_compute; reflexivity|]. split; [exact E1|]. split; [exact E2|].
  rewrite E1, E2. split; cbn; lia.
Qed.

End PipelineFacts.

Module ProgressFacts.
Import Re Eff ReportAgent PipelineSpec ProgressSpec EffFacts.

(** *** Steps that write no progress record *)

Lemma silent_ret {A} (a : A) : silent (ret a).
Proof. intros w r w' H. injection H as _ <-. reflexivity. Qed.

Lemma silent_lift {A} (x : Exception + A) : silent (lift x).
Proof. intros w r w' H. injection H as _ <-. reflexivity. Qed.

Lemma silent_get : silent get.
Proof. intros w r w' H. injection H as _ <-. reflexivity. Qed.

Lemma silent_bind {A B} (m : M World A) (f : A -> M World B) :
  silent m -> (forall a, silent (f a)) -> silent (bind m f).
Proof.
  intros Hm Hf w r w'. unfold bind. destruct (m w) as [[e|a] w1] eqn:E.
  - intros H. injection H as _ <-. eapply Hm, E.
  - intros H. apply Hf in H. rewrite H. eapply Hm, E.
Qed.

Lemma silent_try_catch {A} (m : M World A) (h : Exception -> M World A) :
  silent m -> (forall e, silent (h e)) -> silent (try_catch m h).
Proof.
  intros Hm Hh w r w'. unfold try_catch. destruct (m w) as [[e|a] w1] eqn:E.
  - intros H. apply Hh in H. rewrite H. eapply Hm, E.
  - intros H. injection H as _ <-. eapply Hm, E.
Qed.

Lemma silent_modify (f : World -> World) :
  (forall w, progress_log (f w) = progress_log w) -> silent (modify f).
Proof. intros Hf w r w' H. injection H as _ <-. apply Hf. Qed.

Lemma silent_when (c : bool) (m : M World unit) : silent m -> silent (when c m).
Proof. intros Hm. destruct c; [exact Hm|apply silent_ret]. Qed.

Lemma silent_fs_op env : silent (fs_op env).
Proof.
  intros w r w'. unfold fs_op. destruct (fs_fault env (fs_ops w));
    intros H; injection H as _ <-; reflexivity.
Qed.

Lemma silent_write_folder env rid upd : silent (write_folder env rid upd).
Proof.
  unfold write_folder. apply silent_bind; [apply silent_fs_op|]. intros _.
  intros w r w'. destruct (store w !! rid); intros H; injection H as _ <-;
    reflexivity.
Qed.

Lemma silent_chat_llm env messages : silent (chat_llm env messages).
Proof. intros w r w' H. injection H as _ <-. reflexivity. Qed.

Lemma silent_chat_json_llm env messages : silent (chat_json_llm env messages).
Proof. intros w r w' H. injection H as _ <-. reflexivity. Qed.

Lemma silent_call_user_callback env stage prog msg :
  silent (call_user_callback env stage prog msg).
Proof.
  unfold call_user_callback. destruct (user_callback env) as [cb|];
    [|apply silent_ret].
  intros w r w'. destruct (cb (callback_calls w) (stage, prog, msg));
    intros H; injection H as _ <-; reflexivity.
Qed.

Lemma silent_execute_tool env name parameters :
  silent (_execute_tool env name parameters).
Proof.
  intros w r w'. unfold _execute_tool.
  destruct (dispatch_tool env (length (tool_log w)) name parameters);
    intros H; injection H as _ <-; reflexivity.
Qed.

Lemma silent_notify cb stage prog msg :
  silent_callback cb -> silent (notify cb stage prog msg).
Proof.
  intros Hcb. destruct cb as [f|]; cbn [notify]; [now apply Hcb|].
  apply silent_ret.
Qed.

(** The callbacks the pipeline passes down are such. *)
Lemma silent_pipeline_callback env (f : Z -> Z) :
  silent_callback
    (Some (fun stage prog msg => call_user_callback env stage (f prog) msg)).
Proof.
  intros g E stage prog msg. injection E as <-. apply silent_call_user_callback.
Qed.

Lemma silent_no_callback : silent_callback None.
Proof. intros f E. discriminate E. Qed.

Ltac silent_step :=
  first
    [ apply silent_ret
    | apply silent_lift
    | apply silent_get
    | apply silent_fs_op
    | apply silent_write_folder
    | apply silent_chat_llm
    | apply silent_chat_json_llm
    | apply silent_call_user_callback
    | apply silent_execute_tool
    | apply silent_when
    | apply silent_notify; assumption
    | apply silent_bind; [|intros ?] ].

Lemma silent_execute_calls env calls : forall results count,
  silent (execute_calls env calls results count).
Proof.
  induction calls as [|call calls IH]; intros results count;
    cbn [execute_calls]; [apply silent_ret|].
  destruct (MAX_TOOL_CALLS_PER_SECTION <=? count)%nat; [apply silent_ret|].
  repeat silent_step. apply IH.
Qed.

Lemma silent_react_round env cb max_iterations iteration messages count :
  silent_callback cb ->
  silent (react_round env cb max_iterations iteration messages count).
Proof.
  intros Hcb. unfold react_round. repeat silent_step.
  destruct (contains _ _); [apply silent_ret|].
  destruct (_parse_tool_calls _ _); [apply silent_ret|].
  apply silent_bind; [apply silent_execute_calls|]. intros [results count'].
  apply silent_ret.
Qed.

Lemma silent_react_loop env cb max_iterations iterations :
  silent_callback cb ->
  forall messages count,
    silent (react_loop env cb max_iterations iterations messages count).
Proof.
  intros Hcb. induction iterations as [|i rest IH]; intros messages count;
    cbn [react_loop]; [apply silent_ret|].
  apply silent_bind; [now apply silent_react_round|].
  intros [a|messages' count']; [apply silent_ret|apply IH].
Qed.

Lemma silent_generate_section_react env section outline previous cb :
  silent_callback cb ->
  silent (_generate_section_react env section outline previous cb).
Proof.
  intros Hcb. unfold _generate_section_react. cbv zeta.
  apply silent_bind; [now apply silent_react_loop|].
  intros [a|messages' count']; [apply silent_ret|].
  repeat silent_step. destruct (contains _ _); apply silent_ret.
Qed.

Lemma silent_plan_outline env cb :
  silent_callback cb -> silent (plan_outline env cb).
Proof.
  intros Hcb. unfold plan_outline. repeat silent_step.
  apply silent_try_catch; [|intros ?; apply silent_ret].
  unfold plan_outline_try. repeat silent_step.
Qed.

Lemma silent_ensure_report_folder env rid : silent (_ensure_report_folder env rid).
Proof.
  unfold _ensure_report_folder. repeat silent_step.
  apply silent_modify. intros w. now destruct (store w !! rid).
Qed.

Ltac silent_store :=
  repeat first [ apply silent_ensure_report_folder | silent_step ].

Lemma silent_save_outline env rid o : silent (save_outline env rid o).
Proof. unfold save_outline. silent_store. Qed.

Lemma silent_save_section env rid i section sub parent :
  silent (save_section env rid i section sub parent).
Proof. unfold save_section, write_text. silent_store. Qed.

Lemma silent_save_report env report : silent (save_report env report).
Proof.
  unfold save_report, write_text. cbv zeta. silent_store.
  destruct (outline report); [apply silent_save_outline|apply silent_ret].
Qed.

Lemma silent_read_sections env f names : silent (read_sections env f names).
Proof.
  induction names as [|n names IH]; cbn [read_sections]; [apply silent_ret|].
  destruct (is_section_file n); [|exact IH].
  cbv zeta. repeat first [ exact IH | silent_step ].
Qed.

Lemma silent_assemble_full_report env rid o :
  silent (assemble_full_report env rid o).
Proof.
  unfold assemble_full_report, get_generated_sections, write_text. cbv zeta.
  apply silent_bind.
  - apply silent_bind; [apply silent_get|]. intros w.
    destruct (store w !! rid); [|apply silent_ret].
    apply silent_bind; [apply silent_fs_op|]. intros _.
    apply silent_read_sections.
  - intros sections. repeat silent_step.
Qed.

(** *** The steps of the pipeline *)

Lemma gsilent_in_world {A} (m : M World A) : silent m -> gsilent (in_world m).
Proof.
  intros Hm g r g'. unfold in_world.
  destruct (m (g_world g)) as [r0 w1] eqn:E. intros H. injection H as _ <-.
  cbn. eapply Hm, E.
Qed.

Lemma gsilent_ret {A} (a : A) : gsilent (ret a).
Proof. intros g r g' H. injection H as _ <-. reflexivity. Qed.

Lemma gsilent_get : gsilent get.
Proof. intros g r g' H. injection H as _ <-. reflexivity. Qed.

Lemma gsilent_set_report f : gsilent (set_report f).
Proof. intros g r g' H. injection H as _ <-. reflexivity. Qed.

Lemma gsilent_add_completed t : gsilent (add_completed t).
Proof. intros g r g' H. injection H as _ <-. reflexivity. Qed.

Lemma gsilent_add_generated t : gsilent (add_generated t).
Proof. intros g r g' H. injection H as _ <-. reflexivity. Qed.

Lemma gsilent_current_outline dflt : gsilent (current_outline dflt).
Proof. intros g r g' H. injection H as _ <-. reflexivity. Qed.

Lemma nondecreasing_app (l1 l2 : list Z) (mid : Z) :
  nondecreasing l1 -> nondecreasing l2 ->
  Forall (fun x => x <= mid)%Z l1 -> Forall (fun y => mid <= y)%Z l2 ->
  nondecreasing (l1 ++ l2).
Proof.
  intros H1 H2 F1 F2. induction l1 as [|x [|x' l1] IH].
  - exact H2.
  - destruct l2 as [|y l2]; [exact I|]. cbn. split; [|exact H2].
    apply Forall_inv in F1, F2. lia.
  - destruct H1 as [Hx H1]. split; [exact Hx|].
    apply IH; [exact H1|]. eapply Forall_inv_tail, F1.
Qed.

Lemma gsilent_appends {A} lo hi (m : M GenState A) : gsilent m -> appends lo hi m.
Proof.
  intros Hm g r g' E. exists []. rewrite app_nil_r.
  split; [eapply Hm, E|]. split; [exact I|constructor].
Qed.

Lemma appends_seq {A B} (lo mid hi : Z) (Q : A -> Prop)
    (m : M GenState A) (f : A -> M GenState B) :
  (lo <= mid <= hi)%Z ->
  appends lo mid m ->
  (forall g a g', m g = (inr a, g') -> Q a) ->
  (forall a, Q a -> appends mid hi (f a)) ->
  appends lo hi (bind m f).
Proof.
  intros Hb Hm HQ Hf g r g'. unfold bind.
  destruct (m g) as [[e|a] g1] eqn:E.
  - intros H. injection H as _ <-. destruct (Hm _ _ _ E) as (l & Hl & Hn & HF).
    exists l. split; [exact Hl|]. split; [exact Hn|].
    eapply Forall_impl; [exact HF|]. cbn. intros d Hd. lia.
  - intros H. destruct (Hm _ _ _ E) as (l1 & Hl1 & Hn1 & HF1).
    destruct (Hf a (HQ _ _ _ E) _ _ _ H) as (l2 & Hl2 & Hn2 & HF2).
    exists (l1 ++ l2). split; [rewrite Hl2, Hl1; symmetry; apply app_assoc|].
    split.
    + rewrite map_app. apply nondecreasing_app with (mid := mid);
        [exact Hn1|exact Hn2| |]; apply Forall_map.
      * eapply Forall_impl; [exact HF1|]. cbn. intros d Hd. lia.
      * eapply Forall_impl; [exact HF2|]. cbn. intros d Hd. lia.
    + apply Forall_app. split.
      * eapply Forall_impl; [exact HF1|]. cbn. intros d Hd. lia.
      * eapply Forall_impl; [exact HF2|]. cbn. intros d Hd. lia.
Qed.

Lemma appends_then {A B} (lo mid hi : Z)
    (m : M GenState A) (f : A -> M GenState B) :
  (lo <= mid <= hi)%Z ->
  appends lo mid m -> (forall a, appends mid hi (f a)) ->
  appends lo hi (bind m f).
Proof.
  intros Hb Hm Hf. apply appends_seq with (mid := mid) (Q := fun _ => True);
    auto.
Qed.

(** [update_progress] writes one record, or none when the disk fails. *)
Lemma appends_update_progress env rid st p msg cur comp (lo hi : Z) :
  (lo <= p <= hi)%Z ->
  appends lo hi (in_world (update_progress env rid st p msg cur comp)).
Proof.
  intros Hp g r g'. unfold in_world, update_progress. cbv zeta. unfold bind.
  destruct (_ensure_report_folder env rid (g_world g)) as [[e|[]] w1] eqn:E1.
  { intros H. injection H as _ <-. exists []. rewrite app_nil_r. cbn.
    split; [eapply silent_ensure_report_folder, E1|]. split; [exact I|constructor]. }
  match goal with |- context [write_folder env rid ?u w1] =>
    destruct (write_folder env rid u w1) as [[e|[]] w2] eqn:E2 end.
  { intros H. injection H as _ <-. exists []. rewrite app_nil_r. cbn.
    apply silent_write_folder in E2. apply silent_ensure_report_folder in E1.
    split; [congruence|]. split; [exact I|constructor]. }
  intros H. injection H as _ <-.
  apply silent_write_folder in E2. apply silent_ensure_report_folder in E1.
  eexists [_]. cbn. split; [rewrite E2, E1; reflexivity|].
  split; [exact I|]. constructor; [cbn; lia|constructor].
Qed.

Ltac gsilent_step :=
  first
    [ apply gsilent_ret
    | apply gsilent_get
    | apply gsilent_set_report
    | apply gsilent_add_completed
    | apply gsilent_add_generated
    | apply gsilent_current_outline
    | apply gsilent_in_world;
      first [ apply silent_call_user_callback
            | apply silent_ensure_report_folder
            | apply silent_save_report
            | apply silent_save_outline
            | apply silent_save_section
            | apply silent_assemble_full_report
            | apply silent_generate_section_react;
              first [ apply silent_pipeline_callback | apply silent_no_callback ]
            | apply silent_plan_outline; apply silent_pipeline_callback ] ].

(** One statement of the pipeline: a quiet one, or a progress update. *)
Ltac appends_step :=
  lazymatch goal with
  | |- appends ?lo ?hi (bind (in_world (update_progress _ _ _ ?p _ _ _)) _) =>
    apply (appends_then lo p hi);
    [ | apply appends_update_progress | intros ? ]
  | |- appends ?lo ?hi (bind _ _) =>
    apply (appends_then lo lo hi);
    [ | apply gsilent_appends; gsilent_step | intros ? ]
  end.

(** Checked on every section of every outline of fewer than 70 sections. *)
Lemma sections_fit :
  forallb (fun total => forallb (section_fits total) (seq 0 total)) (seq 0 70)
  = true.
Proof. vm_compute. reflexivity. Qed.

Lemma section_bounds (i total : nat) :
  (i < total)%nat -> (total < 70)%nat ->
  (20 <= section_base i total
   /\ 0 <= section_share total
   /\ section_base i total + section_share total <= section_base (S i) total
   /\ section_base (S i) total <= 90)%Z.
Proof.
  intros Hi Ht. pose proof sections_fit as H.
  rewrite forallb_forall in H. specialize (H total).
  rewrite forallb_forall in H.
  assert (section_fits total i = true) as Hfit.
  { apply H; apply in_seq; lia. }
  unfold section_fits in Hfit. rewrite !andb_true_iff, !Z.leb_le in Hfit. tauto.
Qed.

(** With 70 sections, the section of index 47 starts below the completion
    of the section of index 46: [(47 / 70) * 70] is just under 47 in floating
    point. *)
Lemma section_does_not_fit :
  section_base 46 70 = 66%Z /\ section_share 70 = 1%Z
  /\ section_base 47 70 = 66%Z.
Proof. vm_compute. repeat split. Qed.

(** A section without subsections reports its base percentage and then its
    completion, in this order. *)
Lemma section_step_appends env rid outline0 total i section :
  sec_subsections section = [] ->
  (i < total)%nat -> (total < 70)%nat ->
  appends (section_base i total) (section_base (S i) total)
          (section_step env rid outline0 total i section).
Proof.
  intros Hsub Hi Ht.
  destruct (section_bounds i total Hi Ht) as (H1 & H2 & H3 & H4).
  unfold section_step. cbv zeta. rewrite Hsub. cbn [enumerate imap for_each].
  fold (section_base i total). fold (section_share total).
  set (B := section_base i total) in *.
  set (B' := section_base (S i) total) in *.
  set (D := section_share total) in *.
  do 10 (appends_step; [lia..|]).
  appends_step; [lia..|]. apply gsilent_appends, gsilent_ret.
Qed.

(** The loop over the sections, from section [k] on. *)
Lemma sections_loop_appends env rid outline0 total sections : forall k,
  Forall (fun s => sec_subsections s = []) sections ->
  (k + length sections = total)%nat -> (total < 70)%nat ->
  appends (section_base k total) 90
    (for_each (imap (fun i => pair (k + i)%nat) sections)
       (fun '(i, section) => section_step env rid outline0 total i section)).
Proof.
  induction sections as [|section rest IH]; intros k Hflat Hlen Ht.
  - apply gsilent_appends, gsilent_ret.
  - cbn [imap for_each]. rewrite Nat.add_0_r. cbn [length] in Hlen.
    assert (k < total)%nat as Hk by lia.
    destruct (section_bounds k total Hk Ht) as (H1 & H2 & H3 & H4).
    pose proof (Forall_inv Hflat) as Hs. cbn in Hs.
    pose proof (Forall_inv_tail Hflat) as Hrest.
    apply (appends_then _ (section_base (S k) total) _).
    + lia.
    + apply section_step_appends; [exact Hs|exact Hk|exact Ht].
    + intros _. rewrite (imap_ext _ (fun i => pair (S k + i)%nat) rest).
      * apply IH; [exact Hrest|lia|exact Ht].
      * intros i x _. cbn. f_equal. lia.
Qed.

Lemma default_outline_plain : plain_outline default_outline.
Proof. split; [cbn; lia|repeat constructor]. Qed.

(** On an outline without subsections and with fewer than 70 sections, the
    percentages written during a run are in non-decreasing order, from 0 to
    100, however the run ends. *)
Lemma progress_nondecreasing_on_plain_outlines env rid :
  plain_planner env -> appends 0 100 (generate_report_try env rid).
Proof.
  intros Hplain. unfold generate_report_try.
  do 7 (appends_step; [lia..|]).
  apply (appends_seq 5 5 100 plain_outline).
  { lia. }
  { apply gsilent_appends. gsilent_step. }
  { intros g o g'. unfold in_world.
    destruct (plan_outline env _ (g_world g)) as [r w1] eqn:E.
    intros H. injection H as -> _.
    apply PlannerFacts.plan_outline_cases in E
      as [->|(k & messages & response & H1 & H2)].
    - apply default_outline_plain.
    - eapply Hplain; eassumption. }
  intros outline0 [Hlen Hsecs].
  do 6 (appends_step; [lia..|]). cbv zeta.
  apply (appends_then 15 90 100); [lia| |intros _].
  { intros g r g' E.
    destruct (o_sections outline0) as [|s0 rest0] eqn:Eo.
    { injection E as _ <-. exists []. rewrite app_nil_r.
      split; [reflexivity|]. split; [exact I|constructor]. }
    rewrite <- Eo in *.
    assert (0 < length (o_sections outline0))%nat as Hpos
      by (rewrite Eo; cbn; lia).
    destruct (section_bounds 0 _ Hpos Hlen) as (H1 & _).
    destruct (sections_loop_appends env rid outline0
                (length (o_sections outline0)) (o_sections outline0) 0%nat
                Hsecs eq_refl Hlen g r g' E) as (l & Hl & Hn & HF).
    exists l. split; [exact Hl|]. split; [exact Hn|].
    eapply Forall_impl; [exact HF|]. cbn. intros d Hd. lia. }
  do 9 (appends_step; [lia..|]).
  apply gsilent_appends. gsilent_step.
Qed.

(** The same on a run of [generate_report] that ends well: the records
    written are those of the [try] block. *)
Lemma completed_run_progress env rid w :
  plain_planner env ->
  status (fst (generate_report env rid w)) = COMPLETED ->
  exists l,
    progress_log (snd (generate_report env rid w)) = progress_log w ++ l
    /\ nondecreasing (map p_progress l)
    /\ Forall (fun d => (0 <= p_progress d <= 100)%Z) l.
Proof.
  intros Hplain. unfold generate_report.
  destruct (generate_report_try env rid _) as [[e|[]] g] eqn:E.
  - unfold generate_report_except, with_error, with_status. cbn [fst status].
    intros H. discriminate H.
  - intros _. apply (progress_nondecreasing_on_plain_outlines env rid Hplain)
      in E. exact E.
Qed.

(** A planner that answers with [n] sections without subsections is one. *)
Lemma flat_planner_plain n :
  (n < 70)%nat ->
  plain_planner (PlannerSpec.planner_env (inr (PlannerSpec.response_with n 0))).
Proof.
  intros Hn k messages response o Hr Hp. cbn in Hr. injection Hr as <-.
  apply PlannerFacts.parse_outline_spec in Hp as (secs & Hs & HF).
  vm_compute in Hs. injection Hs as <-.
  match type of HF with Forall2 _ (?r ?x n) _ =>
    change (r x n) with (repeat x n) in HF; set (section_data := x) in HF end.
  split.
  - rewrite <- (Forall2_length _ _ _ HF), repeat_length. exact Hn.
  - assert (Forall (fun d => d = section_data) (repeat section_data n)) as Hrep.
    { apply Forall_forall. intros d Hd. apply list_elem_of_In in Hd.
      now apply repeat_spec in Hd. }
    revert Hrep. induction HF as [|d s ds ss Hds _ IH]; intros Hrep;
      [constructor|].
    pose proof (Forall_inv Hrep) as Hd. cbn in Hd. subst d.
    constructor; [|apply IH; eapply Forall_inv_tail, Hrep].
    destruct Hds as (_ & _ & subs & Hsubs & Hsub).
    vm_compute in Hsubs. injection Hsubs as <-. now inversion Hsub.
Qed.

(** Three sections without subsections: 0, 5, 15, then 20 to 43, 43 to 66
    and 66 to 89, then 95 and 100. *)
Example progress_of_three_sections :
  map p_progress
    (progress_log
       (snd (generate_report
               (PlannerSpec.planner_env (inr (PlannerSpec.response_with 3 0)))
               (py "report_1") initial_world)))
  = [0; 5; 15; 20; 43; 43; 66; 66; 89; 95; 100]%Z.
Proof. vm_compute. reflexivity. Qed.

Lemma nondecreasing_lookup (l : list Z) : forall n p q,
  nondecreasing l -> l !! n = Some p -> l !! S n = Some q -> (p <= q)%Z.
Proof.
  induction l as [|x [|y l] IH]; intros n p q Hl Hp Hq.
  - discriminate Hp.
  - destruct n; discriminate Hq.
  - destruct Hl as [Hxy Hl]. destruct n as [|n].
    + injection Hp as <-. injection Hq as <-. exact Hxy.
    + exact (IH n p q Hl Hp Hq).
Qed.

(** Seventy sections without subsections, no failure: the 47th section is
    reported done at 67 and the 48th is started at 66. *)
Example progress_drops_at_seventy_sections :
  let run :=
    generate_report
      (PlannerSpec.planner_env (inr (PlannerSpec.response_with 70 0)))
      (py "report_1") initial_world in
  status (fst run) = COMPLETED
  /\ p_progress <$> progress_log (snd run) !! 96%nat = Some 67%Z
  /\ p_progress <$> progress_log (snd run) !! 97%nat = Some 66%Z
  /\ ~ nondecreasing (map p_progress (progress_log (snd run))).
Proof.
  cbv zeta.
  assert (E1 : p_progress <$> progress_log
                 (snd (generate_report
                         (PlannerSpec.planner_env
                            (inr (PlannerSpec.response_with 70 0)))
                         (py "report_1") initial_world)) !! 96%nat
               = Some 67%Z) by (vm_compute; reflexivity).
  assert (E2 : p_progress <$> progress_log
                 (snd (generate_report
                         (PlannerSpec.planner_env
                            (inr (PlannerSpec.response_with 70 0)))
                         (py "report_1") initial_world)) !! 97%nat
               = Some 66%Z) by (vm_compute; reflexivity).
  split; [vm_compute; reflexivity|]. split; [exact E1|]. split; [exact E2|].
  intros Hn. rewrite <- list_lookup_fmap in E1, E2.
  pose proof (nondecreasing_lookup _ _ _ _ Hn E1 E2). lia.
Qed.


End ProgressFacts.

Module StrOrder.
Import ReportAgent StoreSpec.
Local Open Scope N_scope.

Lemma str_leb_refl a : str_leb a a = true.
Proof.
  induction a as [|x a IH]; cbn; [reflexivity|].
  rewrite N.eqb_refl, IH. now rewrite orb_true_r.
Qed.

Lemma str_leb_cons x a y b :
  str_leb (x :: a) (y :: b) = true <-> x < y \/ (x = y /\ str_leb a b = true).
Proof.
  cbn. rewrite orb_true_iff, andb_true_iff, N.ltb_lt, N.eqb_eq. reflexivity.
Qed.

Lemma str_leb_trans a : forall b c,
  str_leb a b = true -> str_leb b c = true -> str_leb a c = true.
Proof.
  induction a as [|x a IH]; intros [|y b] [|z c]; try (cbn; congruence).
  rewrite !str_leb_cons. intros [H1|[-> H1]] [H2|[-> H2]].
  - left. lia.
  - now left.
  - now left.
  - right. split; [reflexivity|]. eapply IH; eassumption.
Qed.

Lemma str_leb_antisym a : forall b,
  str_leb a b = true -> str_leb b a = true -> a = b.
Proof.
  induction a as [|x a IH]; intros [|y b]; try (cbn; congruence).
  rewrite !str_leb_cons. intros [H1|[-> H1]] [H2|[E H2]]; try lia.
  f_equal. now apply IH.
Qed.

Lemma str_leb_total a : forall b, str_leb a b = true \/ str_leb b a = true.
Proof.
  induction a as [|x a IH]; intros [|y b]; try (cbn; auto; fail).
  rewrite !str_leb_cons.
  destruct (N.lt_trichotomy x y) as [H|[->|H]]; [auto| |auto].
  destruct (IH b); auto.
Qed.

Lemma str_leb_app p a b : str_leb (p ++ a) (p ++ b) = str_leb a b.
Proof.
  induction p as [|x p IH]; cbn [app]; [reflexivity|].
  cbn [str_leb]. rewrite N.ltb_irrefl, N.eqb_refl, IH. reflexivity.
Qed.

#[export] Instance str_le_refl : Reflexive str_le.
Proof. intros a. unfold str_le. rewrite str_leb_refl. exact I. Qed.

#[export] Instance str_le_trans : Transitive str_le.
Proof.
  intros a b c. unfold str_le. rewrite !Is_true_true. apply str_leb_trans.
Qed.

#[export] Instance str_le_antisym : AntiSymm eq str_le.
Proof.
  intros a b. unfold str_le. rewrite !Is_true_true. apply str_leb_antisym.
Qed.

#[export] Instance str_le_total : Total str_le.
Proof.
  intros a b. unfold str_le. rewrite !Is_true_true. apply str_leb_total.
Qed.

End StrOrder.

Module StoreFacts.
Import Re Eff ReportAgent StoreSpec EffFacts StrOrder.

(** *** File names and their order *)

Lemma format_02d_two_digits n :
  n < 100 ->
  format_02d n = [(48 + N.of_nat (n / 10))%N; (48 + N.of_nat (n mod 10))%N].
Proof.
  intros Hn.
  assert (H : Forall (fun n => format_02d n
                = [(48 + N.of_nat (n / 10))%N; (48 + N.of_nat (n mod 10))%N])
                (seq 0 100)).
  { apply (bool_decide_unpack _). vm_compute. exact I. }
  rewrite List.Forall_forall in H. apply H, in_seq. lia.
Qed.

Lemma str_leb_cons_gt x a y b : (y < x)%N -> str_leb (x :: a) (y :: b) = false.
Proof.
  intros H. cbn [str_leb].
  destruct (N.ltb_spec x y); [lia|]. destruct (N.eqb_spec x y); [lia|].
  reflexivity.
Qed.

Lemma str_leb_cons_eq x a b : str_leb (x :: a) (x :: b) = str_leb a b.
Proof. cbn [str_leb]. now rewrite N.ltb_irrefl, N.eqb_refl. Qed.

(** Two two-digit numbers followed by anything compare as the numbers do. *)
Lemma str_leb_digits_lt i i' t t' :
  i < i' -> i' < 100 ->
  str_leb (format_02d i' ++ t') (format_02d i ++ t) = false.
Proof.
  intros Hlt Hi'. rewrite !format_02d_two_digits by lia. cbn [app].
  pose proof (Nat.div_mod_eq i 10). pose proof (Nat.div_mod_eq i' 10).
  pose proof (Nat.mod_upper_bound i 10). pose proof (Nat.mod_upper_bound i' 10).
  destruct (Nat.lt_trichotomy (i / 10) (i' / 10)) as [Hq|[Hq|Hq]].
  - apply str_leb_cons_gt. lia.
  - rewrite Hq, str_leb_cons_eq. apply str_leb_cons_gt. lia.
  - lia.
Qed.

Lemma not_leb_str_lt a b : str_leb b a = false -> str_lt a b.
Proof.
  intros H. split.
  - destruct (str_le_total a b) as [Hab|Hba]; [exact Hab|].
    unfold str_le in Hba. rewrite H in Hba. destruct Hba.
  - intros ->. now rewrite str_leb_refl in H.
Qed.

(** Up to index 99 the order of the file names is the order of the
    indices, a section coming before its subsections. *)
Lemma key_order_is_name_order k1 k2 :
  two_digits k1 -> two_digits k2 -> key_lt k1 k2 ->
  str_lt (key_file k1) (key_file k2).
Proof.
  destruct k1 as [i o1], k2 as [i' o2]. unfold two_digits, key_lt. cbn [fst snd].
  intros [Hi Ho1] [Hi' Ho2] Hlt. apply not_leb_str_lt.
  assert (Hname : forall i o,
            key_file (i, o)
            = py "section_"
              ++ format_02d i
              ++ match o with
                 | None => py ".md"
                 | Some j => py "_" ++ format_02d j ++ py ".md"
                 end).
  { intros i0 [j|]; cbn [key_file section_file]; now rewrite <- ?app_assoc. }
  rewrite !Hname, str_leb_app.
  destruct Hlt as [Hlt|[<- Hlt]].
  - now apply str_leb_digits_lt.
  - rewrite str_leb_app.
    destruct o1 as [j1|], o2 as [j2|]; try contradiction.
    + change (py "_") with [95%N]. cbn [app]. rewrite str_leb_cons_eq.
      now apply str_leb_digits_lt.
    + change (py "_") with [95%N]. change (py ".md") with [46%N; 109%N; 100%N].
      cbn [app]. apply str_leb_cons_gt. lia.
Qed.

(** A section file always comes before the files of its subsections. *)
Lemma section_before_its_subsections i j :
  str_lt (key_file (i, None)) (key_file (i, Some j)).
Proof.
  apply not_leb_str_lt. cbn [key_file section_file].
  rewrite !str_leb_app.
  change (py "_") with [95%N]. change (py ".md") with [46%N; 109%N; 100%N].
  cbn [app]. apply str_leb_cons_gt. lia.
Qed.

(** *** Reading the folder *)

Lemma StronglySorted_filter {A} (R : relation A) (P : A -> Prop)
    `{!forall x, Decision (P x)} l :
  StronglySorted R l -> StronglySorted R (filter P l).
Proof.
  induction 1 as [|x l Hs IH Hx]; [constructor|].
  rewrite filter_cons. destruct (decide (P x)); [|exact IH].
  constructor; [exact IH|]. rewrite Forall_forall in Hx |- *.
  intros y Hy. apply list_elem_of_filter in Hy as [_ Hy]. now apply Hx.
Qed.

Lemma section_names_sorted f : StronglySorted str_le (section_names f).
Proof.
  unfold section_names. apply StronglySorted_filter.
  apply StronglySorted_merge_sort; typeclasses eauto.
Qed.

(** Two listings with the same section files are read alike. *)
Lemma sorted_filter_unique l l' :
  filter (fun n => is_section_file n = true) l
  ≡ₚ filter (fun n => is_section_file n = true) l' ->
  filter (fun n => is_section_file n = true) (merge_sort str_le l)
  = filter (fun n => is_section_file n = true) (merge_sort str_le l').
Proof.
  intros Hp. apply (Sorted_unique str_le).
  - apply StronglySorted_Sorted, StronglySorted_filter.
    apply StronglySorted_merge_sort; typeclasses eauto.
  - apply StronglySorted_Sorted, StronglySorted_filter.
    apply StronglySorted_merge_sort; typeclasses eauto.
  - rewrite !merge_sort_Permutation. exact Hp.
Qed.

Lemma listdir_section_files f :
  filter (fun n => is_section_file n = true) (listdir f)
  = filter (fun n => is_section_file n = true) (map_to_list (f_text f)).*1.
Proof.
  unfold listdir. rewrite !filter_app.
  assert (H : forall (b : bool) name,
            is_section_file name = false ->
            filter (fun n => is_section_file n = true)
                   (if b then [name] else []) = []).
  { intros [|] name Hname; [|reflexivity]. rewrite filter_cons.
    destruct (decide (is_section_file name = true)); [congruence|reflexivity]. }
  rewrite !H by (vm_compute; reflexivity). now rewrite !app_nil_r.
Qed.

(** The names read depend only on which section files there are. *)
Lemma section_names_ext f1 f2 :
  (forall n, is_section_file n = true -> f_text f1 !! n = f_text f2 !! n) ->
  section_names f1 = section_names f2.
Proof.
  intros Hagree. unfold section_names. apply sorted_filter_unique.
  rewrite !listdir_section_files.
  apply NoDup_Permutation.
  - apply NoDup_filter, NoDup_fst_map_to_list.
  - apply NoDup_filter, NoDup_fst_map_to_list.
  - intros n. rewrite !list_elem_of_filter, !list_elem_of_fmap.
    split; intros [Hn ([k v] & -> & Hkv)]; cbn [fst] in *;
      (split; [exact Hn|]); apply elem_of_map_to_list in Hkv.
    + exists (k, v). split; [reflexivity|].
      apply elem_of_map_to_list. now rewrite <- Hagree.
    + exists (k, v). split; [reflexivity|].
      apply elem_of_map_to_list. now rewrite Hagree.
Qed.

(** So does the assembled text. *)
Lemma assembled_ext rt o f1 f2 :
  (forall n, is_section_file n = true -> f_text f1 !! n = f_text f2 !! n) ->
  assembled rt o f1 = assembled rt o f2.
Proof.
  intros Hagree. unfold assembled. rewrite (section_names_ext f1 f2 Hagree).
  f_equal. f_equal. apply map_ext_in. intros n Hn.
  rewrite Hagree; [reflexivity|].
  unfold section_names in Hn. apply list_elem_of_In in Hn.
  now apply list_elem_of_filter in Hn as [Hn _].
Qed.

Lemma assembled_with_text rt o name c f :
  is_section_file name = false ->
  assembled rt o (with_text name c f) = assembled rt o f.
Proof.
  intros Hname. apply assembled_ext. intros n Hn.
  unfold with_text. cbn [f_text]. apply lookup_insert_ne. congruence.
Qed.

Lemma fs_op_inr env w u w' :
  fs_op env w = (inr u, w') -> store w' = store w.
Proof.
  unfold fs_op. destruct (fs_fault env (fs_ops w)); [discriminate|].
  intros H. injection H as _ <-. reflexivity.
Qed.

Lemma read_sections_spec env f names : forall w infos w',
  read_sections env f names w = (inr infos, w') ->
  store w' = store w
  /\ map si_content infos
     = map (fun n => universal_newlines (default [] (f_text f !! n)))
           (filter (fun n => is_section_file n = true) names)
  /\ map si_filename infos
     = filter (fun n => is_section_file n = true) names.
Proof.
  induction names as [|n names IH]; intros w infos w' H.
  - cbn in H. injection H as <- <-. now repeat split.
  - cbn [read_sections] in H. rewrite filter_cons.
    destruct (is_section_file n) eqn:Hn.
    + destruct (decide (true = true)); [|congruence].
      apply bind_inr in H as (u & w1 & Hop & H). apply fs_op_inr in Hop.
      cbv zeta in H. apply bind_inr in H as (info & w2 & Hinfo & H).
      apply lift_inr in Hinfo as [Hinfo ->].
      apply bind_inr in H as (infos' & w3 & Hrest & H).
      apply ret_inr in H as [-> ->].
      apply IH in Hrest as (Hs & Hc & Hf). rewrite Hs, Hop.
      split; [reflexivity|]. cbn [map]. rewrite Hc, Hf.
      unfold parse_section_filename in Hinfo.
      destruct (split_on (py "_") (replace (py ".md") [] n) !! 1)
        as [p1|]; [|discriminate].
      apply and_then_inr in Hinfo as (z & _ & Hinfo).
      apply and_then_inr in Hinfo as (sub & _ & Hinfo).
      injection Hinfo as <-. now split.
    + destruct (decide (false = true)); [congruence|]. now apply IH.
Qed.

Lemma fold_left_contents infos md :
  fold_left (fun md section_info => md ++ si_content section_info) infos md
  = md ++ concat (map si_content infos).
Proof.
  revert md. induction infos as [|i infos IH]; intros md; cbn.
  - now rewrite app_nil_r.
  - rewrite IH. now rewrite <- app_assoc.
Qed.

(** What [assemble_full_report] returns and writes. *)
Lemma assemble_spec env rid o w md w' :
  assemble_full_report env rid o w = (inr md, w') ->
  exists f,
    store w !! rid = Some f
    /\ md = assembled (rt env) o f
    /\ store w' = <[rid := with_text (py "full_report.md") md f]> (store w).
Proof.
  unfold assemble_full_report. intros H. cbv zeta in H.
  apply bind_inr in H as (infos & w1 & Hget & H).
  apply bind_inr in H as (u & w2 & Hwrite & H).
  apply ret_inr in H as [-> ->].
  unfold get_generated_sections in Hget.
  apply bind_inr in Hget as (w0 & w0' & Hg & Hget).
  injection Hg as <- <-.
  unfold write_text, write_folder in Hwrite.
  apply bind_inr in Hwrite as (u' & w3 & Hop & Hwrite).
  apply fs_op_inr in Hop. cbv beta in Hwrite.
  destruct (store w !! rid) as [f|] eqn:Hf.
  - apply bind_inr in Hget as (u'' & w4 & Hop' & Hget).
    apply fs_op_inr in Hop'.
    apply read_sections_spec in Hget as (Hs & Hc & _).
    assert (Hw1 : store w1 = store w) by congruence.
    rewrite Hop, Hw1, Hf in Hwrite. injection Hwrite as _ <-.
    exists f. split; [reflexivity|]. split.
    + unfold assembled, section_names. rewrite fold_left_contents, Hc.
      reflexivity.
    + unfold set_store. cbn [store].
      unfold with_text. rewrite fold_left_contents. reflexivity.
  - apply ret_inr in Hget as [-> ->].
    rewrite Hop, Hf in Hwrite. discriminate.
Qed.

Lemma StronglySorted_lookup_lt {A} (R : relation A) l :
  StronglySorted R l ->
  forall i j x y, i < j -> l !! i = Some x -> l !! j = Some y -> R x y.
Proof.
  induction 1 as [|a l Hs IH Ha]; intros i j x y Hij Hi Hj.
  - discriminate.
  - destruct j as [|j]; [lia|]. cbn in Hj. destruct i as [|i].
    + cbn in Hi. injection Hi as <-. rewrite Forall_forall in Ha.
      apply Ha. eapply list_elem_of_lookup_2, Hj.
    + cbn in Hi. apply (IH i j); [lia|assumption|assumption].
Qed.

(** In a sorted list, a name strictly smaller than another stands before
    it. *)
Lemma sorted_names_positions names a b p1 p2 :
  StronglySorted str_le names ->
  names !! p1 = Some a -> names !! p2 = Some b -> str_lt a b -> p1 < p2.
Proof.
  intros Hs H1 H2 [Hle Hne].
  destruct (Nat.lt_trichotomy p1 p2) as [H|[->|H]]; [exact H| |].
  - congruence.
  - exfalso. apply Hne. apply (anti_symm str_le); [exact Hle|].
    eapply (StronglySorted_lookup_lt str_le names Hs p2 p1); eassumption.
Qed.

Lemma section_names_in_index_order f :
  in_index_order two_digits (section_names f).
Proof.
  intros k1 k2 p1 p2 Hk1 Hk2 H1 H2 Hlt.
  eapply sorted_names_positions; eauto using section_names_sorted.
  now apply key_order_is_name_order.
Qed.

(** C7, as the code has it. When [assemble_full_report] returns, its result
    is the header made of the title and the summary followed by the contents
    of the section files of the folder in the order of their names, each as
    it is read (in text mode, where a CR LF and a CR are read as LF), and
    that text is what it has written to [full_report.md]. For indices up to 99,
    the width of the zero-padded names, the order of the names is the order
    of the indices; a section always comes before its own subsections. A
    second call, with nothing written in between, returns the same text and
    leaves the store as the first call left it; and so does a call in any
    state of the store in which the section files are the same. *)
Theorem assemble_sorted_and_idempotent env rid o w md w' :
  assemble_full_report env rid o w = (inr md, w') ->
  exists f,
    store w !! rid = Some f
    /\ md = report_header (rt env) o
            ++ concat (map (fun n =>
                              universal_newlines (default [] (f_text f !! n)))
                           (section_names f))
    /\ store w' = <[rid := with_text (py "full_report.md") md f]> (store w)
    /\ StronglySorted str_le (section_names f)
    /\ in_index_order two_digits (section_names f)
    /\ (forall i j p1 p2,
          section_names f !! p1 = Some (key_file (i, None)) ->
          section_names f !! p2 = Some (key_file (i, Some j)) -> p1 < p2)
    /\ (forall md2 w2,
          assemble_full_report env rid o w' = (inr md2, w2) ->
          md2 = md /\ store w2 = store w')
    /\ (forall w1 f1 md1 w1',
          store w1 !! rid = Some f1 ->
          (forall n, is_section_file n = true ->
                     f_text f1 !! n = f_text f !! n) ->
          assemble_full_report env rid o w1 = (inr md1, w1') ->
          md1 = md).
Proof.
  intros H. apply assemble_spec in H as (f & Hf & Hmd & Hstore).
  exists f. split; [exact Hf|]. split; [exact Hmd|]. split; [exact Hstore|].
  split; [apply section_names_sorted|].
  split; [apply section_names_in_index_order|].
  split; [|split].
  - intros i j p1 p2 H1 H2.
    eapply sorted_names_positions; eauto using section_names_sorted.
    apply section_before_its_subsections.
  - intros md2 w2 H2. apply assemble_spec in H2 as (f2 & Hf2 & Hmd2 & Hstore2).
    rewrite Hstore, lookup_insert_eq in Hf2. injection Hf2 as <-.
    assert (Hns : is_section_file (py "full_report.md") = false)
      by (vm_compute; reflexivity).
    assert (E : md2 = md).
    { rewrite Hmd2, Hmd. apply assembled_with_text, Hns. }
    split; [exact E|]. rewrite Hstore2, E, Hstore.
    rewrite insert_insert_eq. f_equal.
    unfold with_text. cbn [f_meta f_outline f_progress f_text].
    now rewrite insert_insert_eq.
  - intros w1 f1 md1 w1' Hf1 Hagree H1.
    apply assemble_spec in H1 as (f1' & Hf1' & Hmd1 & _).
    rewrite Hf1 in Hf1'. injection Hf1' as <-.
    rewrite Hmd1, Hmd. now apply assembled_ext.
Qed.

Lemma assemble_sorted_and_idempotent_witness :
  exists f,
    store short_report_world !! py "r" = Some f
    /\ returned_text (assemble_full_report store_env (py "r") short_outline
                        short_report_world)
       = report_header (rt store_env) short_outline
         ++ concat (map (fun n =>
                           universal_newlines (default [] (f_text f !! n)))
                        (section_names f))
    /\ forall md2 w2,
         assemble_full_report store_env (py "r") short_outline
           (snd (assemble_full_report store_env (py "r") short_outline
                   short_report_world))
         = (inr md2, w2) ->
         md2 = returned_text (assemble_full_report store_env (py "r")
                                short_outline short_report_world).
Proof.
  destruct (assemble_sorted_and_idempotent store_env (py "r") short_outline
              short_report_world
              (returned_text (assemble_full_report store_env (py "r")
                                short_outline short_report_world))
              (snd (assemble_full_report store_env (py "r") short_outline
                      short_report_world)))
    as (f & Hf & Hmd & _ & _ & _ & _ & Hagain & _).
  - vm_compute. reflexivity.
  - exists f. split; [exact Hf|]. split; [exact Hmd|].
    intros md2 w2 H2. now apply (Hagain md2 w2).
Defined.

(** The section saved second comes first in the text, before the
    subsection saved first. *)
Example assemble_short_report :
  returned_text (assemble_full_report store_env (py "r") short_outline
                   short_report_world)
  = py "# T" ++ nl ++ nl ++ py "> S" ++ nl ++ nl ++ py "---" ++ nl ++ nl
    ++ py "## Top" ++ nl ++ nl ++ py "a" ++ nl ++ nl
    ++ py "### Sub" ++ nl ++ nl ++ py "b" ++ nl ++ nl.
Proof. vm_compute. reflexivity. Qed.

(** The record is stored as it was written and assembled as it is read:
    the CR LF and the CR of the text have become LF. *)
Example assemble_reads_universal_newlines :
  (exists f,
     store crlf_report_world !! py "r" = Some f
     /\ f_text f !! py "section_01.md"
        = Some (py "## Top" ++ nl ++ nl ++ py "a" ++ [13%N; 10%N] ++ py "b"
                ++ [13%N] ++ py "c" ++ nl ++ nl))
  /\ returned_text (assemble_full_report store_env (py "r") short_outline
                      crlf_report_world)
     = py "# T" ++ nl ++ nl ++ py "> S" ++ nl ++ nl ++ py "---" ++ nl ++ nl
       ++ py "## Top" ++ nl ++ nl ++ py "a" ++ nl ++ py "b" ++ nl ++ py "c"
       ++ nl ++ nl.
Proof.
  split; [eexists; split; vm_compute; reflexivity|vm_compute; reflexivity].
Qed.

(** Counterexample to C7 as stated: with sections 11 and 100 saved, the
    record of section 100 is read, and assembled, before that of section
    11. *)
Lemma assemble_out_of_index_order :
  exists f,
    store long_report_world !! py "r" = Some f
    /\ section_names f = [key_file (100, None); key_file (11, None)]
    /\ ~ in_index_order (fun _ => True) (section_names f)
    /\ returned_text (assemble_full_report store_env (py "r") short_outline
                        long_report_world)
       = py "# T" ++ nl ++ nl ++ py "> S" ++ nl ++ nl ++ py "---" ++ nl ++ nl
         ++ py "## Hundred" ++ nl ++ nl ++ py "b" ++ nl ++ nl
         ++ py "## Eleven" ++ nl ++ nl ++ py "a" ++ nl ++ nl.
Proof.
  exists (with_text (py "section_100.md")
            (py "## Hundred" ++ nl ++ nl ++ py "b" ++ nl ++ nl)
            (with_text (py "section_11.md")
               (py "## Eleven" ++ nl ++ nl ++ py "a" ++ nl ++ nl)
               empty_folder)).
  split; [vm_compute; reflexivity|].
  assert (E : section_names
                (with_text (py "section_100.md")
                   (py "## Hundred" ++ nl ++ nl ++ py "b" ++ nl ++ nl)
                   (with_text (py "section_11.md")
                      (py "## Eleven" ++ nl ++ nl ++ py "a" ++ nl ++ nl)
                      empty_folder))
              = [key_file (100, None); key_file (11, None)])
    by (vm_compute; reflexivity).
  split; [exact E|]. split.
  - intros H. specialize (H (11, None) (100, None) 1 0 I I).
    rewrite E in H. cbn in H.
    assert (1 < 0); [|lia]. apply H; [reflexivity|reflexivity|left; cbn; lia].
  - vm_compute. reflexivity.
Qed.

End StoreFacts.

Module SearchFacts.
Import Eff ZepTools SearchSpec EffFacts.
Local Open Scope Z_scope.

(** *** The score of a text *)

Lemma keyword_fold keywords text_lower acc :
  fold_left
    (fun score keyword =>
       if contains keyword text_lower then score + 10 else score)
    keywords acc
  = acc + 10 * Z.of_nat (keyword_hits keywords text_lower).
Proof.
  unfold keyword_hits. revert acc.
  induction keywords as [|k ks IH]; intros acc; cbn [fold_left].
  - cbn. lia.
  - rewrite IH, filter_cons. destruct (contains k text_lower) eqn:E.
    + destruct (decide (true = true)); [|congruence]. cbn [length]. lia.
    + destruct (decide (false = true)); [congruence|]. lia.
Qed.

Lemma match_score_formula rt query_lower keywords text :
  match_score rt query_lower keywords text
  = if negb (nonempty text) then 0
    else if contains query_lower (lower rt text) then 100
    else 10 * Z.of_nat (keyword_hits keywords (lower rt text)).
Proof.
  unfold match_score. destruct (negb (nonempty text)); [reflexivity|].
  destruct (contains query_lower (lower rt text)); [reflexivity|].
  now rewrite keyword_fold.
Qed.

Lemma match_score_nonneg rt query_lower keywords text :
  0 <= match_score rt query_lower keywords text.
Proof.
  rewrite match_score_formula.
  destruct (negb (nonempty text)); [lia|].
  destruct (contains query_lower (lower rt text)); lia.
Qed.

(** *** The stable descending sort *)

Lemma insert_desc_perm {A} (x : Z * A) l : insert_desc x l ≡ₚ x :: l.
Proof.
  induction l as [|y l IH]; cbn [insert_desc]; [reflexivity|].
  destruct (fst x <? fst y); [|reflexivity].
  rewrite IH. apply Permutation_swap.
Qed.

Lemma sort_desc_perm {A} (l : list (Z * A)) : sort_desc l ≡ₚ l.
Proof.
  induction l as [|x l IH]; cbn [sort_desc fold_right]; [reflexivity|].
  fold (sort_desc l). now rewrite insert_desc_perm, IH.
Qed.

Lemma insert_desc_sorted {A} (x : Z * A) l :
  StronglySorted by_score_desc l -> StronglySorted by_score_desc (insert_desc x l).
Proof.
  induction 1 as [|y l Hs IH Hy]; cbn [insert_desc].
  - repeat constructor.
  - destruct (Z.ltb_spec (fst x) (fst y)) as [Hlt|Hge].
    + constructor; [exact IH|].
      rewrite (insert_desc_perm x l). constructor; [|exact Hy].
      unfold by_score_desc. lia.
    + constructor; [now constructor|]. constructor.
      * unfold by_score_desc. lia.
      * eapply Forall_impl; [exact Hy|]. unfold by_score_desc. intros z Hz. lia.
Qed.

Lemma sort_desc_sorted {A} (l : list (Z * A)) :
  StronglySorted by_score_desc (sort_desc l).
Proof.
  induction l as [|x l IH]; cbn [sort_desc fold_right]; [constructor|].
  now apply insert_desc_sorted.
Qed.

Lemma StronglySorted_lookup_desc {A} (l : list (Z * A)) :
  StronglySorted by_score_desc l ->
  forall i j x y, (i < j)%nat -> l !! i = Some x -> l !! j = Some y ->
                  by_score_desc x y.
Proof.
  induction 1 as [|a l Hs IH Ha]; intros i j x y Hij Hi Hj.
  - discriminate.
  - destruct j as [|j]; [lia|]. cbn in Hj. destruct i as [|i].
    + cbn in Hi. injection Hi as <-. rewrite Forall_forall in Ha.
      apply Ha. eapply list_elem_of_lookup_2, Hj.
    + cbn in Hi. apply (IH i j); [lia|assumption|assumption].
Qed.

(** Stability: the entries of one score keep their order. *)
Lemma insert_desc_stable {A} (x : Z * A) l v :
  filter (fun p => fst p = v) (insert_desc x l)
  = filter (fun p => fst p = v) (x :: l).
Proof.
  induction l as [|y l IH]; cbn [insert_desc]; [reflexivity|].
  destruct (Z.ltb_spec (fst x) (fst y)) as [Hlt|Hge]; [|reflexivity].
  rewrite filter_cons, IH, !filter_cons.
  destruct (decide (fst y = v)), (decide (fst x = v)); try reflexivity. lia.
Qed.

Lemma sort_desc_stable {A} (l : list (Z * A)) v :
  filter (fun p => fst p = v) (sort_desc l) = filter (fun p => fst p = v) l.
Proof.
  induction l as [|x l IH]; cbn [sort_desc fold_right]; [reflexivity|].
  fold (sort_desc l). now rewrite insert_desc_stable, !filter_cons, IH.
Qed.

(** *** The entries kept *)

Lemma slice_limit_take {A} limit (l : list A) :
  exists n, slice_limit limit l = take n l
            /\ (0 <= limit -> n = Z.to_nat limit).
Proof.
  unfold slice_limit. destruct (Z.leb_spec 0 limit).
  - exists (Z.to_nat limit). now split.
  - eexists. split; [reflexivity|]. lia.
Qed.

Lemma scored_elem {A} (score : A -> Z) items (p : Z * A) :
  p ∈ scored score items <-> fst p = score (snd p) /\ 0 < fst p /\ snd p ∈ items.
Proof.
  unfold scored. rewrite list_elem_of_filter, list_elem_of_fmap. split.
  - intros [Hpos (x & -> & Hx)]. cbn. repeat split; assumption.
  - intros (Hs & Hpos & Hx). split; [exact Hpos|].
    exists (snd p). split; [|exact Hx]. destruct p as [s x]. cbn in *. now subst.
Qed.

(** An entry of higher score than one that was kept was kept too, at an
    earlier place. *)
Lemma higher_score_first {A} (score : A -> Z) limit items x y p :
  x ∈ items -> score y < score x ->
  (top_scored score limit items).*2 !! p = Some y ->
  exists q, (q < p)%nat /\ (top_scored score limit items).*2 !! q = Some x.
Proof.
  intros Hx Hlt Hp. unfold top_scored in *.
  destruct (slice_limit_take limit (sort_desc (scored score items)))
    as (n & Hn & _).
  rewrite Hn in Hp |- *. clear Hn.
  rewrite list_lookup_fmap in Hp.
  apply fmap_Some in Hp as ([s y'] & Ep & ->). cbn [snd] in *.
  apply lookup_take_Some in Ep as [Ep Hpn].
  assert (Hy : (s, y') ∈ scored score items).
  { rewrite <- sort_desc_perm. eapply list_elem_of_lookup_2, Ep. }
  apply scored_elem in Hy as (Hs & Hpos & _). cbn in Hs, Hpos. subst s.
  rename y' into y.
  assert (Hxs : (score x, x) ∈ sort_desc (scored score items)).
  { rewrite sort_desc_perm. apply scored_elem. cbn. repeat split; [lia|exact Hx]. }
  apply list_elem_of_lookup_1 in Hxs as [q Hq].
  assert (Hqp : (q < p)%nat).
  { destruct (Nat.lt_trichotomy q p) as [H|[->|H]]; [exact H| |].
    - rewrite Hq in Ep. injection Ep as E _. lia.
    - pose proof (sort_desc_sorted (scored score items)) as Hs.
      pose proof (StronglySorted_lookup_desc _ Hs p q _ _ H Ep Hq) as Hd.
      unfold by_score_desc in Hd. cbn in Hd. lia. }
  exists q. split; [exact Hqp|].
  rewrite list_lookup_fmap, lookup_take_lt by lia. now rewrite Hq.
Qed.

(** *** The search *)

Lemma for_each_modify {S A} (f : A -> S -> S) (l : list A) (s : S) :
  for_each l (fun p => modify (f p)) s
  = (inr tt, fold_left (fun s p => f p s) l s).
Proof.
  revert s. induction l as [|x l IH]; intros s; cbn [for_each fold_left].
  - reflexivity.
  - unfold bind, modify at 1. apply IH.
Qed.

Lemma fold_add_edge (l : list (Z * EdgeInfo)) fd :
  fd_edges (fold_left (fun fd p => add_edge (snd p) fd) l fd)
  = fd_edges fd ++ l.*2
  /\ fd_nodes (fold_left (fun fd p => add_edge (snd p) fd) l fd) = fd_nodes fd.
Proof.
  revert fd. induction l as [|p l IH]; intros fd; cbn [fold_left].
  - cbn. now rewrite app_nil_r.
  - destruct (IH (add_edge (snd p) fd)) as [-> ->]. cbn [add_edge fd_edges fd_nodes].
    split; [|reflexivity]. now rewrite <- app_assoc.
Qed.

Lemma fold_add_node (l : list (Z * NodeInfo)) fd :
  fd_nodes (fold_left (fun fd p => add_node (snd p) fd) l fd)
  = fd_nodes fd
    ++ map (fun p => mkNodeHit (n_uuid (snd p)) (n_name (snd p))
                               (n_labels (snd p)) (n_summary (snd p))) l
  /\ fd_edges (fold_left (fun fd p => add_node (snd p) fd) l fd) = fd_edges fd.
Proof.
  revert fd. induction l as [|p l IH]; intros fd; cbn [fold_left].
  - cbn. now rewrite app_nil_r.
  - destruct (IH (add_node (snd p) fd)) as [-> ->]. cbn [add_node fd_edges fd_nodes].
    split; [|reflexivity]. now rewrite <- app_assoc.
Qed.

Lemma local_search_edges rt g query limit es :
  all_edges g = inr es ->
  edges (_local_search rt g query limit (py "edges"))
  = (top_scored (edge_score rt (lower rt query) (keywords_of (lower rt query)))
                limit es).*2
  /\ nodes (_local_search rt g query limit (py "edges")) = [].
Proof.
  intros Hes. unfold _local_search, try_catch, local_search_try.
  change (scope_in (py "edges") (py "edges") (py "both")) with true.
  change (scope_in (py "edges") (py "nodes") (py "both")) with false.
  cbn [when]. unfold bind, lift. rewrite Hes. cbv beta iota.
  rewrite for_each_modify. unfold ret. cbn [snd edges nodes].
  match goal with |- context [fold_left ?f ?l ?fd] =>
    destruct (fold_add_edge l fd) as [-> ->] end.
  now split.
Qed.

Lemma local_search_nodes rt g query limit ns :
  all_nodes g = inr ns ->
  nodes (_local_search rt g query limit (py "nodes"))
  = map (fun p => mkNodeHit (n_uuid (snd p)) (n_name (snd p))
                            (n_labels (snd p)) (n_summary (snd p)))
        (top_scored (node_score rt (lower rt query)
                                (keywords_of (lower rt query))) limit ns)
  /\ edges (_local_search rt g query limit (py "nodes")) = [].
Proof.
  intros Hns. unfold _local_search, try_catch, local_search_try.
  change (scope_in (py "nodes") (py "edges") (py "both")) with false.
  change (scope_in (py "nodes") (py "nodes") (py "both")) with true.
  cbn [when]. unfold bind, lift, ret. rewrite Hns. cbv beta iota.
  rewrite for_each_modify. cbn [snd edges nodes].
  match goal with |- context [fold_left ?f ?l ?fd] =>
    destruct (fold_add_node l fd) as [-> ->] end.
  now split.
Qed.

(** C8, as the code has it. A text scores 100 when it holds the whole
    query and otherwise 10 for each keyword it holds; an edge scores the sum
    over its fact and its name, a node the sum over its name and its summary.
    The search keeps the entries of positive score, sorts them by descending
    score, entries of equal score staying in the order of enumeration, and
    returns the first [limit] of them. An entry of higher score than a
    returned one is returned before it; an entry one of whose texts holds the
    whole query scores at least 100, so it is returned before every returned
    entry that scores less than 100 (less than ten keyword hits over its two
    texts, and no text holding the whole query). *)
Theorem local_search_ranking rt g query limit es :
  all_edges g = inr es ->
  (forall keywords text,
     match_score rt (lower rt query) keywords text
     = if negb (nonempty text) then 0
       else if contains (lower rt query) (lower rt text) then 100
       else 10 * Z.of_nat (keyword_hits keywords (lower rt text)))
  /\ edges (_local_search rt g query limit (py "edges"))
     = (slice_limit limit
          (sort_desc
             (scored (edge_score rt (lower rt query)
                                 (keywords_of (lower rt query))) es))).*2
  /\ (0 <= limit ->
      edges (_local_search rt g query limit (py "edges"))
      = (take (Z.to_nat limit)
           (sort_desc
              (scored (edge_score rt (lower rt query)
                                  (keywords_of (lower rt query))) es))).*2)
  /\ (forall ns,
        all_nodes g = inr ns ->
        nodes (_local_search rt g query limit (py "nodes"))
        = map (fun p => mkNodeHit (n_uuid (snd p)) (n_name (snd p))
                                  (n_labels (snd p)) (n_summary (snd p)))
              (slice_limit limit
                 (sort_desc
                    (scored (node_score rt (lower rt query)
                                        (keywords_of (lower rt query))) ns))))
  /\ (forall A (l : list (Z * A)),
        sort_desc l ≡ₚ l
        /\ StronglySorted by_score_desc (sort_desc l)
        /\ forall v, filter (fun p => fst p = v) (sort_desc l)
                     = filter (fun p => fst p = v) l)
  /\ (forall x y p,
        x ∈ es ->
        edge_score rt (lower rt query) (keywords_of (lower rt query)) y
        < edge_score rt (lower rt query) (keywords_of (lower rt query)) x ->
        edges (_local_search rt g query limit (py "edges")) !! p = Some y ->
        exists q,
          (q < p)%nat
          /\ edges (_local_search rt g query limit (py "edges")) !! q = Some x)
  /\ (forall x,
        exact_match rt query (e_fact x) \/ exact_match rt query (e_name x) ->
        100 <= edge_score rt (lower rt query) (keywords_of (lower rt query)) x).
Proof.
  intros Hes. destruct (local_search_edges rt g query limit es Hes) as [He _].
  split; [intros; apply match_score_formula|].
  split; [exact He|]. split.
  { intros Hl. rewrite He. unfold top_scored, slice_limit.
    destruct (Z.leb_spec 0 limit); [reflexivity|lia]. }
  split.
  { intros ns Hns. now destruct (local_search_nodes rt g query limit ns Hns). }
  split.
  { intros A l. split; [apply sort_desc_perm|].
    split; [apply sort_desc_sorted|apply sort_desc_stable]. }
  split.
  { intros x y p Hx Hlt Hp. rewrite He in Hp |- *.
    eapply higher_score_first; eassumption. }
  intros x Hx. unfold edge_score.
  pose proof (match_score_nonneg rt (lower rt query)
                (keywords_of (lower rt query)) (e_fact x)).
  pose proof (match_score_nonneg rt (lower rt query)
                (keywords_of (lower rt query)) (e_name x)).
  destruct Hx as [[Hn Hc]|[Hn Hc]].
  - rewrite (match_score_formula _ _ _ (e_fact x)), Hn, Hc in *. cbn. lia.
  - rewrite (match_score_formula _ _ _ (e_name x)), Hn, Hc in *. cbn. lia.
Qed.

Lemma local_search_ranking_witness :
  all_edges two_edge_graph = inr [exact_edge; keyword_edge]
  /\ edges (_local_search ascii_runtime two_edge_graph long_query 10
                          (py "edges"))
     = (take (Z.to_nat 10)
          (sort_desc
             (scored (edge_score ascii_runtime (lower ascii_runtime long_query)
                        (keywords_of (lower ascii_runtime long_query)))
                     [exact_edge; keyword_edge]))).*2.
Proof.
  split; [reflexivity|].
  destruct (local_search_ranking ascii_runtime two_edge_graph long_query 10
              [exact_edge; keyword_edge] eq_refl) as (_ & _ & H & _).
  apply H. lia.
Defined.

(** Counterexample to C8 as stated: the query has eleven keywords; the
    fact of the first edge is the query itself and scores 100, the fact of the
    second holds the eleven keywords in another order, not the query, and
    scores 110. The second edge is returned first, and alone when the limit
    is 1. *)
Lemma keyword_edge_outranks_exact_match :
  exact_match ascii_runtime long_query (e_fact exact_edge)
  /\ ~ exact_match ascii_runtime long_query (e_fact keyword_edge)
  /\ ~ exact_match ascii_runtime long_query (e_name keyword_edge)
  /\ edge_score ascii_runtime (lower ascii_runtime long_query)
       (keywords_of (lower ascii_runtime long_query)) exact_edge = 100
  /\ edge_score ascii_runtime (lower ascii_runtime long_query)
       (keywords_of (lower ascii_runtime long_query)) keyword_edge = 110
  /\ edges (_local_search ascii_runtime two_edge_graph long_query 10
                          (py "edges"))
     = [keyword_edge; exact_edge]
  /\ edges (_local_search ascii_runtime two_edge_graph long_query 1
                          (py "edges"))
     = [keyword_edge].
Proof.
  split; [split; vm_compute; reflexivity|].
  split; [intros [_ H]; vm_compute in H; discriminate H|].
  split; [intros [H _]; vm_compute in H; discriminate H|].
  repeat split; vm_compute; reflexivity.
Qed.

End SearchFacts.

Module UpdaterFacts.
Import MemoryUpdater UpdaterSpec.

Section WithEnv.
Variable env : Env.

Lemma send_attempts_frame a text n u :
  activity_queue (send_attempts env a text n u) = activity_queue u
  /\ running (send_attempts env a text n u) = running u
  /\ total_activities (send_attempts env a text n u) = total_activities u
  /\ handled (send_attempts env a text n u) = handled u
  /\ exists k, graph_log (send_attempts env a text n u)
               = graph_log u ++ repeat (a, text) k.
Proof.
  revert u. induction n as [|n IH]; intros u.
  - cbn. repeat split; auto. exists 0%nat. cbn. now rewrite app_nil_r.
  - cbn [send_attempts].
    destruct (graph_add env (length (graph_log u)) text) as [e|].
    + destruct n as [|n'].
      * cbn. repeat split; auto. now exists 1%nat.
      * destruct (IH (mkUpdater (activity_queue u) (running u)
                (total_activities u) (total_sent u) (failed_count u)
                (handled u) (graph_log u ++ [(a, text)])))
          as (H1 & H2 & H3 & H4 & k & H5).
        rewrite H1, H2, H3, H4, H5. cbn [activity_queue running
          total_activities handled graph_log].
        repeat split; auto. exists (S k). cbn. now rewrite <- app_assoc.
    + cbn. repeat split; auto. now exists 1%nat.
Qed.

Lemma send_single_inv a u u0 acc q :
  activity_queue u0 = a :: q ->
  dequeue u0 = Some (a, u) ->
  Inv u0 acc -> Inv (snd (_send_single_activity env a u)) acc.
Proof.
  intros Hq Hd [Hf Ht Hs]. unfold dequeue in Hd. rewrite Hq in Hd.
  injection Hd as <-. unfold _send_single_activity.
  cbn [activity_queue running total_activities total_sent failed_count
       handled graph_log].
  assert (Hs' : Forall (fun p : AgentActivity * pystr =>
                          In (fst p) (handled u0 ++ [a])) (graph_log u0)).
  { eapply Forall_impl; [exact Hs|]. cbn. intros p Hp.
    apply in_or_app. now left. }
  assert (Hf' : (handled u0 ++ [a]) ++ q = acc).
  { rewrite <- Hf, Hq, <- app_assoc. reflexivity. }
  destruct (to_episode_text (rt env) a) as [e|text]; cbn [snd].
  - constructor; assumption.
  - set (u1 := mkUpdater q (running u0) (total_activities u0) (total_sent u0)
                         (failed_count u0) (handled u0 ++ [a]) (graph_log u0)).
    destruct (send_attempts_frame a text MAX_RETRIES u1)
      as (H1 & H2 & H3 & H4 & k & H5).
    constructor.
    + rewrite H4, H1. exact Hf'.
    + rewrite H3. exact Ht.
    + rewrite H5, H4. apply Forall_app. split; [exact Hs'|].
      apply Forall_forall. intros p Hp. apply list_elem_of_In in Hp.
      apply repeat_spec in Hp. subst p. cbn.
      apply in_or_app. right. now left.
Qed.

Lemma dequeue_Some u a u' :
  dequeue u = Some (a, u') -> exists q, activity_queue u = a :: q.
Proof.
  unfold dequeue. destruct (activity_queue u) as [|b q]; [discriminate|].
  intros H. injection H as -> _. now exists q.
Qed.

Lemma worker_iteration_inv u acc : Inv u acc -> Inv (worker_iteration env u) acc.
Proof.
  intros HI. unfold worker_iteration.
  destruct (running u || is_some (dequeue u)); [|exact HI].
  destruct (dequeue u) as [[a u']|] eqn:Hd; [|exact HI].
  destruct (dequeue_Some _ _ _ Hd) as [q Hq].
  eapply send_single_inv; eauto.
Qed.

Lemma flush_loop_inv n u acc : Inv u acc -> Inv (snd (flush_loop env n u)) acc.
Proof.
  revert u. induction n as [|n IH]; intros u HI; cbn [flush_loop]; [exact HI|].
  destruct (dequeue u) as [[a u']|] eqn:Hd; [|exact HI].
  destruct (dequeue_Some _ _ _ Hd) as [q Hq].
  pose proof (send_single_inv a u' u acc q Hq Hd HI) as HI'.
  destruct (_send_single_activity env a u') as [[e|] u'']; cbn in HI' |- *.
  - exact HI'.
  - apply IH, HI'.
Qed.

Lemma set_running_inv b u acc : Inv u acc -> Inv (set_running b u) acc.
Proof. intros [Hf Ht Hs]. constructor; assumption. Qed.

Lemma add_activity_inv a u acc :
  Inv u acc -> Inv (add_activity a u) (acc ++ accepted env (OpAddActivity a)).
Proof.
  intros [Hf Ht Hs]. unfold add_activity. cbn [accepted].
  destruct (is_do_nothing a).
  - rewrite app_nil_r. constructor; assumption.
  - constructor; cbn.
    + now rewrite app_assoc, Hf.
    + rewrite length_app, Ht. cbn. lia.
    + exact Hs.
Qed.

Lemma apply_op_inv op u acc :
  Inv u acc -> Inv (apply_op env u op) (acc ++ accepted env op).
Proof.
  intros HI. destruct op as [| |a|data p|]; cbn [apply_op accepted].
  - rewrite app_nil_r. unfold start. destruct (running u); [exact HI|].
    now apply set_running_inv.
  - rewrite app_nil_r. unfold stop, _flush_remaining.
    now apply flush_loop_inv, set_running_inv.
  - now apply add_activity_inv.
  - unfold add_activity_from_dict.
    destruct (dict_has data (py "event_type")).
    + now rewrite app_nil_r.
    + now apply (add_activity_inv (activity_of_dict env data p)).
  - rewrite app_nil_r. now apply worker_iteration_inv.
Qed.

Lemma run_inv ops u acc :
  Inv u acc -> Inv (run env ops u) (acc ++ flat_map (accepted env) ops).
Proof.
  unfold run. revert u acc. induction ops as [|op ops IH]; intros u acc HI.
  - cbn. now rewrite app_nil_r.
  - cbn [fold_left flat_map]. rewrite app_assoc. apply IH, apply_op_inv, HI.
Qed.

(** The worker loop is the schedule of its rounds. *)
Lemma worker_loop_as_schedule n u :
  _worker_loop env n u = run env (repeat OpWorkerIteration n) u.
Proof.
  revert u. induction n as [|n IH]; intros u; [reflexivity|].
  cbn [_worker_loop repeat]. unfold run. cbn [fold_left apply_op]. apply IH.
Qed.

Lemma accepted_not_do_nothing ops :
  Forall (fun a => is_do_nothing a = false) (flat_map (accepted env) ops).
Proof.
  induction ops as [|op ops IH]; cbn [flat_map]; [constructor|].
  apply Forall_app. split; [|exact IH].
  destruct op as [| |a|data p|]; cbn [accepted]; try constructor.
  - destruct (is_do_nothing a) eqn:E; repeat constructor. exact E.
  - destruct (dict_has data (py "event_type")); [constructor|]. cbv zeta.
    destruct (is_do_nothing (activity_of_dict env data p)) eqn:E;
      repeat constructor. exact E.
Qed.

(** C10. Along every schedule of additions, worker rounds, starts and
    stops, the activities taken off the queue followed by those still on it
    are exactly the accepted ones, in order: no activity whose action type is
    DO_NOTHING and no entry with an [event_type] key is among them;
    [total_activities] counts exactly the accepted ones; every call of
    [client.graph.add] was made for an accepted activity; and
    [add_activity] on a DO_NOTHING activity, like [add_activity_from_dict] on
    an entry with [event_type], changes nothing at all. *)
Theorem updater_never_queues_skipped_records ops :
  let u := run env ops initial in
  handled u ++ activity_queue u = flat_map (accepted env) ops
  /\ total_activities u = length (flat_map (accepted env) ops)
  /\ Forall (fun a => is_do_nothing a = false) (handled u ++ activity_queue u)
  /\ Forall (fun p => is_do_nothing (fst p) = false /\ In (fst p) (handled u))
            (graph_log u)
  /\ (forall a u0, is_do_nothing a = true -> add_activity a u0 = u0)
  /\ (forall data p u0, dict_has data (py "event_type") = true ->
        add_activity_from_dict env data p u0 = u0).
Proof.
  intros u.
  assert (HI : Inv u (flat_map (accepted env) ops)).
  { apply (run_inv ops initial []). constructor; cbn; auto. }
  destruct HI as [Hf Ht Hs].
  pose proof (accepted_not_do_nothing ops) as Hn.
  rewrite <- Hf in Hn.
  repeat split.
  - exact Hf.
  - exact Ht.
  - exact Hn.
  - apply Forall_app in Hn as [Hn _].
    rewrite List.Forall_forall in Hs, Hn |- *. intros p Hp. split.
    + apply Hn, Hs, Hp.
    + apply Hs, Hp.
  - intros a u0 H. unfold add_activity. now rewrite H.
  - intros data p u0 H. unfold add_activity_from_dict. now rewrite H.
Qed.
End WithEnv.
End UpdaterFacts.

(* ================================================================== *)
(** * Part XI: further properties of the code *)
(* ================================================================== *)

(** ** Strings *)

Module StrFacts.

Lemma str_eqb_eq (a b : pystr) : str_eqb a b = true <-> a = b.
Proof.
  revert b. induction a as [|x a IH]; intros [|y b]; cbn; try easy.
  rewrite andb_true_iff, N.eqb_eq, IH. split.
  - now intros [-> ->].
  - intros H. injection H as -> ->. now split.
Qed.

Lemma str_eqb_refl (a : pystr) : str_eqb a a = true.
Proof. now apply str_eqb_eq. Qed.

Lemma str_eqb_neq (a b : pystr) : str_eqb a b = false <-> a <> b.
Proof.
  rewrite <- str_eqb_eq. destruct (str_eqb a b); split; congruence.
Qed.

Lemma str_eqb_sym (a b : pystr) : str_eqb a b = str_eqb b a.
Proof.
  destruct (str_eqb a b) eqn:E.
  - apply str_eqb_eq in E as ->. symmetry. apply str_eqb_refl.
  - symmetry. apply str_eqb_neq. apply str_eqb_neq in E. congruence.
Qed.

Lemma startswith_iff (p s : pystr) :
  startswith p s = true <-> exists t, s = p ++ t.
Proof.
  revert s. induction p as [|x p IH]; intros s; cbn.
  - split; [now exists s|easy].
  - destruct s as [|y s].
    + split; [easy|]. now intros [t H].
    + rewrite andb_true_iff, N.eqb_eq, IH. split.
      * intros [-> [t ->]]. now exists t.
      * intros [t H]. injection H as -> ->. split; [easy|]. now exists t.
Qed.

Lemma startswith_app (p s : pystr) : startswith p (p ++ s) = true.
Proof. apply startswith_iff. now exists s. Qed.

(** [sub in s]: [s] holds [sub] somewhere. *)
Lemma contains_iff (sub s : pystr) :
  contains sub s = true <-> exists a b, s = a ++ sub ++ b.
Proof.
  induction s as [|c s IH].
  - cbn. rewrite orb_false_r, startswith_iff. split.
    + intros [t H]. now exists [], t.
    + intros (a & b & H). destruct a as [|x a]; [|discriminate].
      now exists b.
  - cbn [contains]. rewrite orb_true_iff, startswith_iff, IH. split.
    + intros [[t H]|(a & b & H)].
      * now exists [], t.
      * exists (c :: a), b. now rewrite H.
    + intros (a & b & H). destruct a as [|x a].
      * left. now exists b.
      * right. injection H as -> H. now exists a, b.
Qed.

Lemma contains_false_suffix (sub a s : pystr) :
  contains sub (a ++ s) = false -> contains sub s = false.
Proof.
  intros H. destruct (contains sub s) eqn:E; [|reflexivity].
  apply contains_iff in E as (x & y & ->).
  assert (contains sub (a ++ x ++ sub ++ y) = true) as H'.
  { apply contains_iff. exists (a ++ x), y. now rewrite <- app_assoc. }
  congruence.
Qed.

Lemma contains_false_prefix (sub s b : pystr) :
  contains sub (s ++ b) = false -> contains sub s = false.
Proof.
  intros H. destruct (contains sub s) eqn:E; [|reflexivity].
  apply contains_iff in E as (x & y & ->).
  assert (contains sub ((x ++ sub ++ y) ++ b) = true) as H'.
  { apply contains_iff. exists x, (y ++ b). now rewrite <- !app_assoc. }
  congruence.
Qed.

Lemma contains_false_startswith (sub s : pystr) :
  contains sub s = false -> startswith sub s = false.
Proof. destruct s; cbn; intros H; now apply orb_false_elim in H. Qed.

End StrFacts.

Module RetryFacts.
Import Eff ZepTools ZepToolsService ZepServiceSpec.

Lemma retry_attempts_outcome {A} (func : nat -> Exception + A) n :
  forall last k,
    (k <= snd (retry_attempts func n last k) <= k + n)%nat
    /\ (forall a,
          fst (retry_attempts func n last k) = inr a ->
          exists j, (j < n)%nat
            /\ snd (retry_attempts func n last k) = S (k + j)
            /\ func (k + j)%nat = inr a
            /\ forall i, (i < j)%nat -> exists e, func (k + i)%nat = inl e)
    /\ (forall e,
          fst (retry_attempts func n last k) = inl e ->
          snd (retry_attempts func n last k) = (k + n)%nat
          /\ (forall i, (i < n)%nat -> exists e', func (k + i)%nat = inl e')
          /\ (n = 0%nat -> e = default TypeError_raise_None last)
          /\ (0 < n -> func (k + n - 1)%nat = inl e)%nat).
Proof.
  induction n as [|n IH]; intros last k.
  - cbn. split; [lia|]. split; [discriminate|].
    intros e H. injection H as <-. split; [lia|]. split; [intros i Hi; lia|].
    split; [reflexivity|lia].
  - cbn [retry_attempts]. destruct (func k) as [e0|a0] eqn:E.
    + destruct (IH (Some e0) (S k)) as (Hb & Hok & Hfail).
      split; [lia|]. split.
      * intros a Ha. destruct (Hok a Ha) as (j & Hj & Hs & Hf & Hprev).
        exists (S j). split; [lia|]. split; [rewrite Hs; lia|].
        split; [now replace (k + S j)%nat with (S k + j)%nat by lia|].
        intros [|i] Hi.
        -- exists e0. now rewrite Nat.add_0_r.
        -- replace (k + S i)%nat with (S k + i)%nat by lia. apply Hprev. lia.
      * intros e He. destruct (Hfail e He) as (Hs & Hall & H0 & Hlast).
        split; [rewrite Hs; lia|]. split.
        { intros [|i] Hi.
          - exists e0. now rewrite Nat.add_0_r.
          - replace (k + S i)%nat with (S k + i)%nat by lia. apply Hall. lia. }
        split; [lia|]. intros _. destruct n as [|n'].
        -- cbn in H0. rewrite (H0 eq_refl).
           now replace (k + 1 - 1)%nat with k by lia.
        -- replace (k + S (S n') - 1)%nat with (S k + S n' - 1)%nat by lia.
           apply Hlast. lia.
    + cbn [fst snd]. split; [lia|]. split.
      * intros a Ha. injection Ha as <-. exists 0%nat.
        rewrite Nat.add_0_r. split; [lia|]. split; [reflexivity|].
        split; [exact E|]. intros i Hi. lia.
      * discriminate.
Qed.

(** X1. [_call_with_retry] calls [func] at most [max_retries] times,
    three times when [max_retries] is [None] or 0. It returns the value of
    the first call that raises nothing and calls [func] no more; when every
    call raises, it raises the exception of the last one; when
    [max_retries] is negative it makes no call and raises the [TypeError] of
    [raise None]. *)
Theorem call_with_retry_outcome {A} (func : nat -> Exception + A)
    (max_retries : option Z) (k : nat) :
  let n := Z.to_nat (effective_retries max_retries) in
  let r := fst (_call_with_retry func max_retries k) in
  let k' := snd (_call_with_retry func max_retries k) in
  effective_retries None = 3%Z
  /\ effective_retries (Some 0%Z) = 3%Z
  /\ (forall m, m <> 0%Z -> effective_retries (Some m) = m)
  /\ (k <= k' <= k + n)%nat
  /\ (forall a,
        r = inr a ->
        exists j, (j < n)%nat /\ k' = S (k + j) /\ func (k + j)%nat = inr a
          /\ forall i, (i < j)%nat -> exists e, func (k + i)%nat = inl e)
  /\ (forall e,
        r = inl e ->
        k' = (k + n)%nat
        /\ (forall i, (i < n)%nat -> exists e', func (k + i)%nat = inl e')
        /\ (n = 0%nat -> e = TypeError_raise_None)
        /\ (0 < n -> func (k + n - 1)%nat = inl e)%nat).
Proof.
  intros n r k'. split; [reflexivity|]. split; [reflexivity|]. split.
  { intros m Hm. unfold effective_retries.
    destruct (Z.eqb_spec m 0); [contradiction|reflexivity]. }
  destruct (retry_attempts_outcome func n None k) as (Hb & Hok & Hfail).
  split; [exact Hb|]. split; [exact Hok|exact Hfail].
Qed.

(** Two failures and an answer: three calls, the third one's value. *)
Example retry_third_time_lucky :
  _call_with_retry third_time_lucky None 0%nat = (inr 2%nat, 3%nat)
  /\ exists e, _call_with_retry third_time_lucky (Some 2%Z) 0%nat = (inl e, 2%nat).
Proof. split; [reflexivity|]. eexists. reflexivity. Qed.

End RetryFacts.

Module StatisticsFacts.
Import Eff ZepTools ZepToolsService ZepServiceSpec StrFacts.

Lemma count_get_set (d : Counts) k n k' :
  count_get (count_set d k n) k'
  = if str_eqb k k' then n else count_get d k'.
Proof.
  induction d as [|[k0 n0] d IH]; cbn.
  - reflexivity.
  - destruct (str_eqb k0 k) eqn:E; cbn.
    + apply str_eqb_eq in E as ->. now destruct (str_eqb k k').
    + destruct (str_eqb k0 k') eqn:E'.
      * apply str_eqb_eq in E' as ->. rewrite str_eqb_sym, E. reflexivity.
      * exact IH.
Qed.

Lemma count_get_one (d : Counts) k k' :
  count_get (count_one d k) k'
  = (count_get d k' + if str_eqb k k' then 1 else 0)%Z.
Proof.
  unfold count_one. rewrite count_get_set. destruct (str_eqb k k') eqn:E.
  - apply str_eqb_eq in E as ->. reflexivity.
  - lia.
Qed.

Lemma total_count_set (d : Counts) k n :
  total_count (count_set d k n) = (total_count d - count_get d k + n)%Z.
Proof.
  unfold total_count. induction d as [|[k0 n0] d IH]; cbn.
  - lia.
  - destruct (str_eqb k0 k); cbn; lia.
Qed.

Lemma keys_count_set (d : Counts) k n :
  NoDup (map fst d) -> NoDup (map fst (count_set d k n))
  /\ (forall x, In x (map fst (count_set d k n)) <-> x = k \/ In x (map fst d)).
Proof.
  induction d as [|[k0 n0] d IH]; cbn; intros Hd.
  - split; [apply NoDup_singleton|]. intros x. split; intros [H|H]; auto.
  - apply NoDup_cons in Hd as [Hk0 Hd]. destruct (IH Hd) as [IH1 IH2].
    destruct (str_eqb k0 k) eqn:E; cbn.
    + apply str_eqb_eq in E as ->. split; [now constructor|].
      intros x. split; intros H; [now right|]. destruct H as [->|H]; auto.
    + apply str_eqb_neq in E. split.
      * constructor; [|exact IH1]. rewrite list_elem_of_In, IH2.
        intros [H|H]; [congruence|]. apply Hk0. now apply list_elem_of_In.
      * intros x. rewrite IH2. tauto.
Qed.

(** What the counting loop over the edges keeps. *)
Lemma count_relation_types_inv (es : list EdgeInfo) : forall d,
  NoDup (map fst d) ->
  let d' := fold_left (fun rt edge => count_one rt (e_name edge)) es d in
  NoDup (map fst d')
  /\ (forall name,
        count_get d' name = (count_get d name + Z.of_nat (edges_named name es))%Z)
  /\ total_count d' = (total_count d + Z.of_nat (length es))%Z
  /\ (forall x, In x (map fst d')
                <-> In x (map fst d) \/ In x (map e_name es)).
Proof.
  induction es as [|e es IH]; intros d Hd; cbn [fold_left].
  - cbn. repeat split; auto; try lia; tauto.
  - destruct (keys_count_set d (e_name e)
                (count_get d (e_name e) + 1)%Z Hd) as [Hd1 Hk].
    fold (count_one d (e_name e)) in Hd1, Hk.
    destruct (IH (count_one d (e_name e)) Hd1) as (H1 & H2 & H3 & H4).
    cbv zeta in *. split; [exact H1|]. split; [|split].
    + intros name. rewrite H2, count_get_one. unfold edges_named.
      cbn [filter]. rewrite filter_cons.
      destruct (decide (str_eqb (e_name e) name = true)) as [E|E].
      * rewrite E. cbn [length]. lia.
      * apply not_true_is_false in E. rewrite E. lia.
    + rewrite H3. unfold count_one. rewrite total_count_set. cbn [length]. lia.
    + intros x. rewrite H4, Hk. cbn [map In]. intuition congruence.
Qed.

Lemma count_labels_inv (labels : list pystr) : forall d,
  NoDup (map fst d) ->
  Forall (fun k => is_custom_label k = true) (map fst d) ->
  let d' := fold_left
              (fun et label =>
                 if is_custom_label label then count_one et label else et)
              labels d in
  NoDup (map fst d')
  /\ Forall (fun k => is_custom_label k = true) (map fst d')
  /\ (forall label,
        is_custom_label label = true ->
        count_get d' label
        = (count_get d label
           + Z.of_nat (length (filter (fun l => str_eqb l label = true)
                                      labels)))%Z).
Proof.
  induction labels as [|l labels IH]; intros d Hd Hc; cbn [fold_left].
  - cbn. repeat split; auto. intros. lia.
  - destruct (is_custom_label l) eqn:El.
    + destruct (keys_count_set d l (count_get d l + 1)%Z Hd) as [Hd1 Hk].
      fold (count_one d l) in Hd1, Hk.
      assert (Forall (fun k => is_custom_label k = true)
                     (map fst (count_one d l))) as Hc1.
      { apply List.Forall_forall. intros x Hx. apply Hk in Hx as [->|Hx];
          [exact El|]. rewrite List.Forall_forall in Hc. now apply Hc. }
      destruct (IH (count_one d l) Hd1 Hc1) as (H1 & H2 & H3).
      cbv zeta in *. split; [exact H1|]. split; [exact H2|].
      intros label Hl. rewrite (H3 label Hl), count_get_one, filter_cons.
      destruct (decide (str_eqb l label = true)) as [E|E].
      * rewrite E. cbn [length]. lia.
      * apply not_true_is_false in E. rewrite E. lia.
    + destruct (IH d Hd Hc) as (H1 & H2 & H3).
      cbv zeta in *. split; [exact H1|]. split; [exact H2|].
      intros label Hl. rewrite (H3 label Hl), filter_cons.
      destruct (decide (str_eqb l label = true)) as [E|E]; [|reflexivity].
      apply str_eqb_eq in E. congruence.
Qed.

Lemma count_entity_types_inv (ns : list NodeInfo) : forall d,
  NoDup (map fst d) ->
  Forall (fun k => is_custom_label k = true) (map fst d) ->
  let d' := fold_left
              (fun et node =>
                 fold_left
                   (fun et label =>
                      if is_custom_label label then count_one et label else et)
                   (n_labels node) et)
              ns d in
  NoDup (map fst d')
  /\ Forall (fun k => is_custom_label k = true) (map fst d')
  /\ (forall label,
        is_custom_label label = true ->
        count_get d' label
        = (count_get d label + Z.of_nat (label_occurrences label ns))%Z).
Proof.
  induction ns as [|node ns IH]; intros d Hd Hc; cbn [fold_left].
  - cbn. repeat split; auto. intros. unfold label_occurrences. cbn. lia.
  - destruct (count_labels_inv (n_labels node) d Hd Hc) as (Hd1 & Hc1 & H1).
    cbv zeta in Hd1, Hc1, H1.
    destruct (IH _ Hd1 Hc1) as (H2 & H3 & H4).
    cbv zeta in *. split; [exact H2|]. split; [exact H3|].
    intros label Hl. rewrite (H4 label Hl), (H1 label Hl).
    unfold label_occurrences. cbn [flat_map].
    rewrite filter_app, length_app. lia.
Qed.

(** The keys the counting loop over the labels of a node leaves. *)
Lemma count_labels_keys (labels : list pystr) : forall d,
  NoDup (map fst d) ->
  let d' := fold_left
              (fun et label =>
                 if is_custom_label label then count_one et label else et)
              labels d in
  NoDup (map fst d')
  /\ (forall x,
        In x (map fst d')
        <-> In x (map fst d) \/ (is_custom_label x = true /\ In x labels)).
Proof.
  induction labels as [|l labels IH]; intros d Hd; cbn [fold_left].
  - cbn. split; [exact Hd|]. intros x. tauto.
  - destruct (is_custom_label l) eqn:El.
    + destruct (keys_count_set d l (count_get d l + 1)%Z Hd) as [Hd1 Hk].
      fold (count_one d l) in Hd1, Hk.
      destruct (IH (count_one d l) Hd1) as (H1 & H2).
      cbv zeta in *. split; [exact H1|]. intros x.
      rewrite H2, Hk. cbn [In]. split.
      * intros [[->|H]|[Hx H]]; auto.
      * intros [H|[Hx [->|H]]]; auto.
    + destruct (IH d Hd) as (H1 & H2).
      cbv zeta in *. split; [exact H1|]. intros x.
      rewrite H2. cbn [In]. split.
      * intros [H|[Hx H]]; auto.
      * intros [H|[Hx [->|H]]]; auto. congruence.
Qed.

(** The keys the counting loop over the nodes leaves. *)
Lemma count_entity_types_keys (ns : list NodeInfo) : forall d,
  NoDup (map fst d) ->
  let d' := fold_left
              (fun et node =>
                 fold_left
                   (fun et label =>
                      if is_custom_label label then count_one et label else et)
                   (n_labels node) et)
              ns d in
  NoDup (map fst d')
  /\ (forall x,
        In x (map fst d')
        <-> In x (map fst d)
            \/ (is_custom_label x = true /\ In x (flat_map n_labels ns))).
Proof.
  induction ns as [|node ns IH]; intros d Hd; cbn [fold_left].
  - cbn. split; [exact Hd|]. intros x. tauto.
  - destruct (count_labels_keys (n_labels node) d Hd) as (Hd1 & H1).
    cbv zeta in Hd1, H1.
    destruct (IH _ Hd1) as (H2 & H3).
    cbv zeta in *. split; [exact H2|]. intros x.
    rewrite H3, H1. cbn [flat_map]. rewrite in_app_iff. tauto.
Qed.

Lemma count_get_absent (d : Counts) k :
  ~ In k (map fst d) -> count_get d k = 0%Z.
Proof.
  induction d as [|[k0 n0] d IH]; cbn; [reflexivity|]. intros H.
  destruct (str_eqb k0 k) eqn:E.
  - apply str_eqb_eq in E. tauto.
  - apply IH. tauto.
Qed.

(** X2. When [get_graph_statistics] returns, the totals are the
    numbers of nodes and edges fetched; [relation_types] counts, for every
    name, the edges of that name, its keys are the names that occur, each
    once, and its counts add up to [total_edges]; [entity_types] counts, for
    every label other than [Entity] and [Node], the times the label stands on
    a node, its keys are the labels other than [Entity] and [Node] that stand
    on a node, each once, and it never has [Entity] or [Node] for a key. The
    method raises what fetching the nodes raises, or else what fetching the
    edges raises. *)
Theorem graph_statistics_counts (g : Graph) (graph_id : pystr) :
  match get_graph_statistics g graph_id with
  | inr st =>
    exists ns es,
      all_nodes g = inr ns /\ all_edges g = inr es
      /\ st_graph_id st = graph_id
      /\ st_total_nodes st = length ns /\ st_total_edges st = length es
      /\ (forall name,
            count_get (st_relation_types st) name
            = Z.of_nat (edges_named name es))
      /\ NoDup (map fst (st_relation_types st))
      /\ (forall name,
            In name (map fst (st_relation_types st))
            <-> In name (map e_name es))
      /\ total_count (st_relation_types st) = Z.of_nat (st_total_edges st)
      /\ (forall label,
            count_get (st_entity_types st) label
            = if is_custom_label label
              then Z.of_nat (label_occurrences label ns) else 0%Z)
      /\ NoDup (map fst (st_entity_types st))
      /\ (forall label,
            In label (map fst (st_entity_types st))
            <-> is_custom_label label = true
                /\ In label (flat_map n_labels ns))
      /\ ~ In (py "Entity") (map fst (st_entity_types st))
      /\ ~ In (py "Node") (map fst (st_entity_types st))
  | inl e =>
    all_nodes g = inl e
    \/ (exists ns, all_nodes g = inr ns) /\ all_edges g = inl e
  end.
Proof.
  unfold get_graph_statistics.
  destruct (all_nodes g) as [e|ns]; cbn [and_then]; [now left|].
  destruct (all_edges g) as [e|es]; cbn [and_then].
  { right. split; [now exists ns|reflexivity]. }
  exists ns, es. cbn [st_graph_id st_total_nodes st_total_edges
                      st_entity_types st_relation_types].
  destruct (count_relation_types_inv es [] NoDup_nil_2)
    as (R1 & R2 & R3 & R4).
  destruct (count_entity_types_inv ns [] NoDup_nil_2 (Forall_nil_2 _))
    as (E1 & E2 & E3).
  cbv zeta in *. fold (count_relation_types es) in R1, R2, R3, R4.
  fold (count_entity_types ns) in E1, E2, E3.
  split; [reflexivity|]. split; [reflexivity|]. split; [reflexivity|].
  split; [reflexivity|]. split; [reflexivity|]. split.
  { intros name. rewrite R2. cbn. lia. }
  split; [exact R1|]. split.
  { intros name. rewrite R4. cbn. tauto. }
  split; [rewrite R3; cbn; lia|]. split.
  { intros label. destruct (is_custom_label label) eqn:El.
    - rewrite (E3 label El). cbn. lia.
    - apply count_get_absent. intros H. rewrite List.Forall_forall in E2.
      apply E2 in H. congruence. }
  split; [exact E1|].
  destruct (count_entity_types_keys ns [] NoDup_nil_2) as (_ & K).
  cbv zeta in K. fold (count_entity_types ns) in K.
  rewrite List.Forall_forall in E2.
  split; [|split].
  - intros label. rewrite K. cbn [map In]. tauto.
  - intros HE. apply E2 in HE. vm_compute in HE. discriminate HE.
  - intros HN. apply E2 in HN. vm_compute in HN. discriminate HN.
Qed.

(** The statistics of a graph of three nodes and three edges. *)
Example statistics_of_small_graph :
  get_graph_statistics small_graph (py "g")
  = inr (mkStatistics (py "g") 3 3
           [(py "Student", 2%Z); (py "Poet", 1%Z)]
           [(py "FOLLOWS", 2%Z); (py "LIKES", 1%Z)]).
Proof. vm_compute. reflexivity. Qed.

End StatisticsFacts.

Module SearchResultFacts.
Import Eff ZepTools SearchResultSpec StrFacts EffFacts SearchFacts.

Lemma fold_add_edge_facts (l : list (Z * EdgeInfo)) fd :
  fd_facts (fold_left (fun fd p => add_edge (snd p) fd) l fd)
  = fd_facts fd ++ edge_facts l.*2.
Proof.
  revert fd. induction l as [|p l IH]; intros fd; cbn [fold_left].
  - unfold edge_facts. cbn. now rewrite app_nil_r.
  - rewrite IH. unfold edge_facts. cbn [add_edge fd_facts fmap list_fmap map].
    rewrite filter_cons.
    destruct (nonempty (e_fact (snd p))) eqn:E.
    + rewrite decide_True by reflexivity. now rewrite <- app_assoc.
    + rewrite decide_False by discriminate. reflexivity.
Qed.

Lemma fold_add_node_facts (l : list (Z * NodeInfo)) fd :
  fd_facts (fold_left (fun fd p => add_node (snd p) fd) l fd)
  = fd_facts fd ++ node_facts l.*2.
Proof.
  revert fd. induction l as [|p l IH]; intros fd; cbn [fold_left].
  - unfold node_facts. cbn. now rewrite app_nil_r.
  - rewrite IH. unfold node_facts. cbn [add_node fd_facts fmap list_fmap].
    rewrite filter_cons.
    destruct (nonempty (n_summary (snd p))) eqn:E.
    + rewrite decide_True by reflexivity. cbn [map]. now rewrite <- app_assoc.
    + rewrite decide_False by discriminate. reflexivity.
Qed.

Lemma node_hits_of_scored (l : list (Z * NodeInfo)) :
  map (fun p => mkNodeHit (n_uuid (snd p)) (n_name (snd p))
                          (n_labels (snd p)) (n_summary (snd p))) l
  = map node_hit l.*2.
Proof. induction l as [|p l IH]; cbn; [reflexivity|]. now rewrite IH. Qed.

(** The search, written out for every scope and every answer of the graph. *)
Lemma local_search_unfold rt g query limit scope :
  _local_search rt g query limit scope
  = let in_edges := scope_in scope (py "edges") (py "both") in
    let in_nodes := scope_in scope (py "nodes") (py "both") in
    let after_edges :=
      if in_edges then
        match all_edges g with
        | inr es =>
          Some (edge_facts (kept_edges rt query limit es),
                kept_edges rt query limit es)
        | inl _ => None
        end
      else Some ([], []) in
    match after_edges with
    | None => empty_result query
    | Some (fs, es) =>
      if in_nodes then
        match all_nodes g with
        | inr ns =>
          mkResult (fs ++ node_facts (kept_nodes rt query limit ns)) es
                   (map node_hit (kept_nodes rt query limit ns)) query
                   (length (fs ++ node_facts (kept_nodes rt query limit ns)))
        | inl _ => mkResult fs es [] query (length fs)
        end
      else mkResult fs es [] query (length fs)
    end.
Proof.
  unfold _local_search, try_catch, local_search_try, kept_edges, kept_nodes.
  cbv zeta.
  destruct (scope_in scope (py "edges") (py "both")); cbn [when];
    unfold bind, lift, ret.
  - destruct (all_edges g) as [e|es]; [reflexivity|]. cbv beta iota.
    rewrite for_each_modify.
    destruct (scope_in scope (py "nodes") (py "both")); cbn [when].
    + unfold bind, lift. destruct (all_nodes g) as [e|ns]; cbv beta iota.
      * cbn [snd]. rewrite fold_add_edge_facts.
        match goal with |- context [fold_left ?f ?l ?fd] =>
          destruct (fold_add_edge l fd) as [-> ->] end.
        reflexivity.
      * rewrite for_each_modify. cbn [snd]. rewrite fold_add_node_facts.
        match goal with |- context [fold_left ?f ?l (fold_left ?f' ?l' ?fd)] =>
          destruct (fold_add_node l (fold_left f' l' fd)) as [-> ->] end.
        rewrite fold_add_edge_facts.
        match goal with |- context [fold_left ?f ?l ?fd] =>
          destruct (fold_add_edge l fd) as [-> ->] end.
        cbn [fd_facts fd_edges fd_nodes app]. rewrite node_hits_of_scored.
        reflexivity.
    + unfold ret. cbn [snd]. rewrite fold_add_edge_facts.
      match goal with |- context [fold_left ?f ?l ?fd] =>
        destruct (fold_add_edge l fd) as [-> ->] end.
      reflexivity.
  - destruct (scope_in scope (py "nodes") (py "both")); cbn [when].
    + unfold bind, lift. destruct (all_nodes g) as [e|ns]; cbv beta iota.
      * reflexivity.
      * rewrite for_each_modify. cbn [snd]. rewrite fold_add_node_facts.
        match goal with |- context [fold_left ?f ?l ?fd] =>
          destruct (fold_add_node l fd) as [-> ->] end.
        cbn [fd_facts fd_edges fd_nodes app]. rewrite node_hits_of_scored.
        reflexivity.
    + reflexivity.
Qed.

Lemma slice_limit_length {A} (limit : Z) (l : list A) :
  (0 <= limit)%Z -> length (slice_limit limit l) = Nat.min (Z.to_nat limit) (length l).
Proof.
  intros H. unfold slice_limit. destruct (Z.leb_spec 0 limit); [|lia].
  apply length_take.
Qed.

Lemma top_scored_elem {A} (score : A -> Z) limit (items : list A) x :
  x ∈ (top_scored score limit items).*2 -> x ∈ items /\ (0 < score x)%Z.
Proof.
  intros H. apply list_elem_of_fmap in H as ([v y] & -> & H). cbn [snd].
  unfold top_scored, slice_limit in H.
  assert ((v, y) ∈ sort_desc (scored score items)) as H'.
  { destruct (0 <=? limit)%Z; eapply subseteq_take, H. }
  rewrite sort_desc_perm in H'. unfold scored in H'.
  apply list_elem_of_filter in H' as [Hpos H']. cbn in Hpos.
  apply list_elem_of_fmap in H' as (z & E & Hz). injection E as -> ->.
  now split.
Qed.

(** X3. With both scopes and a graph that answers,
    [_local_search] returns the edges and the nodes kept by the ranking,
    each of them an edge or a node of the graph with a positive score; its
    facts are the non-empty facts of the returned edges, in order, followed
    by one line [[name]: summary] for each returned node that has a summary;
    [total_count] is the number of facts, not of edges or nodes. With a
    [limit] that is not negative, at most [limit] edges and [limit] nodes are
    returned, so at most twice [limit] facts. *)
Theorem local_search_facts rt g query limit es ns :
  all_edges g = inr es ->
  all_nodes g = inr ns ->
  let r := _local_search rt g query limit (py "both") in
  edges r = kept_edges rt query limit es
  /\ nodes r = map node_hit (kept_nodes rt query limit ns)
  /\ facts r = edge_facts (edges r) ++ node_facts (kept_nodes rt query limit ns)
  /\ total_count r = length (facts r)
  /\ ZepTools.query r = query
  /\ Forall (fun e => e ∈ es
               /\ (0 < edge_score rt (lower rt query)
                                  (keywords_of (lower rt query)) e)%Z)
            (edges r)
  /\ Forall (fun n => n ∈ ns
               /\ (0 < node_score rt (lower rt query)
                                  (keywords_of (lower rt query)) n)%Z)
            (kept_nodes rt query limit ns)
  /\ ((0 <= limit)%Z ->
      (length (edges r) <= Z.to_nat limit
       /\ length (nodes r) <= Z.to_nat limit
       /\ total_count r <= 2 * Z.to_nat limit)%nat).
Proof.
  intros Hes Hns r. subst r. rewrite local_search_unfold. cbv zeta.
  change (scope_in (py "both") (py "edges") (py "both")) with true.
  change (scope_in (py "both") (py "nodes") (py "both")) with true.
  cbv iota. rewrite Hes, Hns. cbn [edges nodes facts total_count ZepTools.query].
  split; [reflexivity|]. split; [reflexivity|]. split; [reflexivity|].
  split; [reflexivity|]. split; [reflexivity|]. split.
  { apply List.Forall_forall. intros e He. apply list_elem_of_In in He.
    now apply top_scored_elem in He. }
  split.
  { apply List.Forall_forall. intros n Hn. apply list_elem_of_In in Hn.
    now apply top_scored_elem in Hn. }
  intros Hl.
  assert (length (kept_edges rt query limit es) <= Z.to_nat limit)%nat as H1.
  { unfold kept_edges, top_scored. rewrite length_fmap, slice_limit_length by exact Hl.
    lia. }
  assert (length (kept_nodes rt query limit ns) <= Z.to_nat limit)%nat as H2.
  { unfold kept_nodes, top_scored. rewrite length_fmap, slice_limit_length by exact Hl.
    lia. }
  split; [exact H1|]. split; [now rewrite length_map|].
  rewrite length_app. unfold edge_facts, node_facts.
  rewrite length_map.
  pose proof (length_filter (fun f => nonempty f = true)
                (map e_fact (kept_edges rt query limit es))) as F1.
  pose proof (length_filter (fun n => nonempty (n_summary n) = true)
                (kept_nodes rt query limit ns)) as F2.
  rewrite length_map in F1. lia.
Qed.

Lemma local_search_facts_witness :
  let r := _local_search ascii_runtime ZepServiceSpec.small_graph (py "follows")
                         2 (py "both") in
  map e_uuid (edges r) = [py "e1"; py "e3"]
  /\ facts r = [py "a follows b"; py "c follows a"]
  /\ total_count r = 2%nat.
Proof.
  pose proof (local_search_facts ascii_runtime ZepServiceSpec.small_graph
                (py "follows") 2 _ _ eq_refl eq_refl) as H.
  cbv zeta in H |- *. destruct H as (_ & _ & _ & Ht & _).
  split; [vm_compute; reflexivity|]. split; [vm_compute; reflexivity|].
  rewrite Ht. vm_compute. reflexivity.
Defined.

(** X4. [_local_search] raises nothing, whatever the graph
    does. When the edges cannot be fetched, a search with scope [edges] or
    [both] returns the empty result, nodes included; when the nodes cannot
    be fetched, a search with scope [both] returns what the search with
    scope [edges] returns; a scope other than [edges], [nodes] and [both]
    gives the empty result. *)
Theorem local_search_failures rt g query limit :
  (forall e scope,
     all_edges g = inl e ->
     scope_in scope (py "edges") (py "both") = true ->
     _local_search rt g query limit scope = empty_result query)
  /\ (forall e,
        all_nodes g = inl e ->
        _local_search rt g query limit (py "nodes") = empty_result query
        /\ _local_search rt g query limit (py "both")
           = _local_search rt g query limit (py "edges"))
  /\ (forall scope,
        scope <> py "edges" -> scope <> py "nodes" -> scope <> py "both" ->
        _local_search rt g query limit scope = empty_result query).
Proof.
  split; [|split].
  - intros e scope He Hs. rewrite local_search_unfold. cbv zeta.
    now rewrite Hs, He.
  - intros e Hn. rewrite !local_search_unfold. cbv zeta.
    change (scope_in (py "nodes") (py "edges") (py "both")) with false.
    change (scope_in (py "nodes") (py "nodes") (py "both")) with true.
    change (scope_in (py "both") (py "edges") (py "both")) with true.
    change (scope_in (py "both") (py "nodes") (py "both")) with true.
    change (scope_in (py "edges") (py "edges") (py "both")) with true.
    change (scope_in (py "edges") (py "nodes") (py "both")) with false.
    cbv iota. rewrite Hn. split; [reflexivity|].
    now destruct (all_edges g).
  - intros scope H1 H2 H3. rewrite local_search_unfold. cbv zeta.
    unfold scope_in.
    apply str_eqb_neq in H1, H2, H3. rewrite H1, H2, H3. reflexivity.
Qed.

(** The nodes are down: the edge found is still returned. *)
Example local_search_with_nodes_down :
  map e_uuid
    (edges (_local_search ascii_runtime nodes_down_graph SearchSpec.long_query
                          10 (py "both")))
  = [py "e1"].
Proof. vm_compute. reflexivity. Qed.

Lemma empty_query_score rt text :
  match_score rt (lower rt []) (keywords_of (lower rt [])) text
  = if nonempty text then 100%Z else 0%Z.
Proof.
  unfold match_score. destruct text as [|c text]; [reflexivity|]. cbn [nonempty negb].
  cbv zeta. change (lower rt []) with (@nil N).
  now destruct (lower rt (c :: text)).
Qed.

Lemma scored_filter_length {A} (score : A -> Z) (keep : A -> bool) (l : list A) :
  (forall x, (0 < score x)%Z <-> keep x = true) ->
  length (scored score l) = length (filter (fun x => keep x = true) l).
Proof.
  intros H. unfold scored. induction l as [|x l IH]; [reflexivity|].
  cbn [map]. rewrite !filter_cons. cbn [fst].
  destruct (decide (0 < score x)%Z) as [E|E];
    destruct (decide (keep x = true)) as [E'|E']; cbn [length].
  - now rewrite IH.
  - apply H in E. contradiction.
  - apply H in E'. contradiction.
  - exact IH.
Qed.

(** X5. The empty query is found in every text that is not
    empty: an edge scores 100 for its fact and 100 for its name, whichever
    it has, and the search returns [limit] of the edges that have a fact or
    a name, or all of them when there are fewer. *)
Theorem empty_query_matches_every_text rt g limit es :
  all_edges g = inr es ->
  (0 <= limit)%Z ->
  let r := _local_search rt g [] limit (py "edges") in
  (forall e,
     edge_score rt (lower rt []) (keywords_of (lower rt [])) e
     = ((if nonempty (e_fact e) then 100 else 0)
        + (if nonempty (e_name e) then 100 else 0))%Z)
  /\ length (edges r)
     = Nat.min (Z.to_nat limit)
               (length (filter (fun e => has_text e = true) es))
  /\ Forall (fun e => e ∈ es /\ has_text e = true) (edges r).
Proof.
  intros Hes Hl r.
  assert (Hscore : forall e,
     edge_score rt (lower rt []) (keywords_of (lower rt [])) e
     = ((if nonempty (e_fact e) then 100 else 0)
        + (if nonempty (e_name e) then 100 else 0))%Z).
  { intros e. unfold edge_score. now rewrite !empty_query_score. }
  assert (Hkeep : forall e,
     (0 < edge_score rt (lower rt []) (keywords_of (lower rt [])) e)%Z
     <-> has_text e = true).
  { intros e. rewrite Hscore. unfold has_text.
    destruct (nonempty (e_fact e)), (nonempty (e_name e)); cbn; split;
      intros; try lia; try reflexivity; discriminate. }
  split; [exact Hscore|].
  destruct (local_search_edges rt g [] limit es Hes) as [He _].
  subst r. rewrite He. split.
  - unfold top_scored. rewrite length_fmap, slice_limit_length by exact Hl.
    rewrite (Permutation_length (sort_desc_perm _)).
    now rewrite (scored_filter_length _ has_text).
  - apply List.Forall_forall. intros e He'. apply list_elem_of_In in He'.
    apply top_scored_elem in He' as [H1 H2]. split; [exact H1|].
    now apply Hkeep.
Qed.

Lemma empty_query_matches_every_text_witness :
  length (edges (_local_search ascii_runtime ZepServiceSpec.small_graph []
                               2 (py "edges"))) = 2%nat.
Proof.
  destruct (empty_query_matches_every_text ascii_runtime
              ZepServiceSpec.small_graph 2 _ eq_refl ltac:(lia))
    as (_ & H & _).
  rewrite H. reflexivity.
Defined.

End SearchResultFacts.

Module SendFacts.
Import Eff MemoryUpdater UpdaterSpec SendSpec StrFacts ZepGraphMemoryManager.

Section WithEnv.
Variable env : Env.

(** The retry loop: [n] tries at most, all with the same text; it ends with
    the first call that raises nothing, which counts as sent, or after the
    last try, which counts as failed. *)
Lemma send_attempts_outcome a text n : forall u,
  (0 < n)%nat ->
  let u' := send_attempts env a text n u in
  exists k,
    (1 <= k <= n)%nat
    /\ graph_log u' = graph_log u ++ repeat (a, text) k
    /\ (forall i, (i < k - 1)%nat ->
          exists e, graph_add env (length (graph_log u) + i) text = Some e)
    /\ (graph_add env (length (graph_log u) + k - 1) text = None
        /\ total_sent u' = S (total_sent u)
        /\ failed_count u' = failed_count u
        \/ k = n
           /\ (exists e,
                 graph_add env (length (graph_log u) + k - 1) text = Some e)
           /\ total_sent u' = total_sent u
           /\ failed_count u' = S (failed_count u)).
Proof.
  induction n as [|n IH]; intros u Hn; [lia|]. cbn [send_attempts]. cbv zeta.
  destruct (graph_add env (length (graph_log u)) text) as [e|] eqn:E.
  - destruct n as [|n'].
    + exists 1%nat. cbn [graph_log total_sent failed_count repeat].
      split; [lia|]. split; [reflexivity|]. split; [intros i Hi; lia|].
      right. split; [reflexivity|]. split; [|now split].
      exists e. now replace (length (graph_log u) + 1 - 1)%nat
        with (length (graph_log u)) by lia.
    + set (u1 := mkUpdater (activity_queue u) (running u) (total_activities u)
                   (total_sent u) (failed_count u) (handled u)
                   (graph_log u ++ [(a, text)])).
      destruct (IH u1 ltac:(lia)) as (k & Hk & Hlog & Hprev & Hend).
      cbv zeta in Hlog, Hend. subst u1.
      cbn [graph_log total_sent failed_count] in Hlog, Hprev, Hend.
      rewrite length_app in Hprev, Hend. cbn [length] in Hprev, Hend.
      exists (S k). split; [lia|]. split.
      { rewrite Hlog, <- app_assoc. reflexivity. }
      split.
      { intros [|i] Hi.
        - exists e. now rewrite Nat.add_0_r.
        - replace (length (graph_log u) + S i)%nat
            with (length (graph_log u) + 1 + i)%nat by lia.
          apply Hprev. lia. }
      replace (length (graph_log u) + S k - 1)%nat
        with (length (graph_log u) + 1 + k - 1)%nat by lia.
      destruct Hend as [H|(-> & H)]; [left; exact H|].
      right. split; [reflexivity|exact H].
  - exists 1%nat. cbn [graph_log total_sent failed_count repeat].
    split; [lia|]. split; [reflexivity|]. split; [intros i Hi; lia|].
    left. split; [|now split].
    now replace (length (graph_log u) + 1 - 1)%nat
      with (length (graph_log u)) by lia.
Qed.

(** What one call of [_send_single_activity] does to the updater. *)
Lemma send_single_effect (a : AgentActivity) (u : Updater) :
  let r := _send_single_activity env a u in
  activity_queue (snd r) = activity_queue u
  /\ total_activities (snd r) = total_activities u
  /\ running (snd r) = running u
  /\ handled (snd r) = handled u ++ [a]
  /\ match to_episode_text (rt env) a with
     | inl e =>
       fst r = Some e
       /\ graph_log (snd r) = graph_log u
       /\ total_sent (snd r) = total_sent u
       /\ failed_count (snd r) = failed_count u
     | inr text =>
       fst r = None
       /\ exists k,
            (1 <= k <= 3)%nat
            /\ graph_log (snd r) = graph_log u ++ repeat (a, text) k
            /\ (forall i, (i < k - 1)%nat ->
                  exists e,
                    graph_add env (length (graph_log u) + i) text = Some e)
            /\ (graph_add env (length (graph_log u) + k - 1) text = None
                /\ total_sent (snd r) = S (total_sent u)
                /\ failed_count (snd r) = failed_count u
                \/ k = 3%nat
                   /\ (exists e,
                         graph_add env (length (graph_log u) + k - 1) text
                         = Some e)
                   /\ total_sent (snd r) = total_sent u
                   /\ failed_count (snd r) = S (failed_count u))
     end.
Proof.
  cbv zeta. unfold _send_single_activity.
  set (u1 := mkUpdater (activity_queue u) (running u) (total_activities u)
               (total_sent u) (failed_count u) (handled u ++ [a]) (graph_log u)).
  destruct (to_episode_text (rt env) a) as [e|text]; cbn [fst snd].
  - repeat split; reflexivity.
  - destruct (UpdaterFacts.send_attempts_frame env a text MAX_RETRIES u1)
      as (F1 & F2 & F3 & F4 & _).
    rewrite F1, F2, F3, F4. split; [reflexivity|]. split; [reflexivity|].
    split; [reflexivity|]. split; [reflexivity|]. split; [reflexivity|].
    destruct (send_attempts_outcome a text MAX_RETRIES u1 ltac:(unfold MAX_RETRIES; lia))
      as (k & Hk & Hlog & Hprev & Hend).
    exists k. split; [exact Hk|]. split; [exact Hlog|]. split; [exact Hprev|].
    exact Hend.
Qed.

(** X7. [_send_single_activity] builds the text first. If that
    raises, the exception leaves the method and nothing is sent or counted.
    Otherwise [client.graph.add] is called one to three times, always with
    that text, each call but the last having raised; if the last call raised
    nothing the activity counts as sent, and if it raised, it was the third
    call and the activity counts as failed; never both. The queue and
    [total_activities] are left alone. *)
Theorem send_single_activity_outcome (a : AgentActivity) (u : Updater) :
  let r := _send_single_activity env a u in
  activity_queue (snd r) = activity_queue u
  /\ total_activities (snd r) = total_activities u
  /\ running (snd r) = running u
  /\ handled (snd r) = handled u ++ [a]
  /\ match to_episode_text (rt env) a with
     | inl e =>
       fst r = Some e
       /\ graph_log (snd r) = graph_log u
       /\ total_sent (snd r) = total_sent u
       /\ failed_count (snd r) = failed_count u
     | inr text =>
       fst r = None
       /\ exists k,
            (1 <= k <= 3)%nat
            /\ graph_log (snd r) = graph_log u ++ repeat (a, text) k
            /\ (forall i, (i < k - 1)%nat ->
                  exists e,
                    graph_add env (length (graph_log u) + i) text = Some e)
            /\ (graph_add env (length (graph_log u) + k - 1) text = None
                /\ total_sent (snd r) = S (total_sent u)
                /\ failed_count (snd r) = failed_count u
                \/ k = 3%nat
                   /\ (exists e,
                         graph_add env (length (graph_log u) + k - 1) text
                         = Some e)
                   /\ total_sent (snd r) = total_sent u
                   /\ failed_count (snd r) = S (failed_count u))
     end.
Proof. exact (send_single_effect a u). Qed.

Lemma send_single_counted a u :
  Counted u -> Counted (snd (_send_single_activity env a u)).
Proof.
  intros [H1 H2 H3].
  destruct (send_single_effect a u) as (_ & _ & _ & Hh & Hr).
  cbv zeta in Hh, Hr.
  destruct (to_episode_text (rt env) a) as [e|text].
  - destruct Hr as (_ & Hl & Hs & Hf).
    constructor; rewrite ?Hh, ?Hl, ?Hs, ?Hf, ?length_app; cbn [length]; lia.
  - destruct Hr as (_ & k & Hk & Hl & _ & Hend).
    constructor; rewrite ?Hh, ?Hl, ?length_app, ?repeat_length; cbn [length];
      destruct Hend as [(_ & Hs & Hf)|(_ & _ & Hs & Hf)];
      rewrite ?Hs, ?Hf; lia.
Qed.

Lemma dequeue_counted u a u' :
  dequeue u = Some (a, u') -> Counted u -> Counted u'.
Proof.
  unfold dequeue. destruct (activity_queue u) as [|b q]; [discriminate|].
  intros H. injection H as _ <-. intros [H1 H2 H3]. now constructor.
Qed.

Lemma flush_loop_counted n : forall u,
  Counted u -> Counted (snd (flush_loop env n u)).
Proof.
  induction n as [|n IH]; intros u HC; cbn [flush_loop]; [exact HC|].
  destruct (dequeue u) as [[a u']|] eqn:Hd; [|exact HC].
  pose proof (send_single_counted a u' (dequeue_counted _ _ _ Hd HC)) as HC'.
  destruct (_send_single_activity env a u') as [[e|] u'']; cbn [snd] in *.
  - exact HC'.
  - apply IH, HC'.
Qed.

Lemma apply_op_counted op u : Counted u -> Counted (apply_op env u op).
Proof.
  intros HC. destruct op as [| |a|data p|]; cbn [apply_op].
  - unfold start. destruct (running u); [exact HC|].
    destruct HC. now constructor.
  - unfold stop, _flush_remaining. apply flush_loop_counted.
    destruct HC. now constructor.
  - unfold add_activity. destruct (is_do_nothing a); [exact HC|].
    destruct HC. now constructor.
  - unfold add_activity_from_dict, add_activity.
    destruct (dict_has data (py "event_type")); [exact HC|].
    destruct (is_do_nothing _); [exact HC|]. destruct HC. now constructor.
  - unfold worker_iteration.
    destruct (running u || is_some (dequeue u)); [|exact HC].
    destruct (dequeue u) as [[a u']|] eqn:Hd; [|exact HC].
    eapply send_single_counted, dequeue_counted; eassumption.
Qed.

Lemma run_counted ops : forall u, Counted u -> Counted (run env ops u).
Proof.
  unfold run. induction ops as [|op ops IH]; intros u HC; [exact HC|].
  cbn [fold_left]. apply IH, apply_op_counted, HC.
Qed.

(** X8. At every point of every schedule of additions, worker
    rounds, starts and stops, the numbers [get_stats] reports are
    consistent: the activities sent, those that failed and those still
    queued are never more than [total_activities]; the activities taken off
    the queue and those on it are exactly [total_activities]; and
    [client.graph.add] has been called at least once for each activity sent
    and at most three times for each activity taken off the queue. *)
Theorem stats_are_consistent (graph_id : pystr) (ops : list Op) :
  let u := run env ops initial in
  let s := get_stats graph_id u in
  (stats_total_sent s + stats_failed_count s + stats_queue_size s
   <= stats_total_activities s)%nat
  /\ stats_total_activities s = (length (handled u) + stats_queue_size s)%nat
  /\ (stats_total_sent s <= length (graph_log u))%nat
  /\ (length (graph_log u) <= 3 * length (handled u))%nat.
Proof.
  cbv zeta. unfold get_stats.
  cbn [stats_total_sent stats_failed_count stats_queue_size
       stats_total_activities].
  assert (HI : Inv (run env ops initial) (flat_map (accepted env) ops)).
  { apply (UpdaterFacts.run_inv env ops initial []). constructor; cbn; auto. }
  destruct HI as [Hf Ht _].
  assert (HC : Counted (run env ops initial)).
  { apply run_counted. constructor; cbn; lia. }
  destruct HC as [H1 H2 H3].
  rewrite Ht, <- Hf, length_app. repeat split; lia.
Qed.

End WithEnv.

(** Two failures and a success: three calls, one activity sent. *)
Example send_with_two_failures :
  let u := snd (_send_single_activity flaky_env like_activity initial) in
  total_sent u = 1%nat /\ failed_count u = 0%nat
  /\ graph_log u
     = repeat (like_activity, py "Ann: " ++ py "点赞了帖子#" ++ py "7") 3.
Proof. vm_compute. repeat split. Qed.

End SendFacts.

Module EpisodeFacts.
Import Eff MemoryUpdater SendSpec StrFacts.

(** With a dict for [action_args], no description raises. *)
Lemma descriptions_total rt a kv :
  action_args a = JObj kv ->
  Forall (fun p => exists d, snd p rt a = inr d) action_descriptions.
Proof.
  intros H. unfold action_descriptions.
  repeat (apply Forall_cons; split); try apply Forall_nil_2; cbn [snd];
    unfold _describe_create_post, _describe_like_post, _describe_dislike_post,
      _describe_repost, _describe_quote_post, _describe_follow,
      _describe_create_comment, _describe_like_comment,
      _describe_dislike_comment, _describe_search, _describe_search_user,
      _describe_mute, arg_or, arg; rewrite H; cbn [py_get and_then];
    repeat match goal with
           | |- context [if truthy ?v then inr _ else inr _] =>
             destruct (truthy v)
           end; cbn [and_then]; eexists; reflexivity.
Qed.

(** Without one, every description of the table raises [AttributeError]. *)
Lemma descriptions_need_dict rt a :
  (forall kv, action_args a <> JObj kv) ->
  Forall (fun p => snd p rt a = inl (AttributeError (action_args a) (py "get")))
         action_descriptions.
Proof.
  intros H. unfold action_descriptions.
  repeat (apply Forall_cons; split); try apply Forall_nil_2; cbn [snd];
    unfold _describe_create_post, _describe_like_post, _describe_dislike_post,
      _describe_repost, _describe_quote_post, _describe_follow,
      _describe_create_comment, _describe_like_comment,
      _describe_dislike_comment, _describe_search, _describe_search_user,
      _describe_mute, arg_or, arg;
    destruct (action_args a) as [| | | | | |kv]; try reflexivity;
    now destruct (H kv).
Qed.

Lemma lookup_description_known table t :
  existsb (fun p => str_eqb (fst p) t) table = true ->
  exists p, In p table /\ lookup_description table t = snd p.
Proof.
  induction table as [|[k f] table IH]; cbn; [discriminate|].
  destruct (str_eqb k t).
  - intros _. exists (k, f). split; [now left|reflexivity].
  - cbn. intros H. destruct (IH H) as (p & Hp & E). exists p.
    split; [now right|exact E].
Qed.

Lemma lookup_description_unknown table t :
  existsb (fun p => str_eqb (fst p) t) table = false ->
  lookup_description table t = _describe_generic.
Proof.
  induction table as [|[k f] table IH]; cbn; [reflexivity|].
  destruct (str_eqb k t); [discriminate|]. exact IH.
Qed.

(** X6. [to_episode_text] raises in two cases only: when
    [action_type] is a list or a dict, which cannot be looked up in the
    table of descriptions, and when [action_type] is one of the twelve
    action types of the table and [action_args] is not a dict. In every
    other case it returns the agent's name, a colon and a space, and the
    description; for an action type outside the table the description is
    the generic one, which does not read [action_args]. *)
Theorem to_episode_text_raises_iff (rt : Runtime) (a : AgentActivity) :
  (text_raises rt a
   <-> (exists l, action_type a = JArr l) \/ (exists kv, action_type a = JObj kv)
       \/ (exists t, action_type a = JStr t /\ known_action t = true
                     /\ forall kv, action_args a <> JObj kv))
  /\ (forall text,
        to_episode_text rt a = inr text ->
        exists description,
          text = py_str rt (agent_name a) ++ py ": " ++ description)
  /\ (forall t,
        action_type a = JStr t -> known_action t = false ->
        to_episode_text rt a
        = inr (py_str rt (agent_name a) ++ py ": " ++ py "执行了" ++ t
               ++ py "操作")).
Proof.
  split; [|split].
  - unfold text_raises, to_episode_text, describe_func.
    destruct (action_type a) as [| b | z | m e | t | l | kv0] eqn:Et;
      cbn [and_then _describe_generic].
    1-4: split; [intros [e0 H]; discriminate H|];
         intros [[l H]|[[kv H]|(t & H & _)]]; discriminate H.
    + destruct (known_action t) eqn:Ek.
      * destruct (lookup_description_known _ _ Ek) as (p & Hp & ->).
        destruct (action_args a) as [| | | | | |kv] eqn:Ea.
        1-6: (split; [intros _; right; right; exists t;
                      split; [reflexivity|split; [exact Ek|discriminate]]|];
              intros _;
              pose proof (descriptions_need_dict rt a
                            ltac:(rewrite Ea; discriminate)) as HF;
              rewrite List.Forall_forall in HF; rewrite (HF p Hp);
              eexists; reflexivity).
        pose proof (descriptions_total rt a kv Ea) as HF.
        rewrite List.Forall_forall in HF. destruct (HF p Hp) as [d ->].
        cbn [and_then]. split; [intros [e0 H]; discriminate H|].
        intros [[l H]|[[kv' H]|(t' & _ & _ & H)]]; try discriminate H.
        now destruct (H kv).
      * rewrite (lookup_description_unknown _ _ Ek). cbn [and_then _describe_generic].
        split; [intros [e0 H]; discriminate H|].
        intros [[l H]|[[kv' H]|(t' & H & Hk & _)]]; try discriminate H.
        injection H as <-. unfold known_action in Ek, Hk. congruence.
    + split; [intros _; left; now exists l|]. intros _. eexists. reflexivity.
    + split; [intros _; right; left; now exists kv0|]. intros _.
      eexists. reflexivity.
  - intros text H. unfold to_episode_text in H.
    apply EffFacts.and_then_inr in H as (f & _ & H).
    apply EffFacts.and_then_inr in H as (d & _ & H).
    injection H as <-. now exists d.
  - intros t Et Ek. unfold to_episode_text, describe_func. rewrite Et.
    cbn [and_then]. unfold known_action in Ek.
    rewrite (lookup_description_unknown _ _ Ek).
    unfold _describe_generic. rewrite Et. cbn [and_then py_str]. reflexivity.
Qed.

(** A FOLLOW record whose arguments are [null]: the text cannot be built. *)
Example episode_text_of_null_args :
  to_episode_text ascii_runtime null_args_activity
  = inl (AttributeError JNull (py "get")).
Proof. reflexivity. Qed.

End EpisodeFacts.

Module StopFacts.
Import Eff MemoryUpdater UpdaterSpec SendSpec.

Section WithEnv.
Variable env : Env.

Lemma flush_loop_outcome n : forall u,
  (length (activity_queue u) <= n)%nat ->
  running (snd (flush_loop env n u)) = running u
  /\ match fst (flush_loop env n u) with
     | None =>
       activity_queue (snd (flush_loop env n u)) = []
       /\ handled (snd (flush_loop env n u)) = handled u ++ activity_queue u
       /\ Forall (fun a => ~ text_raises (rt env) a) (activity_queue u)
     | Some e =>
       exists before a after,
         activity_queue u = before ++ a :: after
         /\ Forall (fun a => ~ text_raises (rt env) a) before
         /\ to_episode_text (rt env) a = inl e
         /\ activity_queue (snd (flush_loop env n u)) = after
         /\ handled (snd (flush_loop env n u)) = handled u ++ before ++ [a]
     end.
Proof.
  induction n as [|n IH]; intros u Hn.
  - cbn. destruct (activity_queue u); [|cbn in Hn; lia].
    rewrite app_nil_r. repeat split; auto.
  - cbn [flush_loop]. unfold dequeue.
    destruct (activity_queue u) as [|a q] eqn:Eq.
    { cbn. rewrite Eq, app_nil_r. repeat split; auto. }
    set (u0 := mkUpdater q (running u) (total_activities u) (total_sent u)
                 (failed_count u) (handled u) (graph_log u)).
    destruct (SendFacts.send_single_effect env a u0)
      as (Hq & _ & Hr & Hh & Htext).
    cbv zeta in Hq, Hr, Hh, Htext.
    destruct (_send_single_activity env a u0) as [[e|] u1] eqn:Es;
      cbn [fst snd] in *.
    + split; [exact Hr|]. exists [], a, q. cbn [app].
      destruct (to_episode_text (rt env) a) as [e'|text].
      * destruct Htext as (He & _). injection He as ->.
        repeat split; auto.
      * destruct Htext as (He & _). discriminate He.
    + assert (Ha : ~ text_raises (rt env) a).
      { intros [e' He']. rewrite He' in Htext. destruct Htext as (H & _).
        discriminate H. }
      cbn [length] in Hn.
      destruct (IH u1 ltac:(rewrite Hq; cbn; lia)) as (IHr & IHm).
      split; [now rewrite IHr, Hr|].
      destruct (fst (flush_loop env n u1)) as [e|].
      * destruct IHm as (before & b & after & E1 & E2 & E3 & E4 & E5).
        exists (a :: before), b, after. rewrite Hq in E1. cbn in E1.
        split; [cbn; now rewrite E1|]. split; [now constructor|].
        split; [exact E3|]. split; [exact E4|].
        rewrite E5, Hh. cbn. now rewrite <- !app_assoc.
      * destruct IHm as (E1 & E2 & E3). rewrite Hq in E2, E3. cbn in E2, E3.
        split; [exact E1|]. split; [|now constructor].
        rewrite E2, Hh. cbn. now rewrite <- app_assoc.
Qed.

Lemma stop_clears_running (u : Updater) : running (snd (stop env u)) = false.
Proof.
  unfold stop, _flush_remaining.
  now destruct (flush_loop_outcome
                  (length (activity_queue (set_running false u)))
                  (set_running false u) ltac:(lia)) as [Hr _].
Qed.

(** X9. [stop], run with no other thread acting in between, clears
    the running flag and hands the queued activities over, in order. When it returns, the queue is empty and every
    activity that was queued has been handed over. When the text of an
    activity cannot be built, the exception leaves [stop]: that activity
    has left the queue without being sent, and the activities behind it
    stay on the queue. *)
Theorem stop_drains_the_queue (u : Updater) :
  running (snd (stop env u)) = false
  /\ match fst (stop env u) with
     | None =>
       activity_queue (snd (stop env u)) = []
       /\ handled (snd (stop env u)) = handled u ++ activity_queue u
       /\ Forall (fun a => ~ text_raises (rt env) a) (activity_queue u)
     | Some e =>
       exists before a after,
         activity_queue u = before ++ a :: after
         /\ Forall (fun a => ~ text_raises (rt env) a) before
         /\ to_episode_text (rt env) a = inl e
         /\ activity_queue (snd (stop env u)) = after
         /\ handled (snd (stop env u)) = handled u ++ before ++ [a]
     end.
Proof.
  unfold stop, _flush_remaining.
  destruct (flush_loop_outcome
              (length (activity_queue (set_running false u)))
              (set_running false u) ltac:(lia)) as [Hr Hm].
  split; [exact Hr|exact Hm].
Qed.

End WithEnv.

(** A record with [null] arguments between two good ones: the first is
    sent, the second is lost, the third stays queued. *)
Example stop_on_null_args :
  let u := add_activity like_activity
             (add_activity null_args_activity
                (add_activity like_activity initial)) in
  fst (stop flaky_env u) = Some (AttributeError JNull (py "get"))
  /\ activity_queue (snd (stop flaky_env u)) = [like_activity]
  /\ total_sent (snd (stop flaky_env u)) = 1%nat.
Proof. vm_compute. repeat split. Qed.

End StopFacts.

Module ManagerFacts.
Import Eff MemoryUpdater ZepGraphMemoryManager ManagerSpec StrFacts.

Lemma reg_get_set (d : Registry) k v k' :
  reg_get (reg_set d k v) k' = if str_eqb k k' then Some v else reg_get d k'.
Proof.
  induction d as [|[k0 v0] d IH]; cbn.
  - reflexivity.
  - destruct (str_eqb k0 k) eqn:E; cbn.
    + apply str_eqb_eq in E as ->. now destruct (str_eqb k k').
    + destruct (str_eqb k0 k') eqn:E'.
      * apply str_eqb_eq in E' as ->. rewrite str_eqb_sym, E. reflexivity.
      * exact IH.
Qed.

Lemma reg_get_del (d : Registry) k k' :
  reg_get (reg_del d k) k' = if str_eqb k k' then None else reg_get d k'.
Proof.
  unfold reg_del, Registry in *. induction d as [|[k0 v0] d IH].
  - cbn. now destruct (str_eqb k k').
  - rewrite filter_cons. cbn [fst reg_get].
    destruct (str_eqb k0 k) eqn:E.
    + rewrite decide_False by discriminate. rewrite IH.
      apply str_eqb_eq in E as ->. now destruct (str_eqb k k').
    + rewrite decide_True by reflexivity. cbn [reg_get].
      destruct (str_eqb k0 k') eqn:E'; [|exact IH].
      apply str_eqb_eq in E' as ->. rewrite str_eqb_sym, E. reflexivity.
Qed.

(** X10. [create_updater] first stops the updater already
    registered for the simulation, if there is one: when that [stop] raises,
    or when no API key is configured, the method raises and the old updater
    stays registered, stopped. Otherwise the simulation gets a new updater,
    running, with an empty queue and its counters at zero, which
    [get_updater] returns from then on; the updaters of the other
    simulations are as they were. *)
Theorem create_updater_replaces env simulation_id graph_id (d : Registry) :
  let r := create_updater env simulation_id graph_id d in
  let stopped (old : pystr * Updater) :=
    (fst old, snd (stop (updater_env env) (snd old))) in
  (forall other,
     other <> simulation_id ->
     get_updater (snd r) other = get_updater d other)
  /\ match fst r with
     | inr updater =>
       key_missing env = false
       /\ updater = start initial
       /\ running updater = true /\ activity_queue updater = []
       /\ total_activities updater = 0%nat
       /\ get_updater (snd r) simulation_id = Some (graph_id, updater)
       /\ (forall old, get_updater d simulation_id = Some old ->
             fst (stop (updater_env env) (snd old)) = None)
     | inl e =>
       get_updater (snd r) simulation_id
       = option_map stopped (get_updater d simulation_id)
       /\ ((exists old, get_updater d simulation_id = Some old
                        /\ fst (stop (updater_env env) (snd old)) = Some e)
           \/ key_missing env = true)
     end.
Proof.
  cbv zeta. unfold create_updater, get_updater, bind, lift, ret, modify,
    new_updater.
  destruct (reg_get d simulation_id) as [[g0 u0]|] eqn:Eg.
  - destruct (stop (updater_env env) u0) as [[e|] u0'] eqn:Es.
    + cbn [fst snd option_map]. rewrite Es. cbn [snd]. split.
      * intros other Ho. rewrite reg_get_set.
        apply str_eqb_neq in Ho. now rewrite str_eqb_sym, Ho.
      * rewrite reg_get_set, str_eqb_refl. split; [reflexivity|].
        left. exists (g0, u0). cbn [snd]. now rewrite Es.
    + destruct (key_missing env) eqn:Ek; cbn [fst snd option_map].
      * rewrite Es. cbn [snd]. split.
        { intros other Ho. rewrite reg_get_set.
          apply str_eqb_neq in Ho. now rewrite str_eqb_sym, Ho. }
        rewrite reg_get_set, str_eqb_refl. split; [reflexivity|now right].
      * split.
        { intros other Ho. rewrite !reg_get_set.
          apply str_eqb_neq in Ho. now rewrite str_eqb_sym, Ho. }
        rewrite reg_get_set, str_eqb_refl.
        repeat split; try reflexivity.
        intros old H. injection H as <-. cbn [snd]. now rewrite Es.
  - destruct (key_missing env) eqn:Ek; cbn [fst snd option_map].
    + split; [reflexivity|]. rewrite Eg. split; [reflexivity|now right].
    + split.
      { intros other Ho. rewrite reg_get_set.
        apply str_eqb_neq in Ho. now rewrite str_eqb_sym, Ho. }
      rewrite reg_get_set, str_eqb_refl.
      repeat split; try reflexivity. intros old H. discriminate H.
Qed.

(** X11. [stop_updater] stops the updater of the simulation
    and removes it, so that [get_updater] finds nothing afterwards; when
    [stop] raises, the exception leaves the method and the updater stays
    registered, stopped; for a simulation without an updater nothing
    happens. [stop_all] raises nothing: it stops every updater, dropping
    what [stop] raises, and leaves the registry empty. *)
Theorem stop_updater_and_stop_all env (d : Registry) :
  (forall simulation_id,
     let r := stop_updater env simulation_id d in
     (forall other,
        other <> simulation_id ->
        get_updater (snd r) other = get_updater d other)
     /\ match get_updater d simulation_id with
        | None => r = (inr tt, d)
        | Some (g, u) =>
          match fst (stop (updater_env env) u) with
          | None =>
            fst r = inr tt /\ get_updater (snd r) simulation_id = None
          | Some e =>
            fst r = inl e
            /\ get_updater (snd r) simulation_id
               = Some (g, snd (stop (updater_env env) u))
          end
        end)
  /\ fst (stop_all env d) = []
  /\ get_all_stats (fst (stop_all env d)) = []
  /\ map fst (snd (stop_all env d)) = map fst d
  /\ Forall (fun p => running (snd (snd p)) = false) (snd (stop_all env d))
  /\ (forall simulation_id g u,
        In (simulation_id, (g, u)) d ->
        In (simulation_id, (g, snd (stop (updater_env env) u)))
           (snd (stop_all env d))).
Proof.
  split; [|split; [reflexivity|split; [reflexivity|split; [|split]]]].
  - intros simulation_id. cbv zeta. unfold stop_updater, get_updater.
    destruct (reg_get d simulation_id) as [[g0 u0]|] eqn:Eg.
    + destruct (stop (updater_env env) u0) as [[e|] u0'] eqn:Es;
        cbn [fst snd].
      * split.
        { intros other Ho. rewrite reg_get_set.
          apply str_eqb_neq in Ho. now rewrite str_eqb_sym, Ho. }
        rewrite reg_get_set, str_eqb_refl. now split.
      * split.
        { intros other Ho. rewrite reg_get_del.
          apply str_eqb_neq in Ho. now rewrite str_eqb_sym, Ho. }
        rewrite reg_get_del, str_eqb_refl. now split.
    + split; reflexivity.
  - unfold stop_all. cbn [snd]. rewrite map_map. apply map_ext.
    now intros [s [g u]].
  - unfold stop_all. cbn [snd]. apply List.Forall_forall. intros p Hp.
    apply in_map_iff in Hp as ([s [g u]] & <- & _). cbn [snd].
    apply StopFacts.stop_clears_running.
  - intros s g u H. unfold stop_all. cbn [snd].
    apply in_map_iff. now exists (s, (g, u)).
Qed.

(** Replacing a busy updater: its activity is sent before the new updater
    takes its place; without a key the old one stays, stopped. *)
Example create_updater_twice :
  (exists u d',
     create_updater keyed_env (py "sim") (py "g2") one_busy_updater
     = (inr u, d')
     /\ get_all_stats d' = [(py "sim", mkStats (py "g2") 0 0 0 0 true)])
  /\ (exists e d',
        create_updater keyless_env (py "sim") (py "g2") one_busy_updater
        = (inl e, d')
        /\ get_all_stats d' = [(py "sim", mkStats (py "g") 1 1 0 0 false)]).
Proof. split; do 2 eexists; split; vm_compute; reflexivity. Qed.

End ManagerFacts.

Module MarkerFacts.
Import Re Eff ReportAgent MarkerSpec StrFacts EffFacts.

Lemma match_here_needs_literal l r s :
  startswith l s = false -> match_here (Lit l +> r) s = None.
Proof. intros H. unfold match_here. cbn [rmatch]. now rewrite H. Qed.

Lemma finditer_needs_literal l r s : forall pos,
  contains l s = false -> finditer_aux (Lit l +> r) pos 0 s = [].
Proof.
  induction s as [|c s IH]; intros pos H; cbn [finditer_aux];
    rewrite (match_here_needs_literal l r _ (contains_false_startswith _ _ H)).
  - reflexivity.
  - apply IH. cbn [contains] in H. now apply orb_false_elim in H.
Qed.

Lemma sub_empty_needs_literal l r s :
  contains l s = false -> sub_empty_aux (Lit l +> r) 0 s = s.
Proof.
  induction s as [|c s IH]; intros H; cbn [sub_empty_aux];
    rewrite (match_here_needs_literal l r _ (contains_false_startswith _ _ H)).
  - reflexivity.
  - f_equal. apply IH. cbn [contains] in H. now apply orb_false_elim in H.
Qed.

Lemma parse_params_strings (ms : list Match) : forall acc,
  Forall (fun p => exists s, snd p = JStr s) acc ->
  Forall (fun p : pystr * json => exists s, snd p = JStr s)
         (fold_left
            (fun params pm => dict_set params (group 1 pm) (JStr (group 2 pm)))
            ms acc).
Proof.
  induction ms as [|m ms IH]; intros acc Hacc; cbn [fold_left]; [exact Hacc|].
  apply IH. clear IH. induction Hacc as [|[k v] acc Hv Hacc IHacc]; cbn.
  - repeat constructor. now eexists.
  - destruct (str_eqb k (group 1 m)).
    + constructor; [now eexists|exact Hacc].
    + constructor; [exact Hv|exact IHacc].
Qed.

Lemma func_call_has_name rt m : has_name (func_call rt m).
Proof. unfold has_name, func_call. do 2 eexists. split; reflexivity. Qed.

(** What [_parse_tool_calls] finds where a marker is missing. *)
Lemma parse_without_marker rt response :
  (contains xml_marker response = false ->
   contains func_marker response = false ->
   _parse_tool_calls rt response = [])
  /\ (contains xml_marker response = false ->
      _parse_tool_calls rt response
      = map (func_call rt) (finditer (func_pattern rt) response)
      /\ Forall has_name (_parse_tool_calls rt response))
  /\ (forall m,
        exists kv,
          func_call rt m
          = JObj [(py "name", JStr (group 1 m)); (py "parameters", JObj kv)]
          /\ Forall (fun p => exists s, snd p = JStr s) kv).
Proof.
  assert (E : _parse_tool_calls rt response
    = flat_map (ParserSpec.xml_calls rt) (finditer xml_pattern response)
      ++ map (func_call rt) (finditer (func_pattern rt) response)).
  { unfold _parse_tool_calls.
    rewrite ParserFacts.fold_func_step, ParserFacts.fold_xml_step.
    reflexivity. }
  assert (X : contains xml_marker response = false ->
              finditer xml_pattern response = []).
  { intros H. apply (finditer_needs_literal xml_marker). exact H. }
  split; [|split].
  - intros H1 H2. rewrite E, (X H1). cbn [flat_map app].
    unfold finditer, func_pattern.
    now rewrite (finditer_needs_literal func_marker) by exact H2.
  - intros H1. rewrite E, (X H1). cbn [flat_map app]. split; [reflexivity|].
    apply List.Forall_forall. intros c Hc. apply in_map_iff in Hc as (m & <- & _).
    apply func_call_has_name.
  - intros m. unfold func_call, parse_params. eexists. split; [reflexivity|].
    apply parse_params_strings. constructor.
Qed.

(** X12. A call is parsed only where a marker stands: a response
    that holds neither [<tool_call>] nor [[TOOL_CALL]] yields no call, and
    one without [<tool_call>] yields function-style calls only. A
    function-style call is always a dict with a [name] that is the word
    matched and [parameters] that is a dict of strings. So a call without a
    [name] can come from a JSON block only. *)
Theorem parse_tool_calls_needs_marker rt response :
  (contains xml_marker response = false ->
   contains func_marker response = false ->
   _parse_tool_calls rt response = [])
  /\ (contains xml_marker response = false ->
      _parse_tool_calls rt response
      = map (func_call rt) (finditer (func_pattern rt) response)
      /\ Forall has_name (_parse_tool_calls rt response))
  /\ (forall m,
        exists kv,
          func_call rt m
          = JObj [(py "name", JStr (group 1 m)); (py "parameters", JObj kv)]
          /\ Forall (fun p => exists s, snd p = JStr s) kv).
Proof. exact (parse_without_marker rt response). Qed.

(** Two function-style calls: names and string parameters. *)
Example parse_two_function_calls :
  _parse_tool_calls ascii_runtime
    (py "[TOOL_CALL] search_graph(query='mood', limit='5') then [TOOL_CALL] get_graph_statistics()")
  = [ JObj [(py "name", JStr (py "search_graph"));
            (py "parameters",
             JObj [(py "query", JStr (py "mood")); (py "limit", JStr (py "5"))])];
      JObj [(py "name", JStr (py "get_graph_statistics"));
            (py "parameters", JObj [])] ].
Proof. vm_compute. reflexivity. Qed.

Lemma clean_response_plain response :
  contains xml_marker response = false ->
  contains func_marker response = false ->
  clean_response response = strip response.
Proof.
  intros H1 H2. unfold clean_response, sub_empty, strip_xml_pattern,
    strip_func_pattern. cbv zeta.
  rewrite (sub_empty_needs_literal xml_marker) by exact H1.
  now rewrite (sub_empty_needs_literal func_marker) by exact H2.
Qed.

(** X13. When the model's first answer holds no marker of a
    tool call, [chat] returns that answer with the blanks at its two ends
    removed and nothing else changed, with no tool call and no source; it
    has asked the model once, with the system prompt, the last ten messages
    of the history and the user's message, and has run no tool. *)
Theorem chat_plain_answer env message chat_history w answer :
  llm_chat env (llm_calls w) (first_messages env message chat_history)
  = inr answer ->
  contains xml_marker answer = false ->
  contains func_marker answer = false ->
  fst (chat env message chat_history w) = inr (mkChatResult (strip answer) [] [])
  /\ llm_calls (snd (chat env message chat_history w)) = S (llm_calls w)
  /\ tool_log (snd (chat env message chat_history w)) = tool_log w
  /\ store (snd (chat env message chat_history w)) = store w.
Proof.
  intros Hllm H1 H2.
  destruct (parse_without_marker (rt env) answer) as (Hp & _).
  specialize (Hp H1 H2).
  assert (E : chat env message chat_history w
              = (inr (mkChatResult (strip answer) [] []),
                 mkWorld (store w) (S (llm_calls w)) (fs_ops w)
                         (callback_calls w) (progress_log w) (callback_log w)
                         (tool_log w))).
  { unfold chat. cbv zeta. fold (first_messages env message chat_history).
    cbn [chat_loop]. unfold bind, chat_llm. rewrite Hllm, Hp. unfold ret.
    now rewrite clean_response_plain by assumption. }
  rewrite E. now repeat split.
Qed.

Lemma chat_plain_answer_witness :
  fst (chat plain_env (py "What happened?") [] initial_world)
  = inr (mkChatResult (py "The mood turned on day 3.") [] []).
Proof.
  destruct (chat_plain_answer plain_env (py "What happened?") []
              initial_world (py "  The mood turned on day 3. ")
              eq_refl eq_refl eq_refl) as (H & _).
  rewrite H. vm_compute. reflexivity.
Defined.

End MarkerFacts.

Module ToolTableFacts.
Import Re Eff ReportAgent ReportTools StrFacts.

Lemma advertised_names :
  map fst _define_tools
  = [py "search_graph"; py "get_graph_statistics"; py "get_entity_summary";
     py "get_simulation_context"; py "get_entities_by_type"].
Proof. reflexivity. Qed.

(** X14. The five tools [_define_tools] advertises are the five
    the dispatcher of [_execute_tool] knows, under the same names: for each
    of them and any dict of parameters the dispatcher makes the call of that
    name to the retrieval service and returns what it returns; for any
    other tool name, a string or not, it calls nothing and answers that the
    tool is unknown. Every entry carries its key as its [name], and the
    description given to the model has a line for each. *)
Theorem advertised_tools_are_dispatched env k :
  Forall (fun entry => tool_name (snd entry) = fst entry) _define_tools
  /\ (forall name kv,
        In name (map fst _define_tools) ->
        exists args,
          dispatch_tool env k (JStr name) (JObj kv) = zep_tool env k name args)
  /\ (forall tool_name parameters,
        (forall name, In name (map fst _define_tools) -> tool_name <> JStr name) ->
        dispatch_tool env k tool_name parameters
        = inr (py "未知工具: " ++ py_str (rt env) tool_name))
  /\ (forall name,
        In name (map fst _define_tools) ->
        contains (nl ++ py "- " ++ name ++ py ": ")
                 (_get_tools_description _define_tools) = true).
Proof.
  split; [repeat constructor|]. split; [|split].
  - intros name kv Hin. rewrite advertised_names in Hin. cbn [In] in Hin.
    destruct Hin as [<-|[<-|[<-|[<-|[<-|[]]]]]]; eexists; reflexivity.
  - intros tn parameters H.
    assert (Hf : forall name, In name (map fst _define_tools) ->
                              is_str tn name = false).
    { intros name Hin. destruct tn as [| | | |t| |]; try reflexivity.
      cbn [is_str]. apply str_eqb_neq. intros ->. exact (H _ Hin eq_refl). }
    rewrite advertised_names in Hf. unfold dispatch_tool.
    rewrite !Hf by (cbn [In]; tauto). reflexivity.
  - intros name Hin. rewrite advertised_names in Hin. cbn [In] in Hin.
    destruct Hin as [<-|[<-|[<-|[<-|[<-|[]]]]]]; vm_compute; reflexivity.
Qed.

End ToolTableFacts.

Module ReactRunFacts.
Import Re Eff ReportAgent ReactSpec ReactRunSpec MarkerSpec StrFacts EffFacts.








(** X16. A tool call that is a dict without a [name] key
    makes [_generate_section_react] raise [KeyError]: when the first answer
    of the model has no [Final Answer:] and the first call parsed from it
    has no name, the method raises [KeyError('name')] after one question to
    the model and without running any tool. *)
Theorem react_raises_on_nameless_call env section outline previous_sections
    cb w w1 answer kv rest :
  notify cb (py "generating")
         (iteration_percent 0 (MAX_TOOL_CALLS_PER_SECTION + 2))
         first_round_message w = (inr tt, w1) ->
  llm_chat env (llm_calls w1)
           (section_prompt env outline section previous_sections)
  = inr answer ->
  contains (py "Final Answer:") answer = false ->
  _parse_tool_calls (rt env) answer = JObj kv :: rest ->
  dict_get kv (py "name") = None ->
  let r := _generate_section_react env section outline previous_sections cb w in
  fst r = inl (KeyError (py "name"))
  /\ exc_text (KeyError (py "name")) = py "'name'"
  /\ tool_log (snd r) = tool_log w1
  /\ llm_calls (snd r) = S (llm_calls w1).
Proof.
  intros Hn Hllm Hfa Hp Hk r.
  assert (E : r = (inl (KeyError (py "name")),
                   mkWorld (store w1) (S (llm_calls w1)) (fs_ops w1)
                     (callback_calls w1) (progress_log w1) (callback_log w1)
                     (tool_log w1))).
  { subst r. unfold _generate_section_react. cbv zeta.
    change (seq 0 (MAX_TOOL_CALLS_PER_SECTION + 2))
      with (0%nat :: seq 1 (MAX_TOOL_CALLS_PER_SECTION + 1)).
    cbn [react_loop]. unfold react_round.
    fold first_round_message.
    unfold bind at 1. unfold bind at 1. unfold bind at 1. rewrite Hn.
    unfold bind at 1. unfold chat_llm at 1. rewrite Hllm, Hfa, Hp.
    cbn [execute_calls].
    change (MAX_TOOL_CALLS_PER_SECTION <=? 0)%nat with false. cbv iota.
    unfold bind, lift. cbn [py_getitem]. rewrite Hk. reflexivity. }
  rewrite E. repeat split.
Qed.

Lemma react_raises_on_nameless_call_witness :
  fst (_generate_section_react nameless_env (mkSection (JStr (py "A")) [] [])
         default_outline [] None initial_world)
  = inl (KeyError (py "name")).
Proof.
  refine (proj1 (react_raises_on_nameless_call nameless_env _ _ _ None
                   initial_world initial_world
                   (py "<tool_call>{}</tool_call>") [] [] _ _ _ _ _));
    reflexivity.
Defined.

(** The whole run then fails with that text for its error. *)
Example report_fails_on_nameless_call :
  status (fst (generate_report nameless_env (py "report_1") initial_world))
  = FAILED
  /\ error (fst (generate_report nameless_env (py "report_1") initial_world))
     = Some (py "'name'").
Proof. split; vm_compute; reflexivity. Qed.

End ReactRunFacts.

Module NameFacts.
Import Re Eff ReportAgent StoreSpec NameSpec StrFacts EffFacts.

Local Open Scope N_scope.

Definition is_digit (c : N) : Prop := 48 <= c <= 57.

Lemma uint_chars_digits d : Forall is_digit (uint_chars d).
Proof.
  induction d; cbn [uint_chars]; constructor; try assumption;
    unfold is_digit; lia.
Qed.

Lemma format_02d_digits n : Forall is_digit (format_02d n).
Proof.
  unfold format_02d, str_of_nat. cbv zeta.
  destruct (_ <? 2)%nat; [constructor; [unfold is_digit; lia|]|];
    apply uint_chars_digits.
Qed.

Lemma int_of_digits_uint d : forall acc,
  int_of_digits (Z.of_nat acc) (uint_chars d)
  = Some (Z.of_nat (Nat.of_uint_acc d acc)).
Proof.
  induction d; intros acc; cbn [uint_chars Nat.of_uint_acc int_of_digits];
    [reflexivity|..];
    cbn [N.leb N.compare Pos.compare Pos.compare_cont andb];
    rewrite <- IHd; f_equal; rewrite Nat.tail_mul_spec; cbn; lia.
Qed.

Lemma to_uint_chars_nonempty n : uint_chars (Nat.to_uint n) <> [].
Proof.
  pose proof (DecimalNat.Unsigned.to_of (Nat.to_uint n)) as H.
  rewrite DecimalNat.Unsigned.of_to in H.
  pose proof (DecimalFacts.unorm_nonnil (Nat.to_uint n)) as Hn.
  rewrite <- H in Hn.
  destruct (Nat.to_uint n); cbn [uint_chars]; congruence.
Qed.

(** [int] of a zero-padded number is the number. *)
Lemma int_of_decimal_format_02d n :
  int_of_decimal (format_02d n) = Some (Z.of_nat n).
Proof.
  unfold format_02d, str_of_nat. cbv zeta.
  pose proof (to_uint_chars_nonempty n) as Hne.
  pose proof (int_of_digits_uint (Nat.to_uint n) 0%nat) as H.
  fold (Nat.of_uint (Nat.to_uint n)) in H. rewrite DecimalNat.Unsigned.of_to in H.
  destruct (_ <? 2)%nat.
  - cbn [int_of_decimal int_of_digits]. exact H.
  - unfold int_of_decimal.
    destruct (uint_chars (Nat.to_uint n)); [contradiction|exact H].
Qed.

Lemma ascii_runtime_reads_decimal : reads_decimal ascii_runtime.
Proof. intros n. apply int_of_decimal_format_02d. Qed.

Lemma format_02d_inj n m : format_02d n = format_02d m -> n = m.
Proof.
  intros H. apply (f_equal int_of_decimal) in H.
  rewrite !int_of_decimal_format_02d in H. injection H as H. lia.
Qed.

(** *** [split] on a separator that the text before it does not start *)

Lemma split_on_skip sep u : forall t cur,
  split_on_aux sep (length u) cur (u ++ t) = split_on_aux sep 0 cur t.
Proof.
  induction u as [|x u IH]; intros t cur; [reflexivity|].
  cbn [length app split_on_aux]. apply IH.
Qed.

Lemma split_on_no_sep c0 sep s : forall cur,
  ~ In c0 s -> split_on_aux (c0 :: sep) 0 cur s = [rev cur ++ s].
Proof.
  induction s as [|x s IH]; intros cur H; cbn [split_on_aux].
  - now rewrite app_nil_r.
  - cbn [startswith]. destruct (N.eqb_spec c0 x) as [->|Hx].
    + destruct H. now left.
    + cbn [andb]. rewrite IH by (intros Hin; apply H; now right).
      cbn [rev]. now rewrite <- app_assoc.
Qed.

Lemma split_on_at_sep c0 sep s t : forall cur,
  ~ In c0 s ->
  split_on_aux (c0 :: sep) 0 cur (s ++ (c0 :: sep) ++ t)
  = (rev cur ++ s) :: split_on_aux (c0 :: sep) 0 [] t.
Proof.
  induction s as [|x s IH]; intros cur H.
  - cbn [app]. cbn [split_on_aux].
    change (c0 :: sep ++ t) with ((c0 :: sep) ++ t).
    rewrite startswith_app. rewrite app_nil_r. f_equal.
    cbn [length]. rewrite Nat.sub_succ, Nat.sub_0_r. apply split_on_skip.
  - cbn [app split_on_aux startswith].
    destruct (N.eqb_spec c0 x) as [->|Hx].
    + destruct H. now left.
    + cbn [andb]. rewrite IH by (intros Hin; apply H; now right).
      cbn [rev]. now rewrite <- app_assoc.
Qed.

Lemma digits_no (c : N) s :
  Forall is_digit s -> ~ (48 <= c <= 57) -> ~ In c s.
Proof.
  intros Hs Hc Hin. rewrite List.Forall_forall in Hs. apply Hs in Hin.
  unfold is_digit in Hin. lia.
Qed.

Lemma not_in_app {A} (x : A) l1 l2 : ~ In x l1 -> ~ In x l2 -> ~ In x (l1 ++ l2).
Proof. intros H1 H2 H. apply in_app_or in H. tauto. Qed.

(** The parts of the name of a section record, and of a subsection record. *)
Lemma parts_of_section_name i :
  split_on (py "_") (replace (py ".md") [] (key_file (i, None)))
  = [py "section"; format_02d i].
Proof.
  pose proof (format_02d_digits i) as Hd.
  cbn [key_file section_file]. unfold replace, split_on.
  change (py ".md") with (46 :: py "md").
  replace (py "section_" ++ format_02d i ++ 46 :: py "md")
    with ((py "section_" ++ format_02d i) ++ (46 :: py "md") ++ [])
    by (now rewrite app_nil_r, <- app_assoc).
  rewrite split_on_at_sep.
  2:{ apply not_in_app; [vm_compute; intuition discriminate|].
      apply (digits_no _ _ Hd). lia. }
  cbn [split_on_aux rev app join]. rewrite !app_nil_r.
  change (py "section_") with (py "section" ++ [95]).
  change (py "_") with [95]. rewrite <- app_assoc.
  rewrite split_on_at_sep by (vm_compute; intuition discriminate).
  rewrite split_on_no_sep by (apply (digits_no _ _ Hd); lia).
  reflexivity.
Qed.

Lemma parts_of_subsection_name i j :
  split_on (py "_") (replace (py ".md") [] (key_file (i, Some j)))
  = [py "section"; format_02d i; format_02d j].
Proof.
  pose proof (format_02d_digits i) as Hi.
  pose proof (format_02d_digits j) as Hj.
  cbn [key_file section_file]. unfold replace, split_on.
  change (py ".md") with (46 :: py "md").
  replace (py "section_" ++ format_02d i ++ py "_" ++ format_02d j
           ++ 46 :: py "md")
    with ((py "section_" ++ format_02d i ++ py "_" ++ format_02d j)
          ++ (46 :: py "md") ++ [])
    by (now rewrite app_nil_r, <- !app_assoc).
  rewrite split_on_at_sep.
  2:{ apply not_in_app; [vm_compute; intuition discriminate|].
      apply not_in_app; [apply (digits_no _ _ Hi); lia|].
      apply not_in_app; [vm_compute; intuition discriminate|].
      apply (digits_no _ _ Hj). lia. }
  cbn [split_on_aux rev app join]. rewrite !app_nil_r.
  change (py "section_") with (py "section" ++ [95]).
  change (py "_") with [95]. rewrite <- !app_assoc.
  rewrite split_on_at_sep by (vm_compute; intuition discriminate).
  rewrite (split_on_at_sep 95 [] (format_02d i) (format_02d j))
    by (apply (digits_no _ _ Hi); lia).
  rewrite split_on_no_sep by (apply (digits_no _ _ Hj); lia).
  reflexivity.
Qed.

Local Close Scope N_scope.

Lemma endswith_app (p s : pystr) : endswith p (s ++ p) = true.
Proof. unfold endswith. rewrite rev_app_distr. apply startswith_app. Qed.

Lemma key_file_is_section_file k : is_section_file (key_file k) = true.
Proof.
  unfold is_section_file. apply andb_true_iff.
  destruct k as [i [j|]]; cbn [key_file section_file]; split;
    try apply startswith_app.
  - rewrite !app_assoc. apply endswith_app.
  - rewrite !app_assoc. apply endswith_app.
Qed.

(** What [get_generated_sections] reads from the name of a record. *)
Lemma parse_key_file rt k content :
  reads_decimal rt ->
  parse_section_filename rt (key_file k) content = inr (info_of k content).
Proof.
  intros Hrt. unfold parse_section_filename, info_of, py_int_of. cbv zeta.
  destruct k as [i [j|]].
  - rewrite parts_of_subsection_name. cbn [lookup list_lookup].
    rewrite !Hrt. reflexivity.
  - rewrite parts_of_section_name. cbn [lookup list_lookup].
    rewrite !Hrt. reflexivity.
Qed.

Lemma key_file_inj k1 k2 : key_file k1 = key_file k2 -> k1 = k2.
Proof.
  intros H.
  pose proof (parse_key_file ascii_runtime k1 [] ascii_runtime_reads_decimal)
    as H1.
  pose proof (parse_key_file ascii_runtime k2 [] ascii_runtime_reads_decimal)
    as H2.
  rewrite H, H2 in H1. injection H1 as _ Hi Hj _.
  destruct k1 as [i1 j1], k2 as [i2 j2]. cbn [fst snd] in *.
  apply Nat2Z.inj in Hi. subst i2. f_equal.
  destruct j1, j2; cbn in Hj; try congruence.
  injection Hj as Hj. apply Nat2Z.inj in Hj. congruence.
Qed.

(** X17. The file name [save_section] gives a record and the indices
    [get_generated_sections] reads back from a name are a round trip, for
    indices of any size: on a runtime whose [int] reads decimal numbers, the
    name of the record of section [i] (of subsection [j] of section [i]) is
    listed as a section file and parsed as section index [i], no subsection
    index (subsection index [j]); and two records have the same file name
    only if they have the same indices. *)
Theorem section_file_name_round_trip rt k content :
  reads_decimal rt ->
  is_section_file (key_file k) = true
  /\ parse_section_filename rt (key_file k) content
     = inr (mkSectionInfo (key_file k) (Z.of_nat (fst k))
                          (Z.of_nat <$> snd k) content (is_some (snd k)))
  /\ forall k', key_file k' = key_file k -> k' = k.
Proof.
  intros Hrt. split; [apply key_file_is_section_file|]. split.
  - now apply parse_key_file.
  - intros k'. apply key_file_inj.
Qed.

Lemma section_file_name_round_trip_witness :
  reads_decimal ascii_runtime
  /\ parse_section_filename ascii_runtime (key_file (3, Some 120)) (py "text")
     = inr (mkSectionInfo (py "section_03_120.md") 3 (Some 120%Z) (py "text")
                          true).
Proof.
  split; [exact ascii_runtime_reads_decimal|].
  exact (proj1 (proj2 (section_file_name_round_trip ascii_runtime
                         (3, Some 120) (py "text")
                         ascii_runtime_reads_decimal))).
Defined.

End NameFacts.

Module IsolationFacts.
Import Re Eff ReportAgent IsolationSpec EffFacts.

Section Keeps.
Context (R : relation (gmap pystr Folder)) `{!PreOrder R}.
Local Set Default Proof Using "Type*".

Lemma keeps_same {A} (m : M World A) : keeps eq m -> keeps R m.
Proof. intros H w r w' E. rewrite (H w r w' E). reflexivity. Qed.

Lemma keeps_ret {A} (a : A) : keeps R (ret a).
Proof. intros w r w' H. injection H as _ <-. reflexivity. Qed.

Lemma keeps_lift {A} (x : Exception + A) : keeps R (lift x).
Proof. intros w r w' H. injection H as _ <-. reflexivity. Qed.

Lemma keeps_get : keeps R get.
Proof. intros w r w' H. injection H as _ <-. reflexivity. Qed.

Lemma keeps_bind {A B} (m : M World A) (f : A -> M World B) :
  keeps R m -> (forall a, keeps R (f a)) -> keeps R (bind m f).
Proof.
  intros Hm Hf w r w'. unfold bind. destruct (m w) as [[e|a] w1] eqn:E.
  - intros H. injection H as _ <-. eapply Hm, E.
  - intros H. apply Hf in H. etransitivity; [eapply Hm, E|exact H].
Qed.

Lemma keeps_try_catch {A} (m : M World A) (h : Exception -> M World A) :
  keeps R m -> (forall e, keeps R (h e)) -> keeps R (try_catch m h).
Proof.
  intros Hm Hh w r w'. unfold try_catch. destruct (m w) as [[e|a] w1] eqn:E.
  - intros H. apply Hh in H. etransitivity; [eapply Hm, E|exact H].
  - intros H. injection H as _ <-. eapply Hm, E.
Qed.

Lemma keeps_when (c : bool) (m : M World unit) :
  keeps R m -> keeps R (when c m).
Proof. intros Hm. destruct c; [exact Hm|apply keeps_ret]. Qed.

Lemma keeps_fs_op env : keeps R (fs_op env).
Proof.
  intros w r w'. unfold fs_op. destruct (fs_fault env (fs_ops w));
    intros H; injection H as _ <-; reflexivity.
Qed.

Lemma keeps_chat_llm env messages : keeps R (chat_llm env messages).
Proof. intros w r w' H. injection H as _ <-. reflexivity. Qed.

Lemma keeps_chat_json_llm env messages : keeps R (chat_json_llm env messages).
Proof. intros w r w' H. injection H as _ <-. reflexivity. Qed.

Lemma keeps_call_user_callback env stage prog msg :
  keeps R (call_user_callback env stage prog msg).
Proof.
  unfold call_user_callback. destruct (user_callback env) as [cb|];
    [|apply keeps_ret].
  intros w r w'. destruct (cb (callback_calls w) (stage, prog, msg));
    intros H; injection H as _ <-; reflexivity.
Qed.

Lemma keeps_execute_tool env name parameters :
  keeps R (_execute_tool env name parameters).
Proof.
  intros w r w'. unfold _execute_tool.
  destruct (dispatch_tool env (length (tool_log w)) name parameters);
    intros H; injection H as _ <-; reflexivity.
Qed.

Lemma keeps_notify cb stage prog msg :
  keeping_callback R cb -> keeps R (notify cb stage prog msg).
Proof.
  intros Hcb. destruct cb as [f|]; cbn [notify]; [now apply Hcb|].
  apply keeps_ret.
Qed.

Lemma keeping_pipeline_callback env (f : Z -> Z) :
  keeping_callback R
    (Some (fun stage prog msg => call_user_callback env stage (f prog) msg)).
Proof.
  intros g E stage prog msg. injection E as <-. apply keeps_call_user_callback.
Qed.

Lemma keeping_no_callback : keeping_callback R None.
Proof. intros f E. discriminate E. Qed.

Ltac keeps_step :=
  first
    [ apply keeps_ret
    | apply keeps_lift
    | apply keeps_get
    | apply keeps_fs_op
    | apply keeps_chat_llm
    | apply keeps_chat_json_llm
    | apply keeps_call_user_callback
    | apply keeps_execute_tool
    | apply keeps_notify; assumption
    | apply keeps_bind; [|intros ?] ].

Lemma keeps_execute_calls env calls : forall results count,
  keeps R (execute_calls env calls results count).
Proof.
  induction calls as [|call calls IH]; intros results count;
    cbn [execute_calls]; [apply keeps_ret|].
  destruct (MAX_TOOL_CALLS_PER_SECTION <=? count)%nat; [apply keeps_ret|].
  repeat keeps_step. apply IH.
Qed.

Lemma keeps_react_round env cb max_iterations iteration messages count :
  keeping_callback R cb ->
  keeps R (react_round env cb max_iterations iteration messages count).
Proof.
  intros Hcb. unfold react_round. repeat keeps_step.
  destruct (contains _ _); [apply keeps_ret|].
  destruct (_parse_tool_calls _ _); [apply keeps_ret|].
  apply keeps_bind; [apply keeps_execute_calls|]. intros [results count'].
  apply keeps_ret.
Qed.

Lemma keeps_react_loop env cb max_iterations iterations :
  keeping_callback R cb ->
  forall messages count,
    keeps R (react_loop env cb max_iterations iterations messages count).
Proof.
  intros Hcb. induction iterations as [|i rest IH]; intros messages count;
    cbn [react_loop]; [apply keeps_ret|].
  apply keeps_bind; [now apply keeps_react_round|].
  intros [a|messages' count']; [apply keeps_ret|apply IH].
Qed.

(** Writing a section touches no file. *)
Lemma keeps_generate_section_react env section outline previous cb :
  keeping_callback R cb ->
  keeps R (_generate_section_react env section outline previous cb).
Proof.
  intros Hcb. unfold _generate_section_react. cbv zeta.
  apply keeps_bind; [now apply keeps_react_loop|].
  intros [a|messages' count']; [apply keeps_ret|].
  repeat keeps_step. destruct (contains _ _); apply keeps_ret.
Qed.

(** Nor does planning. *)
Lemma keeps_plan_outline env cb :
  keeping_callback R cb -> keeps R (plan_outline env cb).
Proof.
  intros Hcb. unfold plan_outline. repeat keeps_step.
  apply keeps_try_catch; [|intros ?; apply keeps_ret].
  unfold plan_outline_try. repeat keeps_step.
Qed.

End Keeps.

(** *** The steps that write *)

Lemma folder_grows_refl f : folder_grows f f.
Proof. unfold folder_grows. tauto. Qed.

Lemma folder_grows_trans f1 f2 f3 :
  folder_grows f1 f2 -> folder_grows f2 f3 -> folder_grows f1 f3.
Proof. unfold folder_grows. intros (A1 & A2 & A3 & A4) (B1 & B2 & B3 & B4).
  repeat split; auto. Qed.

#[local] Instance store_grows_preorder rid : PreOrder (store_grows rid).
Proof.
  split.
  - intros s. split; [reflexivity|]. intros f Hf. exists f.
    split; [exact Hf|apply folder_grows_refl].
  - intros s1 s2 s3 [A1 A2] [B1 B2]. split.
    + intros other Ho. now rewrite B1, A1.
    + intros f Hf. destruct (A2 f Hf) as (f2 & Hf2 & G2).
      destruct (B2 f2 Hf2) as (f3 & Hf3 & G3).
      exists f3. split; [exact Hf3|]. eapply folder_grows_trans; eassumption.
Qed.

Lemma grows_write_folder env rid upd :
  (forall f, folder_grows f (upd f)) ->
  keeps (store_grows rid) (write_folder env rid upd).
Proof.
  intros Hupd. unfold write_folder.
  apply keeps_bind; [typeclasses eauto|apply keeps_fs_op; typeclasses eauto|].
  intros _ w r w'. destruct (store w !! rid) as [f|] eqn:Hf;
    intros H; injection H as _ <-; [|reflexivity].
  cbn [store set_store]. split.
  - intros other Ho. now rewrite lookup_insert_ne.
  - intros f0 Hf0. exists (upd f). rewrite lookup_insert_eq.
    split; [reflexivity|]. rewrite Hf in Hf0. injection Hf0 as <-. apply Hupd.
Qed.

Lemma grows_write_text env rid name content :
  keeps (store_grows rid) (write_text env rid name content).
Proof.
  apply grows_write_folder. intros f. unfold folder_grows. cbn.
  repeat split; auto. intros n Hn.
  destruct (decide (name = n)) as [->|Hne].
  - rewrite lookup_insert_eq. now eexists.
  - now rewrite lookup_insert_ne.
Qed.

Lemma grows_ensure_report_folder env rid :
  keeps (store_grows rid) (_ensure_report_folder env rid).
Proof.
  unfold _ensure_report_folder.
  apply keeps_bind; [typeclasses eauto|apply keeps_fs_op; typeclasses eauto|].
  intros _ w r w' H. injection H as _ <-.
  destruct (store w !! rid) as [f|] eqn:Hf; [reflexivity|].
  cbn [store set_store]. split.
  - intros other Ho. now rewrite lookup_insert_ne.
  - intros f0 Hf0. congruence.
Qed.

Lemma grows_update_progress env rid st p msg cur comp :
  keeps (store_grows rid) (update_progress env rid st p msg cur comp).
Proof.
  unfold update_progress. cbv zeta.
  apply keeps_bind; [typeclasses eauto|apply grows_ensure_report_folder|].
  intros _. apply keeps_bind; [typeclasses eauto| |].
  - apply grows_write_folder. intros f. unfold folder_grows. cbn.
    repeat split; eauto.
  - intros _ w r w' H. injection H as _ <-. reflexivity.
Qed.

Lemma grows_save_outline env rid o :
  keeps (store_grows rid) (save_outline env rid o).
Proof.
  unfold save_outline.
  apply keeps_bind; [typeclasses eauto|apply grows_ensure_report_folder|].
  intros _. apply grows_write_folder. intros f. unfold folder_grows. cbn.
  repeat split; eauto.
Qed.

Lemma grows_save_section env rid i section sub parent :
  keeps (store_grows rid) (save_section env rid i section sub parent).
Proof.
  unfold save_section.
  apply keeps_bind; [typeclasses eauto|apply grows_ensure_report_folder|].
  intros _. apply grows_write_text.
Qed.

(** [save_report] writes into the folder of the report it is given. *)
Lemma grows_save_report env report :
  keeps (store_grows (report_id report)) (save_report env report).
Proof.
  unfold save_report. cbv zeta.
  apply keeps_bind; [typeclasses eauto|apply grows_ensure_report_folder|].
  intros _. apply keeps_bind; [typeclasses eauto| |].
  { apply grows_write_folder. intros f. unfold folder_grows. cbn.
    repeat split; eauto. }
  intros _. apply keeps_bind; [typeclasses eauto| |].
  { destruct (outline report); [apply grows_save_outline|].
    apply keeps_ret. typeclasses eauto. }
  intros _. apply keeps_when; [typeclasses eauto|apply grows_write_text].
Qed.

Lemma grows_read_sections env rid f names :
  keeps (store_grows rid) (read_sections env f names).
Proof.
  induction names as [|n names IH]; cbn [read_sections];
    [apply keeps_ret; typeclasses eauto|].
  destruct (is_section_file n); [|exact IH]. cbv zeta.
  apply keeps_bind; [typeclasses eauto|apply keeps_fs_op; typeclasses eauto|].
  intros _. apply keeps_bind; [typeclasses eauto|apply keeps_lift; typeclasses eauto|].
  intros info. apply keeps_bind; [typeclasses eauto|exact IH|].
  intros infos. apply keeps_ret. typeclasses eauto.
Qed.

Lemma grows_assemble_full_report env rid o :
  keeps (store_grows rid) (assemble_full_report env rid o).
Proof.
  unfold assemble_full_report, get_generated_sections. cbv zeta.
  apply keeps_bind; [typeclasses eauto| |].
  - apply keeps_bind; [typeclasses eauto|apply keeps_get; typeclasses eauto|].
    intros w. destruct (store w !! rid);
      [|apply keeps_ret; typeclasses eauto].
    apply keeps_bind; [typeclasses eauto|apply keeps_fs_op; typeclasses eauto|].
    intros _. apply grows_read_sections.
  - intros sections. apply keeps_bind; [typeclasses eauto|apply grows_write_text|].
    intros _. apply keeps_ret. typeclasses eauto.
Qed.

(** *** The steps of the pipeline *)

Lemma report_step_in_world rid {A} (m : M World A) :
  keeps (store_grows rid) m -> report_step rid (in_world m).
Proof.
  intros Hm g r g' Hid. unfold in_world.
  destruct (m (g_world g)) as [r0 w1] eqn:E. intros H. injection H as _ <-.
  cbn. split; [exact Hid|]. eapply Hm, E.
Qed.

Lemma report_step_ret rid {A} (a : A) : report_step rid (ret a).
Proof. intros g r g' Hid H. injection H as _ <-. now split. Qed.

Lemma report_step_bind rid {A B} (m : M GenState A) (f : A -> M GenState B) :
  report_step rid m -> (forall a, report_step rid (f a)) ->
  report_step rid (bind m f).
Proof.
  intros Hm Hf g r g' Hid. unfold bind. destruct (m g) as [[e|a] g1] eqn:E.
  - intros H. injection H as _ <-. eapply Hm; eassumption.
  - intros H. destruct (Hm g _ g1 Hid E) as [Hid1 G1].
    destruct (Hf a g1 r g' Hid1 H) as [Hid2 G2].
    split; [exact Hid2|]. etransitivity; eassumption.
Qed.

(** What [get] hands on is a state of the report [rid]. *)
Lemma report_step_get rid {B} (f : GenState -> M GenState B) :
  (forall g0, report_id (g_report g0) = rid -> report_step rid (f g0)) ->
  report_step rid (bind get f).
Proof.
  intros Hf g r g' Hid H. unfold bind, get in H. eapply Hf; eassumption.
Qed.

Lemma report_step_set_report rid f :
  (forall r, report_id (f r) = report_id r) -> report_step rid (set_report f).
Proof.
  intros Hf g r g' Hid H. injection H as _ <-. cbn. rewrite Hf.
  now split.
Qed.

Lemma report_step_add_completed rid t : report_step rid (add_completed t).
Proof. intros g r g' Hid H. injection H as _ <-. now split. Qed.

Lemma report_step_add_generated rid t : report_step rid (add_generated t).
Proof. intros g r g' Hid H. injection H as _ <-. now split. Qed.

Lemma report_step_current_outline rid dflt :
  report_step rid (current_outline dflt).
Proof. intros g r g' Hid H. injection H as _ <-. now split. Qed.

Lemma report_step_for_each rid {A} (l : list A) (body : A -> M GenState unit) :
  (forall x, report_step rid (body x)) -> report_step rid (for_each l body).
Proof.
  intros Hbody. induction l as [|x l IH]; cbn [for_each];
    [apply report_step_ret|].
  apply report_step_bind; [apply Hbody|]. intros _. exact IH.
Qed.

Lemma report_id_set_section_content i text r :
  report_id (set_section_content i text r) = report_id r.
Proof. unfold set_section_content. now destruct (outline r). Qed.

Lemma report_id_set_subsection_content i j text r :
  report_id (set_subsection_content i j text r) = report_id r.
Proof. unfold set_subsection_content. now destruct (outline r). Qed.

Ltac report_step :=
  first
    [ apply report_step_ret
    | apply report_step_add_completed
    | apply report_step_add_generated
    | apply report_step_current_outline
    | apply report_step_set_report; intros ?;
      first [ apply report_id_set_section_content
            | apply report_id_set_subsection_content
            | reflexivity ]
    | apply report_step_in_world;
      first [ apply grows_update_progress
            | apply grows_save_section
            | apply grows_save_outline
            | apply grows_ensure_report_folder
            | apply grows_assemble_full_report
            | apply keeps_call_user_callback; typeclasses eauto
            | apply keeps_generate_section_react;
              [ typeclasses eauto
              | first [ apply keeping_pipeline_callback
                      | apply keeping_no_callback ]; typeclasses eauto ]
            | apply keeps_plan_outline;
              [ typeclasses eauto
              | apply keeping_pipeline_callback; typeclasses eauto ] ]
    | apply report_step_get; intros ? ?
    | apply report_step_bind; [|intros ?] ].

Lemma report_step_subsection_step env rid outline0 section_num base n j sub :
  report_step rid
    (subsection_step env rid outline0 section_num base n j sub).
Proof. unfold subsection_step. cbv zeta. repeat report_step. Qed.

Lemma report_step_section_step env rid outline0 total i section :
  report_step rid (section_step env rid outline0 total i section).
Proof.
  unfold section_step. cbv zeta. repeat report_step.
  apply report_step_for_each. intros [j sub].
  apply report_step_subsection_step.
Qed.

Lemma report_step_save_report env rid g0 :
  report_id (g_report g0) = rid ->
  report_step rid (in_world (save_report env (g_report g0))).
Proof.
  intros <-. apply report_step_in_world, grows_save_report.
Qed.

Lemma report_step_generate_report_try env rid :
  report_step rid (generate_report_try env rid).
Proof.
  unfold generate_report_try. cbv zeta.
  repeat first
    [ apply report_step_save_report; assumption
    | apply report_step_for_each; intros [? ?];
      apply report_step_section_step
    | report_step ].
Qed.

Lemma grows_generate_report_except env rid e g :
  report_id (g_report g) = rid ->
  store_grows rid (store (g_world g))
              (store (snd (generate_report_except env rid e g))).
Proof.
  intros Hid. unfold generate_report_except. cbv zeta. cbn [snd].
  match goal with
  | |- context [snd (?m (g_world g))] =>
    assert (K : keeps (store_grows rid) m)
  end.
  { apply keeps_try_catch; [typeclasses eauto| |].
    - apply keeps_bind; [typeclasses eauto| |].
      + match goal with |- keeps _ (save_report env ?rep) =>
          assert (Hrep : report_id rep = rid) by exact Hid;
          rewrite <- Hrep; apply grows_save_report
        end.
      + intros _. apply grows_update_progress.
    - intros _. apply keeps_ret. typeclasses eauto. }
  eapply K. apply surjective_pairing.
Qed.

(** X18. [generate_report] writes into the folder of its own
    report only and removes nothing: whatever the collaborators do and
    however the run ends, the folder of every other report is what it was,
    and every file that was in the folder of the report before the run
    (the three JSON records and every text file) is still there after it,
    whatever it holds now. The report returned carries the identifier the
    run was given. *)
Theorem generate_report_isolated env rid w :
  let r := generate_report env rid w in
  report_id (fst r) = rid
  /\ (forall other, other <> rid -> store (snd r) !! other = store w !! other)
  /\ (forall f,
        store w !! rid = Some f ->
        exists f',
          store (snd r) !! rid = Some f'
          /\ (is_Some (f_meta f) -> is_Some (f_meta f'))
          /\ (is_Some (f_outline f) -> is_Some (f_outline f'))
          /\ (is_Some (f_progress f) -> is_Some (f_progress f'))
          /\ (forall name,
                is_Some (f_text f !! name) -> is_Some (f_text f' !! name))).
Proof.
  cbv zeta. unfold generate_report.
  set (g0 := mkGen w _ [] []).
  destruct (generate_report_try env rid g0) as [[e|u] g] eqn:E.
  - destruct (report_step_generate_report_try env rid g0 _ g eq_refl E)
      as [Hid [G1 G2]].
    pose proof (grows_generate_report_except env rid e g Hid) as [H1 H2].
    split; [unfold generate_report_except; cbn; exact Hid|]. split.
    + intros other Ho. rewrite H1 by exact Ho. now apply G1.
    + intros f Hf. destruct (G2 f Hf) as (f1 & Hf1 & Gf1).
      destruct (H2 f1 Hf1) as (f2 & Hf2 & Gf2). exists f2.
      split; [exact Hf2|]. exact (folder_grows_trans _ _ _ Gf1 Gf2).
  - destruct (report_step_generate_report_try env rid g0 _ g eq_refl E)
      as [Hid [G1 G2]].
    cbn [fst snd]. split; [exact Hid|]. split; [exact G1|exact G2].
Qed.

(** A run on a disk that fails from the third operation on, beside the
    folder of another report: that folder is left as it was. *)
Example generate_report_beside_another_report :
  let w := set_store initial_world
             {[ py "other" := mkFolder None None None
                                {[ py "section_01.md" := py "text" ]} ]} in
  let r := generate_report failing_disk_env (py "mine") w in
  status (fst r) = FAILED
  /\ store (snd r) !! py "other" = store w !! py "other".
Proof. vm_compute. split; reflexivity. Qed.

End IsolationFacts.

Module CostFacts.
Import Re Eff ReportAgent ReactSpec CostSpec EffFacts.

(** *** Steps on the world *)

Lemma costs_weaken {A} a b a' b' (m : M World A) :
  costs a b m -> a <= a' -> b <= b' -> costs a' b' m.
Proof. intros H Ha Hb w r w' E. destruct (H w r w' E). lia. Qed.

Lemma costs_ret {A} (x : A) : costs 0 0 (ret x).
Proof. intros w r w' H. injection H as _ <-. lia. Qed.

Lemma costs_lift {A} (x : Exception + A) : costs 0 0 (lift x).
Proof. intros w r w' H. injection H as _ <-. lia. Qed.

Lemma costs_get : costs 0 0 get.
Proof. intros w r w' H. injection H as _ <-. lia. Qed.

Lemma costs_modify (f : World -> World) :
  (forall w, llm_calls (f w) = llm_calls w /\ tool_log (f w) = tool_log w) ->
  costs 0 0 (modify f).
Proof.
  intros Hf w r w' H. injection H as _ <-. destruct (Hf w) as [-> ->]. lia.
Qed.

Lemma costs_bind {A B} a b a' b' (m : M World A) (f : A -> M World B) :
  costs a b m -> (forall x, costs a' b' (f x)) ->
  costs (a + a') (b + b') (bind m f).
Proof.
  intros Hm Hf w r w'. unfold bind. destruct (m w) as [[e|x] w1] eqn:E.
  - intros H. injection H as _ <-. destruct (Hm _ _ _ E). lia.
  - intros H. destruct (Hm _ _ _ E). destruct (Hf _ _ _ _ H). lia.
Qed.

(** A step that costs nothing before one that costs [a] and [b]. *)
Lemma costs_after {A B} a b (m : M World A) (f : A -> M World B) :
  costs 0 0 m -> (forall x, costs a b (f x)) -> costs a b (bind m f).
Proof. intros Hm Hf. exact (costs_bind 0 0 a b m f Hm Hf). Qed.

Lemma costs_try_catch {A} a b a' b' (m : M World A)
    (h : Exception -> M World A) :
  costs a b m -> (forall e, costs a' b' (h e)) ->
  costs (a + a') (b + b') (try_catch m h).
Proof.
  intros Hm Hh w r w'. unfold try_catch. destruct (m w) as [[e|x] w1] eqn:E.
  - intros H. destruct (Hm _ _ _ E). destruct (Hh _ _ _ _ H). lia.
  - intros H. injection H as _ <-. destruct (Hm _ _ _ E). lia.
Qed.

Lemma costs_when a b (c : bool) (m : M World unit) :
  costs a b m -> costs a b (when c m).
Proof.
  intros Hm. destruct c; [exact Hm|].
  apply (costs_weaken 0 0); [apply costs_ret|lia|lia].
Qed.

Lemma costs_fs_op env : costs 0 0 (fs_op env).
Proof.
  intros w r w'. unfold fs_op. destruct (fs_fault env (fs_ops w));
    intros H; injection H as _ <-; cbn; lia.
Qed.

Lemma costs_chat_llm env messages : costs 1 0 (chat_llm env messages).
Proof. intros w r w' H. injection H as _ <-. cbn. lia. Qed.

Lemma costs_chat_json_llm env messages : costs 1 0 (chat_json_llm env messages).
Proof. intros w r w' H. injection H as _ <-. cbn. lia. Qed.

Lemma costs_call_user_callback env stage prog msg :
  costs 0 0 (call_user_callback env stage prog msg).
Proof.
  unfold call_user_callback. destruct (user_callback env) as [cb|];
    [|apply costs_ret].
  intros w r w'. destruct (cb (callback_calls w) (stage, prog, msg));
    intros H; injection H as _ <-; cbn; lia.
Qed.

Lemma costs_notify cb stage prog msg :
  reporting_only cb -> costs 0 0 (notify cb stage prog msg).
Proof.
  intros Hcb w r w' H.
  destruct (ReactFacts.notify_frame cb stage prog msg w Hcb) as [H1 H2].
  rewrite H in H1, H2. cbn [snd] in H1, H2. rewrite H1, H2. lia.
Qed.

Lemma costs_write_folder env rid upd : costs 0 0 (write_folder env rid upd).
Proof.
  unfold write_folder. apply costs_after; [apply costs_fs_op|].
  intros _ w r w'. destruct (store w !! rid); intros H; injection H as _ <-;
    cbn; lia.
Qed.

Lemma costs_ensure_report_folder env rid :
  costs 0 0 (_ensure_report_folder env rid).
Proof.
  unfold _ensure_report_folder. apply costs_after; [apply costs_fs_op|].
  intros _. apply costs_modify. intros w. now destruct (store w !! rid).
Qed.

Ltac costs_step :=
  first
    [ apply costs_ret
    | apply costs_lift
    | apply costs_get
    | apply costs_fs_op
    | apply costs_write_folder
    | apply costs_ensure_report_folder
    | apply costs_call_user_callback
    | apply costs_notify; assumption
    | apply costs_when
    | apply costs_after; [|intros ?] ].

Lemma costs_update_progress env rid st p msg cur comp :
  costs 0 0 (update_progress env rid st p msg cur comp).
Proof.
  unfold update_progress. cbv zeta. repeat costs_step.
  apply costs_modify. intros w. now split.
Qed.

Lemma costs_save_outline env rid o : costs 0 0 (save_outline env rid o).
Proof. unfold save_outline. repeat costs_step. Qed.

Lemma costs_save_section env rid i section sub parent :
  costs 0 0 (save_section env rid i section sub parent).
Proof. unfold save_section, write_text. repeat costs_step. Qed.

Lemma costs_save_report env report : costs 0 0 (save_report env report).
Proof.
  unfold save_report, write_text. cbv zeta. repeat costs_step.
  destruct (outline report); [apply costs_save_outline|apply costs_ret].
Qed.

Lemma costs_read_sections env f names : costs 0 0 (read_sections env f names).
Proof.
  induction names as [|n names IH]; cbn [read_sections]; [apply costs_ret|].
  destruct (is_section_file n); [|exact IH].
  cbv zeta. repeat first [ exact IH | costs_step ].
Qed.

Lemma costs_assemble_full_report env rid o :
  costs 0 0 (assemble_full_report env rid o).
Proof.
  unfold assemble_full_report, get_generated_sections, write_text. cbv zeta.
  apply costs_after.
  - apply costs_after; [apply costs_get|]. intros w.
    destruct (store w !! rid); [|apply costs_ret].
    apply costs_after; [apply costs_fs_op|]. intros _.
    apply costs_read_sections.
  - intros sections. repeat costs_step.
Qed.

(** Planning asks the model once. *)
Lemma costs_plan_outline env cb :
  reporting_only cb -> costs 1 0 (plan_outline env cb).
Proof.
  intros Hcb. unfold plan_outline. repeat costs_step.
  apply (costs_try_catch 1 0 0 0); [|intros ?; apply costs_ret].
  unfold plan_outline_try.
  apply (costs_bind 1 0 0 0); [apply costs_chat_json_llm|]. intros response.
  repeat costs_step.
Qed.

(** A section asks the model at most eight times and runs at most five
    tools. *)
Lemma costs_generate_section_react env section outline previous cb :
  reporting_only cb ->
  costs 8 5 (_generate_section_react env section outline previous cb).
Proof.
  intros Hcb w r w'. unfold _generate_section_react, bind. cbv zeta.
  destruct (react_loop env cb (MAX_TOOL_CALLS_PER_SECTION + 2)
              (seq 0 (MAX_TOOL_CALLS_PER_SECTION + 2))
              (section_prompt env outline section previous) 0 w)
    as [r1 w1] eqn:Hloop.
  apply ReactFacts.react_loop_budget in Hloop as (entries & Hl & Hc & Hle);
    [|exact Hcb|unfold MAX_TOOL_CALLS_PER_SECTION; lia].
  rewrite length_seq in Hc. unfold MAX_TOOL_CALLS_PER_SECTION in *.
  assert (Ht : length (tool_log w1) <= length (tool_log w) + 5)
    by (rewrite Hl, length_app; lia).
  destruct r1 as [e|[a|messages1 count1]].
  - intros H. injection H as _ <-. lia.
  - intros H. injection H as _ <-. lia.
  - destruct (costs_chat_llm env (messages1 ++ [forced_request]) w1 _ _
                (surjective_pairing _)) as [C1 C2].
    destruct (chat_llm env (messages1 ++ [forced_request]) w1)
      as [[e|response] w2]; cbn [fst snd] in C1, C2.
    + intros H. injection H as _ <-. lia.
    + destruct (contains (py "Final Answer:") response);
        intros H; injection H as _ <-; lia.
Qed.

(** *** Steps of the pipeline *)

Lemma gcosts_in_world {A} a b (m : M World A) :
  costs a b m -> gcosts a b (in_world m).
Proof.
  intros Hm g r g'. unfold in_world.
  destruct (m (g_world g)) as [r0 w1] eqn:E. intros H. injection H as _ <-.
  cbn. destruct (Hm _ _ _ E). now repeat split.
Qed.

Lemma gcosts_ret {A} (x : A) : gcosts 0 0 (ret x).
Proof. intros g r g' H. injection H as _ <-. repeat split; lia. Qed.

Lemma gcosts_get : gcosts 0 0 get.
Proof. intros g r g' H. injection H as _ <-. repeat split; lia. Qed.

Lemma gcosts_bind {A B} a b a' b' (m : M GenState A) (f : A -> M GenState B) :
  gcosts a b m -> (forall x, gcosts a' b' (f x)) ->
  gcosts (a + a') (b + b') (bind m f).
Proof.
  intros Hm Hf g r g'. unfold bind. destruct (m g) as [[e|x] g1] eqn:E.
  - intros H. injection H as _ <-. destruct (Hm _ _ _ E) as (? & ? & ?).
    repeat split; [lia|lia|assumption].
  - intros H. destruct (Hm _ _ _ E) as (? & ? & ?).
    destruct (Hf _ _ _ _ H) as (? & ? & ?).
    repeat split; [lia|lia|congruence].
Qed.

Lemma gcosts_after {A B} a b (m : M GenState A) (f : A -> M GenState B) :
  gcosts 0 0 m -> (forall x, gcosts a b (f x)) -> gcosts a b (bind m f).
Proof. intros Hm Hf. exact (gcosts_bind 0 0 a b m f Hm Hf). Qed.

Lemma gcosts_before {A B} a b (m : M GenState A) (f : A -> M GenState B) :
  gcosts a b m -> (forall x, gcosts 0 0 (f x)) -> gcosts a b (bind m f).
Proof.
  intros Hm Hf. pose proof (gcosts_bind a b 0 0 m f Hm Hf) as H.
  now rewrite !Nat.add_0_r in H.
Qed.

Lemma gcosts_set_report f :
  (forall r, planned_units (f r) = planned_units r) ->
  gcosts 0 0 (set_report f).
Proof.
  intros Hf g r g' H. injection H as _ <-. cbn. rewrite Hf.
  repeat split; lia.
Qed.

Lemma gcosts_add_completed t : gcosts 0 0 (add_completed t).
Proof. intros g r g' H. injection H as _ <-. cbn. repeat split; lia. Qed.

Lemma gcosts_add_generated t : gcosts 0 0 (add_generated t).
Proof. intros g r g' H. injection H as _ <-. cbn. repeat split; lia. Qed.

Lemma gcosts_current_outline dflt : gcosts 0 0 (current_outline dflt).
Proof. intros g r g' H. injection H as _ <-. repeat split; lia. Qed.

Lemma gcosts_for_each {A} a b (l : list A) (body : A -> M GenState unit) :
  (forall x, gcosts a b (body x)) ->
  gcosts (a * length l) (b * length l) (for_each l body).
Proof.
  intros Hbody. induction l as [|x l IH]; cbn [for_each length].
  - rewrite !Nat.mul_0_r. apply gcosts_ret.
  - replace (a * S (length l)) with (a + a * length l) by lia.
    replace (b * S (length l)) with (b + b * length l) by lia.
    apply gcosts_bind; [apply Hbody|]. intros _. exact IH.
Qed.

(** Writing a text into the outline leaves the outline its shape. *)
Lemma sum_list_with_alter {A} (c : A -> nat) (f : A -> A) i l :
  (forall x, c (f x) = c x) ->
  sum_list_with c (alter f i l) = sum_list_with c l.
Proof.
  intros Hc. revert i. induction l as [|x l IH]; intros [|i]; cbn;
    rewrite ?Hc, ?IH; reflexivity.
Qed.

Lemma planned_units_set_section_content i text r :
  planned_units (set_section_content i text r) = planned_units r.
Proof.
  unfold set_section_content, planned_units.
  destruct (outline r) as [o|] eqn:Ho; [|now rewrite Ho].
  cbn. unfold units. cbn. now apply sum_list_with_alter.
Qed.

Lemma planned_units_set_subsection_content i j text r :
  planned_units (set_subsection_content i j text r) = planned_units r.
Proof.
  unfold set_subsection_content, planned_units.
  destruct (outline r) as [o|] eqn:Ho; [|now rewrite Ho].
  cbn. unfold units. cbn. apply sum_list_with_alter. intros s. cbn.
  now rewrite length_alter.
Qed.

Ltac gcosts_step :=
  first
    [ apply gcosts_ret
    | apply gcosts_get
    | apply gcosts_add_completed
    | apply gcosts_add_generated
    | apply gcosts_current_outline
    | apply gcosts_set_report; intros ?;
      first [ apply planned_units_set_section_content
            | apply planned_units_set_subsection_content
            | reflexivity ]
    | apply gcosts_in_world;
      first [ apply costs_update_progress
            | apply costs_save_section
            | apply costs_save_outline
            | apply costs_save_report
            | apply costs_ensure_report_folder
            | apply costs_assemble_full_report
            | apply costs_call_user_callback ]
    | apply gcosts_after; [|intros ?] ].

Lemma gcosts_react env section o previous cb :
  reporting_only cb ->
  gcosts 8 5 (in_world (_generate_section_react env section o previous cb)).
Proof.
  intros Hcb. now apply gcosts_in_world, costs_generate_section_react.
Qed.

Lemma gcosts_subsection_step env rid outline0 section_num base n j sub :
  gcosts 8 5 (subsection_step env rid outline0 section_num base n j sub).
Proof.
  unfold subsection_step. cbv zeta. do 4 (apply gcosts_after; [gcosts_step|intros ?]).
  apply gcosts_before;
    [apply gcosts_react, ReactFacts.no_callback_reporting_only|].
  intros text. repeat gcosts_step.
Qed.

Lemma gcosts_section_step env rid outline0 total i section :
  gcosts (8 * S (length (sec_subsections section)))
         (5 * S (length (sec_subsections section)))
         (section_step env rid outline0 total i section).
Proof.
  unfold section_step. cbv zeta.
  replace (8 * S (length (sec_subsections section)))
    with (8 + 8 * length (enumerate (sec_subsections section)))
    by (unfold enumerate; rewrite length_imap; lia).
  replace (5 * S (length (sec_subsections section)))
    with (5 + 5 * length (enumerate (sec_subsections section)))
    by (unfold enumerate; rewrite length_imap; lia).
  do 4 (apply gcosts_after; [gcosts_step|intros ?]).
  apply gcosts_bind;
    [apply gcosts_react, ReactFacts.pipeline_callback_reporting_only|].
  intros text. do 6 (apply gcosts_after; [gcosts_step|intros ?]).
  apply gcosts_for_each. intros [j sub]. apply gcosts_subsection_step.
Qed.

(** The loop over the sections, from section [k] on. *)
Lemma gcosts_sections_loop env rid outline0 total sections : forall k,
  gcosts (8 * sum_list_with (fun s => S (length (sec_subsections s))) sections)
         (5 * sum_list_with (fun s => S (length (sec_subsections s))) sections)
    (for_each (imap (fun i => pair (k + i)) sections)
       (fun '(i, section) => section_step env rid outline0 total i section)).
Proof.
  induction sections as [|section rest IH]; intros k.
  - cbn. apply gcosts_ret.
  - cbn [imap for_each sum_list_with]. rewrite !Nat.mul_add_distr_l.
    apply gcosts_bind; [apply gcosts_section_step|].
    intros _. rewrite (imap_ext _ (fun i => pair (S k + i)) rest).
    + apply IH.
    + intros i x _. cbn. f_equal. lia.
Qed.

(** *** The whole run *)

Lemma run_costs_after {A B} k (m : M GenState A) (f : A -> M GenState B) :
  gcosts 0 0 m -> (forall x, run_costs k (f x)) -> run_costs k (bind m f).
Proof.
  intros Hm Hf g r g'. unfold bind. destruct (m g) as [[e|x] g1] eqn:E.
  - intros H. injection H as _ <-. destruct (Hm _ _ _ E) as (? & ? & ?). lia.
  - intros H. destruct (Hm _ _ _ E) as (? & ? & ?).
    destruct (Hf _ _ _ _ H). lia.
Qed.

Lemma run_costs_planning {A B} (m : M GenState A) (f : A -> M GenState B) :
  gcosts 1 0 m -> (forall x, run_costs 0 (f x)) -> run_costs 1 (bind m f).
Proof.
  intros Hm Hf g r g'. unfold bind. destruct (m g) as [[e|x] g1] eqn:E.
  - intros H. injection H as _ <-. destruct (Hm _ _ _ E) as (? & ? & ?). lia.
  - intros H. destruct (Hm _ _ _ E) as (? & ? & ?).
    destruct (Hf _ _ _ _ H). lia.
Qed.

(** From the moment the outline is set, its shape is the budget. *)
Lemma run_costs_with_outline {B} o (rest : M GenState B) :
  gcosts (8 * units o) (5 * units o) rest ->
  run_costs 0 (bind (set_report (with_outline o)) (fun _ => rest)).
Proof.
  intros Hrest g r g'. unfold bind, set_report, modify. intros H.
  destruct (Hrest _ _ _ H) as (H1 & H2 & H3).
  cbn [g_world g_report] in H1, H2, H3.
  change (planned_units (with_outline o (g_report g))) with (units o) in H3.
  rewrite H3. lia.
Qed.

Lemma run_costs_generate_report_try env rid :
  run_costs 1 (generate_report_try env rid).
Proof.
  unfold generate_report_try. cbv zeta.
  do 7 (apply run_costs_after; [gcosts_step|intros ?]).
  apply run_costs_planning.
  { apply gcosts_in_world, costs_plan_outline,
      ReactFacts.pipeline_callback_reporting_only. }
  intros outline0. apply run_costs_with_outline.
  do 5 (apply gcosts_after; [gcosts_step|intros ?]).
  apply gcosts_before.
  { unfold enumerate.
    rewrite (imap_ext pair (fun i => pair (0 + i)) (o_sections outline0))
      by reflexivity.
    apply gcosts_sections_loop. }
  intros _. repeat gcosts_step.
Qed.

Lemma generate_report_spends env rid w :
  let r := generate_report env rid w in
  let n := planned_units (fst r) in
  llm_calls (snd r) <= llm_calls w + 1 + 8 * n
  /\ length (tool_log (snd r)) <= length (tool_log w) + 5 * n.
Proof.
  cbv zeta. unfold generate_report.
  set (g0 := mkGen w _ [] []).
  destruct (generate_report_try env rid g0) as [[e|u] g] eqn:E;
    destruct (run_costs_generate_report_try env rid g0 _ g E) as [H1 H2];
    cbn [g_world g0] in H1, H2.
  - unfold generate_report_except. cbv zeta. cbn [fst snd].
    match goal with
    | |- context [snd (?m (g_world g))] =>
      assert (K : costs 0 0 m)
    end.
    { apply (costs_try_catch 0 0 0 0); [|intros _; apply costs_ret].
      apply costs_after; [apply costs_save_report|]. intros _.
      apply costs_update_progress. }
    match goal with
    | |- context [snd (?m (g_world g))] =>
      destruct (K (g_world g) _ _ (surjective_pairing (m (g_world g))))
        as [K1 K2]
    end.
    change (planned_units (with_error (exc_text e)
                             (with_status FAILED (g_report g))))
      with (planned_units (g_report g)).
    split; lia.
  - cbn [fst snd]. split; [exact H1|exact H2].
Qed.

(** X19. The cost of a report is bounded by its outline:
    [generate_report], however it ends, has asked the language model at
    most once for the outline and eight times for each section and each
    subsection of the outline the report ends with, and has run at most
    five retrieval tools for each of them; a report that ends without an
    outline has cost at most one question and no tool. *)
Theorem generate_report_cost env rid w :
  let r := generate_report env rid w in
  match outline (fst r) with
  | Some o =>
    llm_calls (snd r) <= llm_calls w + 1 + 8 * units o
    /\ length (tool_log (snd r)) <= length (tool_log w) + 5 * units o
  | None =>
    llm_calls (snd r) <= llm_calls w + 1
    /\ length (tool_log (snd r)) <= length (tool_log w)
  end.
Proof.
  cbv zeta. destruct (generate_report_spends env rid w) as [H1 H2].
  unfold planned_units in H1, H2.
  destruct (outline (fst (generate_report env rid w))); lia.
Qed.

(** A run that uses its whole budget: three texts, and a model that never
    concludes. *)
Example generate_report_at_full_cost :
  let r := generate_report greedy_planner_env (py "r") initial_world in
  planned_units (fst r) = 3
  /\ llm_calls (snd r) = 1 + 8 * 3
  /\ length (tool_log (snd r)) = 5 * 3.
Proof. vm_compute. repeat split; reflexivity. Qed.

End CostFacts.

Module ContentFacts.
Import Re Eff ReportAgent ReportTools StoreSpec IsolationSpec ContentSpec
       EffFacts StrOrder.

(** *** Places and their files *)

Lemma pos_file_inj p q : pos_file p = pos_file q -> p = q.
Proof.
  unfold pos_file. intros H. apply NameFacts.key_file_inj in H.
  destruct p as [i [j|]], q as [i' [j'|]]; cbn in H; congruence.
Qed.

Lemma pos_file_is_section_file p : is_section_file (pos_file p) = true.
Proof. apply NameFacts.key_file_is_section_file. Qed.

(** *** Writing a text into the outline *)

Lemma outline_set_section_content i text r o :
  outline r = Some o ->
  outline (set_section_content i text r)
  = Some (mkOutline (o_title o) (o_summary o)
            (alter (with_content text) i (o_sections o))).
Proof. intros H. unfold set_section_content. now rewrite H. Qed.

Lemma outline_set_subsection_content i j text r o :
  outline r = Some o ->
  outline (set_subsection_content i j text r)
  = Some (mkOutline (o_title o) (o_summary o)
            (alter (fun s => mkSection (sec_title s) (sec_content s)
                               (alter (with_content text) j
                                      (sec_subsections s)))
                   i (o_sections o))).
Proof. intros H. unfold set_subsection_content. now rewrite H. Qed.

Lemma map_alter_same {A B} (c : A -> B) (f : A -> A) i (l : list A) :
  (forall x, c (f x) = c x) -> map c (alter f i l) = map c l.
Proof.
  intros Hc. revert i. induction l as [|x l IH]; intros [|i]; cbn;
    rewrite ?Hc, ?IH; reflexivity.
Qed.

Lemma skeleton_set_section i text o :
  skeleton (mkOutline (o_title o) (o_summary o)
              (alter (with_content text) i (o_sections o)))
  = skeleton o.
Proof.
  unfold skeleton. cbn. f_equal. now apply map_alter_same.
Qed.

Lemma skeleton_set_subsection i j text o :
  skeleton (mkOutline (o_title o) (o_summary o)
              (alter (fun s => mkSection (sec_title s) (sec_content s)
                                 (alter (with_content text) j
                                        (sec_subsections s)))
                     i (o_sections o)))
  = skeleton o.
Proof.
  unfold skeleton. cbn. f_equal. apply map_alter_same. intros s.
  unfold skeleton_of. cbn. f_equal. now apply map_alter_same.
Qed.

(** The text of every other place is what it was. *)
Lemma pos_markdown_set_section rt i text o p :
  p <> (i, None) ->
  pos_markdown rt (mkOutline (o_title o) (o_summary o)
                     (alter (with_content text) i (o_sections o))) p
  = pos_markdown rt o p.
Proof.
  intros Hp. unfold pos_markdown, section_at. cbn [o_sections].
  destruct p as [i' j']. cbn [fst snd] in *.
  destruct (decide (i = i')) as [<-|Hi].
  - rewrite list_lookup_alter_eq. destruct (o_sections o !! i) as [s|]; cbn;
      [|reflexivity].
    destruct j' as [j'|]; [reflexivity|congruence].
  - now rewrite list_lookup_alter_ne.
Qed.

Lemma pos_markdown_set_subsection rt i j text o p :
  p <> (i, Some j) ->
  pos_markdown rt (mkOutline (o_title o) (o_summary o)
                     (alter (fun s => mkSection (sec_title s) (sec_content s)
                                        (alter (with_content text) j
                                               (sec_subsections s)))
                            i (o_sections o))) p
  = pos_markdown rt o p.
Proof.
  intros Hp. unfold pos_markdown, section_at. cbn [o_sections].
  destruct p as [i' j']. cbn [fst snd] in *.
  destruct (decide (i = i')) as [<-|Hi].
  - rewrite list_lookup_alter_eq. destruct (o_sections o !! i) as [s|]; cbn;
      [|reflexivity].
    destruct j' as [j'|]; [|reflexivity].
    cbn. rewrite list_lookup_alter_ne; [reflexivity|congruence].
  - now rewrite list_lookup_alter_ne.
Qed.

(** The text of the place itself is the one written. *)
Lemma pos_markdown_at_section rt i text o s :
  o_sections o !! i = Some s ->
  pos_markdown rt (mkOutline (o_title o) (o_summary o)
                     (alter (with_content text) i (o_sections o))) (i, None)
  = Some (section_markdown rt (py "##") (with_content text s)).
Proof.
  intros Hs. unfold pos_markdown, section_at. cbn.
  rewrite list_lookup_alter_eq, Hs. reflexivity.
Qed.

Lemma pos_markdown_at_subsection rt i j text o s sub :
  o_sections o !! i = Some s ->
  sec_subsections s !! j = Some sub ->
  pos_markdown rt (mkOutline (o_title o) (o_summary o)
                     (alter (fun s => mkSection (sec_title s) (sec_content s)
                                        (alter (with_content text) j
                                               (sec_subsections s)))
                            i (o_sections o))) (i, Some j)
  = Some (section_markdown rt (py "###") (with_content text sub)).
Proof.
  intros Hs Hsub. unfold pos_markdown, section_at. cbn.
  rewrite list_lookup_alter_eq, Hs. cbn.
  rewrite list_lookup_alter_eq, Hsub. reflexivity.
Qed.

(** The record depends on the title and on the content only. *)
Lemma section_markdown_title rt level text s s' :
  sec_title s = sec_title s' ->
  section_markdown rt level (with_content text s)
  = section_markdown rt level (with_content text s').
Proof. intros H. unfold section_markdown. cbn. now rewrite H. Qed.

(** *** The places of an outline *)

Lemma positions_from_cons k s l :
  positions_from k (s :: l) = section_positions k s ++ positions_from (S k) l.
Proof.
  unfold positions_from. rewrite imap_cons. cbn [concat].
  rewrite Nat.add_0_r. f_equal. f_equal. apply imap_ext. intros i x _. cbn.
  f_equal. lia.
Qed.

Lemma elem_of_section_positions i s p :
  p ∈ section_positions i s
  <-> fst p = i
      /\ match snd p with
         | None => True
         | Some j => j < length (sec_subsections s)
         end.
Proof.
  unfold section_positions. rewrite elem_of_cons, list_elem_of_fmap.
  split.
  - intros [->|(j & -> & Hj)]; cbn; [tauto|].
    apply elem_of_seq in Hj. split; [reflexivity|lia].
  - destruct p as [i' [j|]]; cbn; intros [-> Hj]; [right|now left].
    exists j. split; [reflexivity|]. apply elem_of_seq. lia.
Qed.

Lemma elem_of_positions_from l : forall k p,
  p ∈ positions_from k l
  <-> exists i s,
        l !! i = Some s /\ fst p = k + i
        /\ match snd p with
           | None => True
           | Some j => j < length (sec_subsections s)
           end.
Proof.
  induction l as [|s l IH]; intros k p.
  - unfold positions_from. cbn. split; [intros H; inversion H|].
    intros (i & s & H & _). discriminate H.
  - rewrite positions_from_cons, elem_of_app, elem_of_section_positions, IH.
    split.
    + intros [[Hf Hj]|(i & s' & Hi & Hf & Hj)].
      * exists 0, s. cbn. split; [reflexivity|]. split; [lia|exact Hj].
      * exists (S i), s'. cbn. split; [exact Hi|]. split; [lia|exact Hj].
    + intros ([|i] & s' & Hi & Hf & Hj); cbn in Hi.
      * injection Hi as <-. left. split; [lia|exact Hj].
      * right. exists i, s'. split; [exact Hi|]. split; [lia|exact Hj].
Qed.

(** The outline has a text at each of its places. *)
Lemma section_at_position o p :
  p ∈ positions o -> is_Some (section_at o p).
Proof.
  unfold positions. rewrite elem_of_positions_from.
  intros (i & s & Hi & Hf & Hj). unfold section_at. cbn in Hf.
  rewrite Hf, Hi. destruct (snd p) as [j|]; [|now eexists].
  now apply lookup_lt_is_Some_2.
Qed.

(** The places depend on the shape only. *)
Lemma positions_skeleton o o' :
  skeleton o = skeleton o' -> positions o = positions o'.
Proof.
  unfold skeleton, positions. intros H. injection H as _ _ H.
  generalize 0. revert H. generalize (o_sections o'). generalize (o_sections o).
  induction l as [|s l IH]; intros [|s' l'] H k; try discriminate H;
    [reflexivity|].
  cbn in H. injection H as _ Hs Hl. rewrite !positions_from_cons.
  f_equal; [|now apply IH]. unfold section_positions.
  apply (f_equal length) in Hs. rewrite !length_map in Hs. now rewrite Hs.
Qed.

(** *** The order of the places is the order of their files *)

Lemma seq_sorted n : forall a, StronglySorted lt (seq a n).
Proof.
  induction n as [|n IH]; intros a; cbn; constructor; [apply IH|].
  apply Forall_forall. intros x Hx. apply elem_of_seq in Hx. lia.
Qed.

Lemma positions_from_sorted l : forall k,
  StronglySorted (fun p q => key_lt (S (fst p), S <$> snd p)
                                    (S (fst q), S <$> snd q))
                 (positions_from k l).
Proof.
  induction l as [|s l IH]; intros k.
  - unfold positions_from. cbn. constructor.
  - rewrite positions_from_cons. apply StronglySorted_app_2; [| |apply IH].
    + intros p q Hp Hq. apply elem_of_section_positions in Hp as [Hp _].
      apply elem_of_positions_from in Hq as (i & s' & _ & Hq & _).
      left. cbn. lia.
    + unfold section_positions. constructor.
      * eapply StronglySorted_fmap; [|apply seq_sorted].
        intros x y Hxy. right. cbn. split; [reflexivity|lia].
      * apply Forall_forall. intros q Hq.
        apply list_elem_of_fmap in Hq as (j & -> & _). right. cbn. tauto.
Qed.

Lemma positions_two_digits o p :
  fits_two_digits o -> p ∈ positions o ->
  two_digits (S (fst p), S <$> snd p).
Proof.
  intros [Hn Hsub] Hp. unfold positions in Hp.
  apply elem_of_positions_from in Hp as (i & s & Hi & Hf & Hj).
  pose proof (lookup_lt_Some _ _ _ Hi) as Hlt.
  unfold two_digits. cbn [fst snd]. split; [lia|].
  destruct (snd p) as [j|]; cbn; [|exact I].
  rewrite Forall_forall in Hsub.
  specialize (Hsub s (list_elem_of_lookup_2 _ _ _ Hi)). lia.
Qed.

Lemma StronglySorted_fmap_on {A B} (f : A -> B) (R1 : relation A)
    (R2 : relation B) (P : A -> Prop) l :
  (forall x y, P x -> P y -> R1 x y -> R2 (f x) (f y)) ->
  Forall P l -> StronglySorted R1 l -> StronglySorted R2 (f <$> l).
Proof.
  intros Hf HP Hs. induction Hs as [|x l Hs IH Hx]; cbn; constructor.
  - apply IH. now apply Forall_inv_tail in HP.
  - apply Forall_fmap. pose proof (Forall_inv HP) as Px.
    apply Forall_inv_tail in HP. rewrite Forall_forall in HP, Hx |- *.
    intros y Hy. apply Hf; [exact Px|now apply HP|now apply Hx].
Qed.

(** Within two digits the files of the places stand in the order of the
    places. *)
Lemma position_files_sorted o :
  fits_two_digits o ->
  StronglySorted str_lt (pos_file <$> positions o).
Proof.
  intros Hfit.
  apply (StronglySorted_fmap_on pos_file
           (fun p q => key_lt (S (fst p), S <$> snd p)
                              (S (fst q), S <$> snd q))
           str_lt
           (fun p => two_digits (S (fst p), S <$> snd p))).
  - intros p q Hp Hq Hlt. unfold pos_file.
    now apply StoreFacts.key_order_is_name_order.
  - apply Forall_forall. intros p Hp. now apply (positions_two_digits o).
  - apply positions_from_sorted.
Qed.

(** *** The section files of a folder *)

Lemma section_names_keys f :
  section_names f
  ≡ₚ filter (fun n => is_section_file n = true) (map_to_list (f_text f)).*1.
Proof.
  unfold section_names. rewrite merge_sort_Permutation.
  now rewrite StoreFacts.listdir_section_files.
Qed.

Lemma elem_of_section_names f n :
  n ∈ section_names f
  <-> is_section_file n = true /\ is_Some (f_text f !! n).
Proof.
  rewrite section_names_keys, list_elem_of_filter, list_elem_of_fmap.
  split.
  - intros [Hn ([k v] & -> & Hkv)]. split; [exact Hn|].
    apply elem_of_map_to_list in Hkv. now exists v.
  - intros [Hn [v Hv]]. split; [exact Hn|]. exists (n, v).
    split; [reflexivity|]. now apply elem_of_map_to_list.
Qed.

Lemma section_names_NoDup f : NoDup (section_names f).
Proof.
  rewrite section_names_keys. apply NoDup_filter, NoDup_fst_map_to_list.
Qed.

Lemma str_lt_sorted_NoDup l : StronglySorted str_lt l -> NoDup l.
Proof.
  induction 1 as [|x l Hs IH Hx]; constructor; [|exact IH].
  intros Hin. rewrite Forall_forall in Hx. destruct (Hx x Hin) as [_ Hne].
  now apply Hne.
Qed.

Lemma str_lt_sorted_le l : StronglySorted str_lt l -> StronglySorted str_le l.
Proof.
  induction 1 as [|x l Hs IH Hx]; constructor; [exact IH|].
  eapply Forall_impl; [exact Hx|]. now intros y [Hy _].
Qed.

(** When the section files are the records of the places of the outline,
    they are read in the order of the places. *)
Lemma section_names_of_records rt o f :
  (forall n c,
     is_section_file n = true ->
     (f_text f !! n = Some c
      <-> exists p, p ∈ positions o /\ n = pos_file p
                    /\ pos_markdown rt o p = Some c)) ->
  fits_two_digits o ->
  section_names f = pos_file <$> positions o.
Proof.
  intros Hrec Hfit.
  pose proof (position_files_sorted o Hfit) as Hsorted.
  apply (Sorted_unique str_le).
  - apply StronglySorted_Sorted, StoreFacts.section_names_sorted.
  - apply StronglySorted_Sorted, str_lt_sorted_le, Hsorted.
  - apply NoDup_Permutation.
    + apply section_names_NoDup.
    + apply str_lt_sorted_NoDup, Hsorted.
    + intros n. rewrite elem_of_section_names, list_elem_of_fmap. split.
      * intros [Hn [c Hc]]. apply (Hrec n c Hn) in Hc as (p & Hp & -> & _).
        now exists p.
      * intros (p & -> & Hp). split; [apply pos_file_is_section_file|].
        destruct (section_at_position o p Hp) as [s Hs].
        exists (section_markdown rt (pos_level p) s).
        apply Hrec; [apply pos_file_is_section_file|].
        exists p. split; [exact Hp|]. split; [reflexivity|].
        unfold pos_markdown. now rewrite Hs.
Qed.

(** *** The texts of the places, in order, are the outline rendered *)

Lemma map_lookup_seq {A B} (G : option A -> B) (l : list A) : forall pre,
  map (fun j => G ((pre ++ l) !! j)) (seq (length pre) (length l))
  = map (fun x => G (Some x)) l.
Proof.
  induction l as [|x l IH]; intros pre; [reflexivity|].
  cbn [length seq map]. rewrite list_lookup_middle by reflexivity. f_equal.
  specialize (IH (pre ++ [x])). rewrite length_app in IH. cbn [length] in IH.
  rewrite Nat.add_1_r in IH. rewrite <- IH. apply map_ext. intros j.
  now rewrite <- app_assoc.
Qed.

Lemma to_markdown_section rt s :
  to_markdown rt 2 s
  = section_markdown rt (py "##") s
    ++ flat_map (to_markdown rt 3) (sec_subsections s).
Proof.
  destruct s as [title content subs]. unfold section_markdown.
  cbn [to_markdown sec_title sec_content sec_subsections].
  change (repeat 35%N 2) with (py "##"). now rewrite <- !app_assoc.
Qed.

Lemma to_markdown_subsection rt sub :
  sec_subsections sub = [] ->
  to_markdown rt 3 sub = section_markdown rt (py "###") sub.
Proof.
  destruct sub as [title content subs]. cbn [sec_subsections]. intros ->.
  unfold section_markdown.
  cbn [to_markdown flat_map sec_title sec_content].
  change (repeat 35%N 3) with (py "###"). now rewrite !app_nil_r.
Qed.

Lemma markdown_of_section_positions rt o k s :
  o_sections o !! k = Some s ->
  Forall (fun sub => sec_subsections sub = []) (sec_subsections s) ->
  concat (map (fun p => default [] (pos_markdown rt o p))
              (section_positions k s))
  = to_markdown rt 2 s.
Proof.
  intros Hs Hsub. unfold section_positions. cbn [map concat].
  rewrite to_markdown_section. f_equal.
  - unfold pos_markdown, section_at. cbn. now rewrite Hs.
  - rewrite map_map.
    rewrite (map_ext _ (fun j => default [] (section_markdown rt (py "###")
                                              <$> ([] ++ sec_subsections s) !! j))).
    2:{ intros j. unfold pos_markdown, section_at. cbn. now rewrite Hs. }
    rewrite (map_lookup_seq
               (fun x => default [] (section_markdown rt (py "###") <$> x))
               (sec_subsections s) []).
    cbn. rewrite flat_map_concat_map. f_equal.
    apply map_ext_in. intros sub Hin. symmetry. apply to_markdown_subsection.
    rewrite List.Forall_forall in Hsub. now apply Hsub.
Qed.

Lemma markdown_of_positions_from rt o l : forall k,
  (forall i s, l !! i = Some s -> o_sections o !! (k + i) = Some s) ->
  Forall (fun s => Forall (fun sub => sec_subsections sub = [])
                          (sec_subsections s)) l ->
  concat (map (fun p => default [] (pos_markdown rt o p))
              (positions_from k l))
  = flat_map (to_markdown rt 2) l.
Proof.
  induction l as [|s l IH]; intros k Hl Htwo; [reflexivity|].
  rewrite positions_from_cons, map_app, concat_app. cbn [flat_map].
  f_equal.
  - apply markdown_of_section_positions.
    + specialize (Hl 0 s eq_refl). now rewrite Nat.add_0_r in Hl.
    + exact (Forall_inv Htwo).
  - apply IH; [|exact (Forall_inv_tail Htwo)].
    intros i s' Hi. specialize (Hl (S i) s' Hi).
    now replace (S k + i) with (k + S i) by lia.
Qed.

(** *** Reading the records *)

(** Reading two texts one after the other is reading them joined, unless
    the second begins with the LF that would close a CR of the first. *)
Lemma universal_newlines_app b :
  match b with 10%N :: _ => False | _ => True end ->
  forall a, universal_newlines (a ++ b)
            = universal_newlines a ++ universal_newlines b.
Proof.
  intros Hb a. remember (length a) as n eqn:Hn. revert a Hn.
  induction n as [n IH] using lt_wf_ind. intros a Hn.
  destruct a as [|c a]; [reflexivity|].
  assert (Hstep : universal_newlines (a ++ b)
                  = universal_newlines a ++ universal_newlines b).
  { apply (IH (length a)); [subst n; cbn; lia|reflexivity]. }
  cbn [app universal_newlines].
  destruct (N.eqb_spec c 13) as [->|Hc]; [|cbn [app]; now rewrite Hstep].
  cbn [app]. f_equal. destruct a as [|d a].
  - cbn [app]. destruct b as [|e b]; [reflexivity|].
    destruct (N.eqb_spec e 10) as [->|He]; [contradiction|reflexivity].
  - cbn [app]. destruct (N.eqb_spec d 10) as [->|Hd]; [|exact Hstep].
    apply (IH (length a)); [subst n; cbn; lia|reflexivity].
Qed.

Lemma universal_newlines_concat (pieces : list pystr) :
  Forall (fun x => exists t, x = 35%N :: t) pieces ->
  universal_newlines (concat pieces) = concat (map universal_newlines pieces).
Proof.
  induction 1 as [|x pieces [t ->] Hrest IH]; [reflexivity|].
  cbn [concat map]. rewrite <- IH. apply universal_newlines_app.
  destruct Hrest as [|y rest [u ->] _]; cbn; exact I.
Qed.

(** A text without a CR is read as it is. *)
Lemma universal_newlines_plain s :
  ~ In 13%N s -> universal_newlines s = s.
Proof.
  induction s as [|c s IH]; intros H; [reflexivity|].
  cbn [universal_newlines]. destruct (N.eqb_spec c 13) as [->|Hc].
  - destruct H. now left.
  - rewrite IH; [reflexivity|]. intros Hin. apply H. now right.
Qed.

(** Every record begins with the signs of its level. *)
Lemma section_markdown_head rt p s :
  exists t, section_markdown rt (pos_level p) s = 35%N :: t.
Proof.
  unfold section_markdown, pos_level. destruct (snd p); now eexists.
Qed.

(** What [assemble_full_report] makes of a folder whose section files are
    the records of the places of the outline. *)
Lemma assembled_of_records rt o f :
  (forall n c,
     is_section_file n = true ->
     (f_text f !! n = Some c
      <-> exists p, p ∈ positions o /\ n = pos_file p
                    /\ pos_markdown rt o p = Some c)) ->
  two_level o -> fits_two_digits o ->
  assembled rt o f = rendered rt o.
Proof.
  intros Hrec Htwo Hfit. unfold assembled, rendered. f_equal.
  rewrite (section_names_of_records rt o f Hrec Hfit).
  rewrite <- (markdown_of_positions_from rt o (o_sections o) 0);
    [|intros i s Hi; exact Hi|exact Htwo].
  fold (positions o). rewrite universal_newlines_concat.
  - f_equal. rewrite !map_map. apply map_ext_in.
    intros p Hp. apply list_elem_of_In in Hp.
    destruct (section_at_position o p Hp) as [s Hs].
    assert (H : f_text f !! pos_file p
                = Some (section_markdown rt (pos_level p) s)).
    { apply Hrec; [apply pos_file_is_section_file|]. exists p.
      split; [exact Hp|]. split; [reflexivity|].
      unfold pos_markdown. now rewrite Hs. }
    f_equal.
    etransitivity; [apply (f_equal (default [])); exact H|].
    unfold pos_markdown. now rewrite Hs.
  - apply List.Forall_forall. intros x Hx.
    apply in_map_iff in Hx as (p & <- & Hp). apply list_elem_of_In in Hp.
    destruct (section_at_position o p Hp) as [s Hs].
    unfold pos_markdown. rewrite Hs. cbn. apply section_markdown_head.
Qed.

(** *** Steps that leave the section files alone *)

#[local] Instance same_sections_preorder rid : PreOrder (same_sections rid).
Proof.
  split.
  - intros s n _. reflexivity.
  - intros s1 s2 s3 H12 H23 n Hn. now rewrite H23, H12.
Qed.

Lemma texts_insert (rid rid' : pystr) (f : Folder) (s : gmap pystr Folder) :
  texts rid (<[rid' := f]> s)
  = if decide (rid' = rid) then f_text f else texts rid s.
Proof.
  unfold texts. destruct (decide (rid' = rid)) as [->|Hne].
  - now rewrite lookup_insert_eq.
  - now rewrite lookup_insert_ne.
Qed.

Lemma same_write_folder env rid rid' upd :
  (forall f n, is_section_file n = true ->
               f_text (upd f) !! n = f_text f !! n) ->
  keeps (same_sections rid) (write_folder env rid' upd).
Proof.
  intros Hupd. unfold write_folder.
  apply IsolationFacts.keeps_bind;
    [typeclasses eauto|apply IsolationFacts.keeps_fs_op; typeclasses eauto|].
  intros _ w r w'. destruct (store w !! rid') as [f|] eqn:Hf;
    intros H; injection H as _ <-; [|reflexivity].
  cbn [store set_store]. intros n Hn. rewrite texts_insert.
  destruct (decide (rid' = rid)) as [->|Hne]; [|reflexivity].
  unfold texts. rewrite Hf. now apply Hupd.
Qed.

Lemma same_ensure_report_folder env rid rid' :
  keeps (same_sections rid) (_ensure_report_folder env rid').
Proof.
  unfold _ensure_report_folder.
  apply IsolationFacts.keeps_bind;
    [typeclasses eauto|apply IsolationFacts.keeps_fs_op; typeclasses eauto|].
  intros _ w r w' H. injection H as _ <-.
  destruct (store w !! rid') as [f|] eqn:Hf; [reflexivity|].
  cbn [store set_store]. intros n Hn. rewrite texts_insert.
  destruct (decide (rid' = rid)) as [->|Hne]; [|reflexivity].
  unfold texts. now rewrite Hf.
Qed.

Lemma same_update_progress env rid rid' st p msg cur comp :
  keeps (same_sections rid) (update_progress env rid' st p msg cur comp).
Proof.
  unfold update_progress. cbv zeta.
  apply IsolationFacts.keeps_bind;
    [typeclasses eauto|apply same_ensure_report_folder|].
  intros _. apply IsolationFacts.keeps_bind; [typeclasses eauto| |].
  - apply same_write_folder. reflexivity.
  - intros _ w r w' H. injection H as _ <-. reflexivity.
Qed.

Lemma same_save_outline env rid rid' o :
  keeps (same_sections rid) (save_outline env rid' o).
Proof.
  unfold save_outline.
  apply IsolationFacts.keeps_bind;
    [typeclasses eauto|apply same_ensure_report_folder|].
  intros _. apply same_write_folder. reflexivity.
Qed.

Lemma same_write_text env rid rid' name content :
  is_section_file name = false ->
  keeps (same_sections rid) (write_text env rid' name content).
Proof.
  intros Hname. apply same_write_folder. intros f n Hn. cbn.
  apply lookup_insert_ne. congruence.
Qed.

Lemma same_save_report env rid report :
  keeps (same_sections rid) (save_report env report).
Proof.
  unfold save_report. cbv zeta.
  apply IsolationFacts.keeps_bind;
    [typeclasses eauto|apply same_ensure_report_folder|].
  intros _. apply IsolationFacts.keeps_bind; [typeclasses eauto| |].
  { apply same_write_folder. reflexivity. }
  intros _. apply IsolationFacts.keeps_bind; [typeclasses eauto| |].
  { destruct (outline report); [apply same_save_outline|].
    apply IsolationFacts.keeps_ret. typeclasses eauto. }
  intros _. apply IsolationFacts.keeps_when; [typeclasses eauto|].
  now apply same_write_text.
Qed.

Lemma quiet_in_world rid {A} (m : M World A) :
  keeps (same_sections rid) m -> quiet rid (in_world m).
Proof.
  intros Hm g r g'. unfold in_world.
  destruct (m (g_world g)) as [r0 w1] eqn:E. intros H. injection H as _ <-.
  cbn. split; [reflexivity|]. eapply Hm, E.
Qed.

Lemma quiet_get rid : quiet rid get.
Proof. intros g r g' H. injection H as _ <-. now split. Qed.

Lemma quiet_set_report rid f :
  (forall r, outline (f r) = outline r) -> quiet rid (set_report f).
Proof. intros Hf g r g' H. injection H as _ <-. cbn. now split. Qed.

Lemma quiet_add_completed rid t : quiet rid (add_completed t).
Proof. intros g r g' H. injection H as _ <-. now split. Qed.

Lemma quiet_add_generated rid t : quiet rid (add_generated t).
Proof. intros g r g' H. injection H as _ <-. now split. Qed.

(** *** Rules *)

Lemma triple_bind {A B} P (Q1 : A -> GenState -> Prop) Q
    (m : M GenState A) (f : A -> M GenState B) :
  triple P m Q1 -> (forall a, triple (Q1 a) (f a) Q) -> triple P (bind m f) Q.
Proof.
  intros Hm Hf g b g' HP H. apply bind_inr in H as (a & g1 & H1 & H2).
  eapply Hf; [|exact H2]. eapply Hm; eassumption.
Qed.

Lemma triple_quiet rid {A} P (m : M GenState A) :
  quiet rid m -> stable rid P -> triple P m (fun _ => P).
Proof.
  intros Hm HP g a g' Hg H. destruct (Hm _ _ _ H) as [Ho Hs].
  eapply HP; eassumption.
Qed.

Lemma triple_after rid {A B} P Q (m : M GenState A) (f : A -> M GenState B) :
  quiet rid m -> stable rid P -> (forall a, triple P (f a) Q) ->
  triple P (bind m f) Q.
Proof.
  intros Hm HP Hf. eapply triple_bind; [|exact Hf].
  now apply (triple_quiet rid).
Qed.

Lemma triple_weaken {A} (P P' : GenState -> Prop) (Q Q' : A -> GenState -> Prop)
    (m : M GenState A) :
  triple P m Q -> (forall g, P' g -> P g) -> (forall a g, Q a g -> Q' a g) ->
  triple P' m Q'.
Proof. intros H HP HQ g a g' Hg E. eapply HQ, H; [apply HP|]; eassumption. Qed.

Lemma triple_pure {A} (F : Prop) (P : GenState -> Prop) (m : M GenState A) Q :
  (F -> triple P m Q) -> triple (fun g => F /\ P g) m Q.
Proof. intros H g a g' [HF Hg]. now apply H. Qed.

Lemma triple_ret {A} (P : GenState -> Prop) (x : A) :
  triple P (ret x) (fun _ => P).
Proof. intros g a g' Hg H. injection H as _ <-. exact Hg. Qed.

Lemma stable_written rt rid outline0 D : stable rid (written rt rid outline0 D).
Proof.
  intros g g' (o & Ho & Hsk & Hrec) Hout Hsame. exists o.
  split; [congruence|]. split; [exact Hsk|]. intros n c Hn.
  rewrite (Hsame n Hn). now apply Hrec.
Qed.

Lemma stable_pending rt rid outline0 D p md :
  stable rid (pending rt rid outline0 D p md).
Proof.
  intros g g' [Hw (o & Ho & Hp)] Hout Hsame. split.
  - eapply stable_written; eassumption.
  - exists o. split; [congruence|exact Hp].
Qed.

Lemma stable_no_section_file rid :
  stable rid (fun g => no_section_file rid (g_world g)).
Proof.
  intros g g' H _ Hsame n Hn. rewrite (Hsame n Hn). now apply H.
Qed.

(** *** The steps that write a text *)

Lemma in_world_inr {A} (m : M World A) g a g' :
  in_world m g = (inr a, g') ->
  m (g_world g) = (inr a, g_world g') /\ g_report g' = g_report g.
Proof.
  unfold in_world. destruct (m (g_world g)) as [r w1]. intros H.
  injection H as -> <-. now split.
Qed.

Lemma ensure_report_folder_texts env rid w w' :
  _ensure_report_folder env rid w = (inr tt, w') ->
  texts rid (store w') = texts rid (store w)
  /\ is_Some (store w' !! rid).
Proof.
  unfold _ensure_report_folder. intros H.
  apply bind_inr in H as (u & w1 & Hop & H).
  apply StoreFacts.fs_op_inr in Hop. injection H as <-.
  destruct (store w1 !! rid) as [f|] eqn:Hf.
  - rewrite <- Hop. split; [reflexivity|]. now exists f.
  - cbn [store set_store]. rewrite texts_insert, decide_True by reflexivity.
    unfold texts. rewrite <- Hop, Hf, lookup_insert_eq.
    split; [reflexivity|]. now eexists.
Qed.

Lemma save_section_texts env rid idx sec sub parent w w' :
  save_section env rid idx sec sub parent w = (inr tt, w') ->
  texts rid (store w')
  = <[section_file idx sub parent
      := section_markdown (rt env) (section_level sub parent) sec]>
      (texts rid (store w)).
Proof.
  unfold save_section. intros H.
  apply bind_inr in H as ([] & w1 & Hens & H).
  apply ensure_report_folder_texts in Hens as [Ht [f Hf]].
  unfold write_text, write_folder in H.
  apply bind_inr in H as (u & w2 & Hop & H).
  apply StoreFacts.fs_op_inr in Hop. cbv beta in H.
  rewrite Hop, Hf in H. injection H as <-.
  cbn [store set_store]. rewrite texts_insert, decide_True by reflexivity.
  cbn [f_text]. rewrite <- Ht. unfold texts. rewrite Hf. reflexivity.
Qed.

Lemma triple_save_section env rid outline0 D p md idx sec sub parent :
  section_file idx sub parent = pos_file p ->
  section_markdown (rt env) (section_level sub parent) sec = md ->
  triple (pending (rt env) rid outline0 D p md)
         (in_world (save_section env rid idx sec sub parent))
         (fun _ => written (rt env) rid outline0 (D ++ [p])).
Proof.
  intros Hfile Hmd g [] g' [(o & Ho & Hsk & Hrec) (o' & Ho' & Hp)] H.
  apply in_world_inr in H as [H Hrep].
  apply save_section_texts in H. rewrite Hfile, Hmd in H.
  assert (o' = o) by congruence. subst o'.
  exists o. split; [congruence|]. split; [exact Hsk|]. intros n c Hn.
  rewrite H. destruct (decide (pos_file p = n)) as [<-|Hne].
  - rewrite lookup_insert_eq. split.
    + intros E. injection E as <-. exists p. rewrite elem_of_app, list_elem_of_singleton.
      split; [now right|]. now split.
    + intros (p' & _ & Hf & Hc). apply pos_file_inj in Hf. subst p'.
      congruence.
  - rewrite lookup_insert_ne by exact Hne. rewrite (Hrec n c Hn). split.
    + intros (p' & Hin & Hf & Hc). exists p'. rewrite elem_of_app.
      split; [now left|]. now split.
    + intros (p' & Hin & Hf & Hc). exists p'.
      apply elem_of_app in Hin as [Hin|Hin]; [now split|].
      apply list_elem_of_singleton in Hin. subst p'. congruence.
Qed.

(** What the shape tells about the section [i] of the outline. *)
Lemma skeleton_lookup o outline0 i section :
  skeleton o = skeleton outline0 ->
  o_sections outline0 !! i = Some section ->
  exists s,
    o_sections o !! i = Some s
    /\ sec_title s = sec_title section
    /\ map sub_skeleton (sec_subsections s)
       = map sub_skeleton (sec_subsections section).
Proof.
  unfold skeleton. intros H Hi. injection H as _ _ H.
  assert (Hl : (map skeleton_of (o_sections o)) !! i = Some (skeleton_of section)).
  { rewrite H. change (map skeleton_of ?l) with (skeleton_of <$> l).
    now rewrite list_lookup_fmap, Hi. }
  change (map skeleton_of ?l) with (skeleton_of <$> l) in Hl.
  rewrite list_lookup_fmap in Hl.
  destruct (o_sections o !! i) as [s|]; [|discriminate Hl].
  injection Hl as Ht Hs. now exists s.
Qed.

Lemma sub_skeleton_lookup (subs subs0 : list ReportSection) j sub0 :
  map sub_skeleton subs = map sub_skeleton subs0 ->
  subs0 !! j = Some sub0 ->
  exists sub, subs !! j = Some sub /\ sec_title sub = sec_title sub0.
Proof.
  intros H Hj.
  assert (Hl : (map sub_skeleton subs) !! j = Some (sub_skeleton sub0)).
  { rewrite H. change (map sub_skeleton ?l) with (sub_skeleton <$> l).
    now rewrite list_lookup_fmap, Hj. }
  change (map sub_skeleton ?l) with (sub_skeleton <$> l) in Hl.
  rewrite list_lookup_fmap in Hl.
  destruct (subs !! j) as [sub|]; [|discriminate Hl].
  injection Hl as Ht _. now exists sub.
Qed.

Lemma triple_set_section rt rid outline0 D i section text :
  o_sections outline0 !! i = Some section ->
  (i, None) ∉ D ->
  triple (written rt rid outline0 D)
         (set_report (set_section_content i text))
         (fun _ => pending rt rid outline0 D (i, None)
                     (section_markdown rt (py "##")
                                       (with_content text section))).
Proof.
  intros Hi Hfresh g [] g' (o & Ho & Hsk & Hrec) H. injection H as <-.
  destruct (skeleton_lookup o outline0 i section Hsk Hi) as (s & Hs & Ht & _).
  pose proof (outline_set_section_content i text _ o Ho) as Ho'.
  split.
  - eexists. split; [exact Ho'|]. split.
    + now rewrite skeleton_set_section.
    + intros n c Hn. cbn [g_world]. rewrite (Hrec n c Hn).
      split; intros (p & Hp & Hf & Hc); exists p;
        (split; [exact Hp|]); (split; [exact Hf|]);
        rewrite pos_markdown_set_section in *; try assumption;
        intros ->; contradiction.
  - eexists. split; [exact Ho'|].
    rewrite (pos_markdown_at_section rt i text o s Hs). f_equal.
    now apply section_markdown_title.
Qed.

Lemma triple_set_subsection rt rid outline0 D i j section subsection text :
  o_sections outline0 !! i = Some section ->
  sec_subsections section !! j = Some subsection ->
  (i, Some j) ∉ D ->
  triple (written rt rid outline0 D)
         (set_report (set_subsection_content i j text))
         (fun _ => pending rt rid outline0 D (i, Some j)
                     (section_markdown rt (py "###")
                                       (with_content text subsection))).
Proof.
  intros Hi Hj Hfresh g [] g' (o & Ho & Hsk & Hrec) H. injection H as <-.
  destruct (skeleton_lookup o outline0 i section Hsk Hi) as (s & Hs & _ & Hsub).
  destruct (sub_skeleton_lookup _ _ j subsection Hsub Hj) as (sub & Hsj & Ht).
  pose proof (outline_set_subsection_content i j text _ o Ho) as Ho'.
  split.
  - eexists. split; [exact Ho'|]. split.
    + now rewrite skeleton_set_subsection.
    + intros n c Hn. cbn [g_world]. rewrite (Hrec n c Hn).
      split; intros (p & Hp & Hf & Hc); exists p;
        (split; [exact Hp|]); (split; [exact Hf|]);
        rewrite pos_markdown_set_subsection in *; try assumption;
        intros ->; contradiction.
  - eexists. split; [exact Ho'|].
    rewrite (pos_markdown_at_subsection rt i j text o s sub Hs Hsj). f_equal.
    now apply section_markdown_title.
Qed.

(** *** The loops of [generate_report] *)

Lemma quiet_current_outline rid dflt : quiet rid (current_outline dflt).
Proof. intros g r g' H. injection H as _ <-. now split. Qed.

Ltac quiet_step :=
  first
    [ apply quiet_get
    | apply quiet_add_completed
    | apply quiet_add_generated
    | apply quiet_current_outline
    | apply quiet_set_report; intros ?; reflexivity
    | apply quiet_in_world;
      first [ apply same_update_progress
            | apply same_save_outline
            | apply same_save_report
            | apply same_ensure_report_folder
            | apply IsolationFacts.keeps_call_user_callback; typeclasses eauto
            | apply IsolationFacts.keeps_generate_section_react;
              [ typeclasses eauto
              | first [ apply IsolationFacts.keeping_pipeline_callback
                      | apply IsolationFacts.keeping_no_callback ];
                typeclasses eauto ]
            | apply IsolationFacts.keeps_plan_outline;
              [ typeclasses eauto
              | apply IsolationFacts.keeping_pipeline_callback;
                typeclasses eauto ] ] ].

Ltac after_quiet rid HP :=
  apply (triple_after rid); [quiet_step|apply HP|intros ?].

Lemma triple_subsection_step env rid outline0 D i j section subsection base n :
  o_sections outline0 !! i = Some section ->
  sec_subsections section !! j = Some subsection ->
  (i, Some j) ∉ D ->
  triple (written (rt env) rid outline0 D)
         (subsection_step env rid outline0 (S i) base n j subsection)
         (fun _ => written (rt env) rid outline0 (D ++ [(i, Some j)])).
Proof.
  intros Hi Hj Hfresh. unfold subsection_step. cbv zeta.
  do 5 after_quiet rid stable_written.
  replace (S i - 1) with i by lia.
  eapply triple_bind;
    [apply (triple_set_subsection _ _ _ _ _ _ section subsection);
     assumption|].
  intros ?. after_quiet rid stable_pending.
  eapply triple_bind; [now apply triple_save_section|]. intros ?.
  apply (triple_quiet rid); [quiet_step|apply stable_written].
Qed.

Lemma triple_subsections_loop env rid outline0 D i section base n :
  o_sections outline0 !! i = Some section ->
  (forall j, (i, Some j) ∉ D) ->
  forall rest j0,
    (forall j sub,
       rest !! j = Some sub -> sec_subsections section !! (j0 + j) = Some sub) ->
    triple (written (rt env) rid outline0
              (D ++ map (fun j => (i, Some j)) (seq 0 j0)))
           (for_each (imap (fun j => pair (j0 + j)) rest)
              (fun '(j, sub) =>
                 subsection_step env rid outline0 (S i) base n j sub))
           (fun _ => written (rt env) rid outline0
                       (D ++ map (fun j => (i, Some j))
                                 (seq 0 (j0 + length rest)))).
Proof.
  intros Hi Hfresh. induction rest as [|sub rest IH]; intros j0 Hrest.
  - cbn [imap for_each length]. rewrite Nat.add_0_r. apply triple_ret.
  - rewrite imap_cons. cbn [for_each]. rewrite Nat.add_0_r.
    eapply triple_bind.
    + apply (triple_subsection_step _ _ _ _ _ _ section).
      * exact Hi.
      * specialize (Hrest 0 sub eq_refl). now rewrite Nat.add_0_r in Hrest.
      * rewrite elem_of_app. intros [H|H]; [now apply (Hfresh j0)|].
        apply list_elem_of_fmap in H as (j & Hj & Hin).
        injection Hj as ->. apply elem_of_seq in Hin. lia.
    + intros ?.
      rewrite (imap_ext _ (fun j => pair (S j0 + j)) rest)
        by (intros j x _; cbn; f_equal; lia).
      eapply triple_weaken; [apply (IH (S j0))| |].
      * intros j s' Hj. specialize (Hrest (S j) s' Hj).
        now replace (S j0 + j) with (j0 + S j) by lia.
      * intros g Hg. rewrite seq_S, map_app, app_assoc. exact Hg.
      * intros ? g Hg. cbn [length].
        now replace (j0 + S (length rest)) with (S j0 + length rest) by lia.
Qed.

Lemma triple_section_step env rid outline0 D total i section :
  o_sections outline0 !! i = Some section ->
  (forall p, p ∈ D -> fst p < i) ->
  triple (written (rt env) rid outline0 D)
         (section_step env rid outline0 total i section)
         (fun _ => written (rt env) rid outline0
                     (D ++ section_positions i section)).
Proof.
  intros Hi Hbefore. unfold section_step. cbv zeta.
  assert (Hfresh : forall o, (i, o) ∉ D).
  { intros o Hin. apply Hbefore in Hin. cbn in Hin. lia. }
  do 5 after_quiet rid stable_written.
  eapply triple_bind;
    [apply (triple_set_section _ _ _ _ _ section); [exact Hi|apply Hfresh]|].
  intros ?. after_quiet rid stable_pending.
  eapply triple_bind; [now apply triple_save_section|]. intros ?.
  do 3 after_quiet rid stable_written.
  unfold enumerate.
  rewrite (imap_ext pair (fun j => pair (0 + j)) (sec_subsections section))
    by reflexivity.
  eapply triple_weaken.
  - apply (triple_subsections_loop env rid outline0 (D ++ [(i, None)]) i
             section).
    + exact Hi.
    + intros j. rewrite elem_of_app, list_elem_of_singleton.
      intros [H|H]; [now apply (Hfresh (Some j))|discriminate H].
    + intros j sub Hj. exact Hj.
  - intros g Hg. cbn [seq map]. now rewrite app_nil_r.
  - intros ? g Hg. cbn [Nat.add] in Hg. unfold section_positions.
    now rewrite <- app_assoc in Hg.
Qed.

Lemma triple_sections_loop env rid outline0 total : forall rest k D,
  (forall i s, rest !! i = Some s -> o_sections outline0 !! (k + i) = Some s) ->
  (forall p, p ∈ D -> fst p < k) ->
  triple (written (rt env) rid outline0 D)
         (for_each (imap (fun i => pair (k + i)) rest)
            (fun '(i, section) =>
               section_step env rid outline0 total i section))
         (fun _ => written (rt env) rid outline0 (D ++ positions_from k rest)).
Proof.
  induction rest as [|s rest IH]; intros k D Hrest Hbefore.
  - cbn [imap for_each]. unfold positions_from. cbn. rewrite app_nil_r.
    apply triple_ret.
  - rewrite imap_cons. cbn [for_each]. rewrite Nat.add_0_r.
    eapply triple_bind.
    + apply triple_section_step; [|exact Hbefore].
      specialize (Hrest 0 s eq_refl). now rewrite Nat.add_0_r in Hrest.
    + intros ?.
      rewrite (imap_ext _ (fun i => pair (S k + i)) rest)
        by (intros j x _; cbn; f_equal; lia).
      eapply triple_weaken;
        [apply (IH (S k) (D ++ section_positions k s))| |].
      * intros i s' Hi'. specialize (Hrest (S i) s' Hi').
        now replace (S k + i) with (k + S i) by lia.
      * intros p Hp. apply elem_of_app in Hp as [Hp|Hp].
        -- apply Hbefore in Hp. lia.
        -- apply elem_of_section_positions in Hp as [-> _]. lia.
      * intros g Hg. exact Hg.
      * intros ? g Hg. now rewrite positions_from_cons, app_assoc.
Qed.

(** *** The whole run *)

(** The planner proposes outlines of two levels only. *)
Lemma plan_outline_two_level env cb w o w' :
  plan_outline env cb w = (inr o, w') -> two_level o.
Proof.
  intros H. apply PlannerFacts.plan_outline_cases in H
    as [->|(k & messages & response & _ & H)].
  - repeat constructor.
  - apply PlannerFacts.parse_outline_spec in H as (secs & _ & H).
    unfold two_level. clear -H.
    induction H as [|x s secs' l Hs _ IH]; constructor; [|exact IH].
    destruct Hs as (_ & _ & subs & _ & Hsubs). clear -Hsubs.
    induction Hsubs as [|y sub subs' l' Hsub _ IH]; constructor; [|exact IH].
    now destruct Hsub as (_ & _ & ?).
Qed.

Lemma two_level_skeleton o o' :
  skeleton o = skeleton o' -> two_level o' -> two_level o.
Proof.
  unfold skeleton, two_level. intros H. injection H as _ _ H.
  revert H. generalize (o_sections o'). generalize (o_sections o).
  induction l as [|s l IH]; intros [|s' l'] H Htwo; try discriminate H;
    constructor.
  - cbn in H. injection H as _ Hs _.
    pose proof (Forall_inv Htwo) as Hs'. cbn in Hs'. clear -Hs Hs'.
    revert Hs Hs'. generalize (sec_subsections s').
    generalize (sec_subsections s).
    induction l as [|x l IH]; intros [|x' l'] H Htwo; try discriminate H;
      constructor.
    + cbn in H. injection H as _ Hx _. rewrite Hx.
      exact (Forall_inv Htwo).
    + cbn in H. injection H as _ _ H. apply (IH l' H).
      exact (Forall_inv_tail Htwo).
  - cbn in H. injection H as _ _ H. apply (IH l' H).
    exact (Forall_inv_tail Htwo).
Qed.

Lemma triple_plan_outline env rid cb :
  keeping_callback (same_sections rid) cb ->
  triple (fun g => no_section_file rid (g_world g))
         (in_world (plan_outline env cb))
         (fun o g => two_level o /\ no_section_file rid (g_world g)).
Proof.
  intros Hcb g o g' Hg H.
  pose proof (IsolationFacts.keeps_plan_outline (same_sections rid) env cb Hcb)
    as K.
  apply in_world_inr in H as [H _]. split.
  - eapply plan_outline_two_level, H.
  - intros n Hn. rewrite (K _ _ _ H n Hn). now apply Hg.
Qed.

Lemma triple_with_outline rt rid outline0 :
  triple (fun g => no_section_file rid (g_world g))
         (set_report (with_outline outline0))
         (fun _ => written rt rid outline0 []).
Proof.
  intros g [] g' Hg H. injection H as <-. exists outline0.
  split; [reflexivity|]. split; [reflexivity|]. intros n c Hn.
  cbn [g_world]. rewrite (Hg n Hn). split; [discriminate|].
  intros (p & Hp & _). inversion Hp.
Qed.

Lemma triple_current_outline rt rid outline0 D :
  triple (written rt rid outline0 D) (current_outline outline0)
         (fun o g => written rt rid outline0 D g
                     /\ outline (g_report g) = Some o).
Proof.
  intros g o g' Hg H. injection H as <- <-. split; [exact Hg|].
  destruct Hg as (o & Ho & _). now rewrite Ho.
Qed.

Lemma triple_assemble env rid outline0 o :
  two_level outline0 ->
  triple (fun g => written (rt env) rid outline0 (positions outline0) g
                   /\ outline (g_report g) = Some o)
         (in_world (assemble_full_report env rid o))
         (fun md g => outline (g_report g) = Some o
                      /\ two_level o
                      /\ (fits_two_digits o -> md = rendered (rt env) o)).
Proof.
  intros Htwo g md g' [(o' & Ho' & Hsk & Hrec) Ho] H.
  assert (o' = o) by congruence. subst o'.
  apply in_world_inr in H as [H Hrep].
  apply StoreFacts.assemble_spec in H as (f & Hf & -> & _).
  split; [congruence|]. split; [now apply (two_level_skeleton o outline0)|].
  intros Hfit. apply assembled_of_records.
  - intros n c Hn. rewrite <- (positions_skeleton o outline0 Hsk) in Hrec.
    specialize (Hrec n c Hn). unfold texts in Hrec. now rewrite Hf in Hrec.
  - now apply (two_level_skeleton o outline0).
  - exact Hfit.
Qed.

Lemma triple_report_in_world {A} (R : Report -> Prop) (m : M World A) :
  triple (fun g => R (g_report g)) (in_world m) (fun _ g => R (g_report g)).
Proof.
  intros g a g' Hg H. apply in_world_inr in H as [_ Hrep]. now rewrite Hrep.
Qed.

Lemma triple_report_get (R : Report -> Prop) :
  triple (fun g => R (g_report g)) get (fun _ g => R (g_report g)).
Proof. intros g a g' Hg H. injection H as _ <-. exact Hg. Qed.

(** A run of the part inside [try] that succeeds leaves the report
    rendered from its outline. *)
Lemma triple_generate_report_try env rid :
  triple (fun g => no_section_file rid (g_world g))
         (generate_report_try env rid)
         (fun _ g => report_rendered (rt env) (g_report g)
                     /\ status (g_report g) = COMPLETED).
Proof.
  unfold generate_report_try. cbv zeta.
  do 7 after_quiet rid stable_no_section_file.
  eapply triple_bind.
  { apply (triple_plan_outline env rid).
    apply IsolationFacts.keeping_pipeline_callback. typeclasses eauto. }
  intros outline0. apply triple_pure. intros Htwo.
  eapply triple_bind; [apply (triple_with_outline (rt env))|]. intros ?.
  do 5 after_quiet rid stable_written.
  eapply triple_bind.
  { unfold enumerate.
    rewrite (imap_ext pair (fun i => pair (0 + i)) (o_sections outline0))
      by reflexivity.
    apply (triple_sections_loop env rid outline0 _ (o_sections outline0) 0 []).
    - intros i s Hi. exact Hi.
    - intros p Hp. inversion Hp. }
  intros ?. cbn [app]. fold (positions outline0).
  do 3 after_quiet rid stable_written.
  eapply triple_bind; [apply triple_current_outline|]. intros o.
  eapply triple_bind; [now apply triple_assemble|]. intros md.
  eapply triple_bind.
  { instantiate (1 := fun _ g => report_rendered (rt env) (g_report g)
                                 /\ status (g_report g) = COMPLETED).
    intros g [] g' (Ho & Htwo' & Hmd) H. injection H as <-. cbn.
    split; [|reflexivity]. exists o. cbn. now repeat split. }
  intros ?.
  eapply triple_bind;
    [apply (triple_report_get
              (fun r => report_rendered (rt env) r /\ status r = COMPLETED))|].
  intros g0.
  eapply triple_bind;
    [apply (triple_report_in_world
              (fun r => report_rendered (rt env) r /\ status r = COMPLETED))|].
  intros ?.
  eapply triple_bind;
    [apply (triple_report_in_world
              (fun r => report_rendered (rt env) r /\ status r = COMPLETED))|].
  intros ?.
  apply (triple_report_in_world
           (fun r => report_rendered (rt env) r /\ status r = COMPLETED)).
Qed.

(** X20. A completed report is its outline rendered. When
    [generate_report] starts on a report folder without section files and
    ends with status [COMPLETED], the report has an outline, of sections
    and subsections only; and if that outline has fewer than 100 sections
    and each section fewer than 100 subsections, the Markdown of the
    report is the header (title, summary and a rule) followed by
    [to_markdown] of each section of the outline, in order, as the section
    files give it back when read in text mode, where a CR LF and a CR are
    read as LF: the text of every section and subsection once, under its
    title, each section before its subsections. Where the titles and the
    texts hold no CR, the Markdown is the header followed by [to_markdown]
    of each section, unchanged. *)
Theorem completed_report_is_rendered env rid w :
  no_section_file rid w ->
  status (fst (generate_report env rid w)) = COMPLETED ->
  exists o,
    outline (fst (generate_report env rid w)) = Some o
    /\ two_level o
    /\ (fits_two_digits o ->
        markdown_content (fst (generate_report env rid w))
        = report_header (rt env) o
          ++ universal_newlines
               (flat_map (to_markdown (rt env) 2) (o_sections o)))
    /\ (fits_two_digits o ->
        ~ In 13%N (flat_map (to_markdown (rt env) 2) (o_sections o)) ->
        markdown_content (fst (generate_report env rid w))
        = report_header (rt env) o
          ++ flat_map (to_markdown (rt env) 2) (o_sections o)).
Proof.
  intros Hfresh. unfold generate_report.
  set (g0 := mkGen w _ [] []).
  destruct (generate_report_try env rid g0) as [[e|[]] g] eqn:E.
  - unfold generate_report_except, with_error, with_status.
    cbn [fst status]. intros H. discriminate H.
  - intros ?. cbn [fst].
    destruct (triple_generate_report_try env rid g0 tt g Hfresh E)
      as [(o & Ho & Htwo & Hmd) ?].
    exists o. split; [exact Ho|]. split; [exact Htwo|].
    split; [exact Hmd|]. intros Hfit Hplain.
    rewrite (Hmd Hfit). unfold rendered.
    now rewrite (universal_newlines_plain _ Hplain).
Qed.

Lemma completed_report_is_rendered_witness :
  exists o,
    outline (fst (generate_report writer_env (py "r") initial_world)) = Some o
    /\ two_level o
    /\ (fits_two_digits o ->
        markdown_content (fst (generate_report writer_env (py "r")
                                 initial_world))
        = report_header (rt writer_env) o
          ++ universal_newlines
               (flat_map (to_markdown (rt writer_env) 2) (o_sections o)))
    /\ (fits_two_digits o ->
        ~ In 13%N (flat_map (to_markdown (rt writer_env) 2) (o_sections o)) ->
        markdown_content (fst (generate_report writer_env (py "r")
                                 initial_world))
        = report_header (rt writer_env) o
          ++ flat_map (to_markdown (rt writer_env) 2) (o_sections o)).
Proof.
  apply (completed_report_is_rendered writer_env (py "r") initial_world).
  - intros n ?. reflexivity.
  - vm_compute. reflexivity.
Defined.

(** The report of that run. *)
Example report_of_two_sections :
  markdown_content (fst (generate_report writer_env (py "r") initial_world))
  = py "# T" ++ nl ++ nl ++ py "> S" ++ nl ++ nl ++ py "---" ++ nl ++ nl
    ++ py "## A" ++ nl ++ nl ++ py "text 1" ++ nl ++ nl
    ++ py "### A1" ++ nl ++ nl ++ py "text 2" ++ nl ++ nl
    ++ py "## B" ++ nl ++ nl ++ py "text 3" ++ nl ++ nl.
Proof. vm_compute. reflexivity. Qed.

(** A model whose answers end their lines with CR LF: the report has them
    as LF, for the section files are read in text mode. *)
Example report_of_crlf_answers :
  markdown_content
    (fst (generate_report
            (answering_env (fun k => py "p" ++ [13%N; 10%N] ++ py "q"))
            (py "r") initial_world))
  = py "# T" ++ nl ++ nl ++ py "> S" ++ nl ++ nl ++ py "---" ++ nl ++ nl
    ++ py "## A" ++ nl ++ nl ++ py "p" ++ nl ++ py "q" ++ nl ++ nl
    ++ py "### A1" ++ nl ++ nl ++ py "p" ++ nl ++ py "q" ++ nl ++ nl
    ++ py "## B" ++ nl ++ nl ++ py "p" ++ nl ++ py "q" ++ nl ++ nl.
Proof. vm_compute. reflexivity. Qed.

End ContentFacts.

Module PersistFacts.
Import Re Eff ReportAgent StoreSpec IsolationSpec ContentSpec PersistSpec
       EffFacts.

(** *** What the writing steps do to a folder that exists *)

Lemma ensure_existing env rid w w' f :
  store w !! rid = Some f ->
  _ensure_report_folder env rid w = (inr tt, w') ->
  store w' = store w.
Proof.
  unfold _ensure_report_folder. intros Hf H.
  apply bind_inr in H as (u & w1 & Hop & H).
  apply StoreFacts.fs_op_inr in Hop. injection H as <-.
  rewrite Hop, Hf. exact Hop.
Qed.

Lemma write_folder_existing env rid upd w w' f :
  store w !! rid = Some f ->
  write_folder env rid upd w = (inr tt, w') ->
  store w' = <[rid := upd f]> (store w).
Proof.
  unfold write_folder. intros Hf H.
  apply bind_inr in H as (u & w1 & Hop & H).
  apply StoreFacts.fs_op_inr in Hop. cbv beta in H.
  rewrite Hop, Hf in H. injection H as <-. cbn. now rewrite ?Hop.
Qed.

Lemma save_outline_existing env rid o w w' f :
  store w !! rid = Some f ->
  save_outline env rid o w = (inr tt, w') ->
  store w' !! rid
  = Some (mkFolder (f_meta f) (Some o) (f_progress f) (f_text f)).
Proof.
  unfold save_outline. intros Hf H.
  apply bind_inr in H as ([] & w1 & Hens & H).
  apply (ensure_existing _ _ _ _ f Hf) in Hens.
  apply (write_folder_existing _ _ _ _ _ f) in H; [|now rewrite Hens].
  now rewrite H, lookup_insert_eq.
Qed.

(** [save_report] on a folder that holds the Markdown of the report. *)
Lemma save_report_existing env r w w' f :
  store w !! report_id r = Some f ->
  f_text f !! py "full_report.md" = Some (markdown_content r) ->
  save_report env r w = (inr tt, w') ->
  saved_in (report_id r) r (store w').
Proof.
  unfold save_report. cbv zeta. intros Hf Hmd H.
  apply bind_inr in H as ([] & w1 & Hens & H).
  apply (ensure_existing _ _ _ _ f Hf) in Hens.
  apply bind_inr in H as ([] & w2 & Hmeta & H).
  apply (write_folder_existing _ _ _ _ _ f) in Hmeta; [|now rewrite Hens].
  set (f1 := mkFolder (Some r) (f_outline f) (f_progress f) (f_text f)) in *.
  assert (Hf1 : store w2 !! report_id r = Some f1)
    by now rewrite Hmeta, lookup_insert_eq.
  apply bind_inr in H as ([] & w3 & Hout & H).
  assert (Hf2 : exists f2,
             store w3 !! report_id r = Some f2
             /\ f_meta f2 = Some r
             /\ (forall o, outline r = Some o -> f_outline f2 = Some o)
             /\ f_text f2 = f_text f).
  { destruct (outline r) as [o|] eqn:Ho.
    - apply (save_outline_existing _ _ _ _ _ f1 Hf1) in Hout.
      eexists. split; [exact Hout|]. cbn. split; [reflexivity|].
      split; [now intros o' [= <-]|reflexivity].
    - apply ret_inr in Hout as [_ <-]. exists f1. split; [exact Hf1|].
      cbn. split; [reflexivity|]. split; [discriminate|reflexivity]. }
  destruct Hf2 as (f2 & Hf2 & Hm2 & Ho2 & Ht2).
  unfold when in H. destruct (nonempty (markdown_content r)).
  - unfold write_text in H.
    apply (write_folder_existing _ _ _ _ _ f2 Hf2) in H.
    eexists. split; [now rewrite H, lookup_insert_eq|]. cbn.
    split; [exact Hm2|]. split; [exact Ho2|]. apply lookup_insert_eq.
  - apply ret_inr in H as [_ <-]. exists f2. split; [exact Hf2|].
    split; [exact Hm2|]. split; [exact Ho2|]. now rewrite Ht2.
Qed.

Lemma update_progress_existing env rid st p msg cur comp w w' f :
  store w !! rid = Some f ->
  update_progress env rid st p msg cur comp w = (inr tt, w') ->
  store w' !! rid
  = Some (mkFolder (f_meta f) (f_outline f)
                   (Some (mkProgress st p msg cur comp)) (f_text f)).
Proof.
  unfold update_progress. cbv zeta. intros Hf H.
  apply bind_inr in H as ([] & w1 & Hens & H).
  apply (ensure_existing _ _ _ _ f Hf) in Hens.
  apply bind_inr in H as ([] & w2 & Hw & H).
  apply (write_folder_existing _ _ _ _ _ f) in Hw; [|now rewrite Hens].
  injection H as <-. cbn [store log_progress]. now rewrite Hw, lookup_insert_eq.
Qed.

(** *** The end of a run *)

Lemma triple_any {A} (m : M GenState A) :
  triple (fun _ => True) m (fun _ _ => True).
Proof. intros g a g' _ _. exact I. Qed.

Lemma triple_assemble_writes env rid o :
  triple (fun _ => True) (in_world (assemble_full_report env rid o))
         (fun md g =>
            exists f,
              store (g_world g) !! rid = Some f
              /\ f_text f !! py "full_report.md" = Some md).
Proof.
  intros g md g' _ H. apply ContentFacts.in_world_inr in H as [H _].
  apply StoreFacts.assemble_spec in H as (f & Hf & _ & Hs).
  eexists. rewrite Hs, lookup_insert_eq. split; [reflexivity|].
  cbn. apply lookup_insert_eq.
Qed.

(** The last steps of [generate_report]: the report is saved, the
    progress record written, the caller told. *)
Lemma triple_persist env rid message completed :
  triple (fun g =>
            status (g_report g) = COMPLETED
            /\ exists f,
                 store (g_world g) !! rid = Some f
                 /\ f_text f !! py "full_report.md"
                    = Some (markdown_content (g_report g)))
         (let! g := get in
          run! in_world (save_report env (g_report g)) in
          run! in_world (update_progress env rid (py "completed") 100
                           message None (completed g)) in
          in_world (call_user_callback env (py "completed") 100 message))%eff
         (fun _ g =>
            status (g_report g) = COMPLETED
            /\ (report_id (g_report g) = rid ->
                saved_in rid (g_report g) (store (g_world g))
                /\ progress_completed rid (store (g_world g)))).
Proof.
  intros g [] g' [Hst (f & Hf & Hmd)] H.
  apply bind_inr in H as (g0 & g1 & Hget & H). injection Hget as <- <-.
  apply bind_inr in H as ([] & g2 & Hsave & H).
  apply ContentFacts.in_world_inr in Hsave as [Hsave Hr2].
  apply bind_inr in H as ([] & g3 & Hprog & H).
  apply ContentFacts.in_world_inr in Hprog as [Hprog Hr3].
  apply ContentFacts.in_world_inr in H as [H Hr4].
  assert (Hs4 : store (g_world g') = store (g_world g3)).
  { symmetry.
    exact (IsolationFacts.keeps_call_user_callback eq env _ _ _ _ _ _ H). }
  assert (Hrep : g_report g' = g_report g) by congruence.
  rewrite Hrep, Hs4. split; [exact Hst|]. intros Hid.
  rewrite <- Hid in Hf.
  destruct (save_report_existing env _ _ _ f Hf Hmd Hsave)
    as (f2 & Hf2 & Hm & Ho & Ht).
  rewrite Hid in Hf2.
  pose proof (update_progress_existing _ _ _ _ _ _ _ _ _ f2 Hf2 Hprog) as Hf3.
  split.
  - eexists. split; [exact Hf3|]. cbn. now repeat split.
  - do 2 eexists. split; [exact Hf3|]. cbn. now repeat split.
Qed.

Lemma triple_generate_report_persists env rid :
  triple (fun _ => True) (generate_report_try env rid)
         (fun _ g =>
            status (g_report g) = COMPLETED
            /\ (report_id (g_report g) = rid ->
                saved_in rid (g_report g) (store (g_world g))
                /\ progress_completed rid (store (g_world g)))).
Proof.
  unfold generate_report_try. cbv zeta.
  do 19 (eapply ContentFacts.triple_bind; [apply triple_any|intros ?]).
  eapply ContentFacts.triple_bind; [apply triple_assemble_writes|]. intros md.
  eapply ContentFacts.triple_bind.
  { instantiate (1 := fun _ g =>
      status (g_report g) = COMPLETED
      /\ exists f,
           store (g_world g) !! rid = Some f
           /\ f_text f !! py "full_report.md"
              = Some (markdown_content (g_report g))).
    intros g [] g' (f & Hf & Hmd) H. injection H as <-. cbn.
    split; [reflexivity|]. exists f. split; [exact Hf|exact Hmd]. }
  intros ?.
  apply (triple_persist env rid (py "报告生成完成") g_completed).
Qed.

(** X21. What a completed run returns is what it has saved.
    When [generate_report] ends with status [COMPLETED], the folder of the
    report holds the returned report as its meta record, the outline of
    the report as its outline record, the Markdown of the report as
    [full_report.md], and a progress record with status [completed] and
    100 percent. *)
Theorem completed_report_is_persisted env rid w :
  status (fst (generate_report env rid w)) = COMPLETED ->
  exists f p,
    store (snd (generate_report env rid w)) !! rid = Some f
    /\ f_meta f = Some (fst (generate_report env rid w))
    /\ (forall o,
          outline (fst (generate_report env rid w)) = Some o ->
          f_outline f = Some o)
    /\ f_text f !! py "full_report.md"
       = Some (markdown_content (fst (generate_report env rid w)))
    /\ f_progress f = Some p
    /\ p_status p = py "completed" /\ p_progress p = 100%Z.
Proof.
  unfold generate_report.
  set (g0 := mkGen w _ [] []).
  destruct (generate_report_try env rid g0) as [[e|[]] g] eqn:E.
  - unfold generate_report_except, with_error, with_status.
    cbn [fst status]. intros H. discriminate H.
  - intros _. cbn [fst snd].
    destruct (IsolationFacts.report_step_generate_report_try env rid g0 _ g
                eq_refl E) as [Hid _].
    destruct (triple_generate_report_persists env rid g0 tt g I E)
      as [_ Hsaved].
    destruct (Hsaved Hid)
      as [(f & Hf & Hm & Ho & Ht) (f' & p & Hf' & Hp & Hs & Hpr & _)].
    assert (f' = f) by congruence. subst f'.
    exists f, p. now repeat split.
Qed.

Lemma completed_report_is_persisted_witness :
  exists f p,
    store (snd (generate_report writer_env (py "r") initial_world)) !! py "r"
    = Some f
    /\ f_meta f = Some (fst (generate_report writer_env (py "r") initial_world))
    /\ (forall o,
          outline (fst (generate_report writer_env (py "r") initial_world))
          = Some o ->
          f_outline f = Some o)
    /\ f_text f !! py "full_report.md"
       = Some (markdown_content
                 (fst (generate_report writer_env (py "r") initial_world)))
    /\ f_progress f = Some p
    /\ p_status p = py "completed" /\ p_progress p = 100%Z.
Proof.
  apply (completed_report_is_persisted writer_env (py "r") initial_world).
  vm_compute. reflexivity.
Defined.

End PersistFacts.

Module ChatPathFacts.
Import Re Eff ReportAgent ChatSpec EffFacts ChatFacts.

(** X22. The two ways [chat] returns. When [chat] returns, the
    calls it returns are the calls it executed, in order, and it names no
    sources. Either an answer without tool calls ended the loop within its
    three rounds, and the text returned is that answer with the matches of
    the two clean-up patterns removed, trimmed; or all three rounds held
    calls, a fourth and last answer was asked for, and its text is returned
    as it is, not parsed and not cleaned. *)
Theorem chat_returns_cleaned_or_final env message chat_history w res w' :
  chat env message chat_history w = (inr res, w') ->
  exists entries,
    tool_log w' = tool_log w ++ entries
    /\ Forall2 executed_as (tool_calls res) entries
    /\ sources res = []
    /\ ((exists k msgs resp,
           k < 3 /\ llm_calls w' = llm_calls w + S k
           /\ llm_chat env (llm_calls w + k) msgs = inr resp
           /\ _parse_tool_calls (rt env) resp = []
           /\ response res = clean_response resp)
        \/ (llm_calls w' = llm_calls w + 4
            /\ (forall k, k < 3 ->
                 exists msgs resp,
                   llm_chat env (llm_calls w + k) msgs = inr resp
                   /\ _parse_tool_calls (rt env) resp <> [])
            /\ exists msgs,
                 llm_chat env (llm_calls w + 3) msgs = inr (response res))).
Proof.
  unfold chat. intros H.
  apply bind_inr in H as (r & w1 & Hloop & H).
  apply chat_loop_spec in Hloop as (calls & entries & Hlog & HF & Hr).
  destruct r as [result|[msgs' made']].
  - apply ret_inr in H as [-> ->].
    destruct Hr as (Htc & Hsrc & Hcase). cbn [app] in Htc.
    exists entries. rewrite Htc. repeat split; try assumption. now left.
  - destruct Hr as (Hm & Hc & Hall). cbn [app] in Hm. subst made'.
    apply bind_inr in H as (final_response & w2 & Hllm & H).
    apply chat_llm_inr in Hllm as (Hresp & Hc2 & Hl2).
    apply ret_inr in H as [-> ->]. cbn [tool_calls sources response].
    exists entries. split; [now rewrite Hl2|]. split; [exact HF|].
    split; [reflexivity|]. right. split; [lia|]. split; [exact Hall|].
    exists msgs'. now rewrite <- Hc.
Qed.

Lemma chat_returns_cleaned_or_final_witness :
  exists entries,
    tool_log (mkWorld ∅ 1 0 0 [] [] []) = tool_log initial_world ++ entries
    /\ Forall2 executed_as
         (tool_calls (mkChatResult (py "It rose.") [] [])) entries
    /\ sources (mkChatResult (py "It rose.") [] []) = []
    /\ ((exists k msgs resp,
           k < 3
           /\ llm_calls (mkWorld ∅ 1 0 0 [] [] [])
              = llm_calls initial_world + S k
           /\ llm_chat plain_answer_env (llm_calls initial_world + k) msgs
              = inr resp
           /\ _parse_tool_calls (rt plain_answer_env) resp = []
           /\ response (mkChatResult (py "It rose.") [] [])
              = clean_response resp)
        \/ (llm_calls (mkWorld ∅ 1 0 0 [] [] []) = llm_calls initial_world + 4
            /\ (forall k, k < 3 ->
                 exists msgs resp,
                   llm_chat plain_answer_env (llm_calls initial_world + k) msgs
                   = inr resp
                   /\ _parse_tool_calls (rt plain_answer_env) resp <> [])
            /\ exists msgs,
                 llm_chat plain_answer_env (llm_calls initial_world + 3) msgs
                 = inr (response (mkChatResult (py "It rose.") [] [])))).
Proof.
  apply (chat_returns_cleaned_or_final plain_answer_env (py "How did it go?")
           [] initial_world (mkChatResult (py "It rose.") [] [])
           (mkWorld ∅ 1 0 0 [] [] [])).
  vm_compute. reflexivity.
Defined.

End ChatPathFacts.
